(* ===== verification/_CoqProject ===== *)
-Q . S2P
Prelude.v
Entry.v
Headers.v
Outcome.v
CMem.v
CString.v
Decimal.v
Parser.v
Machine.v
Syscall.v
Console.v
Script.v
Hello.v
Uring.v
Access.v
Interleave.v
Order.v
Atomic.v
Delivery.v
Command.v
CommandSpec.v
Init.v
InitSpec.v
Listing.v
Process.v
Memrun.v
Shell.v
System.v
Frame.v
Turn.v
Session.v
Boot.v
Run.v
PowerOn.v
Instance.v
Examples.v
Dialogue.v
Options.v
