(* ===== verification/Prelude.v ===== *)
(** * minlinux: the init program, its library and its io_uring event loop

    minlinux is a minimal Linux user space: one program, init, that the kernel
    starts first and that must never stop.  It is freestanding C without a C
    library.  This development models all of that program (the directories
    init/, util/ and include/minlinux/ of src/) and proves what makes it
    correct.  The definitions keep the names of the C functions and macros.
    Two small things beside init are modelled too: the test program
    hello-world/hello-world.c and the options of the ssh server,
    kernel/dropbear_options.h.

    ** The parts and how they interact

    - the entry stub in assembly (init/init.c), which calls start;
    - system calls (include/minlinux/syscall.h): one macro per number of
      arguments, one inline function per call;
    - memory, string and integer-printing functions (util/util.c), and the
      macros for messages and error checks (include/minlinux/util.h);
    - the io_uring rings (util/uring_ctl.c): the program and the kernel share a
      submission and a completion ring;
    - the command line and the commands (init/command.c);
    - start-up and the event loop (init/init.c): mount, open the console, set up
      the rings; then for ever wait for a completion, handle it, submit what is
      next.  Outstanding are one read of a signalfd and one console exchange, a
      prompt linked to the read of a line; a line is run as a command.

    ** The files

    - Prelude: C integers ([uwrap], [swrap]), bytes, lists indexed by integers.
    - Entry: the stub _start, as a list of instructions and what a processor
      does with them.  Headers: the types of syscall.h, util.h and uring_ctl.h
      with their widths, the x86-64 layout of the structures, the constants.
    - Outcome: the monad [stM] of C code.  A run gives a value, or [Stop]: the
      program ended ([Halted]), undefined behaviour ([Fault], with its kind), or
      a loop out of its bound ([NoFuel]).  [wp], and the total-correctness rule
      [wp_iter] of loops.
    - CMem: C objects.  A pointer is a block and an offset; accesses out of
      bounds, to dead objects, through NULL or into string literals are faults.
      Strings ([cstr]), and the shared memory of the rings ([shm]) by address.
    - CString: memmove, memcpy, memset, memcmp, strcpy, nolibc_strlen, strchr.
    - Decimal: int_to_str and ltoa, with the reference notation [dec_Z].
    - Parser: find_arg, terminate_arg, streq and the loop of fill_args, with the
      reference [tokens], the line split at blanks.
    - Machine: registers, the kernel as an interface ([Kernel]), the machine
      (memory, shared memory, kernel state, trace of calls), and [KernelOk]:
      what calls may write, and that write(2) returns.
    - Syscall: every macro and wrapper of syscall.h; [Abi] has the constants of
      the kernel headers.
    - Console: strlen, WRITESTR, write_int, SYSCHECK, WRITE_ERR, ERREXIT, and
      the logic [prints] of what is written to the console.
    - Uring: uring_init, uring_new_submission, uring_wait ([uring_flush] is its
      first half), uring_result, uring_advance, uring_close.  [ring] is the
      abstract state: queued and pending submissions, completions; [ring_rep]
      relates it to the words in the shared memory.
    - Access: the same operations access by access, each with its memory order
      (a tree of loads and stores, [access]).  Interleave: these with the writes
      of the kernel in between ([kernel_acts], [always]).  Order: these against
      writes of the other side that become visible late ([weak], [released]).
      Atomic: why an operation with the kernel in between is one without.
      Delivery: the completions read over many turns ([turns]), against the log
      of those the kernel posted ([kernel_logs], [tracked]).
    - Script: call by call, what code asks of the kernel, each argument in terms
      of earlier results ([script], [follows]), and what a kernel must grant for
      the code to get to the end ([grants], [leads], [halts]).
    - Hello: hello-world.  Options: dropbear_options.h.
    - Command, CommandSpec: fill_args, the commands, busybox, process_command;
      what they print and run.
    - Init, InitSpec: all of init.c; [start n] is the program with [n] turns of
      its loop.
    - Listing: what ls prints ([records], the entries in the buffer of
      getdents64).
    - Process, Memrun: the whole of busybox and of memrun, parent and child.  A
      child is followed up to its execveat by its script ([child_script],
      [memrun_script]), with what is in memory at each call.
    - Shell: the specification of the command interpreter, [shell_output], a
      function of a line and a [world] without memory or system calls, and the
      states in which a kernel answers as that world ([answers]).
    - System: the program with the kernel's side of io_uring ([UringKernel],
      [kernel_step]), and the invariant of the event loop.
    - Frame: what code leaves alone ([framed], [stays]): the objects a turn, a
      command or the start-up may change.
    - Turn: what a turn of the loop does when io_uring_enter comes back
      ([comes_back], [served]).  Session: turn after turn, the loop and the shell
      together; [happening] is what a turn sees, [replies] what a session
      prints, [between] the state between two turns.
    - Boot: uring_init and the safety of [start], for a kernel that sets rings up
      as documented ([SetupKernel]).  Run: the answers of [start].
      PowerOn: the start-up comes to its end ([boot_script]).
    - Instance: x86-64 constants and a small kernel that satisfies every
      interface.  Examples, Dialogue: the theorems applied on it, and a whole
      session of the program run by computation.

    ** What the theorems show

    - The event loop: from empty rings, through any number of turns, any input
      and any order of completions that respects links, no access leaves the
      mapped rings.  uring_new_submission can return NULL and no caller checks
      it; this never happens here, because exactly one signal read and one
      console exchange are outstanding.  The invariant is kept by each turn and
      by each step of the kernel (System).
    - The whole program: uring_init returns the handle of the rings the kernel
      made, every address where that part of them is; with it the safety of the
      loop is that of [start], from any machine (Boot).
    - The rings refine bounded queues: a new submission takes a free entry or
      reports a full ring; publishing makes the kernel see the entries in order;
      completions are taken in order.  32-bit counters wrap around freely.
    - The rings hold up while the kernel runs: whatever it writes and between
      whichever accesses, each ring operation acts at one moment (Interleave), as
      if the kernel had written before and after it only (Atomic); over many
      turns every completion is read once, in order (Delivery).
      The release order of the tail in uring_wait publishes the entries; the
      load of the completion tail has no order, which is sound after
      io_uring_enter has waited for a completion and not without (Order).
    - The loop goes on: when io_uring_enter comes back with a completion, the
      turn ends; the oldest completion and no other was taken, and what is to
      happen next was handed out (Turn).
    - The program as a whole is a shell: once the start-up has returned, turn
      after turn, each line read from the console is answered with the text
      [shell_output] gives, kernel errors included, and exit switches the machine
      off (Run, over Session, Shell, Turn and Frame).
    - What is not the code's own is left alone: the loop changes the line, the
      buffers of ltoa and of the signal, and its locals, but no argument, no
      variable of the environment, and not the descriptor of the signals (Frame).
    - The stub calls start with argc, argv and envp of the initial stack, and with
      a stack pointer that is off by 8 from the calling convention (Entry).
    - The command line: arguments are found and cut as [tokens] says; the table
      of commands is searched by name; argument vectors end in NULL when they
      fit, and overflow by one when they do not.
    - The commands print what they should; cat prints a whole file, ls a whole
      directory.  What they rely on is said of the descriptor their own open gave,
      from the state in which it was given ([FileKernel] and its [reading],
      [DirKernel] and its [listing], [ChildKernel] and its [ending]); other
      descriptors and other flags promise nothing.
    - busybox and memrun: the parent reports the status; a child whose calls are
      granted makes those of its script and no others, each descriptor the result
      of the call that opened it, and executes /busybox, or the copy of a file in
      memory, with its argument vector in place (Process, Memrun).
    - The library functions meet their C specifications, except where the
      theorems say otherwise: the sign of memcmp, strchr of the terminator, the
      least long, the dangling pointer of int_to_str (so a failed SYSCHECK
      reads a dead object), write_int from 2^63 on.
    - The start-up makes the calls of its script in order, each checked (InitSpec);
      when they are granted it returns, having made no other call, with
      consistent rings (PowerOn).
    - hello-world writes its line and ends (Hello).

    ** Bounds and fuel

    A loop over a C string gets the bytes left in its object, a counting loop
    its count, the digit loops 22 turns: the theorems show that these are
    enough.  The loops the kernel drives (cat, dirlist) take the bound [fuel];
    the theorems on cat and ls give bounds that are enough.  The event loop takes its
    number of turns, and its safety holds for every number.

    ** What is simplified or left out

    - In the model of the whole program the kernel acts on the shared memory at
      system calls only: a completion that arrives between two calls is seen as
      posted by the earlier one.  Kernel writes in between, and memory orders,
      are the subject of Interleave, Atomic and Order, for each ring operation
      by itself.  In Order loads of the same word need not agree with each other,
      and the program's own stores are seen by itself at once; a plain access
      that races is a load of some past value, where C leaves it undefined.
    - A structure of the system interface is its named integer fields, not its
      bytes; linux_dirent64 is read from bytes.
    - clone3 returns once: a child is the run in which it returned 0.
    - [__LINE__] of a call spread over several lines is its first line.
    - pathfd and uring_close are modelled and not called by the program.  [MARK]
      is modelled and used nowhere; ARRAY_LENGTH and sa_family_t are left out.
    - What a shell is answered with ([answers]) is fixed by the state of the
      kernel in which a command is called: the clock, the memory and the files
      may be others for the next command.  A file or a directory that is open is
      read as it was when it was opened.  The console takes output ([an_write]);
      the theorem on cat alone has writes that fail.
    - The build scripts and the kernel configuration are not modelled: they are
      not part of the running system.  What the options of the ssh server do is
      third-party code. *)

From Stdlib Require Export ZArith Lia.
From Stdlib Require Export Strings.Byte.
From stdpp Require Export base list gmap strings numbers.

#[global] Open Scope Z_scope.
#[global] Set Default Goal Selector "!".

(** ** Machine integers

    A C integer is a [Z]; an operation of an unsigned type of [w] bits wraps
    with [uwrap w], a conversion to a signed type of [w] bits with [swrap w]
    (two's complement, as gcc defines the conversion). *)

Definition uwrap (w z : Z) : Z := z mod 2 ^ w.
Definition swrap (w z : Z) : Z := (z + 2 ^ (w - 1)) mod 2 ^ w - 2 ^ (w - 1).

Section wrap.
Context (w : Z) (Hw : 0 < w).

Lemma uwrap_range z : 0 <= uwrap w z < 2 ^ w.
Proof. apply Z.mod_pos_bound. lia. Qed.

Lemma uwrap_small z : 0 <= z < 2 ^ w -> uwrap w z = z.
Proof. apply Z.mod_small. Qed.

Lemma uwrap_idem z : uwrap w (uwrap w z) = uwrap w z.
Proof. apply uwrap_small, uwrap_range. Qed.

Lemma uwrap_add_l a b : uwrap w (uwrap w a + b) = uwrap w (a + b).
Proof. apply Zplus_mod_idemp_l. Qed.

Lemma uwrap_add_r a b : uwrap w (a + uwrap w b) = uwrap w (a + b).
Proof. apply Zplus_mod_idemp_r. Qed.

Lemma uwrap_sub_l a b : uwrap w (uwrap w a - b) = uwrap w (a - b).
Proof. apply Zminus_mod_idemp_l. Qed.

Lemma uwrap_sub_r a b : uwrap w (a - uwrap w b) = uwrap w (a - b).
Proof. apply Zminus_mod_idemp_r. Qed.

Lemma pow2_half : 2 ^ w = 2 * 2 ^ (w - 1).
Proof. rewrite <- Z.pow_succ_r by lia. f_equal. lia. Qed.

Lemma swrap_range z : - 2 ^ (w - 1) <= swrap w z < 2 ^ (w - 1).
Proof.
  unfold swrap. pose proof (Z.mod_pos_bound (z + 2 ^ (w - 1)) (2 ^ w) ltac:(lia)).
  pose proof pow2_half. lia.
Qed.

Lemma swrap_small z : - 2 ^ (w - 1) <= z < 2 ^ (w - 1) -> swrap w z = z.
Proof.
  intros. unfold swrap. pose proof pow2_half. rewrite Z.mod_small; lia.
Qed.

Lemma swrap_uwrap z : swrap w (uwrap w z) = swrap w z.
Proof. unfold swrap, uwrap. by rewrite Zplus_mod_idemp_l. Qed.

Lemma swrap_diff z : exists q, swrap w z = z + q * 2 ^ w.
Proof.
  unfold swrap. exists (- ((z + 2 ^ (w - 1)) / 2 ^ w)).
  pose proof (Z.div_mod (z + 2 ^ (w - 1)) (2 ^ w) ltac:(lia)). lia.
Qed.

Lemma swrap_add_mult z q : swrap w (z + q * 2 ^ w) = swrap w z.
Proof.
  unfold swrap. replace (z + q * 2 ^ w + 2 ^ (w - 1)) with (z + 2 ^ (w - 1) + q * 2 ^ w) by lia.
  by rewrite Z_mod_plus_full.
Qed.

Lemma uwrap_swrap z : uwrap w (swrap w z) = uwrap w z.
Proof.
  destruct (swrap_diff z) as [q ->]. unfold uwrap. by rewrite Z_mod_plus_full.
Qed.

(** A signed value survives the passage through the unsigned type. *)
Lemma swrap_uwrap_small z :
  - 2 ^ (w - 1) <= z < 2 ^ (w - 1) -> swrap w (uwrap w z) = z.
Proof. intros. by rewrite swrap_uwrap, swrap_small. Qed.
End wrap.

(** Masking with [2^k - 1] is reduction modulo [2^k]. *)
Lemma land_mask (x k : Z) : 0 <= k -> Z.land x (2 ^ k - 1) = x mod 2 ^ k.
Proof.
  intros. rewrite <- Z.land_ones by done. by rewrite Z.ones_equiv, Z.sub_1_r.
Qed.

(** Masking a wrapped index is masking the index when the mask fits. *)
Lemma uwrap_mod_pow (w k x : Z) :
  0 <= k <= w -> uwrap w x mod 2 ^ k = x mod 2 ^ k.
Proof.
  intros. unfold uwrap. replace (2 ^ w) with (2 ^ k * 2 ^ (w - k))
    by (rewrite <- Z.pow_add_r by lia; f_equal; lia).
  rewrite Z.rem_mul_r by lia.
  rewrite Z.mul_comm, Z_mod_plus_full. by rewrite Z.mod_mod by lia.
Qed.

(** ** Bytes *)

#[export] Instance byte_eq_dec : EqDecision byte := Byte.byte_eq_dec.

(** The value of a byte read as [unsigned char], and as the (signed) [char]
    of x86-64. *)
Definition uchar (b : byte) : Z := Z.of_N (Byte.to_N b).
Definition schar (b : byte) : Z := swrap 8 (uchar b).

(** The byte an integer is truncated to when stored in a [char]. *)
Definition byte_of_Z (z : Z) : byte :=
  match Byte.of_N (Z.to_N (z mod 256)) with Some b => b | None => x00 end.

Lemma uchar_range b : 0 <= uchar b < 256.
Proof. unfold uchar. pose proof (Byte.to_N_bounded b). lia. Qed.

Lemma uchar_inj a b : uchar a = uchar b -> a = b.
Proof.
  unfold uchar. intros H%N2Z.inj.
  pose proof (Byte.of_to_N a) as Ha. pose proof (Byte.of_to_N b) as Hb. congruence.
Qed.

Lemma byte_of_Z_uchar b : byte_of_Z (uchar b) = b.
Proof.
  unfold byte_of_Z. rewrite Z.mod_small by apply uchar_range.
  unfold uchar. by rewrite N2Z.id, Byte.of_to_N.
Qed.

Lemma uchar_byte_of_Z z : uchar (byte_of_Z z) = z mod 256.
Proof.
  unfold byte_of_Z. pose proof (Z.mod_pos_bound z 256 ltac:(lia)).
  destruct (Byte.of_N _) eqn:E.
  - unfold uchar. apply Byte.to_of_N in E. rewrite E. lia.
  - apply Byte.of_N_None_iff in E. lia.
Qed.

Lemma schar_inj a b : schar a = schar b -> a = b.
Proof.
  intros H. apply uchar_inj.
  pose proof (uchar_range a). pose proof (uchar_range b).
  apply (f_equal (uwrap 8)) in H. unfold schar in H.
  rewrite !uwrap_swrap, !uwrap_small in H by lia. done.
Qed.

(** The bytes of a string constant, without its terminator. *)
Definition lit (s : string) : list byte := String.list_byte_of_string s.

Lemma lit_app s t : lit (s +:+ t) = lit s ++ lit t.
Proof.
  induction s as [|c s IH]; [done|]. change (String c s +:+ t) with (String c (s +:+ t)).
  unfold lit, String.list_byte_of_string in *. cbn. by f_equal.
Qed.

(** ** Lists indexed by C integers *)

Definition zlookup {A} (l : list A) (i : Z) : option A :=
  if i <? 0 then None else l !! Z.to_nat i.

Definition zinsert {A} (l : list A) (i : Z) (x : A) : option (list A) :=
  if (0 <=? i) && (i <? Z.of_nat (length l)) then Some (<[Z.to_nat i := x]> l) else None.

Lemma zlookup_nat {A} (l : list A) (n : nat) : zlookup l (Z.of_nat n) = l !! n.
Proof.
  unfold zlookup. destruct (Z.ltb_spec (Z.of_nat n) 0); [lia|]. by rewrite Nat2Z.id.
Qed.

Lemma zinsert_nat {A} (l : list A) (n : nat) (x : A) :
  (n < length l)%nat -> zinsert l (Z.of_nat n) x = Some (<[n := x]> l).
Proof.
  intros. unfold zinsert.
  rewrite (proj2 (andb_true_iff _ _)), Nat2Z.id; [done|lia].
Qed.

Lemma zinsert_length {A} (l l' : list A) (i : Z) (x : A) : zinsert l i x = Some l' -> length l' = length l.
Proof. unfold zinsert. case_match; intros [= <-]. apply length_insert. Qed.

Lemma zinsert_out {A} (l : list A) (i : Z) (x : A) :
  ~ (0 <= i < Z.of_nat (length l)) -> zinsert l i x = None.
Proof.
  intros. unfold zinsert.
  rewrite (proj2 (andb_false_iff _ _)); [done|lia].
Qed.

Lemma drop_lookup_cons {A} (l : list A) (n : nat) x l' :
  drop n l = x :: l' -> l !! n = Some x /\ drop (S n) l = l'.
Proof.
  intros H. split.
  - pose proof (lookup_drop l n 0) as E. rewrite H in E. cbn in E.
    by rewrite Nat.add_0_r in E.
  - rewrite <- Nat.add_1_r, <- drop_drop, H. done.
Qed.

Lemma delete_app_lt {A} (l k : list A) (i : nat) :
  (i < length l)%nat -> delete i (l ++ k) = delete i l ++ k.
Proof.
  revert i. induction l as [|x l IH]; intros [|i] Hi; cbn in *; [lia|lia|done|].
  f_equal. apply IH. lia.
Qed.

Lemma Forall2_delete {X Y} (Q : X -> Y -> Prop) l l' i :
  Forall2 Q l l' -> Forall2 Q (delete i l) (delete i l').
Proof. intros H. revert i. induction H; intros [|i]; cbn; auto. Qed.

#[export] Hint Resolve uchar_range : core.
