(* ===== verification/Entry.v ===== *)
(** * init/init.c: the entry stub

    [_start] is the code the kernel jumps to: six instructions that find
    argc, argv and envp on the initial stack and call [start].  The registers
    and 64-bit words of memory it uses are modelled, and each instruction as
    the processor executes it. *)

From S2P Require Import Prelude.

Inductive reg : Type := RSP | RDI | RSI | RDX.

Definition reg_eqb (r s : reg) : bool :=
  match r, s with
  | RSP, RSP | RDI, RDI | RSI, RSI | RDX, RDX => true
  | _, _ => false
  end.

(** The instructions of the stub; AT&T order: the destination is last. *)
Inductive instr : Type :=
| Ipop (d : reg)
| Imov (s d : reg)
| Ilea (disp : Z) (base index : reg) (scale : Z) (d : reg)
| Iand (imm : Z) (d : reg)
| Isub (imm : Z) (d : reg)
| Icall (f : string).

(** Registers, words of memory by address, and the function that was entered. *)
Record cpu : Type := Cpu { gpr : reg -> Z; words : gmap Z Z; entered : option string }.

Definition set_reg (c : cpu) (d : reg) (v : Z) : cpu :=
  {| gpr := fun r => if reg_eqb r d then uwrap 64 v else gpr c r;
     words := words c; entered := entered c |}.

Definition push (c : cpu) (v : Z) : cpu :=
  let sp := uwrap 64 (gpr c RSP - 8) in
  {| gpr := gpr (set_reg c RSP sp); words := <[sp := v]> (words c); entered := entered c |}.

Section entry.
(** The address of the instruction that follows the call. *)
Context (return_address : Z).

Definition exec (i : instr) (c : cpu) : option cpu :=
  match i with
  | Ipop d =>
      v ← words c !! gpr c RSP;
      Some (set_reg (set_reg c RSP (gpr c RSP + 8)) d v)
  | Imov s d => Some (set_reg c d (gpr c s))
  | Ilea disp base index scale d => Some (set_reg c d (gpr c base + gpr c index * scale + disp))
  | Iand imm d => Some (set_reg c d (Z.land (gpr c d) (uwrap 64 imm)))
  | Isub imm d => Some (set_reg c d (gpr c d - imm))
  | Icall f =>
      let c := push c return_address in
      Some {| gpr := gpr c; words := words c; entered := Some f |}
  end.

Fixpoint run (code : list instr) (c : cpu) : option cpu :=
  match code with
  | [] => Some c
  | i :: code => c ← exec i c; run code c
  end.

Definition _start : list instr :=
  [ Ipop RDI;
    Imov RSP RSI;
    Ilea 8 RSI RDI 8 RDX;
    Iand (-16) RSP;
    Isub 8 RSP;
    Icall "start" ].

(** The words [l] from the address [a] on. *)
Definition words_at (m : gmap Z Z) (a : Z) (l : list Z) : Prop :=
  forall j w, l !! j = Some w -> m !! (a + 8 * Z.of_nat j) = Some w.

(** The stack of a new process: argc, the arguments, 0, the environment, 0. *)
Definition initial_stack (m : gmap Z Z) (sp : Z) (argv envp : list Z) : Prop :=
  words_at m sp (Z.of_nat (length argv) :: argv ++ [0] ++ envp ++ [0]).

Lemma words_at_app m a l1 l2 : words_at m a (l1 ++ l2) ->
  words_at m a l1 /\ words_at m (a + 8 * Z.of_nat (length l1)) l2.
Proof.
  intros H. split; intros j w Hj.
  - apply H. by apply lookup_app_l_Some.
  - replace (a + _ + _) with (a + 8 * Z.of_nat (length l1 + j)) by lia.
    apply H. rewrite lookup_app_r by lia. by replace (length l1 + j - length l1)%nat with j by lia.
Qed.

(** Words written below an address leave those from it on alone. *)
Lemma words_at_below m a l b v : b < a -> words_at m a l -> words_at (<[b := v]> m) a l.
Proof. intros Hb H j w Hj. rewrite lookup_insert_ne by lia. by apply H. Qed.

(** Masking with -16 rounds down to a multiple of 16. *)
Lemma land_align (x : Z) : 0 <= x < 2 ^ 64 -> Z.land x (uwrap 64 (-16)) = x - x mod 16.
Proof.
  intros Hx. change (uwrap 64 (-16)) with (Z.shiftl (Z.ones 60) 4).
  replace (x - x mod 16) with (Z.shiftl (Z.shiftr x 4) 4).
  - apply Z.bits_inj'. intros i Hi. rewrite Z.land_spec.
    destruct (Z.lt_ge_cases i 4) as [?|?].
    + by rewrite !Z.shiftl_spec_low, andb_false_r by lia.
    + rewrite !Z.shiftl_spec, Z.shiftr_spec by lia. replace (i - 4 + 4) with i by lia.
      destruct (Z.lt_ge_cases i 64) as [?|?].
      * by rewrite Z.ones_spec_low, andb_true_r by lia.
      * replace (Z.testbit x i) with false; [done|]. symmetry.
        destruct (decide (x = 0)) as [->|]; [apply Z.bits_0|]. apply Z.bits_above_log2; [lia|].
        apply Z.log2_lt_pow2; [lia|]. apply Z.lt_le_trans with (2 ^ 64); [lia|]. by apply Z.pow_le_mono_r.
  - rewrite Z.shiftr_div_pow2, Z.shiftl_mul_pow2 by lia. change (2 ^ 4) with 16.
    pose proof (Z.div_mod x 16). lia.
Qed.

(** C26: from the stack of a new process the stub enters [start] with its
    arguments: argc is the number of arguments, argv and envp are the addresses
    of the two arrays, which still hold the arguments and the environment, each
    ended by a NULL; the return address is pushed below them.  The stack
    pointer is then a multiple of 16: the calling convention wants it 8 above
    one at this place, so that the frame of [start] is misaligned. *)
Theorem _start_enters_start c argv envp :
  let sp := gpr c RSP in
  initial_stack (words c) sp argv envp ->
  32 <= sp -> sp + 8 * Z.of_nat (length argv + length envp + 3) < 2 ^ 64 ->
  exists c', run _start c = Some c' /\ entered c' = Some "start" /\
    gpr c' RDI = Z.of_nat (length argv) /\
    gpr c' RSI = sp + 8 /\ words_at (words c') (gpr c' RSI) (argv ++ [0]) /\
    gpr c' RDX = sp + 8 * Z.of_nat (length argv + 2) /\ words_at (words c') (gpr c' RDX) (envp ++ [0]) /\
    words c' !! gpr c' RSP = Some return_address /\ gpr c' RSP < sp /\
    gpr c' RSP mod 16 = 0.
Proof.
  intros sp Hst Hlo Hhi. unfold initial_stack in Hst. pose proof (Hst 0%nat _ eq_refl) as Hargc.
  change (8 * Z.of_nat 0) with 0 in Hargc. rewrite Z.add_0_r in Hargc.
  change (_ :: ?l) with ([Z.of_nat (length argv)] ++ l) in Hst.
  apply words_at_app in Hst as [_ Hst]. change (8 * Z.of_nat (length [_])) with 8 in Hst.
  rewrite app_assoc in Hst. pose proof Hst as [Hargv _]%words_at_app.
  apply words_at_app in Hst as [_ Henvp]. rewrite length_app in Henvp.
  change (length [0]) with 1%nat in Henvp.
  pose proof (Z.mod_pos_bound (sp + 8) 16 ltac:(lia)) as Hm.
  assert (Z.land (sp + 8) (uwrap 64 (-16)) = sp + 8 - (sp + 8) mod 16) as Ha by (apply land_align; lia).
  unfold _start. cbn [run exec mbind option_bind]. fold sp. rewrite Hargc. cbn [mbind option_bind].
  eexists. split; [reflexivity|]. cbn -[Z.mul Z.add Z.of_nat uwrap Z.land]. fold sp.
  rewrite !(uwrap_small 64 (sp + 8)), (uwrap_small 64 (Z.of_nat _)) by lia.
  rewrite Ha, !(uwrap_small 64 (sp + 8 - _)), !(uwrap_small 64 (sp + 8 - _ - 8)),
    !(uwrap_small 64 (sp + 8 - _ - 8 - 8)) by lia.
  rewrite (uwrap_small 64 (sp + 8 + _ + 8)) by lia. split_and!; try done.
  - apply words_at_below; [lia|exact Hargv].
  - lia.
  - apply words_at_below; [lia|]. replace (sp + 8 + Z.of_nat (length argv) * 8 + 8)
      with (sp + 8 + 8 * Z.of_nat (length argv + 1)) by lia. exact Henvp.
  - apply lookup_insert_eq.
  - lia.
  - replace (sp + 8 - (sp + 8) mod 16 - 8 - 8) with ((sp + 8) / 16 * 16 + (-1) * 16)
      by (pose proof (Z.div_mod (sp + 8) 16); lia).
    by rewrite Z_mod_plus_full, Z.mod_mul.
Qed.

(** A process started as "init single" with one variable. *)
Definition a_process : cpu :=
  {| gpr := fun r => if reg_eqb r RSP then 4096 else 0;
     words := list_to_map (zip ((fun j => 4096 + 8 * Z.of_nat j) <$> seq 0 6) [2; 8000; 8005; 0; 8012; 0]);
     entered := None |}.

Lemma a_process_stack : initial_stack (words a_process) 4096 [8000; 8005] [8012].
Proof.
  intros j w Hj. assert (forallb (fun j => bool_decide (words a_process !! (4096 + 8 * Z.of_nat j) =
    ([2; 8000; 8005; 0; 8012; 0] !! j))) (seq 0 6) = true) as H by (vm_compute; reflexivity).
  pose proof (lookup_lt_Some _ _ _ Hj) as Hlt. cbn in Hlt.
  rewrite forallb_forall in H. specialize (H j). rewrite in_seq in H.
  specialize (H ltac:(lia)). apply bool_decide_eq_true in H. rewrite H. exact Hj.
Qed.
End entry.

Lemma _start_enters_start_witness :
  exists c', run 4198450 _start a_process = Some c' /\ entered c' = Some "start" /\
    gpr c' RDI = 2 /\ gpr c' RSI = 4104 /\ words_at (words c') (gpr c' RSI) [8000; 8005; 0] /\
    gpr c' RDX = 4128 /\ words_at (words c') (gpr c' RDX) [8012; 0] /\
    words c' !! gpr c' RSP = Some 4198450 /\ gpr c' RSP < 4096 /\ gpr c' RSP mod 16 = 0.
Proof.
  exact (_start_enters_start 4198450 a_process [8000; 8005] [8012] a_process_stack ltac:(vm_compute; discriminate)
    ltac:(vm_compute; reflexivity)).
Defined.
