(* ===== verification/Headers.v ===== *)
(** * include/minlinux/syscall.h: types, structures and constants

    The types the headers define, as the sizes and alignments x86-64 gives
    them; the offsets C gives to the fields of a structure, with the proof that
    they are sound; the enumerations and the address families. *)

From S2P Require Import Prelude.

(** ** C types *)

#[local] Unset Elimination Schemes.
Inductive ctype : Type :=
| TInt (size : Z) (signed : bool)
| TPtr
| TArr (t : ctype) (n : Z)
| TFlex (t : ctype)                          (* a flexible array member *)
| TStruct (fields : list (string * ctype)).
#[local] Set Elimination Schemes.

Definition align_up (pos a : Z) : Z := (pos + a - 1) / a * a.

Fixpoint alignof (t : ctype) : Z :=
  match t with
  | TInt n _ => n
  | TPtr => 8
  | TArr t _ | TFlex t => alignof t
  | TStruct fs => foldr (fun f a => Z.max (alignof f.2) a) 1 fs
  end.

(** A field is put at the first place aligned for it. *)
Fixpoint sizeof (t : ctype) : Z :=
  match t with
  | TInt n _ => n
  | TPtr => 8
  | TArr t n => n * sizeof t
  | TFlex _ => 0
  | TStruct fs =>
      align_up (fold_left (fun pos f => align_up pos (alignof f.2) + sizeof f.2) fs 0) (alignof (TStruct fs))
  end.

Fixpoint offsets (pos : Z) (fs : list (string * ctype)) : list (string * Z) :=
  match fs with
  | [] => []
  | f :: fs =>
      let o := align_up pos (alignof f.2) in
      (f.1, o) :: offsets (o + sizeof f.2) fs
  end.

(** [__builtin_offsetof] *)
Definition offsetof (t : ctype) (name : string) : option Z :=
  match t with
  | TStruct fs => snd <$> List.find (fun o => String.eqb o.1 name) (offsets 0 fs)
  | _ => None
  end.

(** The conversion of an integer to an integer type, and its range. *)
Definition convert (t : ctype) (z : Z) : Z :=
  match t with
  | TInt n true => swrap (8 * n) z
  | TInt n false => uwrap (8 * n) z
  | _ => z
  end.

Definition in_type (t : ctype) (z : Z) : Prop :=
  match t with
  | TInt n true => - 2 ^ (8 * n - 1) <= z < 2 ^ (8 * n - 1)
  | TInt n false => 0 <= z < 2 ^ (8 * n)
  | _ => True
  end.

(** *** Well-formed types have a sound layout *)

Fixpoint wf_type (t : ctype) : bool :=
  match t with
  | TInt n _ => 0 <? n
  | TPtr => true
  | TArr t n => wf_type t && (0 <=? n)
  | TFlex t => wf_type t
  | TStruct fs => forallb (fun f => wf_type f.2) fs
  end.

Lemma align_up_spec pos a : 0 < a -> pos <= align_up pos a < pos + a /\ align_up pos a mod a = 0.
Proof.
  intros Ha. unfold align_up. split; [|apply Z.mod_mul; lia].
  pose proof (Z.div_mod (pos + a - 1) a ltac:(lia)).
  pose proof (Z.mod_pos_bound (pos + a - 1) a Ha). lia.
Qed.

Fixpoint ctype_induction (P : ctype -> Prop)
    (HI : forall n s, P (TInt n s)) (HP : P TPtr) (HA : forall t n, P t -> P (TArr t n))
    (HF : forall t, P t -> P (TFlex t))
    (HS : forall fs, Forall (fun f => P f.2) fs -> P (TStruct fs)) (t : ctype) {struct t} : P t :=
  match t with
  | TInt n s => HI n s
  | TPtr => HP
  | TArr t n => HA t n (ctype_induction P HI HP HA HF HS t)
  | TFlex t => HF t (ctype_induction P HI HP HA HF HS t)
  | TStruct fs => HS fs ((fix go fs : Forall (fun f => P f.2) fs :=
      match fs with
      | [] => List.Forall_nil _
      | f :: fs => List.Forall_cons _ f fs (ctype_induction P HI HP HA HF HS f.2) (go fs)
      end) fs)
  end.

Lemma struct_align_pos (fs : list (string * ctype)) : 1 <= alignof (TStruct fs).
Proof. cbn. induction fs as [|f fs IH]; cbn; lia. Qed.

Lemma alignof_pos t : wf_type t = true -> 0 < alignof t.
Proof.
  induction t as [n s| |t n IH|t IH|fs _] using ctype_induction; cbn [wf_type].
  - intros. cbn. lia.
  - done.
  - intros [H _]%andb_true_iff. by apply IH.
  - apply IH.
  - intros _. pose proof (struct_align_pos fs). lia.
Qed.

(** Where the fields end. *)
Definition fields_end (pos : Z) (fs : list (string * ctype)) : Z :=
  fold_left (fun pos f => align_up pos (alignof f.2) + sizeof f.2) fs pos.

Lemma fields_end_le fs pos : Forall (fun f => 0 < alignof f.2 /\ 0 <= sizeof f.2) fs ->
  pos <= fields_end pos fs.
Proof.
  intros H. revert pos. induction H as [|f fs [Ha Hs] _ IH]; intros pos; unfold fields_end; cbn [fold_left]; [lia|].
  specialize (IH (align_up pos (alignof f.2) + sizeof f.2)). unfold fields_end in IH.
  pose proof (align_up_spec pos _ Ha). lia.
Qed.

Lemma sizeof_nonneg t : wf_type t = true -> 0 <= sizeof t.
Proof.
  induction t as [n s| |t n IH|t IH|fs IH] using ctype_induction; cbn [wf_type]; try (cbn; lia).
  - intros [H Hn]%andb_true_iff. cbn. specialize (IH H). nia.
  - intros Hw. change (sizeof (TStruct fs)) with (align_up (fields_end 0 fs) (alignof (TStruct fs))).
    pose proof (align_up_spec (fields_end 0 fs) (alignof (TStruct fs))) as [? _];
      [pose proof (struct_align_pos fs); lia|].
    assert (0 <= fields_end 0 fs); [|lia]. apply fields_end_le.
    rewrite forallb_forall in Hw. apply List.Forall_forall. intros f Hf.
    specialize (Hw f Hf). rewrite List.Forall_forall in IH. split; [by apply alignof_pos|by apply IH].
Qed.

(** In the layout of the fields [fs] from [pos], each is aligned, and all of
    them lie between [pos] and [stop] one after the other. *)
Definition laid_out (pos : Z) (fs : list (string * ctype)) (stop : Z) : Prop :=
  (forall i f o, fs !! i = Some f -> offsets pos fs !! i = Some (f.1, o) ->
     pos <= o /\ o mod alignof f.2 = 0 /\ o + sizeof f.2 <= stop) /\
  (forall i j f g o p, (i < j)%nat -> fs !! i = Some f -> fs !! j = Some g ->
     offsets pos fs !! i = Some (f.1, o) -> offsets pos fs !! j = Some (g.1, p) -> o + sizeof f.2 <= p) /\
  length (offsets pos fs) = length fs.

Lemma fields_laid_out fs : forallb (fun f => wf_type f.2) fs = true ->
  forall pos, laid_out pos fs (fields_end pos fs).
Proof.
  induction fs as [|f fs IH]; cbn [forallb]; [intros _ pos; by split_and!; intros|].
  intros [Hf Hfs]%andb_true_iff pos. specialize (IH Hfs).
  pose proof (align_up_spec pos _ (alignof_pos _ Hf)) as [Hup Hmod]. pose proof (sizeof_nonneg _ Hf) as Hsz.
  set (o := align_up pos (alignof f.2)) in *. destruct (IH (o + sizeof f.2)) as (H1 & H2 & H3).
  assert (o + sizeof f.2 <= fields_end (o + sizeof f.2) fs) as Hend.
  { apply fields_end_le. rewrite forallb_forall in Hfs. apply List.Forall_forall. intros g Hg.
    specialize (Hfs g Hg). split; [by apply alignof_pos|by apply sizeof_nonneg]. }
  change (fields_end pos (f :: fs)) with (fields_end (o + sizeof f.2) fs).
  cbn [offsets]. fold o. split_and!.
  - intros [|i] g q Hg Hq; cbn in Hg, Hq.
    + simplify_eq. split_and!; [lia|done|done].
    + destruct (H1 i g q Hg Hq) as (? & ? & ?). lia.
  - intros [|i] [|j] g h q p Hij Hg Hh Hq Hp; cbn in Hg, Hh, Hq, Hp; try lia.
    + simplify_eq. by destruct (H1 j h p Hh Hp).
    + apply (H2 i j g h); [lia|done..].
  - exact (f_equal S H3).
Qed.

Lemma struct_laid_out fs : forallb (fun f => wf_type f.2) fs = true ->
  laid_out 0 fs (sizeof (TStruct fs)) /\ sizeof (TStruct fs) mod alignof (TStruct fs) = 0.
Proof.
  intros H. pose proof (struct_align_pos fs).
  destruct (align_up_spec (fields_end 0 fs) (alignof (TStruct fs)) ltac:(lia)) as [Hup Hmod].
  destruct (fields_laid_out fs H 0) as (H1 & H2 & H3). split; [|exact Hmod]. split_and!; [|done|done].
  intros i f o Hf Ho. destruct (H1 i f o Hf Ho) as (? & ? & ?). split_and!; [done|done|].
  change (sizeof (TStruct fs)) with (align_up (fields_end 0 fs) (alignof (TStruct fs))). lia.
Qed.

Lemma convert_in_type t z : wf_type t = true -> in_type t (convert t z).
Proof.
  destruct t as [n [|]| | | |]; cbn [wf_type]; try done; intros Hn.
  - apply swrap_range. lia.
  - apply uwrap_range. lia.
Qed.

Lemma convert_id t z : wf_type t = true -> in_type t z -> convert t z = z.
Proof.
  destruct t as [n [|]| | | |]; cbn [wf_type]; try done; intros Hn Hz.
  - apply swrap_small; [lia|exact Hz].
  - apply uwrap_small; [exact Hz].
Qed.

(** ** The types of syscall.h *)

Definition PAGE_SIZE : Z := 4096.

Definition char : ctype := TInt 1 true.
Definition int : ctype := TInt 4 true.
Definition unsigned_int : ctype := TInt 4 false.
Definition long : ctype := TInt 8 true.
Definition unsigned_long : ctype := TInt 8 false.

(** An enumeration without negative values is an [unsigned int]. *)
Definition c_bool : ctype := unsigned_int.
Definition dirtype : ctype := unsigned_int.

Definition uint8_t : ctype := TInt 1 false.
Definition int8_t : ctype := TInt 1 true.
Definition uint16_t : ctype := TInt 2 false.
Definition int16_t : ctype := TInt 2 true.
Definition uint32_t : ctype := unsigned_int.
Definition int32_t : ctype := int.
Definition uint64_t : ctype := TInt 8 false.
Definition int64_t : ctype := TInt 8 true.
Definition size_t : ctype := unsigned_long.
Definition ssize_t : ctype := long.
Definition uintptr_t : ctype := unsigned_long.
Definition intptr_t : ctype := long.
Definition ptrdiff_t : ctype := long.
Definition uintmax_t : ctype := TInt 8 false.
Definition intmax_t : ctype := TInt 8 true.

Definition clockid_t : ctype := int.
Definition dev_t : ctype := unsigned_int.
Definition ino_t : ctype := unsigned_long.
Definition ino64_t : ctype := TInt 8 false.
Definition mode_t : ctype := unsigned_int.
Definition pid_t : ctype := int.
Definition uid_t : ctype := unsigned_int.
Definition gid_t : ctype := unsigned_int.
Definition nlink_t : ctype := unsigned_long.
Definition off_t : ctype := long.
Definition off64_t : ctype := TInt 8 true.
Definition blksize_t : ctype := long.
Definition blkcnt_t : ctype := long.
Definition time_t : ctype := long.
Definition idtype_t : ctype := int.
Definition id_t : ctype := int.
(** [__u32], which the kernel headers make 32 bits wide *)
Definition socklen_t : ctype := TInt 4 false.

(** ** The structures *)

Definition linux_dirent64 : ctype := TStruct
  [("d_ino", ino64_t); ("d_off", off64_t); ("d_reclen", TInt 2 false); ("d_type", TInt 1 false);
   ("d_name", TFlex char)].

Definition msghdr : ctype := TStruct
  [("msg_name", TPtr); ("msg_namelen", socklen_t); ("msg_iov", TPtr); ("msg_iovlen", size_t);
   ("msg_control", TPtr); ("msg_controllen", size_t); ("msg_flags", int)].

Definition mmsghdr : ctype := TStruct [("msg_hdr", msghdr); ("msg_len", unsigned_int)].

(** [intstr] of util.h *)
Definition intstr_type : ctype := TStruct [("str", TPtr); ("val", TArr char 21)].

(** [uring_queue] of uring_ctl.h *)
Definition uring_queue_type : ctype := TStruct
  [("ringfd", int); ("mmap_ring", TPtr); ("mmap_ring_size", size_t); ("mmap_sqes", TPtr);
   ("mmap_sqes_size", size_t); ("cqes", TPtr); ("sqes", TPtr); ("sq_entries", TPtr); ("sq_mask", TPtr);
   ("sq_head", TPtr); ("sq_tail", TPtr); ("sq_array", TPtr); ("sq_list_head", uint32_t);
   ("sq_list_tail", uint32_t); ("cq_head", TPtr); ("cq_tail", TPtr); ("cq_mask", TPtr); ("cq_entries", TPtr)].

(** [cqe] of uring_ctl.h, for the kernel's [struct io_uring_cqe]. *)
Definition cqe_type (io_uring_cqe : ctype) : ctype := TStruct [("entry", io_uring_cqe); ("success", c_bool)].

(** ** Constants *)

Definition DT_UNKNOWN : Z := 0.
Definition DT_FIFO : Z := 1.
Definition DT_CHR : Z := 2.
Definition DT_DIR : Z := 4.
Definition DT_BLK : Z := 6.
Definition DT_REG : Z := 8.
Definition DT_LNK : Z := 10.
Definition DT_SOCK : Z := 12.

Definition AF_NETLINK : Z := 16.
Definition AF_PACKET : Z := 17.
Definition AF_MAX : Z := 46.

(** The address families by name, in the order of the header. *)
Definition address_families : list (string * Z) :=
  [("AF_UNSPEC", 0); ("AF_UNIX", 1); ("AF_LOCAL", 1); ("AF_INET", 2); ("AF_AX25", 3); ("AF_IPX", 4);
   ("AF_APPLETALK", 5); ("AF_NETROM", 6); ("AF_BRIDGE", 7); ("AF_ATMPVC", 8); ("AF_X25", 9);
   ("AF_INET6", 10); ("AF_ROSE", 11); ("AF_DECnet", 12); ("AF_NETBEUI", 13); ("AF_SECURITY", 14);
   ("AF_KEY", 15); ("AF_NETLINK", AF_NETLINK); ("AF_ROUTE", AF_NETLINK); ("AF_PACKET", AF_PACKET);
   ("AF_ASH", 18); ("AF_ECONET", 19); ("AF_ATMSVC", 20); ("AF_RDS", 21); ("AF_SNA", 22);
   ("AF_IRDA", 23); ("AF_PPPOX", 24); ("AF_WANPIPE", 25); ("AF_LLC", 26); ("AF_IB", 27);
   ("AF_MPLS", 28); ("AF_CAN", 29); ("AF_TIPC", 30); ("AF_BLUETOOTH", 31); ("AF_IUCV", 32);
   ("AF_RXRPC", 33); ("AF_ISDN", 34); ("AF_PHONET", 35); ("AF_IEEE802154", 36); ("AF_CAIF", 37);
   ("AF_ALG", 38); ("AF_NFC", 39); ("AF_VSOCK", 40); ("AF_KCM", 41); ("AF_QIPCRTR", 42);
   ("AF_SMC", 43); ("AF_XDP", 44); ("AF_MCTP", 45)].

(** [enum sock_type] *)
Definition SOCK_DGRAM : Z := 2.
Definition sock_type : list (string * Z) :=
  [("SOCK_STREAM", 1); ("SOCK_DGRAM", SOCK_DGRAM); ("SOCK_RAW", 3); ("SOCK_RDM", 4);
   ("SOCK_SEQPACKET", 5); ("SOCK_DCCP", 6); ("SOCK_PACKET", 10)].

(** ** The theorems *)

(** The structures the headers define, whatever the kernel's completion entry is. *)
Definition header_structs (io_uring_cqe : ctype) : list ctype :=
  [linux_dirent64; msghdr; mmsghdr; intstr_type; uring_queue_type; cqe_type io_uring_cqe].

(** The structures of the headers are laid out soundly: in each, every
    field is aligned for its type, lies inside the structure and after the end
    of the field before it, and the size is a multiple of the alignment, so
    that the same holds in an array.  The fixed part of a directory entry has
    its fields at 0, 8, 16 and 18, and the name follows at 19. *)
Lemma header_structs_sound io_uring_cqe :
  wf_type io_uring_cqe = true ->
  (forall fs, TStruct fs ∈ header_structs io_uring_cqe ->
     laid_out 0 fs (sizeof (TStruct fs)) /\ sizeof (TStruct fs) mod alignof (TStruct fs) = 0) /\
  (forall name o, (name, o) ∈ [("d_ino", 0); ("d_off", 8); ("d_reclen", 16); ("d_type", 18); ("d_name", 19)] ->
     offsetof linux_dirent64 name = Some o) /\
  sizeof linux_dirent64 = 24 /\ sizeof msghdr = 56 /\ sizeof mmsghdr = 64 /\ sizeof intstr_type = 32 /\
  sizeof uring_queue_type = 136.
Proof.
  intros Hc. split_and!; try reflexivity.
  - intros fs Hfs. apply struct_laid_out.
    assert (forall t, t ∈ header_structs io_uring_cqe -> wf_type t = true) as Hw.
    { intros t Ht. unfold header_structs in Ht.
      repeat (apply elem_of_cons in Ht as [->|Ht]; [cbn; by rewrite ?Hc|]). by apply elem_of_nil in Ht. }
    exact (Hw _ Hfs).
  - intros name o H. repeat (apply elem_of_cons in H as [[= -> ->]|H]; [reflexivity|]).
    by apply elem_of_nil in H.
Qed.

(** The address families are the numbers below [AF_MAX], each once but for the
    two aliases. *)
Lemma address_families_dense :
  NoDup (fst <$> address_families) /\
  remove_dups (snd <$> address_families) = Z.of_nat <$> seq 0 (Z.to_nat AF_MAX).
Proof. split; [apply (bool_decide_unpack _)|]; by vm_compute. Qed.
