(* ===== verification/Outcome.v ===== *)
(** * Outcomes of C code

    The state monad the C functions are translated into.  Running a piece of
    code from a state gives either a value and a new state, or a [stop]: the
    program ended ([Halted], by a system call that does not return), the code
    did something C leaves undefined ([Fault]), or a loop used up the bound it
    was given ([NoFuel]).  With it come its predicate transformer [wp] and the
    total-correctness rule of bounded loops. *)

From S2P Require Import Prelude.

(** What undefined behaviour was met. *)
Inductive fault : Type :=
| FNull                (* a null pointer was dereferenced *)
| FBounds              (* an access outside its array *)
| FDead                (* an access to an object whose lifetime ended *)
| FReadOnly            (* a store into a string literal *)
| FType                (* an access with a type the object does not have *)
| FUninit              (* an indeterminate value was read *)
| FOverflow            (* a signed integer overflow *)
| FUnmapped (a : Z)    (* an access to an address of no shared mapping *)
| FUnreachable.        (* __builtin_unreachable was reached *)

Inductive stop (S : Type) : Type :=
| Halted (s : S)
| Fault (f : fault)
| NoFuel.
Arguments Halted {S} s.
Arguments Fault {S} f.
Arguments NoFuel {S}.

Inductive outcome (S A : Type) : Type :=
| Ok (a : A) (s : S)
| Stop (e : stop S).
Arguments Ok {S A} a s.
Arguments Stop {S A} e.

Definition stM (S A : Type) : Type := S -> outcome S A.

#[export] Instance stM_ret (S : Type) : MRet (stM S) := fun A a s => Ok a s.

#[export] Instance stM_bind (S : Type) : MBind (stM S) :=
  fun A B f m s =>
    match m s with
    | Ok a s' => f a s'
    | Stop e => Stop e
    end.

Definition get {S : Type} : stM S S := fun s => Ok s s.
Definition put {S : Type} (s : S) : stM S unit := fun _ => Ok tt s.
Definition fail {S A : Type} (f : fault) : stM S A := fun _ => Stop (Fault f).
Definition nofuel {S A : Type} : stM S A := fun _ => Stop NoFuel.

(** An optional value whose absence is the fault [f]. *)
Definition need {S A : Type} (f : fault) (o : option A) : stM S A :=
  match o with Some a => mret a | None => fail f end.

(** Code over a component [S] of a larger state [T]. *)
Definition zoom {S T A : Type} (view : T -> S) (upd : S -> T -> T) (m : stM S A) : stM T A :=
  fun t =>
    match m (view t) with
    | Ok a s => Ok a (upd s t)
    | Stop (Halted s) => Stop (Halted (upd s t))
    | Stop (Fault f) => Stop (Fault f)
    | Stop NoFuel => Stop NoFuel
    end.

(** A loop: [body] either goes on with a new loop state or leaves. *)
Fixpoint iter {S X A : Type} (fuel : nat) (body : X -> stM S (X + A)) (x : X) : stM S A :=
  match fuel with
  | O => nofuel
  | Datatypes.S n =>
      r ← body x;
      match r with
      | inl x' => iter n body x'
      | inr a => mret a
      end
  end.

(** ** Predicate transformer *)

Definition wp {S A : Type} (m : stM S A) (s : S)
    (Q : A -> S -> Prop) (X : stop S -> Prop) : Prop :=
  match m s with
  | Ok a s' => Q a s'
  | Stop e => X e
  end.

(** Stop conditions: none, a halt in a state satisfying [H], any. *)
Definition nostop {S : Type} : stop S -> Prop := fun _ => False.
Definition halts {S : Type} (H : S -> Prop) : stop S -> Prop :=
  fun e => match e with Halted s => H s | _ => False end.

Section wp.
Context {S A B : Type}.
Implicit Types (s : S).

Lemma wp_bind (m : stM S A) (f : A -> stM S B) s Q X :
  wp m s (fun a s' => wp (f a) s' Q X) X -> wp (m ≫= f) s Q X.
Proof. unfold wp, mbind, stM_bind. by destruct (m s). Qed.

Lemma wp_ret (a : A) s (Q : A -> S -> Prop) X : Q a s -> wp (mret a) s Q X.
Proof. done. Qed.

Lemma wp_mono (m : stM S A) s (Q Q' : A -> S -> Prop) X :
  (forall a s', Q a s' -> Q' a s') -> wp m s Q X -> wp m s Q' X.
Proof. unfold wp. destruct (m s); auto. Qed.

Lemma wp_ok (m : stM S A) s Q : wp m s Q nostop <-> exists a s', m s = Ok a s' /\ Q a s'.
Proof.
  unfold wp, nostop. destruct (m s); split.
  - eauto.
  - intros (?&?&[= -> ->]&?). done.
  - done.
  - intros (?&?&?&?). done.
Qed.

Lemma wp_eq (m : stM S A) s a s' (Q : A -> S -> Prop) X :
  m s = Ok a s' -> Q a s' -> wp m s Q X.
Proof. unfold wp. by intros ->. Qed.

Lemma bind_ok (m : stM S A) (f : A -> stM S B) s a s' :
  m s = Ok a s' -> (m ≫= f) s = f a s'.
Proof. unfold mbind, stM_bind. by intros ->. Qed.

Lemma bind_get (f : S -> stM S B) s : (get ≫= f) s = f s s.
Proof. done. Qed.

Lemma bind_ret (a : A) (f : A -> stM S B) s : (mret a ≫= f) s = f a s.
Proof. done. Qed.

Lemma bind_stop (m : stM S A) (f : A -> stM S B) s e :
  m s = Stop e -> (m ≫= f) s = Stop e.
Proof. unfold mbind, stM_bind. by intros ->. Qed.
End wp.

(** Unfolding one turn of a loop. *)
Lemma iter_S {S X A : Type} n (body : X -> stM S (X + A)) x s :
  iter (Datatypes.S n) body x s =
    match body x s with
    | Ok (inl x') s' => iter n body x' s'
    | Ok (inr a) s' => Ok a s'
    | Stop e => Stop e
    end.
Proof. cbn. unfold mbind, stM_bind. destruct (body x s) as [[]|]; done. Qed.

(** Loops: an invariant [I] indexed by the loop state and a bound [mu] on the
    turns left give the total correctness of the loop. *)
Lemma wp_iter {S X A : Type} (body : X -> stM S (X + A)) (I : X -> S -> Prop)
    (mu : X -> S -> nat) Q E :
  (forall x s, I x s ->
     wp (body x) s
       (fun r s' => match r with
                    | inl x' => I x' s' /\ (mu x' s' < mu x s)%nat
                    | inr a => Q a s'
                    end) E) ->
  forall n x s, I x s -> (mu x s < n)%nat -> wp (iter n body x) s Q E.
Proof.
  intros Hbody n. induction n as [|n IH]; intros x s HI Hmu; [lia|].
  specialize (Hbody x s HI). unfold wp in *. rewrite iter_S.
  destruct (body x s) as [[x'|a] s'|e].
  - destruct Hbody as [HI' Hlt]. apply IH; [done|lia].
  - done.
  - done.
Qed.

(** More fuel never changes a result that was reached. *)
Lemma iter_fuel_mono {S X A : Type} (body : X -> stM S (X + A)) n n' x s :
  (n <= n')%nat -> iter n body x s <> Stop NoFuel ->
  iter n' body x s = iter n body x s.
Proof.
  revert n' x s. induction n as [|n IH]; intros n' x s Hle Hne.
  - by destruct Hne.
  - destruct n' as [|n']; [lia|]. rewrite iter_S in Hne. rewrite !iter_S.
    destruct (body x s) as [[x'|a] s'|e]; [|done|done]. apply IH; [lia|done].
Qed.

Lemma zoom_ok {S T A : Type} (view : T -> S) upd (m : stM S A) t a s :
  m (view t) = Ok a s -> zoom view upd m t = Ok a (upd s t).
Proof. unfold zoom. by intros ->. Qed.

(** One step of symbolic execution of a monadic program under [wp]. *)
Ltac wp_step :=
  lazymatch goal with
  | |- wp (mbind _ _) _ _ _ => apply wp_bind
  | |- wp (mret _) _ _ _ => apply wp_ret
  end.
Ltac wp_steps := repeat wp_step.
