(* ===== verification/CMem.v ===== *)
(** * The memory of the program

    C objects of the program's own memory: a pointer is a block and an offset,
    so that pointer arithmetic inside an object, its bounds and its lifetime
    are those of C.  A block is a string literal (read only) or a numbered
    object: an array of bytes, an array of pointers (offsets count elements),
    or a structure of the system interface seen as its named integer fields.
    The two rings and the entry array that the kernel maps into the process
    (io_uring) are the shared memory [shm], addressed by machine addresses. *)

From S2P Require Import Prelude Outcome.

Inductive block : Type :=
| BLit (s : string)
| BVar (n : positive).

#[export] Instance block_eq_dec : EqDecision block.
Proof. solve_decision. Defined.

Inductive ptr : Type :=
| Null
| Ptr (b : block) (o : Z).

#[export] Instance ptr_eq_dec : EqDecision ptr.
Proof. solve_decision. Defined.

(** Pointer arithmetic. *)
Definition padd (p : ptr) (i : Z) : ptr :=
  match p with Null => Null | Ptr b o => Ptr b (o + i) end.

Inductive obj : Type :=
| OBytes (l : list byte)
| OPtrs (l : list (option ptr))         (* [None]: not yet initialised *)
| OStruct (fs : gmap string Z).

(** [m_base] is where the blocks lie in the address space (what a comparison
    of pointers to different objects sees), [m_junk] what a fresh array of
    automatic storage holds; nothing is assumed of either. *)
Record mem : Type := Mem {
  m_objs : gmap positive obj;
  m_next : positive;
  m_base : block -> Z;
  m_junk : positive -> nat -> byte
}.

Definition with_objs (m : mem) (f : gmap positive obj -> gmap positive obj) : mem :=
  {| m_objs := f (m_objs m); m_next := m_next m; m_base := m_base m; m_junk := m_junk m |}.

Definition set_obj (m : mem) (n : positive) (o : obj) : mem := with_objs m (insert n o).

Notation memM := (stM mem).

(** ** Reading and writing *)

(** The bytes of a block: those of a literal end in its terminator. *)
Definition block_bytes (m : mem) (b : block) : option (list byte) :=
  match b with
  | BLit s => Some (lit s ++ [x00])
  | BVar n => match m_objs m !! n with Some (OBytes l) => Some l | _ => None end
  end.

(** Why an access of block [n] as something else than its type faults. *)
Definition why_not (m : mem) (n : positive) : fault :=
  match m_objs m !! n with Some _ => FType | None => FDead end.

Definition load_char (p : ptr) : memM byte := fun m =>
  match p with
  | Null => Stop (Fault FNull)
  | Ptr b o =>
      match block_bytes m b with
      | Some l => match zlookup l o with Some c => Ok c m | None => Stop (Fault FBounds) end
      | None => Stop (Fault (match b with BLit _ => FType | BVar n => why_not m n end))
      end
  end.

Definition store_char (p : ptr) (c : byte) : memM unit := fun m =>
  match p with
  | Null => Stop (Fault FNull)
  | Ptr (BLit _) _ => Stop (Fault FReadOnly)
  | Ptr (BVar n) o =>
      match m_objs m !! n with
      | Some (OBytes l) =>
          match zinsert l o c with
          | Some l' => Ok tt (set_obj m n (OBytes l'))
          | None => Stop (Fault FBounds)
          end
      | _ => Stop (Fault (why_not m n))
      end
  end.

(** Arrays of pointers; the offset counts elements. *)
Definition load_ptr (p : ptr) : memM ptr := fun m =>
  match p with
  | Null => Stop (Fault FNull)
  | Ptr (BLit _) _ => Stop (Fault FType)
  | Ptr (BVar n) o =>
      match m_objs m !! n with
      | Some (OPtrs l) =>
          match zlookup l o with
          | Some (Some q) => Ok q m
          | Some None => Stop (Fault FUninit)
          | None => Stop (Fault FBounds)
          end
      | _ => Stop (Fault (why_not m n))
      end
  end.

Definition store_ptr (p : ptr) (q : ptr) : memM unit := fun m =>
  match p with
  | Null => Stop (Fault FNull)
  | Ptr (BLit _) _ => Stop (Fault FType)
  | Ptr (BVar n) o =>
      match m_objs m !! n with
      | Some (OPtrs l) =>
          match zinsert l o (Some q) with
          | Some l' => Ok tt (set_obj m n (OPtrs l'))
          | None => Stop (Fault FBounds)
          end
      | _ => Stop (Fault (why_not m n))
      end
  end.

(** A field of a structure of the system interface. *)
Definition load_field (p : ptr) (f : string) : memM Z := fun m =>
  match p with
  | Ptr (BVar n) 0 =>
      match m_objs m !! n with
      | Some (OStruct fs) =>
          match fs !! f with Some z => Ok z m | None => Stop (Fault FUninit) end
      | _ => Stop (Fault (why_not m n))
      end
  | Null => Stop (Fault FNull)
  | _ => Stop (Fault FType)
  end.

Definition store_field (p : ptr) (f : string) (z : Z) : memM unit := fun m =>
  match p with
  | Ptr (BVar n) 0 =>
      match m_objs m !! n with
      | Some (OStruct fs) => Ok tt (set_obj m n (OStruct (<[f := z]> fs)))
      | _ => Stop (Fault (why_not m n))
      end
  | Null => Stop (Fault FNull)
  | _ => Stop (Fault FType)
  end.

(** ** Lifetimes *)

(** A new object of automatic storage, and the end of its lifetime. *)
Definition alloc (o : obj) : memM ptr := fun m =>
  Ok (Ptr (BVar (m_next m)) 0)
     {| m_objs := <[m_next m := o]> (m_objs m); m_next := Pos.succ (m_next m);
        m_base := m_base m; m_junk := m_junk m |}.

(** The indeterminate contents of [char a[n]]. *)
Definition junk_bytes (m : mem) (n : nat) : list byte := m_junk m (m_next m) <$> seq 0 n.

Definition alloc_bytes (n : nat) : memM ptr := m ← get; alloc (OBytes (junk_bytes m n)).
Definition alloc_ptrs (n : nat) : memM ptr := alloc (OPtrs (replicate n None)).

Definition free (p : ptr) : memM unit := fun m =>
  match p with
  | Ptr (BVar n) _ => Ok tt (with_objs m (delete n))
  | _ => Ok tt m
  end.

(** A memory with the given objects, numbered from 1. *)
Definition mem_of (os : list obj) : mem :=
  {| m_objs := list_to_map (zip (Pos.of_succ_nat <$> seq 0 (length os)) os);
     m_next := Pos.of_succ_nat (length os);
     m_base := fun b => match b with BVar n => 65536 * Zpos n | BLit _ => 0 end;
     m_junk := fun _ _ => x2a |}.

(** ** Comparing addresses *)

Definition addr (m : mem) (p : ptr) : Z :=
  match p with Null => 0 | Ptr b o => m_base m b + o end.

Definition ptr_le (p q : ptr) : memM bool := fun m => Ok (addr m p <=? addr m q) m.

(** The bytes from [p] to the end of its object: no loop over a C string runs
    longer than that without leaving the object. *)
Definition bytes_left (m : mem) (p : ptr) : nat :=
  match p with
  | Null => 0%nat
  | Ptr b o => match block_bytes m b with
               | Some l => Z.to_nat (Z.of_nat (length l) - o)
               | None => 0%nat
               end
  end.

(** ** Laws of the memory *)

Section laws.
Implicit Types (m : mem) (b : block) (n : positive) (l : list byte).

Lemma set_obj_eq m n o : m_objs (set_obj m n o) !! n = Some o.
Proof. cbn. by rewrite lookup_insert_eq. Qed.

Lemma set_obj_ne m n n' o : n <> n' -> m_objs (set_obj m n o) !! n' = m_objs m !! n'.
Proof. intros. cbn. by rewrite lookup_insert_ne. Qed.

Lemma set_obj_set_obj m n o o' : set_obj (set_obj m n o) n o' = set_obj m n o'.
Proof. unfold set_obj, with_objs. cbn. by rewrite insert_insert_eq. Qed.

Lemma set_obj_id m n o : m_objs m !! n = Some o -> set_obj m n o = m.
Proof. intros. unfold set_obj, with_objs. rewrite insert_id by done. by destruct m. Qed.

Lemma block_bytes_var m n l :
  m_objs m !! n = Some (OBytes l) -> block_bytes m (BVar n) = Some l.
Proof. cbn. by intros ->. Qed.

Lemma block_bytes_var_inv m n l :
  block_bytes m (BVar n) = Some l -> m_objs m !! n = Some (OBytes l).
Proof. cbn. destruct (m_objs m !! n) as [[]|]; congruence. Qed.

Lemma block_bytes_set_eq m n l : block_bytes (set_obj m n (OBytes l)) (BVar n) = Some l.
Proof. apply block_bytes_var, set_obj_eq. Qed.

Lemma block_bytes_set_ne m n o b :
  b <> BVar n -> block_bytes (set_obj m n o) b = block_bytes m b.
Proof. destruct b; [done|]. intros. cbn. by rewrite lookup_insert_ne by congruence. Qed.

Lemma wp_load_char m b l o (i : nat) c Q X :
  block_bytes m b = Some l -> o = Z.of_nat i -> l !! i = Some c ->
  Q c m -> wp (load_char (Ptr b o)) m Q X.
Proof.
  intros Hb -> Hi HQ. unfold wp, load_char. by rewrite Hb, zlookup_nat, Hi.
Qed.

Lemma wp_store_char m n l o (i : nat) c (Q : unit -> mem -> Prop) X :
  m_objs m !! n = Some (OBytes l) -> o = Z.of_nat i -> (i < length l)%nat ->
  Q tt (set_obj m n (OBytes (<[i := c]> l))) -> wp (store_char (Ptr (BVar n) o) c) m Q X.
Proof.
  intros Hn -> Hi HQ. unfold wp, store_char. by rewrite Hn, zinsert_nat.
Qed.

Lemma load_char_out m b l o :
  block_bytes m b = Some l -> Z.of_nat (length l) <= o ->
  load_char (Ptr b o) m = Stop (Fault FBounds).
Proof.
  intros Hb Ho. unfold load_char, zlookup. rewrite Hb.
  destruct (o <? 0); [done|]. by rewrite lookup_ge_None_2 by lia.
Qed.

Lemma load_char_dead m n o :
  m_objs m !! n = None -> load_char (Ptr (BVar n) o) m = Stop (Fault FDead).
Proof. intros Hn. unfold load_char, why_not. cbn. by rewrite Hn. Qed.

Lemma wp_store_ptr m n (l : list (option ptr)) o (i : nat) q (Q : unit -> mem -> Prop) X :
  m_objs m !! n = Some (OPtrs l) -> o = Z.of_nat i -> (i < length l)%nat ->
  Q tt (set_obj m n (OPtrs (<[i := Some q]> l))) -> wp (store_ptr (Ptr (BVar n) o) q) m Q X.
Proof.
  intros Hn -> Hi HQ. unfold wp, store_ptr. by rewrite Hn, zinsert_nat.
Qed.

Lemma store_ptr_out m n (l : list (option ptr)) o q :
  m_objs m !! n = Some (OPtrs l) -> ~ (0 <= o < Z.of_nat (length l)) ->
  store_ptr (Ptr (BVar n) o) q m = Stop (Fault FBounds).
Proof. intros Hn Ho. unfold store_ptr. by rewrite Hn, zinsert_out. Qed.

Lemma bytes_left_at m b l (i : nat) :
  block_bytes m b = Some l -> bytes_left m (Ptr b (Z.of_nat i)) = (length l - i)%nat.
Proof. intros Hb. cbn. rewrite Hb. lia. Qed.
End laws.

(** ** C strings *)

(** [cstr m b i s]: at offset [i] of block [b] lies the string [s] (its bytes,
    none of them NUL) with its terminator. *)
Definition cstr (m : mem) (b : block) (i : nat) (s : list byte) : Prop :=
  exists l rest, block_bytes m b = Some l /\ drop i l = s ++ x00 :: rest /\ x00 ∉ s.

(** The string a list of bytes starts with. *)
Fixpoint take_cstr (l : list byte) : option (list byte) :=
  match l with
  | [] => None
  | c :: l' => if decide (c = x00) then Some [] else cons c <$> take_cstr l'
  end.

(** Executable reading of the string at [p]. *)
Definition read_cstr (m : mem) (p : ptr) : option (list byte) :=
  match p with
  | Ptr b o => if o <? 0 then None else l ← block_bytes m b; take_cstr (drop (Z.to_nat o) l)
  | Null => None
  end.

Lemma take_cstr_spec l s : take_cstr l = Some s <-> exists rest, l = s ++ x00 :: rest /\ x00 ∉ s.
Proof.
  revert s. induction l as [|c l IH]; intros s; cbn.
  - split; [done|]. intros (rest & E & _). by destruct s.
  - case_decide as Hc.
    + subst. split.
      * intros [= <-]. exists l. split; [done|apply not_elem_of_nil].
      * intros (rest & E & Hs). destruct s as [|c' s]; [done|].
        injection E as <- _. exfalso. apply Hs. by left.
    + split.
      * destruct (take_cstr l) as [s'|]; [|done]. intros [= <-].
        destruct (proj1 (IH s') eq_refl) as (rest & -> & Hs).
        exists rest. split; [done|]. rewrite not_elem_of_cons. naive_solver.
      * intros (rest & E & Hs). destruct s as [|c' s]; [by injection E|].
        injection E as <- ->. rewrite not_elem_of_cons in Hs.
        rewrite (proj2 (IH s)); [done|]. naive_solver.
Qed.

Lemma read_cstr_spec m b i s :
  read_cstr m (Ptr b (Z.of_nat i)) = Some s <-> cstr m b i s.
Proof.
  unfold cstr. cbn. destruct (Z.ltb_spec (Z.of_nat i) 0); [lia|]. rewrite Nat2Z.id.
  destruct (block_bytes m b) as [l|]; cbn; [|naive_solver].
  rewrite take_cstr_spec. naive_solver.
Qed.

Lemma cstr_lit m s : x00 ∉ lit s -> cstr m (BLit s) 0 (lit s).
Proof. intros. by exists (lit s ++ [x00]), []. Qed.

Lemma cstr_inv m b i s : cstr m b i s ->
  exists l, block_bytes m b = Some l /\
    (forall j c, s !! j = Some c -> l !! (i + j)%nat = Some c /\ c <> x00) /\
    l !! (i + length s)%nat = Some x00 /\ (i + length s < length l)%nat.
Proof.
  intros (l & rest & Hb & Hd & Hs). exists l.
  assert (l !! (i + length s)%nat = Some x00).
  { rewrite <- lookup_drop, Hd. by rewrite list_lookup_middle. }
  split_and!; [done| |done|by eapply lookup_lt_Some].
  intros j c Hj. split.
  - rewrite <- lookup_drop, Hd. by rewrite lookup_app_l by (by eapply lookup_lt_Some).
  - intros ->. apply Hs. by eapply list_elem_of_lookup_2.
Qed.

(** The suffixes of a C string are C strings. *)
Lemma cstr_drop m b i s k : cstr m b i s -> (k <= length s)%nat -> cstr m b (i + k) (drop k s).
Proof.
  intros (l & rest & Hb & Hd & Hs) Hk. exists l, rest. split_and!; [done| |].
  - by rewrite <- drop_drop, Hd, drop_app_le.
  - intros Hin. apply Hs. eapply elem_of_subseteq; [|exact Hin].
    intros x Hx. rewrite <- (take_drop k s). apply elem_of_app. by right.
Qed.

(** ** The shared mappings of io_uring

    Words, completion entries and submission entries by machine address.  Of
    the two structures of linux/io_uring.h only the fields the program touches
    are kept; [sqe_addr] is a pointer converted to an integer. *)

Record io_uring_cqe : Type := Cqe { cqe_user_data : Z; cqe_res : Z }.

Record io_uring_sqe : Type := Sqe {
  sqe_opcode : Z; sqe_flags : Z; sqe_ioprio : Z; sqe_fd : Z;
  sqe_addr : ptr; sqe_len : Z; sqe_user_data : Z
}.

Record shm : Type := Shm {
  sh_words : gmap Z Z;
  sh_cqes : gmap Z io_uring_cqe;
  sh_sqes : gmap Z io_uring_sqe
}.

Notation shmM := (stM shm).

Definition load_u32 (a : Z) : shmM Z := fun s =>
  match sh_words s !! a with Some w => Ok w s | None => Stop (Fault (FUnmapped a)) end.

Definition store_u32 (a w : Z) : shmM unit := fun s =>
  match sh_words s !! a with
  | Some _ => Ok tt {| sh_words := <[a := w]> (sh_words s); sh_cqes := sh_cqes s; sh_sqes := sh_sqes s |}
  | None => Stop (Fault (FUnmapped a))
  end.

Definition load_cqe (a : Z) : shmM io_uring_cqe := fun s =>
  match sh_cqes s !! a with Some c => Ok c s | None => Stop (Fault (FUnmapped a)) end.

(** The entry at [a] is rewritten field by field. *)
Definition update_sqe (a : Z) (f : io_uring_sqe -> io_uring_sqe) : shmM unit := fun s =>
  match sh_sqes s !! a with
  | Some e => Ok tt {| sh_words := sh_words s; sh_cqes := sh_cqes s; sh_sqes := <[a := f e]> (sh_sqes s) |}
  | None => Stop (Fault (FUnmapped a))
  end.
