(* ===== verification/CString.v ===== *)
(** * util/util.c: memory and string functions

    [memmove], [memcpy], [memset], [memcmp], [strcpy], [nolibc_strlen] and
    [strchr], each as the loop of the source over the block memory.  The loops
    counting a length get that length as fuel, those looking for a terminator
    the bytes left in the object; the theorems show that no fuel runs out. *)

From S2P Require Import Prelude Outcome CMem.

(** ** The functions *)

(** [while (len--) { pos += ...; dst[pos] = src[pos]; }]; the test of the
    direction is evaluated in each turn, as in the source. *)
Definition memmove_body (dst src : ptr) (st : Z * Z) : memM ((Z * Z) + unit) :=
  let '(len, pos) := st in
  if len =? 0 then mret (inr tt)
  else
    let len := uwrap 64 (len - 1) in
    le ← ptr_le dst src;
    let pos := pos + (if (le : bool) then 1 else -1) in
    c ← load_char (padd src pos);
    _ ← store_char (padd dst pos) c;
    mret (inl (len, pos)).

Definition memmove (dst src : ptr) (len : Z) : memM ptr :=
  le ← ptr_le dst src;
  let pos := if (le : bool) then -1 else swrap 64 len in
  _ ← iter (S (Z.to_nat len)) (memmove_body dst src) (len, pos);
  mret dst.

Definition memcpy (dst src : ptr) (len : Z) : memM ptr := memmove dst src len.

Definition memset_body (b : Z) (st : Z * ptr) : memM ((Z * ptr) + unit) :=
  let '(len, p) := st in
  if len =? 0 then mret (inr tt)
  else
    _ ← store_char p (byte_of_Z b);
    mret (inl (uwrap 64 (len - 1), padd p 1)).

Definition memset (dst : ptr) (b : Z) (len : Z) : memM ptr :=
  _ ← iter (S (Z.to_nat len)) (memset_body b) (len, dst);
  mret dst.

(** [c1] is a [char]: the difference of two [char]s is truncated to it. *)
Definition memcmp_body (s1 s2 : ptr) (n : Z) (st : Z * Z) : memM ((Z * Z) + Z) :=
  let '(ofs, c1) := st in
  if ofs <? n then
    a ← load_char (padd s1 ofs);
    b ← load_char (padd s2 ofs);
    let c1 := swrap 8 (schar a - schar b) in
    if c1 =? 0 then mret (inl (uwrap 64 (ofs + 1), c1)) else mret (inr c1)
  else mret (inr c1).

Definition memcmp (s1 s2 : ptr) (n : Z) : memM Z :=
  iter (S (Z.to_nat n)) (memcmp_body s1 s2 n) (0, 0).

(** Copy a byte, then advance both pointers, until the byte was NUL. *)
Definition strcpy_body (st : ptr * ptr) : memM ((ptr * ptr) + unit) :=
  let '(dst, src) := st in
  c ← load_char src;
  _ ← store_char dst c;
  if decide (c = x00) then mret (inr tt) else mret (inl (padd dst 1, padd src 1)).

Definition strcpy (dst src : ptr) : memM ptr :=
  m ← get;
  _ ← iter (S (bytes_left m src)) strcpy_body (dst, src);
  mret dst.

Definition strlen_body (str : ptr) (len : Z) : memM (Z + Z) :=
  c ← load_char (padd str len);
  if decide (c = x00) then mret (inr len) else mret (inl (uwrap 64 (len + 1))).

Definition nolibc_strlen (str : ptr) : memM Z :=
  m ← get;
  iter (S (bytes_left m str)) (strlen_body str) 0.

Definition strchr_body (ch : Z) (s : ptr) : memM (ptr + ptr) :=
  c ← load_char s;
  if decide (c = x00) then mret (inr Null)
  else if schar c =? swrap 8 ch then mret (inr s)
  else mret (inl (padd s 1)).

Definition strchr (s : ptr) (c : Z) : memM ptr :=
  m ← get;
  iter (S (bytes_left m s)) (strchr_body c) s.

(** ** Copying *)

Lemma uwrap64_pred (k : nat) : Z.of_nat (S k) < 2 ^ 64 ->
  uwrap 64 (Z.of_nat (S k) - 1) = Z.of_nat k.
Proof. intros. rewrite uwrap_small; lia. Qed.

Lemma insert_inserts_snoc {A} (l k : list A) (d : nat) (c : A) :
  <[(d + length k)%nat := c]> (list_inserts d k l) = list_inserts d (k ++ [c]) l.
Proof. rewrite list_inserts_app_l. cbn. f_equal. lia. Qed.

(** Insertion of a list is replacement of a segment. *)
Lemma inserts_split {A} (l k : list A) (d : nat) : (d + length k <= length l)%nat ->
  list_inserts d k l = take d l ++ k ++ drop (d + length k) l.
Proof.
  intros Hd. apply list_eq. intros i.
  destruct (decide (i < d)%nat); [|destruct (decide (i < d + length k)%nat)].
  - rewrite list_lookup_inserts_lt by done. rewrite lookup_app_l by (rewrite length_take; lia).
    by rewrite lookup_take, decide_True by done.
  - rewrite list_lookup_inserts by lia. rewrite lookup_app_r by (rewrite length_take; lia).
    rewrite length_take, Nat.min_l by lia. by rewrite lookup_app_l by lia.
  - rewrite list_lookup_inserts_ge by lia. rewrite lookup_app_r by (rewrite length_take; lia).
    rewrite length_take, Nat.min_l by lia. rewrite lookup_app_r by lia. rewrite lookup_drop.
    f_equal. lia.
Qed.

Section memmove.
(** [k] bytes at [s] of block [bs] (contents [ls]) go to [d] of the object
    [nd] (contents [ld]); the two may be the same object. *)
Context (m0 : mem) (bs : block) (nd : positive) (ls ld : list byte) (s d k : nat).
Hypothesis Hsrc : block_bytes m0 bs = Some ls.
Hypothesis Hdst : m_objs m0 !! nd = Some (OBytes ld).
Hypothesis Hs : (s + k <= length ls)%nat.
Hypothesis Hd : (d + k <= length ld)%nat.
Hypothesis Hk : Z.of_nat k < 2 ^ 63.

Let dst := Ptr (BVar nd) (Z.of_nat d).
Let src := Ptr bs (Z.of_nat s).
Let le := addr m0 dst <=? addr m0 src.

(** The memory once the bytes [new] are at [d']. *)
Let mid (d' : nat) (new : list byte) : mem := set_obj m0 nd (OBytes (list_inserts d' new ld)).

Lemma same_block_ld : bs = BVar nd -> ls = ld.
Proof. intros ->. apply block_bytes_var_inv in Hsrc. congruence. Qed.

(** The source byte at [j] is still the original one when [j] lies outside
    the part already written, should the two objects be the same. *)
Lemma mid_load d' new j c Q X :
  (bs = BVar nd -> (j < d')%nat \/ (d' + length new <= j)%nat) ->
  ls !! j = Some c -> Q c (mid d' new) ->
  wp (load_char (Ptr bs (Z.of_nat j))) (mid d' new) Q X.
Proof.
  intros Hj Hc HQ. destruct (decide (bs = BVar nd)) as [E|E].
  - specialize (Hj E). rewrite (same_block_ld E) in Hc. subst bs.
    eapply wp_load_char; [apply block_bytes_set_eq|done| |done].
    destruct Hj; [by rewrite list_lookup_inserts_lt|by rewrite list_lookup_inserts_ge].
  - eapply wp_load_char; [unfold mid; by rewrite block_bytes_set_ne|done|done|done].
Qed.

Lemma mid_store d' new j c (Q : unit -> mem -> Prop) X :
  (j < length ld)%nat ->
  Q tt (set_obj m0 nd (OBytes (<[j := c]> (list_inserts d' new ld)))) ->
  wp (store_char (Ptr (BVar nd) (Z.of_nat j)) c) (mid d' new) Q X.
Proof.
  intros Hj HQ. eapply wp_store_char; [apply set_obj_eq|done|by rewrite length_inserts|].
  unfold mid. by rewrite set_obj_set_obj.
Qed.

Lemma mid_le d' new : ptr_le dst src (mid d' new) = Ok le (mid d' new).
Proof. done. Qed.

Lemma src_byte j : (j < k)%nat -> exists c, ls !! (s + j)%nat = Some c.
Proof. intros. apply lookup_lt_is_Some_2. lia. Qed.

Lemma take_src_S i c : ls !! (s + i)%nat = Some c ->
  take (S i) (drop s ls) = take i (drop s ls) ++ [c].
Proof. intros. apply take_S_r. by rewrite lookup_drop. Qed.

(** The two directions, [i] bytes after the start. *)
Definition fwd (st : Z * Z) (m : mem) : Prop :=
  exists i, (i <= k)%nat /\ st = (Z.of_nat (k - i), Z.of_nat i - 1) /\
    m = mid d (take i (drop s ls)).

Definition bwd (st : Z * Z) (m : mem) : Prop :=
  exists i, (i <= k)%nat /\ st = (Z.of_nat i, Z.of_nat i) /\
    m = mid (d + i) (take (k - i) (drop (s + i) ls)).

Definition steps_left (st : Z * Z) (_ : mem) : nat := Z.to_nat (fst st).

Definition copied (m : mem) : Prop := m = mid d (take k (drop s ls)).

Lemma fwd_step st m : le = true -> fwd st m ->
  wp (memmove_body dst src st) m (fun r m' =>
    match r with inl st' => fwd st' m' /\ (steps_left st' m' < steps_left st m)%nat
               | inr _ => copied m' end) nostop.
Proof.
  intros Hle (i & Hi & -> & ->). unfold memmove_body.
  destruct (Z.eqb_spec (Z.of_nat (k - i)) 0) as [E|E].
  - apply wp_ret. replace i with k by lia. done.
  - destruct (src_byte i) as [c Hc]; [lia|].
    apply wp_bind. eapply wp_eq; [apply mid_le|]. rewrite Hle.
    replace (Z.of_nat i - 1 + 1) with (Z.of_nat i) by lia.
    apply wp_bind. cbn [padd src dst]. rewrite <- !Nat2Z.inj_add. eapply mid_load; [|done|].
    + intros Eb. subst bs. right. rewrite length_take, length_drop.
      unfold le, addr, dst, src in Hle. lia.
    + apply wp_bind. apply mid_store; [lia|]. apply wp_ret. split.
      * exists (S i). split_and!; [lia| |].
        { f_equal; [|lia]. replace (k - i)%nat with (S (k - S i)) by lia.
          rewrite uwrap64_pred; lia. }
        { unfold mid. rewrite (take_src_S _ _ Hc), <- insert_inserts_snoc. do 3 f_equal.
          rewrite length_take, length_drop. lia. }
      * unfold steps_left. cbn [fst]. rewrite uwrap_small by lia. lia.
Qed.

Lemma bwd_step st m : le = false -> bwd st m ->
  wp (memmove_body dst src st) m (fun r m' =>
    match r with inl st' => bwd st' m' /\ (steps_left st' m' < steps_left st m)%nat
               | inr _ => copied m' end) nostop.
Proof.
  intros Hle (i & Hi & -> & ->). unfold memmove_body.
  destruct (Z.eqb_spec (Z.of_nat i) 0) as [E|E].
  - apply wp_ret. replace i with 0%nat by lia. unfold copied.
    by rewrite !Nat.add_0_r, Nat.sub_0_r.
  - destruct i as [|i]; [done|]. destruct (src_byte i) as [c Hc]; [lia|].
    apply wp_bind. eapply wp_eq; [apply mid_le|]. rewrite Hle.
    replace (Z.of_nat (S i) + -1) with (Z.of_nat i) by lia.
    apply wp_bind. cbn [padd src dst]. rewrite <- !Nat2Z.inj_add. eapply mid_load; [|done|].
    + intros Eb. subst bs. left. unfold le, addr, dst, src in Hle. lia.
    + apply wp_bind. apply mid_store; [lia|]. apply wp_ret. split.
      * exists i. split_and!; [lia|by rewrite uwrap64_pred by lia|].
        unfold mid. replace (k - i)%nat with (S (k - S i)) by lia.
        rewrite (drop_S _ _ _ Hc). cbn [take list_inserts].
        by replace (S (d + i)) with (d + S i)%nat by lia; replace (S (s + i)) with (s + S i)%nat by lia.
      * unfold steps_left. cbn [fst]. rewrite uwrap_small by lia. lia.
Qed.

Lemma memmove_correct :
  memmove dst src (Z.of_nat k) m0 =
    Ok dst (set_obj m0 nd (OBytes (list_inserts d (take k (drop s ls)) ld))).
Proof.
  assert (wp (memmove dst src (Z.of_nat k)) m0 (fun r m => r = dst /\ copied m) nostop) as W.
  { unfold memmove. apply wp_bind. eapply wp_eq; [reflexivity|]. apply wp_bind.
    fold le. rewrite swrap_small, Nat2Z.id by lia.
    apply wp_mono with (Q := fun _ => copied); [intros; by apply wp_ret|].
    destruct le eqn:Hle.
    - apply (wp_iter _ fwd steps_left); [intros; by apply fwd_step| |unfold steps_left; cbn; lia].
      exists 0%nat. split_and!; [lia|by rewrite Nat.sub_0_r|].
      unfold mid. cbn. by rewrite set_obj_id.
    - apply (wp_iter _ bwd steps_left); [intros; by apply bwd_step| |unfold steps_left; cbn; lia].
      exists k. split_and!; [lia|done|].
      unfold mid. rewrite Nat.sub_diag. cbn. by rewrite set_obj_id. }
  apply wp_ok in W as (r & m & -> & -> & ->). done.
Qed.
End memmove.

Lemma memcpy_correct m bs nd ls ld (s d k : nat) :
  block_bytes m bs = Some ls -> m_objs m !! nd = Some (OBytes ld) ->
  (s + k <= length ls)%nat -> (d + k <= length ld)%nat -> Z.of_nat k < 2 ^ 63 ->
  memcpy (Ptr (BVar nd) (Z.of_nat d)) (Ptr bs (Z.of_nat s)) (Z.of_nat k) m =
    Ok (Ptr (BVar nd) (Z.of_nat d))
       (set_obj m nd (OBytes (list_inserts d (take k (drop s ls)) ld))).
Proof. apply memmove_correct. Qed.

(** ** Filling *)

Lemma memset_correct m nd ld (d k : nat) b :
  m_objs m !! nd = Some (OBytes ld) -> (d + k <= length ld)%nat -> Z.of_nat k < 2 ^ 64 ->
  memset (Ptr (BVar nd) (Z.of_nat d)) b (Z.of_nat k) m =
    Ok (Ptr (BVar nd) (Z.of_nat d))
       (set_obj m nd (OBytes (list_inserts d (replicate k (byte_of_Z b)) ld))).
Proof.
  intros Hn Hd Hk.
  set (mid i := set_obj m nd (OBytes (list_inserts d (replicate i (byte_of_Z b)) ld))).
  assert (wp (memset (Ptr (BVar nd) (Z.of_nat d)) b (Z.of_nat k)) m
    (fun r m' => r = Ptr (BVar nd) (Z.of_nat d) /\ m' = mid k) nostop) as W.
  { apply wp_bind. rewrite Nat2Z.id.
    apply wp_mono with (Q := fun _ m' => m' = mid k); [intros; by apply wp_ret|].
    apply (wp_iter _ (fun st m' => exists i, (i <= k)%nat /\
        st = (Z.of_nat (k - i), Ptr (BVar nd) (Z.of_nat (d + i))) /\ m' = mid i)
      (fun st _ => Z.to_nat (fst st))).
    - intros st m' (i & Hi & -> & ->). unfold memset_body.
      destruct (Z.eqb_spec (Z.of_nat (k - i)) 0) as [E|E].
      + apply wp_ret. by replace i with k by lia.
      + replace (k - i)%nat with (S (k - S i)) by lia. rewrite uwrap64_pred by lia.
        apply wp_bind. unfold mid. eapply wp_store_char; [apply set_obj_eq|done| |].
        { rewrite length_inserts. lia. }
        rewrite set_obj_set_obj. apply wp_ret. split; [|cbn [fst]; lia].
        exists (S i). split_and!; [lia| |].
        * f_equal. cbn. f_equal. lia.
        * rewrite replicate_S_end, <- insert_inserts_snoc, length_replicate. done.
    - exists 0%nat. split_and!; [lia|by rewrite Nat.sub_0_r, Nat.add_0_r|].
      unfold mid. cbn. by rewrite set_obj_id.
    - cbn. lia. }
  apply wp_ok in W as (r & m' & -> & -> & ->). done.
Qed.

(** ** Comparing *)

(** The first difference of the two blocks, as the [char] the source returns. *)
Fixpoint first_diff (a b : list byte) : Z :=
  match a, b with
  | x :: a', y :: b' =>
      let c := swrap 8 (schar x - schar y) in
      if c =? 0 then first_diff a' b' else c
  | _, _ => 0
  end.

Lemma schar_diff_0 a b : swrap 8 (schar a - schar b) = 0 <-> a = b.
Proof.
  split; [|intros ->; by rewrite Z.sub_diag].
  intros H. apply schar_inj. destruct (swrap_diff 8 ltac:(lia) (schar a - schar b)) as [q E].
  rewrite H in E. unfold schar in *.
  pose proof (swrap_range 8 ltac:(lia) (uchar a)).
  pose proof (swrap_range 8 ltac:(lia) (uchar b)). lia.
Qed.

Lemma first_diff_eq a b : length a = length b -> first_diff a b = 0 <-> a = b.
Proof.
  revert b. induction a as [|x a IH]; intros [|y b]; cbn; try done.
  intros [= Hl]. destruct (Z.eqb_spec (swrap 8 (schar x - schar y)) 0) as [E|E].
  - apply schar_diff_0 in E. rewrite IH by done. naive_solver.
  - split; [done|]. intros [= -> ->]. destruct E. by apply schar_diff_0.
Qed.

Lemma first_diff_prefix p x y : x <> y ->
  first_diff (p ++ [x]) (p ++ [y]) = swrap 8 (schar x - schar y).
Proof.
  intros Hxy. induction p as [|c p IH]; cbn.
  - by destruct (_ =? 0) eqn:E; [|done]; apply Z.eqb_eq, schar_diff_0 in E.
  - by rewrite Z.sub_diag.
Qed.

Lemma schar_diff x y : swrap 8 (schar x - schar y) = swrap 8 (uchar x - uchar y).
Proof.
  unfold schar. destruct (swrap_diff 8 ltac:(lia) (uchar x)) as [p ->].
  destruct (swrap_diff 8 ltac:(lia) (uchar y)) as [q ->].
  replace (uchar x + p * 2 ^ 8 - (uchar y + q * 2 ^ 8)) with (uchar x - uchar y + (p - q) * 2 ^ 8) by lia.
  by apply swrap_add_mult.
Qed.

Lemma memcmp_correct m b1 b2 l1 l2 (i1 i2 n : nat) :
  block_bytes m b1 = Some l1 -> block_bytes m b2 = Some l2 ->
  (i1 + n <= length l1)%nat -> (i2 + n <= length l2)%nat -> Z.of_nat n < 2 ^ 64 ->
  memcmp (Ptr b1 (Z.of_nat i1)) (Ptr b2 (Z.of_nat i2)) (Z.of_nat n) m =
    Ok (first_diff (take n (drop i1 l1)) (take n (drop i2 l2))) m.
Proof.
  intros H1 H2 Hi1 Hi2 Hn.
  set (rest j := first_diff (take (n - j) (drop (i1 + j) l1)) (take (n - j) (drop (i2 + j) l2))).
  assert (wp (memcmp (Ptr b1 (Z.of_nat i1)) (Ptr b2 (Z.of_nat i2)) (Z.of_nat n)) m
    (fun r m' => r = rest 0%nat /\ m' = m) nostop) as W.
  { unfold memcmp. rewrite Nat2Z.id.
    apply (wp_iter _ (fun st m' => exists j, (j <= n)%nat /\ st = (Z.of_nat j, 0) /\ m' = m /\
        rest 0%nat = rest j) (fun st _ => Z.to_nat (Z.of_nat n - fst st))).
    - intros st m' (j & Hj & -> & -> & E). unfold memcmp_body.
      destruct (Z.ltb_spec (Z.of_nat j) (Z.of_nat n)) as [L|L].
      + destruct (lookup_lt_is_Some_2 l1 (i1 + j)%nat ltac:(lia)) as [x Hx].
        destruct (lookup_lt_is_Some_2 l2 (i2 + j)%nat ltac:(lia)) as [y Hy].
        apply wp_bind. eapply wp_load_char; [done|by rewrite Nat2Z.inj_add|done|].
        apply wp_bind. eapply wp_load_char; [done|by rewrite Nat2Z.inj_add|done|].
        assert (rest j = if swrap 8 (schar x - schar y) =? 0 then rest (S j)
                         else swrap 8 (schar x - schar y)) as E'.
        { unfold rest. replace (n - j)%nat with (S (n - S j)) by lia.
          rewrite (drop_S _ _ _ Hx), (drop_S _ _ _ Hy), !Nat.add_succ_r. done. }
        destruct (Z.eqb_spec (swrap 8 (schar x - schar y)) 0) as [E0|E0].
        * apply wp_ret. rewrite uwrap_small by lia. split; [|cbn; lia].
          exists (S j). split_and!; [lia| |done|congruence].
          rewrite E0. f_equal. lia.
        * apply wp_ret. split; [congruence|done].
      + apply wp_ret. split; [|done]. rewrite E. unfold rest.
        replace (n - j)%nat with 0%nat by lia. done.
    - exists 0%nat. split_and!; [lia|done..].
    - cbn. lia. }
  apply wp_ok in W as (r & m' & -> & -> & ->). unfold rest.
  by rewrite Nat.sub_0_r, !Nat.add_0_r.
Qed.

(** ** Strings *)

Lemma strlen_correct m b i s :
  cstr m b i s -> Z.of_nat (length s) < 2 ^ 64 ->
  nolibc_strlen (Ptr b (Z.of_nat i)) m = Ok (Z.of_nat (length s)) m.
Proof.
  intros (l & Hb & Hs & H0 & Hlen)%cstr_inv Hsz.
  assert (wp (nolibc_strlen (Ptr b (Z.of_nat i))) m
    (fun r m' => r = Z.of_nat (length s) /\ m' = m) nostop) as W.
  { unfold nolibc_strlen. apply wp_bind. eapply wp_eq; [reflexivity|].
    rewrite (bytes_left_at _ _ _ _ Hb).
    apply (wp_iter _ (fun len m' => exists j, (j <= length s)%nat /\ len = Z.of_nat j /\ m' = m)
      (fun len _ => Z.to_nat (Z.of_nat (length s) - len))).
    - intros len m' (j & Hj & -> & ->). unfold strlen_body. apply wp_bind.
      destruct (decide (j = length s)) as [->|Hne].
      + eapply wp_load_char; [done|by rewrite Nat2Z.inj_add|done|].
        rewrite decide_True by done. by apply wp_ret.
      + destruct (lookup_lt_is_Some_2 s j ltac:(lia)) as [c Hc]. apply Hs in Hc as [Hc Hc0].
        eapply wp_load_char; [done|by rewrite Nat2Z.inj_add|done|].
        rewrite decide_False by done. apply wp_ret. rewrite uwrap_small by lia.
        split; [|lia]. exists (S j). split_and!; [lia..|done].
    - by exists 0%nat; split_and!; [lia|..].
    - lia. }
  apply wp_ok in W as (r & m' & -> & -> & ->). done.
Qed.

(** Without a terminator the search runs off the end of the object. *)
Lemma strlen_unterminated m b l i :
  block_bytes m b = Some l -> x00 ∉ drop i l -> Z.of_nat (length l) < 2 ^ 64 ->
  (i <= length l)%nat ->
  nolibc_strlen (Ptr b (Z.of_nat i)) m = Stop (Fault FBounds).
Proof.
  intros Hb Hno Hsz Hi.
  assert (wp (nolibc_strlen (Ptr b (Z.of_nat i))) m (fun _ _ => False)
    (fun e => e = Fault FBounds)) as W.
  { unfold nolibc_strlen. apply wp_bind. eapply wp_eq; [reflexivity|].
    rewrite (bytes_left_at _ _ _ _ Hb).
    apply (wp_iter _ (fun len m' => exists j, (i + j <= length l)%nat /\ len = Z.of_nat j /\ m' = m)
      (fun len _ => Z.to_nat (Z.of_nat (length l - i) - len))).
    - intros len m' (j & Hj & -> & ->). unfold strlen_body. apply wp_bind.
      destruct (decide ((i + j)%nat = length l)) as [E|Hne].
      + unfold wp. cbn [padd]. rewrite (load_char_out _ _ l); [done|done|lia].
      + destruct (lookup_lt_is_Some_2 l (i + j) ltac:(lia)) as [c Hc].
        eapply wp_load_char; [done|by rewrite Nat2Z.inj_add|done|].
        rewrite decide_False.
        * apply wp_ret. rewrite uwrap_small by lia.
          split; [|lia]. exists (S j). split_and!; [lia..|done].
        * intros ->. apply Hno. apply (list_elem_of_lookup_2 _ j). by rewrite lookup_drop.
    - by exists 0%nat; split_and!; [lia|..].
    - lia. }
  unfold wp in W. destruct (nolibc_strlen _ m); [done|]. by rewrite W.
Qed.

(** Through a dangling pointer nothing is read. *)
Lemma strlen_dead m n o : m_objs m !! n = None -> nolibc_strlen (Ptr (BVar n) o) m = Stop (Fault FDead).
Proof.
  intros Hn. unfold nolibc_strlen. rewrite bind_get, iter_S. unfold strlen_body.
  rewrite (bind_stop _ _ _ (Fault FDead)); [done|]. by apply load_char_dead.
Qed.

Lemma strchr_correct m b i s c :
  cstr m b i s ->
  strchr (Ptr b (Z.of_nat i)) c m =
    Ok (match list_find (fun x => schar x = swrap 8 c) s with
        | Some (j, _) => Ptr b (Z.of_nat (i + j))
        | None => Null
        end) m.
Proof.
  intros (l & Hb & Hs & H0 & Hlen)%cstr_inv.
  set (P := fun x => schar x = swrap 8 c).
  set (res := match list_find P s with Some (j, _) => Ptr b (Z.of_nat (i + j)) | None => Null end).
  assert (wp (strchr (Ptr b (Z.of_nat i)) c) m (fun r m' => r = res /\ m' = m) nostop) as W.
  { unfold strchr. apply wp_bind. eapply wp_eq; [reflexivity|].
    rewrite (bytes_left_at _ _ _ _ Hb).
    apply (wp_iter _ (fun p m' => exists j, (j <= length s)%nat /\
        p = Ptr b (Z.of_nat (i + j)) /\ m' = m /\ Forall (fun x => ~ P x) (take j s))
      (fun p m' => bytes_left m' p)).
    - intros p m' (j & Hj & -> & -> & Hpre). unfold strchr_body. apply wp_bind.
      destruct (decide (j = length s)) as [->|Hne].
      + eapply wp_load_char; [done..|]. rewrite decide_True by done. apply wp_ret.
        split; [|done]. unfold res. rewrite firstn_all in Hpre.
        destruct (list_find P s) as [[]|] eqn:E; [|done].
        apply list_find_Some in E as (E1 & E2 & _).
        exfalso. eapply Forall_lookup_1 in Hpre; [|exact E1]. done.
      + destruct (lookup_lt_is_Some_2 s j ltac:(lia)) as [x Hx].
        pose proof (Hs _ _ Hx) as [Hx' Hx0].
        eapply wp_load_char; [done..|]. rewrite decide_False by done.
        destruct (Z.eqb_spec (schar x) (swrap 8 c)) as [E|E]; apply wp_ret.
        * split; [|done]. unfold res.
          rewrite (proj2 (list_find_Some P s j x)); [done|]. split_and!; [done|done|].
          intros k y Hy Hk. eapply Forall_lookup_1 in Hpre; [exact Hpre|].
          rewrite lookup_take. by rewrite decide_True by done.
        * split.
          { exists (S j). split_and!; [lia|cbn; f_equal; lia|done|].
            rewrite (take_S_r _ _ _ Hx). apply Forall_app. split; [done|]. by constructor. }
          { cbn. rewrite Hb. lia. }
    - exists 0%nat. split_and!; [lia|by rewrite Nat.add_0_r|done|by constructor].
    - rewrite (bytes_left_at _ _ _ _ Hb). lia. }
  apply wp_ok in W as (r & m' & -> & -> & ->). done.
Qed.

(** The copy of a string, [k] bytes of it done. *)
Section strcpy.
Context (m : mem) (bs : block) (nd : positive) (l ld s : list byte) (i d : nat).
Hypothesis Hb : block_bytes m bs = Some l.
Hypothesis Hn : m_objs m !! nd = Some (OBytes ld).
Hypothesis Hd : (d + length s < length ld)%nat.
Hypothesis Hov : bs = BVar nd -> (d + length s < i)%nat \/ (i + length s < d)%nat.

Definition strcpy_upto (k : nat) : mem := set_obj m nd (OBytes (list_inserts d (take k s) ld)).

(** What is still to be strcpy_upto is as it was, *)
Lemma strcpy_load k j c Q X : (k <= length s)%nat -> (j <= length s)%nat ->
  l !! (i + j)%nat = Some c -> Q c (strcpy_upto k) ->
  wp (load_char (Ptr bs (Z.of_nat (i + j)))) (strcpy_upto k) Q X.
Proof.
  intros Hk Hj Hc HQ. destruct (decide (bs = BVar nd)) as [E|E].
  - specialize (Hov E). pose proof Hb as Hb'. rewrite E in Hb' |- *. apply block_bytes_var_inv in Hb'.
    assert (l = ld) as El by congruence. rewrite El in Hc.
    eapply wp_load_char; [apply block_bytes_set_eq|done| |done].
    destruct Hov; [rewrite list_lookup_inserts_ge|rewrite list_lookup_inserts_lt];
      rewrite ?length_take; first [done|lia].
  - eapply wp_load_char; [unfold strcpy_upto; by rewrite block_bytes_set_ne|done..].
Qed.

(** and the next byte is put after those copied. *)
Lemma strcpy_store k c (Q : unit -> mem -> Prop) X : (k <= length s)%nat ->
  Q tt (set_obj m nd (OBytes (list_inserts d (take k s ++ [c]) ld))) ->
  wp (store_char (Ptr (BVar nd) (Z.of_nat (d + k))) c) (strcpy_upto k) Q X.
Proof.
  intros Hk HQ. eapply wp_store_char; [apply set_obj_eq|done| |].
  - rewrite length_inserts. lia.
  - unfold strcpy_upto. rewrite set_obj_set_obj. rewrite <- insert_inserts_snoc in HQ.
    rewrite length_take, Nat.min_l in HQ by lia. done.
Qed.
End strcpy.

Lemma strcpy_correct m bs nd ld (i d : nat) s :
  cstr m bs i s -> m_objs m !! nd = Some (OBytes ld) ->
  (d + length s < length ld)%nat ->
  (bs = BVar nd -> (d + length s < i)%nat \/ (i + length s < d)%nat) ->
  strcpy (Ptr (BVar nd) (Z.of_nat d)) (Ptr bs (Z.of_nat i)) m =
    Ok (Ptr (BVar nd) (Z.of_nat d)) (set_obj m nd (OBytes (list_inserts d (s ++ [x00]) ld))).
Proof.
  intros (l & Hb & Hs & H0 & Hlen)%cstr_inv Hn Hd Hov.
  set (fin := set_obj m nd (OBytes (list_inserts d (s ++ [x00]) ld))).
  assert (wp (strcpy (Ptr (BVar nd) (Z.of_nat d)) (Ptr bs (Z.of_nat i))) m
    (fun r m' => r = Ptr (BVar nd) (Z.of_nat d) /\ m' = fin) nostop) as W.
  { unfold strcpy. apply wp_bind. eapply wp_eq; [reflexivity|].
    rewrite (bytes_left_at _ _ _ _ Hb). apply wp_bind.
    apply wp_mono with (Q := fun _ m' => m' = fin); [intros; by apply wp_ret|].
    apply (wp_iter _ (fun st m' => exists k, (k <= length s)%nat /\
        st = (Ptr (BVar nd) (Z.of_nat (d + k)), Ptr bs (Z.of_nat (i + k))) /\ m' = strcpy_upto m nd ld s d k)
      (fun st _ => match snd st with Ptr _ o => Z.to_nat (Z.of_nat (i + length s) - o) | Null => 0%nat end)).
    - intros st m' (k & Hk & -> & ->). unfold strcpy_body. apply wp_bind.
      destruct (decide (k = length s)) as [->|Hne].
      + eapply strcpy_load; [done..|]. apply wp_bind. eapply strcpy_store; [done..|].
        rewrite decide_True by done. apply wp_ret. by rewrite firstn_all.
      + destruct (lookup_lt_is_Some_2 s k ltac:(lia)) as [c Hc].
        pose proof (Hs _ _ Hc) as [Hc' Hc0].
        eapply strcpy_load; [done..|]. apply wp_bind. eapply strcpy_store; [done..|].
        rewrite decide_False by done. apply wp_ret. split; [|cbn; lia].
        exists (S k). split_and!; [lia|cbn; do 2 f_equal; lia|].
        unfold strcpy_upto. by rewrite (take_S_r _ _ _ Hc).
    - exists 0%nat. split_and!; [lia|by rewrite !Nat.add_0_r|].
      unfold strcpy_upto. cbn. by rewrite set_obj_id.
    - cbn. lia. }
  apply wp_ok in W as (r & m' & -> & -> & ->). done.
Qed.

(** ** What the functions do *)

(** C28: [memmove] and [memcpy] copy [k] bytes and return the destination, also
    when the two ranges overlap in one object in either direction; nothing
    else in the memory changes. *)
Theorem memmove_copies m bs nd ls ld (s d k : nat) :
  block_bytes m bs = Some ls -> m_objs m !! nd = Some (OBytes ld) ->
  (s + k <= length ls)%nat -> (d + k <= length ld)%nat -> Z.of_nat k < 2 ^ 63 ->
  let dst := Ptr (BVar nd) (Z.of_nat d) in
  let src := Ptr bs (Z.of_nat s) in
  let m' := set_obj m nd (OBytes (take d ld ++ take k (drop s ls) ++ drop (d + k) ld)) in
  memmove dst src (Z.of_nat k) m = Ok dst m' /\ memcpy dst src (Z.of_nat k) m = Ok dst m'.
Proof.
  intros Hs Hd Hsk Hdk Hk dst src m'.
  assert (memmove dst src (Z.of_nat k) m = Ok dst m') as E; [|by split].
  unfold m'. replace (take d ld ++ _) with (list_inserts d (take k (drop s ls)) ld).
  - by apply memmove_correct.
  - rewrite inserts_split; rewrite length_take, length_drop, Nat.min_l by lia; [done|lia].
Qed.

(** [memset] sets [k] bytes to the low byte of its argument and returns
    the destination; nothing else changes. *)
Theorem memset_fills m nd ld (d k : nat) b :
  m_objs m !! nd = Some (OBytes ld) -> (d + k <= length ld)%nat -> Z.of_nat k < 2 ^ 64 ->
  memset (Ptr (BVar nd) (Z.of_nat d)) b (Z.of_nat k) m =
    Ok (Ptr (BVar nd) (Z.of_nat d))
       (set_obj m nd (OBytes (take d ld ++ replicate k (byte_of_Z b) ++ drop (d + k) ld))).
Proof.
  intros Hn Hd Hk. rewrite (memset_correct _ _ _ _ _ _ Hn Hd Hk). do 3 f_equal.
  rewrite inserts_split; rewrite length_replicate; [done|lia].
Qed.

(** [memcmp] leaves the memory alone and returns 0 exactly when the two
    ranges hold the same bytes. *)
Theorem memcmp_zero_iff m b1 b2 l1 l2 (i1 i2 n : nat) :
  block_bytes m b1 = Some l1 -> block_bytes m b2 = Some l2 ->
  (i1 + n <= length l1)%nat -> (i2 + n <= length l2)%nat -> Z.of_nat n < 2 ^ 64 ->
  exists r, memcmp (Ptr b1 (Z.of_nat i1)) (Ptr b2 (Z.of_nat i2)) (Z.of_nat n) m = Ok r m /\
    (r = 0 <-> take n (drop i1 l1) = take n (drop i2 l2)).
Proof.
  intros H1 H2 Hi1 Hi2 Hn. eexists.
  split; [by apply memcmp_correct|]. apply first_diff_eq.
  rewrite !length_take, !length_drop. lia.
Qed.


(** C39: [nolibc_strlen] returns the length of the C string at its argument
    when there is one, and otherwise reads past the end of the object. *)
Theorem strlen_total m b l (i : nat) :
  block_bytes m b = Some l -> (i <= length l)%nat -> Z.of_nat (length l) < 2 ^ 64 ->
  nolibc_strlen (Ptr b (Z.of_nat i)) m =
    match take_cstr (drop i l) with
    | Some s => Ok (Z.of_nat (length s)) m
    | None => Stop (Fault FBounds)
    end.
Proof.
  intros Hb Hi Hsz. destruct (take_cstr (drop i l)) as [s|] eqn:E.
  - apply take_cstr_spec in E as (rest & E & Hs).
    apply strlen_correct; [by exists l, rest|].
    apply (f_equal length) in E. rewrite length_drop, length_app in E. cbn in E. lia.
  - apply (strlen_unterminated _ _ l); [done| |done|done]. intros Hin.
    apply list_elem_of_split_l in Hin as (s & rest & Es & Hs).
    assert (take_cstr (drop i l) = Some s) as Et; [|congruence].
    apply take_cstr_spec. by exists rest.
Qed.

(** [strchr] finds the first byte of the string equal to its [char]
    argument; the terminator is never found. *)
Theorem strchr_finds m b i s c :
  cstr m b i s ->
  strchr (Ptr b (Z.of_nat i)) c m =
    Ok (match list_find (fun x => schar x = swrap 8 c) s with
        | Some (j, _) => Ptr b (Z.of_nat (i + j))
        | None => Null
        end) m /\
  strchr (Ptr b (Z.of_nat i)) 0 m = Ok Null m.
Proof.
  intros Hs. split; [by apply strchr_correct|]. rewrite (strchr_correct _ _ _ _ _ Hs).
  destruct (list_find _ s) as [[j x]|] eqn:E; [|done].
  apply list_find_Some in E as (Hj & Hx & _). destruct Hs as (l & rest & _ & _ & H0).
  exfalso. apply H0. apply (list_elem_of_lookup_2 _ j). rewrite Hj. f_equal.
  apply schar_inj. by rewrite Hx.
Qed.

(** [strcpy] copies a string and its terminator, provided the destination
    has room and does not overlap it; nothing else changes. *)
Theorem strcpy_copies m bs nd ld (i d : nat) s :
  cstr m bs i s -> m_objs m !! nd = Some (OBytes ld) ->
  (d + length s < length ld)%nat ->
  (bs = BVar nd -> (d + length s < i)%nat \/ (i + length s < d)%nat) ->
  exists m', strcpy (Ptr (BVar nd) (Z.of_nat d)) (Ptr bs (Z.of_nat i)) m =
      Ok (Ptr (BVar nd) (Z.of_nat d)) m' /\
    cstr m' (BVar nd) d s /\
    m' = set_obj m nd (OBytes (take d ld ++ (s ++ [x00]) ++ drop (d + length s + 1) ld)).
Proof.
  intros Hs Hn Hd Hov. eexists. split; [by apply strcpy_correct|].
  assert (list_inserts d (s ++ [x00]) ld = take d ld ++ (s ++ [x00]) ++ drop (d + length s + 1) ld) as E.
  { rewrite inserts_split; rewrite length_app; cbn [length]; [by rewrite Nat.add_assoc|lia]. }
  rewrite E. split; [|done]. eexists _, (drop (d + length s + 1) ld).
  split_and!; [apply block_bytes_set_eq| |by destruct Hs as (? & ? & _ & _ & ?)].
  rewrite drop_app_length' by (rewrite length_take; lia). by rewrite <- app_assoc.
Qed.

(** ** The theorems at work *)

Definition sample : mem := mem_of [OBytes (lit "abcdef"); OBytes (lit "hi there" ++ [x00; x2a])].

(** "abcdef" moved up by two inside itself. *)
Lemma memmove_copies_witness :
  memmove (Ptr (BVar 1) 2) (Ptr (BVar 1) 0) 4 sample =
    Ok (Ptr (BVar 1) 2) (set_obj sample 1 (OBytes (lit "ababcd"))) /\
  memcpy (Ptr (BVar 1) 2) (Ptr (BVar 1) 0) 4 sample =
    Ok (Ptr (BVar 1) 2) (set_obj sample 1 (OBytes (lit "ababcd"))).
Proof.
  exact (memmove_copies sample (BVar 1) 1 (lit "abcdef") (lit "abcdef") 0 2 4
    eq_refl eq_refl ltac:(cbn; lia) ltac:(cbn; lia) ltac:(lia)).
Defined.

Lemma memset_fills_witness :
  memset (Ptr (BVar 1) 1) 322 3 sample =
    Ok (Ptr (BVar 1) 1) (set_obj sample 1 (OBytes (lit "aBBBef"))).
Proof.
  exact (memset_fills sample 1 (lit "abcdef") 1 3 322 eq_refl ltac:(cbn; lia) ltac:(lia)).
Defined.

Lemma memcmp_zero_iff_witness :
  exists r, memcmp (Ptr (BVar 1) 2) (Ptr (BLit "cdx") 0) 2 sample = Ok r sample /\
    (r = 0 <-> lit "cd" = lit "cd").
Proof.
  exact (memcmp_zero_iff sample (BVar 1) (BLit "cdx") (lit "abcdef") _ 2 0 2 eq_refl eq_refl
    ltac:(cbn; lia) ltac:(cbn; lia) ltac:(lia)).
Defined.


Lemma strlen_total_witness :
  nolibc_strlen (Ptr (BVar 2) 3) sample = Ok 5 sample /\
  nolibc_strlen (Ptr (BVar 1) 3) sample = Stop (Fault FBounds).
Proof.
  split.
  - exact (strlen_total sample (BVar 2) _ 3 eq_refl ltac:(cbn; lia) ltac:(cbn; lia)).
  - exact (strlen_total sample (BVar 1) _ 3 eq_refl ltac:(cbn; lia) ltac:(cbn; lia)).
Defined.

Lemma strchr_finds_witness :
  strchr (Ptr (BVar 2) 0) 104 sample = Ok (Ptr (BVar 2) 0) sample /\
  strchr (Ptr (BVar 2) 0) 0 sample = Ok Null sample.
Proof.
  exact (strchr_finds sample (BVar 2) 0 (lit "hi there") 104
    (proj1 (read_cstr_spec sample (BVar 2) 0 (lit "hi there")) eq_refl)).
Defined.

Lemma strcpy_copies_witness :
  exists m', strcpy (Ptr (BVar 1) 1) (Ptr (BVar 2) 4) sample = Ok (Ptr (BVar 1) 1) m' /\
    cstr m' (BVar 1) 1 (lit "here") /\
    m' = set_obj sample 1 (OBytes (lit "ahere" ++ [x00])).
Proof.
  exact (strcpy_copies sample (BVar 2) 1 (lit "abcdef") 4 1 (lit "here")
    (proj1 (read_cstr_spec sample (BVar 2) 4 (lit "here")) eq_refl) eq_refl ltac:(cbn; lia)
    ltac:(discriminate)).
Defined.
