(* ===== verification/Decimal.v ===== *)
(** * util/util.c: [int_to_str] and [ltoa]

    The two integer printers fill a buffer of 21 bytes from its end.  The
    reference is [dec_Z], the canonical decimal notation, with the parser
    [parse_Z] that reads it back. *)

From S2P Require Import Prelude Outcome CMem.

(** ** Reference: decimal notation *)

Definition digit (d : Z) : byte := byte_of_Z (48 + d).

Fixpoint udec_fuel (fuel : nat) (n : Z) : list byte :=
  match fuel with
  | O => []
  | S f => if n <? 10 then [digit n] else udec_fuel f (n / 10) ++ [digit (n mod 10)]
  end.

Definition udec (n : Z) : list byte := udec_fuel (S (Z.to_nat (Z.log2 n))) n.

Definition dec_Z (z : Z) : list byte :=
  if z <? 0 then x2d :: udec (- z) else udec z.

Definition digit_val (b : byte) : option Z :=
  let d := uchar b - 48 in if (0 <=? d) && (d <? 10) then Some d else None.

Fixpoint parse_digits (acc : Z) (l : list byte) : option Z :=
  match l with
  | [] => Some acc
  | b :: l' => d ← digit_val b; parse_digits (10 * acc + d) l'
  end.

Definition parse_Z (l : list byte) : option Z :=
  match l with
  | [] => None
  | b :: l' =>
      if decide (b = x2d) then match l' with [] => None | _ => Z.opp <$> parse_digits 0 l' end
      else parse_digits 0 l
  end.

(** ** The printers *)

(** [do { *pos-- = '0' + n % 10; n /= 10; if (pos < buffer) return pos + 1; }
    while (n);]  The loop is left with the flag [true] by the early return. *)
Definition digits_body (buf : ptr) (st : ptr * Z) : memM ((ptr * Z) + (bool * ptr)) :=
  let '(pos, n) := st in
  _ ← store_char pos (byte_of_Z (48 + n mod 10));
  let pos := padd pos (-1) in
  let n := n / 10 in
  m ← get;
  if addr m pos <? addr m buf then mret (inr (true, pos))
  else if n =? 0 then mret (inr (false, pos))
  else mret (inl (pos, n)).

(** [neg ? -in : in] at the width of [long]: the negation of the least value
    overflows.  The result is converted to [unsigned long]. *)
Definition magnitude (inp : Z) : memM Z :=
  if inp <? 0 then
    if inp =? - 2 ^ 63 then fail FOverflow else mret (uwrap 64 (- inp))
  else mret (uwrap 64 inp).

(** The common body of the two functions over the 21 bytes at [buf]; the
    result is the [pos + 1] they return. *)
Definition print_long (buf : ptr) (inp : Z) : memM ptr :=
  let pos := padd buf (21 - 1) in
  n ← magnitude inp;
  _ ← store_char pos x00;
  r ← iter 22 (digits_body buf) (padd pos (-1), n);
  let '(early, pos) := (r : bool * ptr) in
  if early then mret (padd pos 1)
  else if inp <? 0 then
    _ ← store_char pos x2d;
    mret (padd (padd pos (-1)) 1)
  else mret (padd pos 1).

(** The structure [int_to_str] returns by value. *)
Record intstr : Type := Intstr { str : ptr; val : list byte }.

(** The local [buffer] dies at the return; the value copied out keeps the
    pointer into it. *)
Definition int_to_str (inp : Z) : memM intstr :=
  buf ← alloc_bytes 21;
  p ← print_long buf inp;
  m ← get;
  v ← need FType (match buf with Ptr b _ => block_bytes m b | Null => None end);
  _ ← free buf;
  mret {| str := p; val := v |}.

(** The object of [static char buffer[21]] in [ltoa]. *)
Definition ltoa_buffer : positive := 1.

Definition ltoa (inp : Z) : memM ptr := print_long (Ptr (BVar ltoa_buffer) 0) inp.

(** ** The reference notation *)

Lemma log2_div10 n : 10 <= n -> Z.log2 (n / 10) < Z.log2 n.
Proof.
  intros. apply Z.le_lt_trans with (Z.log2 (n / 2)).
  - apply Z.log2_le_mono. apply Z.div_le_compat_l; lia.
  - rewrite <- Z.div2_div, Z.div2_spec, Z.log2_shiftr by lia.
    assert (3 <= Z.log2 n) by (change 3 with (Z.log2 10); by apply Z.log2_le_mono). lia.
Qed.

Lemma udec_fuel_enough f g n : 0 <= n ->
  (Z.to_nat (Z.log2 n) < f)%nat -> (Z.to_nat (Z.log2 n) < g)%nat ->
  udec_fuel f n = udec_fuel g n.
Proof.
  revert g n. induction f as [|f IH]; intros g n Hn Hf Hg; [lia|].
  destruct g as [|g]; [lia|]. cbn. destruct (Z.ltb_spec n 10); [done|].
  pose proof (log2_div10 n ltac:(lia)). pose proof (Z.log2_nonneg (n / 10)).
  f_equal. apply IH; [apply Z.div_pos; lia|lia..].
Qed.

Lemma udec_fuel_S f n :
  udec_fuel (S f) n = if n <? 10 then [digit n] else udec_fuel f (n / 10) ++ [digit (n mod 10)].
Proof. done. Qed.

Lemma udec_unfold n : 0 <= n ->
  udec n = if n <? 10 then [digit n] else udec (n / 10) ++ [digit (n mod 10)].
Proof.
  intros Hn. unfold udec at 1. rewrite udec_fuel_S. destruct (Z.ltb_spec n 10); [done|].
  pose proof (log2_div10 n ltac:(lia)). pose proof (Z.log2_nonneg (n / 10)).
  f_equal. apply udec_fuel_enough; [apply Z.div_pos; lia|lia..].
Qed.

Lemma udec_length n k : 0 <= n < 10 ^ Z.of_nat (S k) -> (length (udec n) <= S k)%nat.
Proof.
  revert n. induction k as [|k IH]; intros n Hn; rewrite udec_unfold by lia.
  - destruct (Z.ltb_spec n 10); [done|]. cbn in Hn. lia.
  - destruct (Z.ltb_spec n 10); [cbn; lia|]. rewrite length_app. cbn [length].
    enough (length (udec (n / 10)) <= S k)%nat by lia. apply IH.
    rewrite (Nat2Z.inj_succ (S k)), Z.pow_succ_r in Hn by lia.
    split; [apply Z.div_pos; lia|]. apply Z.div_lt_upper_bound; lia.
Qed.

Lemma digit_uchar d : 0 <= d < 10 -> uchar (digit d) = 48 + d.
Proof. intros. unfold digit. rewrite uchar_byte_of_Z, Z.mod_small; lia. Qed.

Lemma digit_val_digit d : 0 <= d < 10 -> digit_val (digit d) = Some d.
Proof.
  intros. unfold digit_val. rewrite digit_uchar by done.
  replace (48 + d - 48) with d by lia.
  rewrite (proj2 (andb_true_iff _ _)); [done|lia].
Qed.

Lemma parse_digits_app acc l l' :
  parse_digits acc (l ++ l') = a ← parse_digits acc l; parse_digits a l'.
Proof.
  revert acc. induction l as [|b l IH]; intros acc; cbn; [done|].
  destruct (digit_val b); cbn; [apply IH|done].
Qed.

(** Induction following the decimal notation. *)
Lemma dec_ind (P : Z -> Prop) :
  (forall n, 0 <= n < 10 -> P n) -> (forall n, 10 <= n -> P (n / 10) -> P n) ->
  forall n, 0 <= n -> P n.
Proof.
  intros Hb Hs n Hn. pattern n. apply Zlt_0_ind; [|done]. clear n Hn.
  intros n IH Hn. destruct (Z.ltb_spec n 10); [apply Hb; lia|].
  apply Hs; [done|]. apply IH.
  split; [apply Z.div_pos; lia|apply Z.div_lt; lia].
Qed.

Lemma parse_udec n : 0 <= n -> parse_digits 0 (udec n) = Some n.
Proof.
  revert n. apply dec_ind; intros n Hn.
  - rewrite udec_unfold by lia. rewrite (proj2 (Z.ltb_lt _ _)) by lia.
    cbn. rewrite digit_val_digit by done. cbn. f_equal; lia.
  - intros IH. rewrite udec_unfold by lia. rewrite (proj2 (Z.ltb_ge _ _)) by lia.
    rewrite parse_digits_app, IH. cbn.
    rewrite digit_val_digit by (apply Z.mod_pos_bound; lia). cbn. f_equal.
    pose proof (Z.div_mod n 10 ltac:(lia)). lia.
Qed.

(** The notation is never empty, and consists of digits. *)
Lemma udec_digits n : 0 <= n ->
  udec n <> [] /\ Forall (fun b => 48 <= uchar b < 58) (udec n).
Proof.
  revert n. apply dec_ind; intros n Hn.
  - rewrite udec_unfold by lia. rewrite (proj2 (Z.ltb_lt _ _)) by lia.
    split; [done|]. constructor; [rewrite digit_uchar; lia|done].
  - intros [IH1 IH2]. rewrite udec_unfold by lia. rewrite (proj2 (Z.ltb_ge _ _)) by lia.
    pose proof (Z.mod_pos_bound n 10 ltac:(lia)).
    split; [by intros [? ?]%app_eq_nil|]. apply Forall_app. split; [done|].
    constructor; [rewrite digit_uchar; lia|done].
Qed.

Lemma parse_dec z : parse_Z (dec_Z z) = Some z.
Proof.
  unfold dec_Z. destruct (Z.ltb_spec z 0).
  - pose proof (udec_digits (- z) ltac:(lia)) as [Hne _].
    pose proof (parse_udec (- z) ltac:(lia)) as Hp.
    unfold parse_Z. rewrite decide_True by done.
    destruct (udec (- z)) as [|b l]; [done|]. rewrite Hp. cbn. f_equal. lia.
  - pose proof (udec_digits z ltac:(lia)) as [Hne Hd].
    pose proof (parse_udec z ltac:(lia)) as Hp.
    destruct (udec z) as [|b l]; [done|]. unfold parse_Z.
    inversion Hd as [|? ? Hb _]. subst.
    rewrite decide_False; [done|]. intros ->. vm_compute in Hb. destruct Hb. done.
Qed.

Lemma nul_notin_dec z : x00 ∉ dec_Z z.
Proof.
  assert (forall n, 0 <= n -> x00 ∉ udec n) as Hu.
  { intros n Hn Hin. destruct (udec_digits n Hn) as [_ Hd].
    apply list_elem_of_lookup in Hin as [i Hi]. eapply Forall_lookup_1 in Hd; [|exact Hi]. vm_compute in Hd. destruct Hd. done. }
  unfold dec_Z. destruct (Z.ltb_spec z 0).
  - rewrite not_elem_of_cons. split; [done|]. apply Hu. lia.
  - apply Hu. lia.
Qed.

(** ** The printers print the reference notation *)

Section print.
Context (m0 : mem) (n0 : positive) (l0 : list byte).
Hypothesis Hn0 : m_objs m0 !! n0 = Some (OBytes l0).
Hypothesis Hlen : length l0 = 21%nat.

Let buf := Ptr (BVar n0) 0.

(** The memory with [acc] and a terminator at the end of the buffer. *)
Definition filled (acc : list byte) : mem :=
  set_obj m0 n0 (OBytes (list_inserts (20 - length acc) (acc ++ [x00]) l0)).

Lemma filled_store acc c (Q : unit -> mem -> Prop) X :
  (length acc < 20)%nat -> Q tt (filled (c :: acc)) ->
  wp (store_char (Ptr (BVar n0) (19 - Z.of_nat (length acc))) c) (filled acc) Q X.
Proof.
  intros Hacc HQ. eapply (wp_store_char _ _ _ _ (19 - length acc)).
  - apply set_obj_eq.
  - lia.
  - rewrite length_inserts. lia.
  - unfold filled in *. rewrite set_obj_set_obj. cbn [length app list_inserts] in HQ.
    replace (20 - S (length acc))%nat with (19 - length acc)%nat in HQ by lia.
    by replace (S (19 - length acc)) with (20 - length acc)%nat in HQ by lia.
Qed.

Lemma filled_cstr acc : (length acc <= 20)%nat -> x00 ∉ acc ->
  cstr (filled acc) (BVar n0) (20 - length acc) acc.
Proof.
  intros Hacc H0. eexists _, []. split_and!; [apply block_bytes_set_eq| |done].
  apply list_eq. intros i. rewrite lookup_drop.
  destruct (decide (i <= length acc)%nat).
  - rewrite list_lookup_inserts; rewrite ?length_app; cbn [length]; [f_equal; lia|lia..].
  - rewrite list_lookup_inserts_ge by (rewrite length_app; cbn [length]; lia).
    rewrite !lookup_ge_None_2; rewrite ?length_app; cbn [length]; [done|lia..].
Qed.

Lemma digits_loop (n : Z) : 0 <= n < 10 ^ 19 ->
  wp (iter 22 (digits_body buf) (Ptr (BVar n0) 19, n)) (filled [])
    (fun r m' => r = (false, Ptr (BVar n0) (19 - Z.of_nat (length (udec n)))) /\
                 m' = filled (udec n)) nostop.
Proof.
  intros Hn. pose proof (udec_length n 18 Hn) as Hlen19.
  apply (wp_iter _ (fun st m' => exists acc k, 0 <= k /\ udec n = udec k ++ acc /\
      st = (Ptr (BVar n0) (19 - Z.of_nat (length acc)), k) /\ m' = filled acc)
    (fun st _ => match fst st with Ptr _ o => S (Z.to_nat o) | Null => 0%nat end)).
  - intros st m' (acc & k & Hk & E & -> & ->). unfold digits_body.
    assert (0 < length (udec k))%nat as Hpos.
    { destruct (udec_digits k Hk) as [Hne _]. by destruct (udec k); [|cbn; lia]. }
    pose proof (f_equal length E) as El. rewrite length_app in El.
    apply wp_bind. apply filled_store; [lia|]. apply wp_bind.
    eapply wp_eq; [reflexivity|]. cbn [addr padd buf].
    rewrite (proj2 (Z.ltb_ge _ _)) by lia.
    rewrite (udec_unfold k) in E by done. fold (digit (k mod 10)).
    destruct (Z.ltb_spec k 10).
    + rewrite (Z.div_small k 10), Z.mod_small by lia. apply wp_ret.
      rewrite E. cbn [app length]. split; [|done]. do 2 f_equal. lia.
    + assert (1 <= k / 10) by (apply Z.div_le_lower_bound; lia).
      rewrite (proj2 (Z.eqb_neq _ _)) by lia. apply wp_ret. split; [|cbn; lia].
      exists (digit (k mod 10) :: acc), (k / 10). split_and!; [lia| | |done].
      * by rewrite E, <- app_assoc.
      * cbn [length]. do 2 f_equal. lia.
  - exists [], n. split_and!; [lia|by rewrite app_nil_r|done..].
  - cbn. lia.
Qed.

Lemma print_long_correct (inp : Z) : - 2 ^ 63 < inp < 2 ^ 63 ->
  print_long buf inp m0 =
    Ok (Ptr (BVar n0) (20 - Z.of_nat (length (dec_Z inp)))) (filled (dec_Z inp)) /\
  (length (dec_Z inp) <= 20)%nat.
Proof.
  intros Hin.
  assert (magnitude inp m0 = Ok (Z.abs inp) m0) as Hmag.
  { unfold magnitude. destruct (Z.ltb_spec inp 0); [rewrite (proj2 (Z.eqb_neq _ _)) by lia|];
      unfold mret, stM_ret; rewrite uwrap_small by lia; f_equal; lia. }
  pose proof (digits_loop (Z.abs inp) ltac:(lia)) as W.
  apply wp_ok in W as (r & m1 & HW & -> & ->).
  pose proof (udec_length (Z.abs inp) 18 ltac:(lia)).
  assert (wp (print_long buf inp) m0 (fun r m' =>
    (r = Ptr (BVar n0) (20 - Z.of_nat (length (dec_Z inp))) /\ m' = filled (dec_Z inp)) /\
    (length (dec_Z inp) <= 20)%nat) nostop) as W.
  { apply wp_bind. eapply wp_eq; [exact Hmag|]. apply wp_bind.
    eapply (wp_store_char _ _ _ _ 20); [done|done|lia|].
    apply wp_bind. eapply wp_eq; [exact HW|]. unfold dec_Z.
    destruct (Z.ltb_spec inp 0).
    - rewrite Z.abs_neq in * by lia. apply wp_bind. apply filled_store; [lia|].
      apply wp_ret. cbn [length]. split_and!; [cbn; f_equal; lia|done|lia].
    - rewrite Z.abs_eq in * by lia. apply wp_ret. split_and!; [cbn; f_equal; lia|done|lia]. }
  apply wp_ok in W as (r & m' & -> & [-> ->] & ?). done.
Qed.
End print.

(** [int_to_str]: the value holds the notation, the pointer dangles. *)
Lemma int_to_str_correct m (inp : Z) :
  - 2 ^ 63 < inp < 2 ^ 63 ->
  exists r m', int_to_str inp m = Ok r m' /\
    take_cstr (drop (20 - length (dec_Z inp)) (val r)) = Some (dec_Z inp) /\
    (forall n, n <> m_next m -> m_objs m' !! n = m_objs m !! n) /\
    str r = Ptr (BVar (m_next m)) (20 - Z.of_nat (length (dec_Z inp))) /\
    m_objs m' !! m_next m = None.
Proof.
  intros Hin. set (l := junk_bytes m 21). set (m0 :=
    {| m_objs := <[m_next m := OBytes l]> (m_objs m); m_next := Pos.succ (m_next m);
       m_base := m_base m; m_junk := m_junk m |}).
  assert (m_objs m0 !! m_next m = Some (OBytes l)) as Hl by apply lookup_insert_eq.
  assert (length l = 21%nat) as Hlen by (unfold l, junk_bytes; by rewrite length_fmap).
  destruct (print_long_correct m0 _ l Hl Hlen inp Hin) as [E Hd].
  pose proof (filled_cstr m0 (m_next m) l Hlen (dec_Z inp) Hd (nul_notin_dec inp))
    as (lb & rest & Hb & Hdr & H0).
  eexists _, _. split_and!.
  - unfold int_to_str. rewrite (bind_ok _ _ m _ _ (eq_refl : alloc_bytes 21 m = Ok (Ptr (BVar (m_next m)) 0) m0)).
    rewrite (bind_ok _ _ _ _ _ E), bind_get. cbv beta iota. rewrite Hb. reflexivity.
  - cbn [val]. apply take_cstr_spec. by exists rest.
  - intros n Hn. cbn. rewrite lookup_delete_ne by done. rewrite lookup_insert_ne by done.
    by rewrite lookup_insert_ne by done.
  - done.
  - cbn. by rewrite lookup_delete_eq.
Qed.

Lemma int_to_str_str m (inp : Z) : - 2 ^ 63 < inp < 0 ->
  exists r m' o, int_to_str inp m = Ok r m' /\ str r = Ptr (BVar (m_next m)) o /\
    m_objs m' !! m_next m = None.
Proof.
  intros Hin. destruct (int_to_str_correct m inp ltac:(lia)) as (r & m' & E & _ & _ & Es & Hd). eauto 10.
Qed.

(** ** What the functions do *)

(** C30: for any [long] but the least, [ltoa] returns a pointer to the decimal
    notation of the number, which reads back as the number, in its own buffer;
    no other object changes. *)
Theorem ltoa_prints m l (inp : Z) :
  m_objs m !! ltoa_buffer = Some (OBytes l) -> length l = 21%nat -> - 2 ^ 63 < inp < 2 ^ 63 ->
  exists p m', ltoa inp m = Ok p m' /\ read_cstr m' p = Some (dec_Z inp) /\
    parse_Z (dec_Z inp) = Some inp /\
    (forall n, n <> ltoa_buffer -> m_objs m' !! n = m_objs m !! n) /\ m_next m' = m_next m.
Proof.
  intros Hl Hlen Hin. destruct (print_long_correct m ltoa_buffer l Hl Hlen inp Hin) as [E Hd].
  eexists _, _. split_and!; [exact E| |apply parse_dec| |done].
  - replace (20 - Z.of_nat (length (dec_Z inp))) with (Z.of_nat (20 - length (dec_Z inp))) by lia.
    apply read_cstr_spec. by apply filled_cstr; [|done|apply nul_notin_dec].
  - intros n Hn. by apply set_obj_ne.
Qed.

(** The buffers are large enough for -9223372036854775808, as their
    comments say, but negating that number overflows in both functions. *)
Theorem least_long_overflows m :
  (length (dec_Z (- 2 ^ 63)) + 1 = 21)%nat /\
  ltoa (- 2 ^ 63) m = Stop (Fault FOverflow) /\ int_to_str (- 2 ^ 63) m = Stop (Fault FOverflow).
Proof. split; [by vm_compute|]. by split. Qed.

(** C31: the structure [int_to_str] returns has the notation in its array, but
    its pointer is to the array of the dead local: any use of it is an access
    to an object whose lifetime ended. *)
Theorem int_to_str_dangles m (inp : Z) :
  - 2 ^ 63 < inp < 2 ^ 63 ->
  exists r m', int_to_str inp m = Ok r m' /\
    take_cstr (drop (20 - length (dec_Z inp)) (val r)) = Some (dec_Z inp) /\
    (forall n, n <> m_next m -> m_objs m' !! n = m_objs m !! n) /\
    load_char (str r) m' = Stop (Fault FDead).
Proof.
  intros Hin. destruct (int_to_str_correct m inp Hin) as (r & m' & E & Hv & Ho & Es & Hd).
  exists r, m'. split_and!; [done|done|done|]. rewrite Es. by apply load_char_dead.
Qed.

(** ** The theorems at work *)

Lemma ltoa_prints_witness :
  exists p m', ltoa (-40) (mem_of [OBytes (replicate 21 x2a)]) = Ok p m' /\
    read_cstr m' p = Some (lit "-40") /\ parse_Z (lit "-40") = Some (-40) /\
    (forall n, n <> ltoa_buffer -> m_objs m' !! n = m_objs (mem_of [OBytes (replicate 21 x2a)]) !! n) /\
    m_next m' = m_next (mem_of [OBytes (replicate 21 x2a)]).
Proof.
  exact (ltoa_prints (mem_of [OBytes (replicate 21 x2a)]) (replicate 21 x2a) (-40)
    eq_refl eq_refl ltac:(lia)).
Defined.

Lemma int_to_str_dangles_witness :
  exists r m', int_to_str 77 (mem_of []) = Ok r m' /\
    take_cstr (drop 18 (val r)) = Some (lit "77") /\
    (forall n, n <> 1%positive -> m_objs m' !! n = m_objs (mem_of []) !! n) /\
    load_char (str r) m' = Stop (Fault FDead).
Proof. exact (int_to_str_dangles (mem_of []) 77 ltac:(lia)). Defined.
