(* ===== verification/Parser.v ===== *)
(** * init/command.c: the command line

    [find_arg], [terminate_arg], [streq] and the loop of [fill_args] over the
    line buffer, which they cut into arguments in place by overwriting blanks
    with terminators.  The reference is [tokens]: the line split at every
    blank, the empty pieces left out. *)

From S2P Require Import Prelude Outcome CMem.

(** ** The functions *)

Definition blank (c : byte) : bool := bool_decide (c = x20) || bool_decide (c = x09).

Definition find_arg_body (str : ptr) : memM (ptr + ptr) :=
  c ← load_char str;
  if blank c then mret (inl (padd str 1)) else mret (inr str).

(** Skip blanks; NULL at the end of the string. *)
Definition find_arg (str : ptr) : memM ptr :=
  m ← get;
  str ← iter (S (bytes_left m str)) find_arg_body str;
  c ← load_char str;
  if decide (c = x00) then mret Null else mret str.

Definition terminate_arg_body (str : ptr) : memM (ptr + ptr) :=
  c ← load_char str;
  if negb (blank c) && negb (bool_decide (c = x00))
  then mret (inl (padd str 1)) else mret (inr str).

(** End the argument at [str]; the result is where the rest of the line
    starts. *)
Definition terminate_arg (str : ptr) : memM ptr :=
  m ← get;
  str ← iter (S (bytes_left m str)) terminate_arg_body str;
  c ← load_char str;
  if decide (c = x00) then mret str
  else
    _ ← store_char str x00;
    mret (padd str 1).

Definition streq_body (st : ptr * ptr) : memM ((ptr * ptr) + bool) :=
  let '(str1, str2) := st in
  c1 ← load_char str1;
  c2 ← load_char str2;
  if decide (c1 <> c2) then mret (inr false)
  else if decide (c1 = x00) then mret (inr true)
  else mret (inl (padd str1 1, padd str2 1)).

Definition streq (str1 str2 : ptr) : memM bool :=
  m ← get;
  iter (S (bytes_left m str1)) streq_body (str1, str2).

(** [while (next != NULL && i < maxargs)] of [fill_args]; the result is the
    last [i]. *)
Definition fill_args_body (maxargs : nat) (args : ptr) (st : nat * ptr) : memM ((nat * ptr) + nat) :=
  let '(i, next) := st in
  if decide (next <> Null /\ (i < maxargs)%nat) then
    temp ← terminate_arg next;
    _ ← store_ptr (padd args (Z.of_nat i)) next;
    next ← find_arg temp;
    mret (inl (S i, next))
  else mret (inr i).

Definition fill_args_loop (maxargs : nat) (args next : ptr) : memM nat :=
  iter (S maxargs) (fill_args_body maxargs args) (0%nat, next).

(** ** Reference: splitting at blanks *)

Fixpoint split_blanks (s : list byte) : list (list byte) :=
  match s with
  | [] => [[]]
  | c :: s' =>
      if blank c then [] :: split_blanks s'
      else match split_blanks s' with
           | t :: ts => (c :: t) :: ts
           | [] => [[c]]
           end
  end.

Definition nonempty (t : list byte) : bool := match t with [] => false | _ => true end.

(** The arguments of a line. *)
Definition tokens (s : list byte) : list (list byte) := filter nonempty (split_blanks s).

(** The arguments [fill_args] finds from a position inside the line: the piece
    up to the next blank, empty or not, then the arguments after it. *)
Definition args_of (s : list byte) : list (list byte) :=
  match split_blanks s with
  | t :: ts => t :: filter nonempty ts
  | [] => []
  end.

(** Length of the longest prefix of bytes satisfying [P]. *)
Fixpoint lead (P : byte -> bool) (s : list byte) : nat :=
  match s with
  | c :: s' => if P c then S (lead P s') else O
  | [] => O
  end.

Definition nonblank (c : byte) : bool := negb (blank c).

Lemma lead_le P s : (lead P s <= length s)%nat.
Proof. induction s; cbn; [done|]. case_match; lia. Qed.

Lemma lead_lookup_lt P s j c : s !! j = Some c -> (j < lead P s)%nat -> P c = true.
Proof.
  revert j. induction s as [|x s IH]; intros j Hj Hlt; [done|]. cbn in Hlt.
  destruct (P x) eqn:E; [|lia]. destruct j; cbn in Hj; [congruence|].
  apply (IH j); [done|lia].
Qed.

Lemma lead_lookup_eq P s c : s !! lead P s = Some c -> P c = false.
Proof.
  induction s as [|x s IH]; [done|]. cbn. destruct (P x) eqn:E; [done|]. cbn. congruence.
Qed.

Lemma split_blanks_ne s : exists t ts, split_blanks s = t :: ts.
Proof. induction s as [|c s (t & ts & IH)]; cbn; [eauto|]. rewrite IH. case_match; eauto. Qed.

(** The first piece ends at the first blank. *)
Lemma args_of_unfold s :
  args_of s =
    take (lead nonblank s) s :: tokens (drop (S (lead nonblank s)) s).
Proof.
  unfold args_of, tokens. induction s as [|c s IH]; [done|]. cbn [split_blanks lead nonblank].
  unfold nonblank at 1 3. destruct (blank c) eqn:E; cbn [negb].
  - done.
  - destruct (split_blanks_ne s) as (t & ts & Es). rewrite Es in *. cbn.
    injection IH as -> ->. done.
Qed.

(** The arguments start after the leading blanks. *)
Lemma tokens_skip s :
  tokens s = match drop (lead blank s) s with [] => [] | s' => args_of s' end.
Proof.
  induction s as [|c s IH]; [done|]. cbn [lead].
  destruct (blank c) eqn:E.
  - unfold tokens in *. cbn [split_blanks drop]. rewrite E. cbn. exact IH.
  - cbn [drop]. unfold tokens, args_of. cbn [split_blanks]. rewrite E.
    by destruct (split_blanks_ne s) as (t & ts & ->).
Qed.

(** An argument is no longer than its line. *)
Lemma tokens_length s t : t ∈ tokens s -> (length t <= length s)%nat.
Proof.
  intros Ht. unfold tokens in Ht. apply list_elem_of_filter in Ht as [_ Ht]. revert t Ht.
  induction s as [|c s IH]; intros t Ht; cbn in Ht.
  - apply list_elem_of_singleton in Ht as ->. done.
  - destruct (blank c).
    + apply elem_of_cons in Ht as [->|Ht]; [cbn; lia|]. apply IH in Ht. cbn. lia.
    + destruct (split_blanks_ne s) as (t1 & ts & E). rewrite E in *.
      apply elem_of_cons in Ht as [->|Ht]; cbn.
      * specialize (IH t1 ltac:(by left)). lia.
      * specialize (IH t ltac:(by right)). lia.
Qed.

Lemma tokens_nonempty s : Forall (fun t => t <> []) (tokens s).
Proof.
  apply Forall_forall. intros t Ht. unfold tokens in Ht.
  apply list_elem_of_In, list_elem_of_filter in Ht as [Ht _]. by destruct t.
Qed.

(** ** What the functions compute *)

(** A scan stops at the first byte of a C string that fails the test; the
    terminator always does. *)
Lemma scan_correct (body : ptr -> memM (ptr + ptr)) (P : byte -> bool) m b i s :
  P x00 = false ->
  (forall p c, load_char p m = Ok c m ->
     body p m = if P c then Ok (inl (padd p 1)) m else Ok (inr p) m) ->
  cstr m b i s ->
  iter (S (bytes_left m (Ptr b (Z.of_nat i)))) body (Ptr b (Z.of_nat i)) m =
    Ok (Ptr b (Z.of_nat (i + lead P s))) m.
Proof.
  intros HP0 Hbody (l & Hb & Hs & H0 & Hlen)%cstr_inv.
  assert (forall j c, l !! (i + j)%nat = Some c ->
    load_char (Ptr b (Z.of_nat (i + j))) m = Ok c m) as Hload.
  { intros j c Hc. unfold load_char. by rewrite Hb, zlookup_nat, Hc. }
  pose proof (lead_le P s) as Hle.
  assert (wp (iter (S (bytes_left m (Ptr b (Z.of_nat i)))) body (Ptr b (Z.of_nat i))) m
    (fun r m' => r = Ptr b (Z.of_nat (i + lead P s)) /\ m' = m) nostop) as W.
  { apply (wp_iter _ (fun p m' => exists j, (j <= lead P s)%nat /\
        p = Ptr b (Z.of_nat (i + j)) /\ m' = m) (fun p m' => bytes_left m' p)).
    - intros p m' (j & Hj & -> & ->).
      destruct (decide (j = lead P s)) as [->|Hne].
      + assert (exists c, l !! (i + lead P s)%nat = Some c /\ P c = false) as (c & Hc & HPc).
        { destruct (decide (lead P s = length s)) as [->|]; [eauto|].
          destruct (lookup_lt_is_Some_2 s (lead P s) ltac:(lia)) as [c Hc].
          exists c. split; [by apply Hs|by eapply lead_lookup_eq]. }
        eapply wp_eq; [rewrite (Hbody _ _ (Hload _ _ Hc)), HPc; done|done].
      + destruct (lookup_lt_is_Some_2 s j ltac:(lia)) as [c Hc].
        pose proof (Hs _ _ Hc) as [Hc' _].
        eapply wp_eq; [rewrite (Hbody _ _ (Hload _ _ Hc'))|].
        { rewrite (lead_lookup_lt P s j c Hc) by lia. done. }
        split.
        * exists (S j). split_and!; [lia|cbn; f_equal; lia|done].
        * rewrite (bytes_left_at _ _ l) by done. cbn. rewrite Hb. lia.
    - exists 0%nat. split_and!; [lia|by rewrite Nat.add_0_r|done].
    - lia. }
  apply wp_ok in W as (r & m' & -> & -> & ->). done.
Qed.

Lemma cstr_load m b i s j c : cstr m b i s -> s !! j = Some c ->
  load_char (Ptr b (Z.of_nat (i + j))) m = Ok c m /\ c <> x00.
Proof.
  intros (l & Hb & Hs & _ & _)%cstr_inv Hj. pose proof (Hs _ _ Hj) as [Hc ?].
  unfold load_char. by rewrite Hb, zlookup_nat, Hc.
Qed.

Lemma cstr_load_end m b i s : cstr m b i s ->
  load_char (Ptr b (Z.of_nat (i + length s))) m = Ok x00 m.
Proof.
  intros (l & Hb & _ & H0 & _)%cstr_inv. unfold load_char. by rewrite Hb, zlookup_nat, H0.
Qed.

Lemma find_arg_correct m b i s : cstr m b i s ->
  find_arg (Ptr b (Z.of_nat i)) m =
    Ok (if decide (lead blank s = length s) then Null
        else Ptr b (Z.of_nat (i + lead blank s))) m.
Proof.
  intros Hs. unfold find_arg. rewrite bind_get.
  erewrite bind_ok; [|apply (scan_correct _ blank); [done| |exact Hs];
    intros p c Hc; unfold find_arg_body; rewrite (bind_ok _ _ _ _ _ Hc); by case_match].
  pose proof (lead_le blank s). case_decide as E.
  - rewrite E, (bind_ok _ _ _ _ _ (cstr_load_end _ _ _ _ Hs)). done.
  - destruct (lookup_lt_is_Some_2 s (lead blank s) ltac:(lia)) as [c Hc].
    destruct (cstr_load _ _ _ _ _ _ Hs Hc) as [Hl Hc0].
    rewrite (bind_ok _ _ _ _ _ Hl). by rewrite decide_False.
Qed.

Lemma lead_ext P P' s : (forall c, c ∈ s -> P c = P' c) -> lead P s = lead P' s.
Proof.
  induction s as [|c s IH]; intros H; [done|]. cbn.
  rewrite (H c) by (by left). case_match; [|done]. f_equal. apply IH. intros. apply H. by right.
Qed.

(** A byte written outside a string and its terminator leaves it. *)
Lemma cstr_set m n l i s j c :
  m_objs m !! n = Some (OBytes l) -> cstr m (BVar n) i s ->
  (j < i)%nat \/ (i + length s < j)%nat ->
  cstr (set_obj m n (OBytes (<[j := c]> l))) (BVar n) i s.
Proof.
  intros Hn (l' & rest & Hb & Hd & Hs) Hj. apply block_bytes_var_inv in Hb.
  rewrite Hn in Hb. injection Hb as <-.
  destruct Hj as [Hj|Hj].
  - exists (<[j := c]> l), rest. split_and!; [apply block_bytes_set_eq| |done].
    by rewrite drop_insert_lt by lia.
  - exists (<[j := c]> l), (<[(j - i - length s - 1)%nat := c]> rest).
    split_and!; [apply block_bytes_set_eq| |done].
    rewrite drop_insert_ge, Hd by lia.
    rewrite insert_app_r_alt by lia.
    destruct (j - i - length s)%nat as [|r] eqn:E; [lia|]. cbn. by rewrite Nat.sub_0_r.
Qed.

(** A terminator written inside a string cuts it in two. *)
Lemma cstr_cut m n l i s k :
  m_objs m !! n = Some (OBytes l) -> cstr m (BVar n) i s -> (k < length s)%nat ->
  let m' := set_obj m n (OBytes (<[(i + k)%nat := x00]> l)) in
  cstr m' (BVar n) i (take k s) /\ cstr m' (BVar n) (i + k + 1) (drop (S k) s).
Proof.
  intros Hn Hc Hk m'. split.
  - destruct Hc as (l' & rest & Hb & Hd & Hs). apply block_bytes_var_inv in Hb.
    rewrite Hn in Hb. injection Hb as <-.
    exists (<[(i + k)%nat := x00]> l), (drop (S k) (s ++ x00 :: rest)).
    split_and!; [apply block_bytes_set_eq| |].
    + rewrite drop_insert_ge, Hd by lia. replace (i + k - i)%nat with k by lia.
      rewrite insert_take_drop by (rewrite length_app; lia).
      by rewrite take_app_le by lia.
    + intros Hin. apply Hs. eapply elem_of_subseteq; [|exact Hin].
      intros x Hx. rewrite <- (take_drop k s). apply elem_of_app. by left.
  - apply cstr_set; [done| |lia]. replace (i + k + 1)%nat with (i + S k)%nat by lia.
    apply cstr_drop; [done|lia].
Qed.

Lemma terminate_arg_correct m n l i s :
  m_objs m !! n = Some (OBytes l) -> cstr m (BVar n) i s ->
  let k := lead nonblank s in
  terminate_arg (Ptr (BVar n) (Z.of_nat i)) m =
    if decide (k = length s) then Ok (Ptr (BVar n) (Z.of_nat (i + k))) m
    else Ok (Ptr (BVar n) (Z.of_nat (i + k + 1))) (set_obj m n (OBytes (<[(i + k)%nat := x00]> l))).
Proof.
  intros Hn Hs k. unfold terminate_arg. rewrite bind_get.
  erewrite bind_ok; [|apply (scan_correct _ (fun c => negb (blank c) && negb (bool_decide (c = x00))));
    [done| |exact Hs]; intros p c Hc; unfold terminate_arg_body;
    rewrite (bind_ok _ _ _ _ _ Hc); by case_match].
  rewrite (lead_ext _ nonblank).
  2: { intros c Hin. rewrite bool_decide_eq_false_2; [by rewrite andb_true_r|].
       intros ->. by destruct Hs as (? & ? & _ & _ & ?). }
  fold k. pose proof (lead_le nonblank s) as Hle. fold k in Hle. case_decide as E.
  - rewrite E, (bind_ok _ _ _ _ _ (cstr_load_end _ _ _ _ Hs)). done.
  - destruct (lookup_lt_is_Some_2 s k ltac:(lia)) as [c Hc].
    destruct (cstr_load _ _ _ _ _ _ Hs Hc) as [Hl Hc0].
    rewrite (bind_ok _ _ _ _ _ Hl), decide_False by done.
    apply cstr_inv in Hs as (l' & Hb & _ & _ & Hlen).
    apply block_bytes_var_inv in Hb. rewrite Hn in Hb. injection Hb as <-.
    erewrite bind_ok; [|unfold store_char; by rewrite Hn, zinsert_nat by lia].
    unfold mret, stM_ret. cbn [padd]. do 2 f_equal. lia.
Qed.

(** ** [streq] *)

Lemma streq_correct m b1 b2 i1 i2 s1 s2 :
  cstr m b1 i1 s1 -> cstr m b2 i2 s2 ->
  streq (Ptr b1 (Z.of_nat i1)) (Ptr b2 (Z.of_nat i2)) m = Ok (bool_decide (s1 = s2)) m.
Proof.
  intros H1 H2.
  assert (wp (streq (Ptr b1 (Z.of_nat i1)) (Ptr b2 (Z.of_nat i2))) m
    (fun r m' => r = bool_decide (s1 = s2) /\ m' = m) nostop) as W.
  { unfold streq. apply wp_bind. eapply wp_eq; [reflexivity|].
    pose proof H1 as (l1 & Hb1 & _ & _ & Hlen1)%cstr_inv.
    apply (wp_iter _ (fun st m' => exists j, (j <= length s1)%nat /\ (j <= length s2)%nat /\
        st = (Ptr b1 (Z.of_nat (i1 + j)), Ptr b2 (Z.of_nat (i2 + j))) /\ m' = m /\
        take j s1 = take j s2) (fun st m' => bytes_left m' (fst st))).
    - intros st m' (j & Hj1 & Hj2 & -> & -> & E). unfold streq_body.
      assert (forall b i s, cstr m b i s -> (j <= length s)%nat ->
        exists c, load_char (Ptr b (Z.of_nat (i + j))) m = Ok c m /\
          ((c = x00 /\ j = length s) \/ (c <> x00 /\ s !! j = Some c))) as Hl.
      { intros b i s Hs Hj. destruct (decide (j = length s)) as [->|Hne].
        - exists x00. split; [by apply cstr_load_end|]. by left.
        - destruct (lookup_lt_is_Some_2 s j ltac:(lia)) as [c Hc]. exists c.
          destruct (cstr_load _ _ _ _ _ _ Hs Hc). split; [done|]. by right. }
      destruct (Hl _ _ _ H1 Hj1) as (c1 & L1 & C1).
      destruct (Hl _ _ _ H2 Hj2) as (c2 & L2 & C2).
      apply wp_bind. eapply wp_eq; [exact L1|]. apply wp_bind. eapply wp_eq; [exact L2|].
      destruct (decide (c1 <> c2)) as [Hne|Heq].
      + apply wp_ret. split; [|done]. symmetry. apply bool_decide_eq_false_2.
        intros ->. destruct C1 as [[-> ?]|[_ G1]], C2 as [[-> ?]|[_ G2]]; [done| | |congruence].
        * apply lookup_lt_Some in G2. lia.
        * apply lookup_lt_Some in G1. lia.
      + apply dec_stable in Heq as <-. case_decide as Hz; apply wp_ret.
        * split; [|done]. symmetry. apply bool_decide_eq_true_2.
          destruct C1 as [[_ ->]|[? _]], C2 as [[_ Ej]|[? _]]; try done.
          rewrite firstn_all in E. rewrite E, Ej. apply firstn_all.
        * destruct C1 as [[? _]|[_ G1]], C2 as [[? _]|[_ G2]]; try done. split.
          { exists (S j). apply lookup_lt_Some in G1 as ?, G2 as ?.
            split_and!; [lia|lia|cbn; do 2 f_equal; lia|done|].
            by rewrite (take_S_r _ _ _ G1), (take_S_r _ _ _ G2), E. }
          { apply lookup_lt_Some in G1. cbn. rewrite Hb1. lia. }
    - exists 0%nat. split_and!; [lia|lia|by rewrite !Nat.add_0_r|done|done].
    - cbn [fst]. lia. }
  apply wp_ok in W as (r & m' & -> & -> & ->). done.
Qed.

(** ** [fill_args] *)

(** [next] is where the arguments [ts] remain to be read in block [n], at
    offset [lo] or later: NULL when there are none. *)
Definition rest_at (m : mem) (n : positive) (lo : nat) (next : ptr) (ts : list (list byte)) : Prop :=
  (next = Null /\ ts = []) \/
  exists i s, next = Ptr (BVar n) (Z.of_nat i) /\ (lo <= i)%nat /\
    cstr m (BVar n) i s /\ ts = args_of s.

(** [q] points to the string [t], which ends before offset [hi] of block [n]. *)
Definition arg_at (m : mem) (n : positive) (hi : nat) (q : ptr) (t : list byte) : Prop :=
  exists i, q = Ptr (BVar n) (Z.of_nat i) /\ cstr m (BVar n) i t /\ (i + length t < hi)%nat.

Lemma find_arg_rest m n i s : cstr m (BVar n) i s ->
  exists r, find_arg (Ptr (BVar n) (Z.of_nat i)) m = Ok r m /\ rest_at m n i r (tokens s).
Proof.
  intros Hs. rewrite (find_arg_correct _ _ _ _ Hs). eexists. split; [done|].
  rewrite tokens_skip. pose proof (lead_le blank s). case_decide as E.
  - left. split; [done|]. by rewrite E, drop_all.
  - right. eexists _, (drop (lead blank s) s). split_and!; [done|lia| |].
    + apply cstr_drop; [done|lia].
    + destruct (drop (lead blank s) s) eqn:Ed; [|done].
      apply (f_equal length) in Ed. rewrite length_drop in Ed. cbn in Ed. lia.
Qed.

(** The bytes [l'] are [l] cut into pieces at [lo] or later: bytes before [lo]
    are the same and no terminator is lost. *)
Definition cut_from (lo : nat) (l l' : list byte) : Prop :=
  length l' = length l /\ take lo l' = take lo l /\ (forall j, l !! j = Some x00 -> l' !! j = Some x00).

Lemma cut_from_refl lo l : cut_from lo l l.
Proof. done. Qed.

Lemma cut_from_weaken lo lo' l l' : (lo' <= lo)%nat -> cut_from lo l l' -> cut_from lo' l l'.
Proof.
  intros Hle (E & T & Z). split_and!; [done| |done].
  apply (f_equal (take lo')) in T. by rewrite !take_take, !Nat.min_l in T by lia.
Qed.

Lemma cut_from_trans lo l1 l2 l3 : cut_from lo l1 l2 -> cut_from lo l2 l3 -> cut_from lo l1 l3.
Proof. intros (E1 & T1 & Z1) (E2 & T2 & Z2). split_and!; [congruence..|auto]. Qed.

Lemma cut_from_insert lo i l : (lo <= i)%nat -> cut_from lo l (<[i := x00]> l).
Proof.
  intros Hi. split_and!; [by rewrite length_insert|by rewrite take_insert_ge by lia|].
  intros j Hj. destruct (decide (i = j)) as [->|]; [|by rewrite list_lookup_insert_ne].
  apply list_lookup_insert_eq. by eapply lookup_lt_Some.
Qed.

(** Memories that differ only in the byte array [n], cut at [lo] or later. *)
Definition same_but (n : positive) (lo : nat) (m m' : mem) : Prop :=
  exists l l', m_objs m !! n = Some (OBytes l) /\ cut_from lo l l' /\ m' = set_obj m n (OBytes l').

Lemma same_but_refl n lo m l : m_objs m !! n = Some (OBytes l) -> same_but n lo m m.
Proof. intros H. exists l, l. split_and!; [done|apply cut_from_refl|]. by rewrite set_obj_id. Qed.

Lemma same_but_trans n lo m1 m2 m3 :
  same_but n lo m1 m2 -> same_but n lo m2 m3 -> same_but n lo m1 m3.
Proof.
  intros (l & l1 & H1 & C1 & ->) (l1' & l2 & H2 & C2 & ->).
  rewrite set_obj_eq in H2. injection H2 as <-. exists l, l2.
  split_and!; [done|by eapply cut_from_trans|by rewrite set_obj_set_obj].
Qed.

Lemma same_but_weaken n lo lo' m m' : (lo' <= lo)%nat -> same_but n lo m m' -> same_but n lo' m m'.
Proof. intros Hle (l & l1 & H1 & C & ->). exists l, l1. split_and!; [done|by eapply cut_from_weaken|done]. Qed.

(** A string that ends before the cuts, or where they start, is still there. *)
Lemma cut_from_cstr m m' n lo l l' i t :
  m_objs m !! n = Some (OBytes l) -> m_objs m' !! n = Some (OBytes l') -> cut_from lo l l' ->
  cstr m (BVar n) i t -> (i + length t <= lo)%nat -> cstr m' (BVar n) i t.
Proof.
  intros Hl Hl' (El & Tl & Zl) (l0 & rest & Hb & Hd & Hs) Hi.
  apply block_bytes_var_inv in Hb. rewrite Hl in Hb. injection Hb as <-.
  assert (l !! (i + length t)%nat = Some x00) as Hend.
  { rewrite <- lookup_drop, Hd, list_lookup_middle by done. done. }
  exists l', (drop (S (length t)) (drop i l')). split_and!; [by apply block_bytes_var| |done].
  assert (take (length t) (drop i l') = t) as Et.
  { rewrite take_drop_commute. apply (f_equal (take (i + length t))) in Tl.
    rewrite !take_take, !Nat.min_l in Tl by lia. rewrite Tl, <- take_drop_commute, Hd. by apply take_app_length. }
  rewrite <- (take_drop (length t) (drop i l')), Et at 1. f_equal.
  apply Zl in Hend. rewrite <- lookup_drop in Hend. by rewrite <- (drop_S _ _ _ Hend).
Qed.

Lemma same_but_cstr n lo m m' i t : same_but n lo m m' ->
  cstr m (BVar n) i t -> (i + length t <= lo)%nat -> cstr m' (BVar n) i t.
Proof.
  intros (l & l' & Hl & C & ->) Hc Hi. eapply cut_from_cstr; [exact Hl|apply set_obj_eq|exact C|exact Hc|exact Hi].
Qed.

Lemma cstr_other m m' n i t : m_objs m' !! n = m_objs m !! n ->
  cstr m (BVar n) i t -> cstr m' (BVar n) i t.
Proof.
  intros E (l & rest & Hb & Hd & Hs). exists l, rest. split_and!; [|done..].
  cbn in *. by rewrite E.
Qed.

Lemma rest_at_null m n lo lo' next : rest_at m n lo next [] -> rest_at m n lo' next [].
Proof.
  intros [?|(i & s & _ & _ & _ & E)]; [by left|]. by rewrite args_of_unfold in E.
Qed.

(** One argument: it is cut off, and what follows is found, in any memory
    that still has the line. *)
Lemma next_arg_correct m n i s : cstr m (BVar n) i s ->
  exists temp m' t ts hi, terminate_arg (Ptr (BVar n) (Z.of_nat i)) m = Ok temp m' /\
    args_of s = t :: ts /\ same_but n i m m' /\ (i < hi)%nat /\
    arg_at m' n hi (Ptr (BVar n) (Z.of_nat i)) t /\
    forall m2, m_objs m2 !! n = m_objs m' !! n ->
      exists next', find_arg temp m2 = Ok next' m2 /\ rest_at m2 n hi next' ts.
Proof.
  intros Hs. pose proof Hs as (l & Hb & _ & _ & _)%cstr_inv. apply block_bytes_var_inv in Hb.
  rewrite (terminate_arg_correct _ _ _ _ _ Hb Hs). pose proof (lead_le nonblank s) as Hle.
  rewrite args_of_unfold. set (k := lead nonblank s) in *. case_decide as E.
  - pose proof (cstr_drop _ _ _ _ k Hs ltac:(lia)) as Hend. rewrite E, drop_all in Hend.
    rewrite E, firstn_all, (drop_ge s) by lia. eexists _, _, _, _, (i + length s + 1)%nat.
    split_and!; [done|done|by eapply same_but_refl|lia| |].
    + exists i. split_and!; [done|done|lia].
    + intros m2 E2. apply (cstr_other _ _ _ _ _ E2) in Hend.
      destruct (find_arg_rest _ _ _ _ Hend) as (r & Hr & Hrest).
      exists r. split; [done|]. by eapply rest_at_null.
  - destruct (cstr_cut _ _ _ _ _ k Hb Hs ltac:(lia)) as [H1 H2].
    eexists _, _, _, _, (i + k + 1)%nat. split_and!; [done|done| |lia| |].
    + exists l, (<[(i + k)%nat := x00]> l). split_and!; [done|apply cut_from_insert; lia|done].
    + exists i. split_and!; [done|done|rewrite length_take; lia].
    + intros m2 E2. apply (cstr_other _ _ _ _ _ E2) in H2. by apply find_arg_rest.
Qed.

(** What [fill_args] does to the memory: the array [na] holds [la], the line
    [nb] is only written at [lo] or later, no other object changes. *)
Record args_filled (m0 m : mem) (nb : positive) (lo : nat) (na : positive)
    (la : list (option ptr)) : Prop := {
  af_args : m_objs m !! na = Some (OPtrs la);
  af_line : exists l l', m_objs m0 !! nb = Some (OBytes l) /\
    m_objs m !! nb = Some (OBytes l') /\ cut_from lo l l';
  af_other : forall n, n <> na -> n <> nb -> m_objs m !! n = m_objs m0 !! n;
  af_next : m_next m = m_next m0
}.

Section fill_args.
Context (m0 : mem) (nb na : positive) (lo a maxargs : nat) (la : list (option ptr)).
Hypothesis Hne : na <> nb.
Hypothesis Hroom : (a + maxargs <= length la)%nat.

(** The array once the arguments [qs] are stored. *)
Definition stored (qs : list ptr) : list (option ptr) := list_inserts a (Some <$> qs) la.

(** The loop state [st] in memory [m], for the arguments [ts0] of the line. *)
Definition filling (ts0 : list (list byte)) (st : nat * ptr) (m : mem) : Prop :=
  exists qs hi found todo,
    fst st = length qs /\ (length qs <= maxargs)%nat /\ ts0 = found ++ todo /\
    (lo <= hi)%nat /\ Forall2 (arg_at m nb hi) qs found /\ rest_at m nb hi (snd st) todo /\
    args_filled m0 m nb lo na (stored qs).

(** The result: the first [maxargs] arguments are in the array. *)
Definition filled_args (ts0 : list (list byte)) (cnt : nat) (m : mem) : Prop :=
  cnt = Nat.min maxargs (length ts0) /\
  exists qs hi, length qs = cnt /\ Forall2 (arg_at m nb hi) qs (take cnt ts0) /\
    args_filled m0 m nb lo na (stored qs).

Lemma arg_at_step m m' lo' hi q t : same_but nb lo' m m' -> (hi <= lo')%nat ->
  arg_at m nb hi q t -> arg_at m' nb hi q t.
Proof.
  intros Hm Hlo (i & -> & Hc & Hi). exists i. split_and!; [done| |done].
  eapply same_but_cstr; [done|done|lia].
Qed.

Lemma arg_at_other m m' hi q t : m_objs m' !! nb = m_objs m !! nb ->
  arg_at m nb hi q t -> arg_at m' nb hi q t.
Proof.
  intros E (i & -> & Hc & Hi). exists i. split_and!; [done|by eapply cstr_other|done].
Qed.

Lemma rest_at_other m m' hi next ts : m_objs m' !! nb = m_objs m !! nb ->
  rest_at m nb hi next ts -> rest_at m' nb hi next ts.
Proof.
  intros E [?|(i & s & -> & Hi & Hc & ->)]; [by left|]. right.
  exists i, s. split_and!; [done|done|by eapply cstr_other|done].
Qed.

Lemma arg_at_mono m hi hi' q t : arg_at m nb hi q t -> (hi <= hi')%nat -> arg_at m nb hi' q t.
Proof. intros (i & -> & Hc & Hi) ?. exists i. split_and!; [done|done|lia]. Qed.

Lemma stored_snoc qs q : (a + length qs < length la)%nat ->
  <[(a + length qs)%nat := Some q]> (stored qs) = stored (qs ++ [q]).
Proof.
  intros. unfold stored. rewrite fmap_app, <- (length_fmap Some qs) at 1.
  rewrite list_inserts_app_l. cbn. f_equal. by rewrite Nat.add_comm.
Qed.

Lemma args_filled_step m m1 m2 qs q i :
  args_filled m0 m nb lo na (stored qs) -> same_but nb i m m1 -> (lo <= i)%nat ->
  (a + length qs < length la)%nat ->
  m2 = set_obj m1 na (OPtrs (<[(a + length qs)%nat := Some q]> (stored qs))) ->
  args_filled m0 m2 nb lo na (stored (qs ++ [q])).
Proof.
  intros [Ha (l0 & l1 & Hl0 & Hl1 & C1) Ho Hx] (l & l' & Hl & C2 & ->) Hi Hq ->.
  rewrite Hl in Hl1. injection Hl1 as <-. split.
  - by rewrite set_obj_eq, stored_snoc.
  - exists l0, l'. split_and!; [done| |].
    + rewrite set_obj_ne by done. apply set_obj_eq.
    + eapply cut_from_trans; [exact C1|by eapply cut_from_weaken].
  - intros n Hna Hnb. by rewrite !set_obj_ne, Ho by done.
  - done.
Qed.

Lemma fill_args_step ts0 st m : filling ts0 st m ->
  wp (fill_args_body maxargs (Ptr (BVar na) (Z.of_nat a)) st) m
    (fun r m' => match r with
       | inl st' => filling ts0 st' m' /\ (maxargs - fst st' < maxargs - fst st)%nat
       | inr cnt => filled_args ts0 cnt m' end) nostop.
Proof.
  destruct st as [i next]. cbn [fst].
  intros (qs & hi & found & todo & Ei & Hi & -> & Hhi & Hqs & Hrest & Haf).
  cbn [fst snd] in *. subst i. pose proof (Forall2_length Hqs) as Elen.
  unfold fill_args_body. case_decide as Hc.
  - destruct Hc as [Hnn Hlt].
    destruct Hrest as [[? _]|(i & s & -> & Hlo & Hs & ->)]; [done|].
    destruct (next_arg_correct _ _ _ _ Hs)
      as (temp & m1 & t & ts & hi' & Ht & Ets & Hm1 & Hhi' & Harg & Hfind).
    apply wp_bind. eapply wp_eq; [exact Ht|]. apply wp_bind.
    assert (m_objs m1 !! na = Some (OPtrs (stored qs))) as Hna.
    { destruct Hm1 as (l & l' & _ & _ & ->). rewrite set_obj_ne by done. apply Haf. }
    eapply (wp_store_ptr _ _ _ _ (a + length qs)); [exact Hna|cbn; lia| |].
    { unfold stored. rewrite length_inserts. lia. }
    set (m2 := set_obj m1 na _).
    assert (m_objs m2 !! nb = m_objs m1 !! nb) as E2 by (by apply set_obj_ne).
    destruct (Hfind m2 E2) as (next' & Hf & Hrest').
    apply wp_bind. eapply wp_eq; [exact Hf|]. apply wp_ret. split; [|cbn [fst]; lia].
    exists (qs ++ [Ptr (BVar nb) (Z.of_nat i)]), hi', (found ++ [t]), ts.
    split_and!; [cbn; rewrite length_app; cbn; lia|rewrite length_app; cbn; lia| |lia| |done|].
    + by rewrite Ets, <- app_assoc.
    + apply Forall2_app; [|by repeat constructor; eapply arg_at_other].
      eapply Forall2_impl; [|exact Hqs]. intros q u Hq.
      eapply arg_at_other; [exact E2|]. eapply (arg_at_mono _ hi); [|lia].
      by eapply arg_at_step; [exact Hm1|exact Hlo|].
    + eapply args_filled_step; [exact Haf|exact Hm1|lia|lia|done].
  - apply wp_ret. split.
    + rewrite length_app. destruct Hrest as [[-> ->]|(? & ? & -> & _ & _ & ->)].
      * cbn. lia.
      * rewrite args_of_unfold. cbn [length].
        assert (~ (length qs < maxargs)%nat) by naive_solver. lia.
    + exists qs, hi. split_and!; [done| |done]. by rewrite take_app_length' by done.
Qed.

(** The loop stores the first [maxargs] arguments that remain. *)
Lemma fill_args_loop_correct next ts0 l :
  m_objs m0 !! na = Some (OPtrs la) -> m_objs m0 !! nb = Some (OBytes l) ->
  rest_at m0 nb lo next ts0 ->
  exists cnt m', fill_args_loop maxargs (Ptr (BVar na) (Z.of_nat a)) next m0 = Ok cnt m' /\
    filled_args ts0 cnt m'.
Proof.
  intros Ha Hl Hrest. apply wp_ok. unfold fill_args_loop.
  apply (wp_iter _ (filling ts0) (fun st _ => (maxargs - fst st)%nat)).
  - intros st m. apply fill_args_step.
  - exists [], lo, [], ts0. split_and!; [done|cbn; lia|done|done|by constructor|done|].
    split; [done|by exists l, l|done|done].
  - cbn. lia.
Qed.
End fill_args.

(** An argument is cut off: it is a string of its own, and the result points to
    the string of the arguments after it. *)
Lemma cut_arg m n i s : cstr m (BVar n) i s ->
  exists m' t ts i' s', terminate_arg (Ptr (BVar n) (Z.of_nat i)) m = Ok (Ptr (BVar n) (Z.of_nat i')) m' /\
    args_of s = t :: ts /\ same_but n i m m' /\ cstr m' (BVar n) i t /\
    (i + length t <= i')%nat /\ cstr m' (BVar n) i' s' /\ tokens s' = ts /\
    s' = drop (S (length t)) s.
Proof.
  intros Hs. pose proof Hs as (l & Hb & _ & _ & _)%cstr_inv. apply block_bytes_var_inv in Hb.
  rewrite (terminate_arg_correct _ _ _ _ _ Hb Hs). pose proof (lead_le nonblank s) as Hle.
  rewrite args_of_unfold. set (k := lead nonblank s) in *. case_decide as E.
  - pose proof (cstr_drop _ _ _ _ k Hs ltac:(lia)) as Hend. rewrite E, drop_all in Hend.
    rewrite E, firstn_all, (drop_ge s) by lia. eexists _, _, _, _, [].
    split_and!; [done|done|by eapply same_but_refl|done|lia|done|done|by rewrite drop_ge by lia].
  - destruct (cstr_cut _ _ _ _ _ k Hb Hs ltac:(lia)) as [H1 H2].
    eexists _, _, _, _, _. split_and!; [done|done| |done| |done|done|].
    + exists l, (<[(i + k)%nat := x00]> l). split_and!; [done|apply cut_from_insert; lia|done].
    + rewrite length_take. lia.
    + by rewrite length_take, Nat.min_l by lia.
Qed.

(** ** What the functions do *)

(** C36: [find_arg] skips the blanks: it returns NULL when only blanks are
    left, and otherwise the first byte that is none, where the arguments of
    the line start; the line is not changed. *)
Theorem find_arg_finds m b i s : cstr m b i s ->
  exists r, find_arg (Ptr b (Z.of_nat i)) m = Ok r m /\
    (tokens s = [] <-> r = Null) /\
    (tokens s <> [] -> exists k c, r = Ptr b (Z.of_nat (i + k)) /\
      Forall (fun x => blank x = true) (take k s) /\ s !! k = Some c /\ blank c = false /\
      cstr m b (i + k) (drop k s) /\ args_of (drop k s) = tokens s).
Proof.
  intros Hs. rewrite (find_arg_correct _ _ _ _ Hs). eexists. split; [done|].
  pose proof (lead_le blank s) as Hle. rewrite (tokens_skip s). case_decide as E.
  - rewrite E, drop_all. by split.
  - destruct (lookup_lt_is_Some_2 s (lead blank s) ltac:(lia)) as [c Hc].
    assert (drop (lead blank s) s <> []) as Hne.
    { intros Hd. apply (f_equal length) in Hd. rewrite length_drop in Hd. cbn in Hd. lia. }
    destruct (drop (lead blank s) s) as [|c' s'] eqn:Ed; [done|]. split.
    + split; [|done]. rewrite args_of_unfold. done.
    + intros _. exists (lead blank s), c. rewrite Ed.
      split_and!; [done| |done|by apply (lead_lookup_eq _ _ _ Hc)| |done].
      * apply Forall_lookup_2. intros j x Hj. apply lookup_take_Some in Hj as [Hj Hlt].
        by eapply lead_lookup_lt.
      * rewrite <- Ed. by apply cstr_drop.
Qed.

(** C35: [terminate_arg] cuts the line after the argument at its pointer, which
    becomes a string of its own, and returns where the arguments after it
    start; it never returns NULL, and changes no byte before the argument and
    no other object. *)
Theorem terminate_arg_cuts m n i s : cstr m (BVar n) i s ->
  exists r m' t ts, terminate_arg (Ptr (BVar n) (Z.of_nat i)) m = Ok r m' /\ r <> Null /\
    args_of s = t :: ts /\ cstr m' (BVar n) i t /\
    (exists i' s', r = Ptr (BVar n) (Z.of_nat i') /\ cstr m' (BVar n) i' s' /\ tokens s' = ts) /\
    same_but n i m m'.
Proof.
  intros Hs. destruct (cut_arg _ _ _ _ Hs) as (m' & t & ts & i' & s' & E & Et & Hm & Ht & _ & Hs' & Ets & _).
  eexists _, m', t, ts. split_and!; [exact E|done|done|done|by eexists _, _|done].
Qed.

(** [streq] decides equality of two C strings. *)
Theorem streq_decides m b1 b2 i1 i2 s1 s2 :
  cstr m b1 i1 s1 -> cstr m b2 i2 s2 ->
  exists r, streq (Ptr b1 (Z.of_nat i1)) (Ptr b2 (Z.of_nat i2)) m = Ok r m /\ (r = true <-> s1 = s2).
Proof.
  intros H1 H2. eexists. split; [by apply streq_correct|]. apply bool_decide_eq_true.
Qed.

(** ** The theorems at work *)

Definition a_line : mem := mem_of [OBytes (lit "  cp a  b" ++ [x00])].

Lemma a_line_cstr i : (i <= 9)%nat -> cstr a_line (BVar 1) i (drop i (lit "  cp a  b")).
Proof.
  intros Hi. apply (cstr_drop a_line (BVar 1) 0 (lit "  cp a  b") i).
  - by apply read_cstr_spec.
  - cbn. lia.
Qed.

Lemma find_arg_finds_witness :
  exists r, find_arg (Ptr (BVar 1) 0) a_line = Ok r a_line /\
    ([lit "cp"; lit "a"; lit "b"] = [] <-> r = Null) /\
    ([lit "cp"; lit "a"; lit "b"] <> [] -> exists k c, r = Ptr (BVar 1) (Z.of_nat (0 + k)) /\
      Forall (fun x => blank x = true) (take k (lit "  cp a  b")) /\
      lit "  cp a  b" !! k = Some c /\ blank c = false /\
      cstr a_line (BVar 1) (0 + k) (drop k (lit "  cp a  b")) /\
      args_of (drop k (lit "  cp a  b")) = [lit "cp"; lit "a"; lit "b"]).
Proof. exact (find_arg_finds a_line (BVar 1) 0 (lit "  cp a  b") (a_line_cstr 0 ltac:(lia))). Defined.

Lemma terminate_arg_cuts_witness :
  exists r m' t ts, terminate_arg (Ptr (BVar 1) 2) a_line = Ok r m' /\ r <> Null /\
    [lit "cp"; lit "a"; lit "b"] = t :: ts /\ cstr m' (BVar 1) 2 t /\
    (exists i' s', r = Ptr (BVar 1) (Z.of_nat i') /\ cstr m' (BVar 1) i' s' /\ tokens s' = ts) /\
    same_but 1 2 a_line m'.
Proof. exact (terminate_arg_cuts a_line 1 2 (lit "cp a  b") (a_line_cstr 2 ltac:(lia))). Defined.

Lemma streq_decides_witness :
  exists r, streq (Ptr (BVar 1) 8) (Ptr (BLit "b") 0) a_line = Ok r a_line /\ (r = true <-> lit "b" = lit "b").
Proof.
  exact (streq_decides a_line (BVar 1) (BLit "b") 8 0 (lit "b") (lit "b") (a_line_cstr 8 ltac:(lia))
    (proj1 (read_cstr_spec a_line (BLit "b") 0 (lit "b")) eq_refl)).
Defined.
