(* ===== verification/Machine.v ===== *)
(** * The machine interface

    The registers of a system call, the kernel as an interface, the state of
    the running program and the monad [M] of its code.  The kernel is not part
    of the program: it is a class with the one operation the program uses,
    the [syscall] instruction, and [KernelOk] collects what the program relies
    on and the manual pages of the calls document. *)

From S2P Require Import Prelude Outcome CMem.

(** The calls the program names; the numbers are those of linux/unistd.h. *)
Inductive sysno : Type :=
| NR_write | NR_read | NR_reboot | NR_sched_yield | NR_copy_file_range | NR_lseek
| NR_umask | NR_mkdirat | NR_mknodat | NR_mount | NR_openat | NR_brk | NR_exit
| NR_chdir | NR_fchmodat | NR_fchownat | NR_chroot | NR_close | NR_close_range
| NR_dup3 | NR_execveat | NR_getdents64 | NR_getpid | NR_ioctl | NR_memfd_create
| NR_mmap | NR_munmap | NR_mremap | NR_mprotect | NR_io_uring_setup
| NR_io_uring_enter | NR_io_uring_register | NR_clone3 | NR_clock_gettime
| NR_futex | NR_openat2 | NR_setuid | NR_setresuid | NR_setresgid | NR_setgroups
| NR_signalfd4 | NR_rt_sigprocmask | NR_waitid | NR_pivot_root | NR_sysinfo
| NR_newfstatat | NR_prctl | NR_capget | NR_capset | NR_socket | NR_sendmmsg.

#[export] Instance sysno_eq_dec : EqDecision sysno.
Proof. solve_decision. Defined.

(** What a register holds: an integer or a pointer into the program. *)
Inductive rval : Type :=
| VInt (z : Z)
| VPtr (p : ptr).

(** [None]: the code leaves the register as it is. *)
Record regs : Type := Regs {
  rax : sysno;
  rdi : option rval; rsi : option rval; rdx : option rval;
  r10 : option rval; r8 : option rval; r9 : option rval
}.

(** The kernel returns to the program, with its memory as it left it, or does
    not (the process ended, the machine stopped, another program runs). *)
Inductive kres (K : Type) : Type :=
| KRet (ret : Z) (m : mem) (sh : shm) (k : K)
| KNoret (k : K).
Arguments KRet {K} ret m sh k.
Arguments KNoret {K} k.

Class Kernel : Type := {
  kstate : Type;
  kcall : regs -> mem -> shm -> kstate -> kres kstate
}.

(** A system call that was made, with the memory it was made in and what it
    returned; [None] when it did not return. *)
Record event : Type := Event { ev_regs : regs; ev_mem : mem; ev_ret : option Z }.

Record mach {K : Kernel} : Type := Mach {
  st_mem : mem;
  st_shm : shm;
  st_k : kstate;
  st_trace : list event
}.
Arguments mach : clear implicits.
Arguments mach {K}.

Notation M := (stM mach).

Section machine.
Context {K : Kernel}.

(** The [syscall] instruction. *)
Definition syscall (r : regs) : M Z := fun st =>
  let tr ret := st_trace st ++ [{| ev_regs := r; ev_mem := st_mem st; ev_ret := ret |}] in
  match kcall r (st_mem st) (st_shm st) (st_k st) with
  | KRet v m sh k => Ok v {| st_mem := m; st_shm := sh; st_k := k; st_trace := tr (Some v) |}
  | KNoret k =>
      Stop (Halted {| st_mem := st_mem st; st_shm := st_shm st; st_k := k; st_trace := tr None |})
  end.

Definition upd_mem (m : mem) (st : mach) : mach :=
  {| st_mem := m; st_shm := st_shm st; st_k := st_k st; st_trace := st_trace st |}.

Definition upd_shm (sh : shm) (st : mach) : mach :=
  {| st_mem := st_mem st; st_shm := sh; st_k := st_k st; st_trace := st_trace st |}.

(** Code over the memory, or over the shared mappings, inside the program. *)
Definition on_mem {A} (m : memM A) : M A := zoom st_mem upd_mem m.
Definition on_shm {A} (m : shmM A) : M A := zoom st_shm upd_shm m.

Lemma on_mem_ok {A} (m : memM A) st a m' :
  m (st_mem st) = Ok a m' -> on_mem m st = Ok a (upd_mem m' st).
Proof. apply zoom_ok. Qed.

Lemma on_shm_ok {A} (m : shmM A) st a sh' :
  m (st_shm st) = Ok a sh' -> on_shm m st = Ok a (upd_shm sh' st).
Proof. apply zoom_ok. Qed.

Lemma upd_mem_id st : upd_mem (st_mem st) st = st.
Proof. by destruct st. Qed.
End machine.

(** ** What the calls ask for

    The strings written to file descriptors, read off the trace. *)

Definition ev_write (e : event) : option (Z * list byte) :=
  match ev_regs e with
  | Regs NR_write (Some (VInt fd)) (Some (VPtr (Ptr b o))) (Some (VInt n)) _ _ _ =>
      l ← block_bytes (ev_mem e) b;
      if (0 <=? o) && (0 <=? n) then Some (fd, take (Z.to_nat n) (drop (Z.to_nat o) l)) else None
  | _ => None
  end.

(** Everything a list of calls asked to be written to [fd], in order. *)
Definition written (fd : Z) (tr : list event) : list byte :=
  tr ≫= fun e => match ev_write e with
                 | Some (fd', s) => if fd' =? fd then s else []
                 | None => []
                 end.

Lemma written_app fd tr tr' : written fd (tr ++ tr') = written fd tr ++ written fd tr'.
Proof. apply bind_app. Qed.

(** ** What the program relies on *)

(** The calls whose contract lets the kernel write into the caller's memory. *)
Definition writes_memory (n : sysno) : bool :=
  match n with
  | NR_read | NR_copy_file_range | NR_getdents64 | NR_ioctl | NR_io_uring_setup
  | NR_clone3 | NR_clock_gettime | NR_futex | NR_rt_sigprocmask | NR_waitid
  | NR_sysinfo | NR_newfstatat | NR_prctl | NR_capget | NR_sendmmsg | NR_mremap
  | NR_io_uring_enter => true
  | _ => false
  end.

(** The objects a call's arguments point to. *)
Definition arg_objs (r : regs) : list positive :=
  [rdi r; rsi r; rdx r; r10 r; r8 r; r9 r] ≫= fun a =>
    match a with Some (VPtr (Ptr (BVar n) _)) => [n] | _ => [] end.

(** The object [siginfo] of init.c: a read of it through io_uring is always in
    flight, so the kernel may fill it during any call. *)
Definition siginfo_obj : positive := 3.

(** The object [buffer] of init.c: the console is read into it through
    io_uring, and the program waits for that in io_uring_enter. *)
Definition line_obj : positive := 2.

(** What a call may write: the objects its arguments point to, and during
    io_uring_enter the console line. *)
Definition out_objs (r : regs) : list positive :=
  arg_objs r ++ (if decide (rax r = NR_io_uring_enter) then [line_obj] else []).

(** Memories that agree outside the objects of [ns] and [siginfo]. *)
Definition mem_upto (ns : list positive) (m m' : mem) : Prop :=
  (forall n, n <> siginfo_obj -> n ∉ ns -> m_objs m' !! n = m_objs m !! n) /\
  m_next m' = m_next m /\ m_base m' = m_base m /\ m_junk m' = m_junk m.

Class KernelOk (K : Kernel) : Prop := {
  (** a call without output arguments leaves the caller's memory alone *)
  kernel_mem r m sh k v m' sh' k' :
    kcall r m sh k = KRet v m' sh' k' ->
    writes_memory (rax r) = false -> mem_upto [] m m';
  (** any other call writes only its output objects *)
  kernel_frame r m sh k v m' sh' k' :
    kcall r m sh k = KRet v m' sh' k' ->
    writes_memory (rax r) = true -> mem_upto (out_objs r) m m';
  (** write(2) comes back to the caller *)
  kernel_write r m sh k :
    rax r = NR_write -> exists v m' sh' k', kcall r m sh k = KRet v m' sh' k'
}.

#[export] Instance mem_upto_refl ns : Reflexive (mem_upto ns).
Proof. done. Qed.

#[export] Instance mem_upto_trans ns : Transitive (mem_upto ns).
Proof.
  intros m1 m2 m3 (H1 & N1 & B1 & J1) (H2 & N2 & B2 & J2). split_and!; [|congruence..].
  intros n Hs Hn. by rewrite H2, H1.
Qed.

Lemma mem_upto_weaken ns ns' m m' : ns ⊆ ns' -> mem_upto ns m m' -> mem_upto ns' m m'.
Proof. intros Hs (H & R). split; [|done]. intros n Hn Hn'. apply H; [done|set_solver]. Qed.
