(* ===== verification/Syscall.v ===== *)
(** * include/minlinux/syscall.h: system calls without a C library

    The macros [SYSCALL_0] to [SYSCALL_6], each as the registers its [asm]
    statement sets, and every wrapper: the conversion of its arguments to
    [long], the call, the conversion of the result to the declared type.  The
    constants of the kernel headers are the fields of the class [Abi]. *)

From S2P Require Import Prelude Headers Outcome CMem Machine.

(** Constants of the linux headers (and [src_root], the directory in which
    the compiler found the sources, which [__FILE__] starts with). *)
Class Abi : Type := {
  AT_FDCWD : Z; AT_EMPTY_PATH : Z;
  O_RDONLY : Z; O_WRONLY : Z; O_APPEND : Z; O_NOATIME : Z; O_CLOEXEC : Z; O_PATH : Z;
  O_DIRECTORY : Z;
  MS_NOEXEC : Z; MS_RDONLY : Z; S_IRWXU : Z; S_IRWXG : Z; S_IRWXO : Z;
  LINUX_REBOOT_MAGIC1 : Z; LINUX_REBOOT_MAGIC2 : Z; LINUX_REBOOT_CMD_POWER_OFF : Z;
  CLOCK_REALTIME : Z; SIGCHLD : Z; SIG_SETMASK : Z; P_PID : Z; WEXITED : Z;
  PROT_READ : Z; PROT_WRITE : Z; MAP_SHARED : Z; MAP_POPULATE : Z;
  IORING_FEAT_SINGLE_MMAP : Z; IORING_OFF_SQ_RING : Z; IORING_OFF_SQES : Z;
  IORING_ENTER_GETEVENTS : Z; IORING_OP_READ : Z; IORING_OP_WRITE : Z; IOSQE_IO_LINK : Z;
  ETH_P_ALL : Z; ARG_MAX : Z; LINUX_CAPABILITY_VERSION_3 : Z;
  sizeof_io_uring_cqe : Z; sizeof_io_uring_sqe : Z; sizeof_open_how : Z;
  sizeof_clone_args : Z; sizeof_signalfd_siginfo : Z; sizeof_sigset_t : Z;
  src_root : string
}.

(** Conversion of an argument to [long]: [int] and narrower are
    sign-extended as they are, [unsigned int] fits, [unsigned long] wraps. *)
Definition of_int (z : Z) : option rval := Some (VInt z).
Definition of_ulong (z : Z) : option rval := Some (VInt (swrap 64 z)).
Definition of_ptr (p : ptr) : option rval := Some (VPtr p).

(** Conversion of the result to a wrapper's return type. *)
Definition to_int (v : Z) : Z := swrap 32 v.

Section syscalls.
Context {K : Kernel}.

Definition SYSCALL_0 (num : sysno) : M Z :=
  syscall {| rax := num; rdi := None; rsi := None; rdx := None; r10 := None; r8 := None; r9 := None |}.
Definition SYSCALL_1 (num : sysno) a1 : M Z :=
  syscall {| rax := num; rdi := a1; rsi := None; rdx := None; r10 := None; r8 := None; r9 := None |}.
Definition SYSCALL_2 (num : sysno) a1 a2 : M Z :=
  syscall {| rax := num; rdi := a1; rsi := a2; rdx := None; r10 := None; r8 := None; r9 := None |}.
Definition SYSCALL_3 (num : sysno) a1 a2 a3 : M Z :=
  syscall {| rax := num; rdi := a1; rsi := a2; rdx := a3; r10 := None; r8 := None; r9 := None |}.
Definition SYSCALL_4 (num : sysno) a1 a2 a3 a4 : M Z :=
  syscall {| rax := num; rdi := a1; rsi := a2; rdx := a3; r10 := a4; r8 := None; r9 := None |}.
Definition SYSCALL_5 (num : sysno) a1 a2 a3 a4 a5 : M Z :=
  syscall {| rax := num; rdi := a1; rsi := a2; rdx := a3; r10 := a4; r8 := a5; r9 := None |}.
Definition SYSCALL_6 (num : sysno) a1 a2 a3 a4 a5 a6 : M Z :=
  syscall {| rax := num; rdi := a1; rsi := a2; rdx := a3; r10 := a4; r8 := a5; r9 := a6 |}.

(** A wrapper declared to return [int]. *)
Definition ret_int (c : M Z) : M Z := v ← c; mret (to_int v).

Context {A : Abi}.

Definition write (fd : Z) (buf : ptr) (count : Z) : M Z :=
  SYSCALL_3 NR_write (of_int fd) (of_ptr buf) (of_ulong count).
Definition read (fd : Z) (buf : ptr) (count : Z) : M Z :=
  SYSCALL_3 NR_read (of_int fd) (of_ptr buf) (of_ulong count).
Definition reboot (cmd : Z) (arg : ptr) : M Z :=
  SYSCALL_4 NR_reboot (of_int LINUX_REBOOT_MAGIC1) (of_int LINUX_REBOOT_MAGIC2)
    (of_int cmd) (of_ptr arg).
(** noreturn: coming back is undefined *)
Definition reboot_hard {T} (cmd : Z) : M T :=
  _ ← SYSCALL_4 NR_reboot (of_int LINUX_REBOOT_MAGIC1) (of_int LINUX_REBOOT_MAGIC2)
    (of_int cmd) (of_ptr Null);
  fail FUnreachable.
Definition sched_yield : M Z := ret_int (SYSCALL_0 NR_sched_yield).
Definition copy_file_range (fd_in : Z) (off_in : ptr) (fd_out : Z) (off_out : ptr)
    (len flags : Z) : M Z :=
  SYSCALL_6 NR_copy_file_range (of_int fd_in) (of_ptr off_in) (of_int fd_out)
    (of_ptr off_out) (of_ulong len) (of_int flags).
Definition lseek (fd offset whence : Z) : M Z :=
  SYSCALL_3 NR_lseek (of_int fd) (of_int offset) (of_int whence).
Definition umask (mask : Z) : M Z := ret_int (SYSCALL_1 NR_umask (of_int mask)).
Definition mkdir (path : ptr) (mode : Z) : M Z :=
  ret_int (SYSCALL_3 NR_mkdirat (of_int AT_FDCWD) (of_ptr path) (of_int mode)).
Definition mknod (path : ptr) (mode dev : Z) : M Z :=
  SYSCALL_4 NR_mknodat (of_int AT_FDCWD) (of_ptr path) (of_int mode) (of_int dev).
Definition mount (src tgt fst : ptr) (flags : Z) (data : ptr) : M Z :=
  ret_int (SYSCALL_5 NR_mount (of_ptr src) (of_ptr tgt) (of_ptr fst) (of_ulong flags) (of_ptr data)).
Definition open (path : ptr) (flags mode : Z) : M Z :=
  ret_int (SYSCALL_4 NR_openat (of_int AT_FDCWD) (of_ptr path) (of_int flags) (of_int mode)).
Definition brk (a : ptr) : M Z := SYSCALL_1 NR_brk (of_ptr a).
(** the argument is an [unsigned short], passed on as an [int]; noreturn *)
Definition exit {T} (status : Z) : M T :=
  _ ← SYSCALL_1 NR_exit (of_int (uwrap 16 status));
  fail FUnreachable.
Definition chdir (path : ptr) : M Z := ret_int (SYSCALL_1 NR_chdir (of_ptr path)).
Definition chmod (path : ptr) (mode : Z) : M Z :=
  ret_int (SYSCALL_4 NR_fchmodat (of_int AT_FDCWD) (of_ptr path) (of_int mode) (of_int 0)).
Definition chown (path : ptr) (owner group : Z) : M Z :=
  ret_int (SYSCALL_5 NR_fchownat (of_int AT_FDCWD) (of_ptr path) (of_int owner)
    (of_int group) (of_int 0)).
Definition chroot (path : ptr) : M Z := ret_int (SYSCALL_1 NR_chroot (of_ptr path)).
Definition close (fd : Z) : M Z := ret_int (SYSCALL_1 NR_close (of_int fd)).
Definition close_range (first last flags : Z) : M Z :=
  ret_int (SYSCALL_3 NR_close_range (of_int first) (of_int last) (of_int flags)).
Definition close_all_files : M Z := close_range 0 (uwrap 32 (Z.lnot 0)) 0.
Definition dup3 (oldfd newfd flags : Z) : M Z :=
  ret_int (SYSCALL_3 NR_dup3 (of_int oldfd) (of_int newfd) (of_int flags)).
Definition execveat (dirfd : Z) (filename argv envp : ptr) (flags : Z) : M Z :=
  ret_int (SYSCALL_5 NR_execveat (of_int dirfd) (of_ptr filename) (of_ptr argv)
    (of_ptr envp) (of_int flags)).
Definition getdents64 (fd : Z) (dirp : ptr) (count : Z) : M Z :=
  ret_int (SYSCALL_3 NR_getdents64 (of_int fd) (of_ptr dirp) (of_int count)).
Definition getpid : M Z := ret_int (SYSCALL_0 NR_getpid).
Definition ioctl (fd req : Z) (value : ptr) : M Z :=
  ret_int (SYSCALL_3 NR_ioctl (of_int fd) (of_ulong req) (of_ptr value)).
Definition memfd_create (flags : Z) : M Z :=
  ret_int (SYSCALL_2 NR_memfd_create (of_ptr (Ptr (BLit "") 0)) (of_int flags)).
Definition mmap (a : ptr) (length prot flags fd offset : Z) : M Z :=
  SYSCALL_6 NR_mmap (of_ptr a) (of_ulong length) (of_int prot) (of_int flags) (of_int fd)
    (of_int offset).
(** [a]: the address of a mapping *)
Definition munmap (a length : Z) : M Z :=
  ret_int (SYSCALL_2 NR_munmap (of_int a) (of_ulong length)).
Definition mremap (old_address old_size new_size flags : Z) : M Z :=
  SYSCALL_4 NR_mremap (of_int old_address) (of_ulong old_size) (of_ulong new_size) (of_int flags).
Definition mprotect (a len prot : Z) : M Z :=
  ret_int (SYSCALL_3 NR_mprotect (of_int a) (of_ulong len) (of_int prot)).
Definition io_uring_setup (entries : Z) (p : ptr) : M Z :=
  ret_int (SYSCALL_2 NR_io_uring_setup (of_int entries) (of_ptr p)).
Definition io_uring_enter (ring_fd to_submit min_complete flags : Z) (sig : ptr) : M Z :=
  ret_int (SYSCALL_6 NR_io_uring_enter (of_int ring_fd) (of_int to_submit)
    (of_int min_complete) (of_int flags) (of_ptr sig) (of_int 0)).
Definition io_uring_register (fd opcode : Z) (arg : ptr) (nr_args : Z) : M Z :=
  ret_int (SYSCALL_4 NR_io_uring_register (of_int fd) (of_int opcode) (of_ptr arg) (of_int nr_args)).
Definition clone3 (cl_args : ptr) (size : Z) : M Z :=
  ret_int (SYSCALL_2 NR_clone3 (of_ptr cl_args) (of_ulong size)).
Definition clock_gettime (clockid : Z) (tp : ptr) : M Z :=
  ret_int (SYSCALL_2 NR_clock_gettime (of_int clockid) (of_ptr tp)).
Definition futex (uaddr : ptr) (futex_op val : Z) (timeout uaddr2 : ptr) (val3 : Z) : M Z :=
  SYSCALL_6 NR_futex (of_ptr uaddr) (of_int futex_op) (of_int val) (of_ptr timeout)
    (of_ptr uaddr2) (of_int val3).
Definition openat2 (dirfd : Z) (pathname how : ptr) (size : Z) : M Z :=
  ret_int (SYSCALL_4 NR_openat2 (of_int dirfd) (of_ptr pathname) (of_ptr how) (of_ulong size)).
Definition setuid (uid : Z) : M Z := ret_int (SYSCALL_1 NR_setuid (of_int uid)).
Definition setresuid (ruid euid suid : Z) : M Z :=
  ret_int (SYSCALL_3 NR_setresuid (of_int ruid) (of_int euid) (of_int suid)).
Definition setresgid (rgid egid sgid : Z) : M Z :=
  ret_int (SYSCALL_3 NR_setresgid (of_int rgid) (of_int egid) (of_int sgid)).
Definition setgroups (size : Z) (list : ptr) : M Z :=
  ret_int (SYSCALL_2 NR_setgroups (of_ulong size) (of_ptr list)).
Definition signalfd (fd : Z) (mask : ptr) (flags : Z) : M Z :=
  ret_int (SYSCALL_4 NR_signalfd4 (of_int fd) (of_ptr mask) (of_ulong sizeof_sigset_t) (of_int flags)).
Definition sigprocmask (how : Z) (set oldset : ptr) : M Z :=
  ret_int (SYSCALL_4 NR_rt_sigprocmask (of_int how) (of_ptr set) (of_ptr oldset)
    (of_ulong sizeof_sigset_t)).
Definition waitid (idtype id : Z) (infop : ptr) (options : Z) (usage : ptr) : M Z :=
  ret_int (SYSCALL_5 NR_waitid (of_int idtype) (of_int id) (of_ptr infop) (of_int options)
    (of_ptr usage)).
Definition pivot_root (new_root put_old : ptr) : M Z :=
  ret_int (SYSCALL_2 NR_pivot_root (of_ptr new_root) (of_ptr put_old)).
Definition sysinfo (info : ptr) : M Z := ret_int (SYSCALL_1 NR_sysinfo (of_ptr info)).
Definition fstatat (dirfd : Z) (pathname statbuf : ptr) (flags : Z) : M Z :=
  ret_int (SYSCALL_4 NR_newfstatat (of_int dirfd) (of_ptr pathname) (of_ptr statbuf) (of_int flags)).
Definition prctl (option arg2 arg3 arg4 arg5 : Z) : M Z :=
  ret_int (SYSCALL_5 NR_prctl (of_int option) (of_ulong arg2) (of_ulong arg3) (of_ulong arg4)
    (of_ulong arg5)).
Definition capget (hdrp datap : ptr) : M Z :=
  ret_int (SYSCALL_2 NR_capget (of_ptr hdrp) (of_ptr datap)).
Definition capset (hdrp datap : ptr) : M Z :=
  ret_int (SYSCALL_2 NR_capset (of_ptr hdrp) (of_ptr datap)).
Definition setcap (effective permitted inheritable : Z) : M Z :=
  hdr ← on_mem (alloc (OStruct {["version" := LINUX_CAPABILITY_VERSION_3; "pid" := 0]}));
  data ← on_mem (alloc (OStruct
    {["effective" := effective; "permitted" := permitted; "inheritable" := inheritable]}));
  r ← ret_int (SYSCALL_2 NR_capset (of_ptr hdr) (of_ptr data));
  _ ← on_mem (free data);
  _ ← on_mem (free hdr);
  mret r.
Definition socket (domain type protocol : Z) : M Z :=
  ret_int (SYSCALL_3 NR_socket (of_int domain) (of_int type) (of_int protocol)).
Definition sendmmsg (sockfd : Z) (msgvec : ptr) (vlen flags : Z) : M Z :=
  ret_int (SYSCALL_4 NR_sendmmsg (of_int sockfd) (of_ptr msgvec) (of_int vlen) (of_int flags)).
End syscalls.
