(* ===== verification/Console.v ===== *)
(** * include/minlinux/util.h: messages and error checks

    [strlen], [WRITESTR], [write_int], [SYSCHECK], [WRITE_ERR] and [ERREXIT],
    and the small logic [prints] in which the output of the commands is
    computed: what a piece of code asks to be written to the standard output,
    whatever the kernel answers. *)

From S2P Require Import Prelude Outcome CMem CString Decimal Machine Syscall.

Definition STDIN : Z := 0.
Definition STDOUT : Z := 1.
Definition STDERR : Z := 2.

(** Line feed, for the string constants of the source. *)
Definition nl : string := String (Ascii.ascii_of_nat 10) "".

Section console.
Context {K : Kernel} {A : Abi}.

(** [__FILE__ ":" xstr(__LINE__)] *)
Definition here (file line : string) : string := src_root +:+ file +:+ ":" +:+ line.

(** A constant's length is computed by the compiler. *)
Definition builtin_strlen (s : string) : Z :=
  Z.of_nat (length (default (lit s) (take_cstr (lit s ++ [x00])))).

Definition strlen (p : ptr) : M Z :=
  match p with
  | Ptr (BLit s) 0 => mret (builtin_strlen s)
  | _ => on_mem (nolibc_strlen p)
  end.

Definition WRITESTR (p : ptr) : M Z :=
  n ← strlen p;
  write STDOUT p n.

(** [WRITESTR] of a string constant. *)
Definition say (s : string) : M Z := WRITESTR (Ptr (BLit s) 0).

(** The [uint64_t] is converted to the [long] that [ltoa] prints. *)
Definition write_int (v : Z) : M unit :=
  str ← on_mem (ltoa (swrap 64 v));
  n ← strlen str;
  _ ← write STDOUT str n;
  mret tt.

Definition SYSCHECK (loc : string) (expr : M Z) : M Z :=
  res ← expr;
  if res <? 0 then
    _ ← say (loc +:+ " syscall error ");
    s ← on_mem (int_to_str res);
    n ← strlen (str s);
    _ ← write STDOUT (str s) n;
    _ ← say nl;
    exit (- res)
  else mret res.

(** A trace of the line the program is at; nothing uses it. *)
Definition MARK (loc : string) : M Z :=
  write 0 (Ptr (BLit (loc +:+ nl)) 0) (builtin_strlen (loc +:+ nl)).

(** [err] is an [int] passed as the [uint64_t] of [write_int]. *)
Definition WRITE_ERR (msg : string) (err : Z) : M unit :=
  _ ← say msg;
  _ ← say ": ";
  _ ← write_int (uwrap 64 err);
  _ ← say nl;
  mret tt.

Definition ERREXIT {T} (loc msg : string) : M T :=
  _ ← say (loc +:+ " " +:+ msg);
  reboot_hard LINUX_REBOOT_CMD_POWER_OFF.

(** ** What is printed *)

(** The static buffer of [ltoa] is there; objects created later are none of
    the static ones. *)
Definition statics_ok (st : mach) : Prop :=
  (exists l, m_objs (st_mem st) !! ltoa_buffer = Some (OBytes l) /\ length l = 21%nat) /\
  (10 <= m_next (st_mem st))%positive.

(** Two memories that agree on everything but that buffer and [siginfo]. *)
Definition same_objs : mem -> mem -> Prop := mem_upto [ltoa_buffer].

Definition stdout_of (st : mach) : list byte := written STDOUT (st_trace st).

(** From [st], [c] returns, having asked for [s] on the standard output and
    changed no object of the program. *)
Definition prints {T} (c : M T) (s : list byte) (st : mach) : Prop :=
  exists v st', c st = Ok v st' /\ statics_ok st' /\
    same_objs (st_mem st) (st_mem st') /\ stdout_of st' = stdout_of st ++ s.

Lemma prints_ret {T} (v : T) st : statics_ok st -> prints (mret v) [] st.
Proof. intros. exists v, st. split_and!; [done..|]. by rewrite app_nil_r. Qed.

Lemma prints_bind {T U} (c : M T) (f : T -> M U) s s' st :
  prints c s st ->
  (forall v st', same_objs (st_mem st) (st_mem st') -> statics_ok st' -> prints (f v) s' st') ->
  prints (c ≫= f) (s ++ s') st.
Proof.
  intros (v & st1 & Hc & Hok & Hs & Ho) Hf.
  destruct (Hf v st1 Hs Hok) as (w & st2 & Hf' & Hok' & Hs' & Ho').
  exists w, st2. split_and!; [by rewrite (bind_ok _ _ _ _ _ Hc)|done|by etrans|].
  by rewrite Ho', Ho, app_assoc.
Qed.

Context {HK : KernelOk K}.

(** The kernel's answer to a [write], and the memory it leaves. *)
Lemma write_ok fd p n st :
  exists v m sh k, write fd p n st = Ok v
    {| st_mem := m; st_shm := sh; st_k := k;
       st_trace := st_trace st ++ [{| ev_regs := Regs NR_write (of_int fd) (of_ptr p) (of_ulong n)
                                        None None None; ev_mem := st_mem st; ev_ret := Some v |}] |} /\
    mem_upto [] (st_mem st) m.
Proof.
  unfold write, SYSCALL_3, syscall. set (r := {| rax := NR_write |}).
  destruct (kernel_write r (st_mem st) (st_shm st) (st_k st) eq_refl) as (v & m & sh & k & E).
  rewrite E. pose proof (kernel_mem _ _ _ _ _ _ _ _ E eq_refl). eauto 10.
Qed.

Lemma statics_upto ns st st' : mem_upto ns (st_mem st) (st_mem st') -> ltoa_buffer ∉ ns ->
  statics_ok st -> statics_ok st'.
Proof.
  intros (Ho & Hn & _) Hns [(l & Hl & Hlen) Hnext]. split; [|by rewrite Hn].
  exists l. by rewrite Ho.
Qed.

Lemma write_prints b l (i k : nat) st :
  statics_ok st -> block_bytes (st_mem st) b = Some l -> Z.of_nat k < 2 ^ 63 ->
  prints (write STDOUT (Ptr b (Z.of_nat i)) (Z.of_nat k)) (take k (drop i l)) st.
Proof.
  intros Hok Hb Hk. destruct (write_ok STDOUT (Ptr b (Z.of_nat i)) (Z.of_nat k) st)
    as (v & m & sh & ks & E & Hm).
  exists v. eexists. split_and!; [exact E| | |].
  - eapply statics_upto; [exact Hm|set_solver|done].
  - eapply mem_upto_weaken; [|exact Hm]. set_solver.
  - unfold stdout_of. cbn [st_trace]. rewrite written_app. f_equal.
    unfold written. cbn [mbind list_bind]. unfold ev_write. cbn [ev_regs ev_mem].
    unfold of_int, of_ptr, of_ulong. rewrite swrap_small, Hb by lia. cbn [mbind option_bind].
    rewrite !(proj2 (Z.leb_le 0 (Z.of_nat _)) (Nat2Z.is_nonneg _)). cbn [andb].
    by rewrite !Nat2Z.id, app_nil_r.
Qed.

Lemma strlen_ok b i s st :
  cstr (st_mem st) b i s -> Z.of_nat (length s) < 2 ^ 63 ->
  strlen (Ptr b (Z.of_nat i)) st = Ok (Z.of_nat (length s)) st.
Proof.
  intros Hs Hlen. assert (on_mem (nolibc_strlen (Ptr b (Z.of_nat i))) st =
    Ok (Z.of_nat (length s)) st) as E.
  { erewrite on_mem_ok; [|apply strlen_correct; [exact Hs|lia]]. by rewrite upd_mem_id. }
  unfold strlen. destruct b as [t|n]; [|done]. destruct i as [|i]; [|done].
  destruct Hs as (l & rest & [= <-] & Hd & Hs). rewrite drop_0 in Hd.
  cbn. unfold builtin_strlen. by rewrite (proj2 (take_cstr_spec _ s)) by eauto.
Qed.

(** A constant's length, up to a zero byte in it if there is one, is that of
    the C string it is. *)
Lemma lit_cstr m s : exists t, cstr m (BLit s) 0 t /\ builtin_strlen s = Z.of_nat (length t) /\
  (length t <= length (lit s))%nat.
Proof.
  assert (forall l : list byte, exists t, take_cstr (l ++ [x00]) = Some t /\ (length t <= length l)%nat) as H.
  { induction l as [|c l (t & E & Ht)]; [by exists []|]. cbn. case_decide; [exists []; cbn; split; [done|lia]|].
    rewrite E. exists (c :: t). cbn. split; [done|lia]. }
  destruct (H (lit s)) as (t & E & Ht). exists t. unfold builtin_strlen. rewrite E. split_and!; [|done|done].
  apply take_cstr_spec in E as (rest & E & H0). exists (lit s ++ [x00]), rest. by split_and!.
Qed.

(** A C string is printed. *)
Lemma puts_prints b i s st :
  statics_ok st -> cstr (st_mem st) b i s -> Z.of_nat (length s) < 2 ^ 63 ->
  prints (WRITESTR (Ptr b (Z.of_nat i))) s st.
Proof.
  intros Hok Hs Hlen. unfold WRITESTR, prints.
  rewrite (bind_ok _ _ _ _ _ (strlen_ok _ _ _ _ Hs Hlen)).
  destruct Hs as (l & rest & Hb & Hd & _).
  pose proof (write_prints b l i (length s) st Hok Hb Hlen) as W.
  by rewrite Hd, take_app_length in W.
Qed.

Lemma say_prints s st :
  statics_ok st -> x00 ∉ lit s -> Z.of_nat (length (lit s)) < 2 ^ 63 ->
  prints (say s) (lit s) st.
Proof. intros Hok H0 Hs. apply (puts_prints _ 0); [done|by apply cstr_lit|done]. Qed.

(** An integer is printed in decimal, as the [long] of the same bits. *)
Lemma write_int_prints v st :
  statics_ok st -> swrap 64 v <> - 2 ^ 63 ->
  prints (write_int v) (dec_Z (swrap 64 v)) st.
Proof.
  intros [(l & Hl & Hlen) Hnext] Hv. pose proof (swrap_range 64 ltac:(lia) v) as Hr.
  set (z := swrap 64 v) in *.
  destruct (print_long_correct (st_mem st) ltoa_buffer l Hl Hlen z ltac:(lia)) as [E Hz].
  pose proof (filled_cstr (st_mem st) ltoa_buffer l Hlen (dec_Z z) Hz (nul_notin_dec z)) as Hc.
  set (m' := filled _ _ _ _) in *. set (st1 := upd_mem m' st).
  assert (statics_ok st1) as Hok1.
  { split; [|done]. eexists. split; [apply set_obj_eq|by rewrite length_inserts]. }
  assert (same_objs (st_mem st) (st_mem st1)) as Hs1.
  { split; [|done]. intros n _ Hn. apply set_obj_ne. set_solver. }
  unfold write_int, prints. fold z.
  erewrite bind_ok; [|apply on_mem_ok; exact E]. fold st1.
  replace (20 - Z.of_nat (length (dec_Z z))) with (Z.of_nat (20 - length (dec_Z z))) by lia.
  erewrite bind_ok; [|apply strlen_ok; [exact Hc|lia]].
  destruct Hc as (lb & rest & Hb & Hd & _).
  destruct (write_prints (BVar ltoa_buffer) lb (20 - length (dec_Z z)) (length (dec_Z z)) st1
    Hok1 Hb ltac:(lia)) as (w & st2 & Ew & Hok2 & Hs2 & Ho2).
  rewrite (bind_ok _ _ _ _ _ Ew). rewrite Hd, take_app_length in Ho2.
  exists tt, st2. split_and!; [done|done|by etrans|done].
Qed.

Lemma WRITE_ERR_prints msg err st :
  statics_ok st -> x00 ∉ lit msg -> Z.of_nat (length (lit msg)) < 2 ^ 63 ->
  - 2 ^ 31 <= err < 2 ^ 31 ->
  prints (WRITE_ERR msg err) (lit msg ++ lit ": " ++ dec_Z err ++ lit nl) st.
Proof.
  intros Hok H0 Hmsg Herr. unfold WRITE_ERR.
  apply prints_bind; [by apply say_prints|]. intros _ st1 _ Hok1.
  apply prints_bind; [apply say_prints; [done|by apply (bool_decide_unpack _)|done]|].
  intros _ st2 _ Hok2.
  assert (swrap 64 (uwrap 64 err) = err) as E by (apply swrap_uwrap_small; lia).
  rewrite <- E at 2. apply prints_bind; [apply write_int_prints; [done|lia]|].
  intros _ st3 _ Hok3. rewrite <- (app_nil_r (lit nl)).
  apply prints_bind; [apply say_prints; [done|by apply (bool_decide_unpack _)|done]|].
  intros _ st4 _ Hok4. by apply prints_ret.
Qed.

(** ** What the macros do *)

(** The two branches of [strlen] agree: the length of a string constant the
    compiler computes is the one the loop of [nolibc_strlen] finds, also when
    there is a zero byte inside the constant. *)
Theorem strlen_branches_agree s st :
  Z.of_nat (length (lit s)) < 2 ^ 63 ->
  strlen (Ptr (BLit s) 0) st = Ok (builtin_strlen s) st /\
  on_mem (nolibc_strlen (Ptr (BLit s) 0)) st = Ok (builtin_strlen s) st.
Proof.
  intros Hlen. split; [done|]. destruct (lit_cstr (st_mem st) s) as (t & Ht & -> & Hle).
  erewrite on_mem_ok; [by rewrite upd_mem_id|]. apply (strlen_correct _ _ 0); [done|lia].
Qed.

(** C37: [write_int] of a [uint64_t] prints the decimal notation of its
    argument up to 2^63 - 1, and from 2^63 + 1 on that of the negative number
    with the same bits, and changes no object of the program.  At 2^63 itself
    nothing is printed: the conversion gives the least [long], and [ltoa]
    overflows negating it. *)
Theorem write_int_output v st :
  statics_ok st -> 0 <= v < 2 ^ 64 ->
  (v < 2 ^ 63 -> prints (write_int v) (dec_Z v) st) /\
  (v = 2 ^ 63 -> write_int v st = Stop (Fault FOverflow)) /\
  (2 ^ 63 < v -> prints (write_int v) (dec_Z (v - 2 ^ 64)) st).
Proof.
  intros Hok Hv. split_and!; intros Hc.
  - assert (swrap 64 v = v) as E by (apply swrap_small; lia).
    rewrite <- E at 2. apply write_int_prints; [done|]. rewrite E. lia.
  - by subst.
  - assert (swrap 64 v = v - 2 ^ 64) as E.
    { replace v with (v - 2 ^ 64 + 1 * 2 ^ 64) at 1 by lia. rewrite swrap_add_mult, swrap_small by lia. done. }
    rewrite <- E. apply write_int_prints; [done|]. rewrite E. lia.
Qed.

(** C29: [SYSCHECK] hands on a result that is not negative.  On an error it
    never gets to its [exit]: it reads the number to print through the
    dangling pointer of [int_to_str]. *)
Theorem SYSCHECK_outcome loc (c : M Z) st v st' :
  c st = Ok v st' -> statics_ok st' -> x00 ∉ lit loc -> Z.of_nat (length (lit loc)) < 2 ^ 62 ->
  (0 <= v -> SYSCHECK loc c st = Ok v st') /\
  (- 2 ^ 63 < v < 0 -> SYSCHECK loc c st = Stop (Fault FDead)).
Proof.
  intros Hc Hok H0 Hlen. unfold SYSCHECK. rewrite (bind_ok _ _ _ _ _ Hc). split; intros Hv.
  - by rewrite (proj2 (Z.ltb_ge _ _)) by lia.
  - rewrite (proj2 (Z.ltb_lt _ _)) by lia.
    destruct (say_prints (loc +:+ " syscall error ") st' Hok) as (w & st1 & E1 & Hok1 & _).
    { rewrite lit_app, not_elem_of_app. split; [done|by apply (bool_decide_unpack _)]. }
    { rewrite lit_app, length_app. change (length (lit " syscall error ")) with 15%nat. lia. }
    rewrite (bind_ok _ _ _ _ _ E1).
    destruct (int_to_str_str (st_mem st1) v Hv) as (r & m' & o & E2 & Er & Hd).
    rewrite (bind_ok _ _ _ _ _ (on_mem_ok _ _ _ _ E2)). apply bind_stop.
    rewrite Er. unfold strlen, on_mem, zoom. cbn [st_mem upd_mem]. by rewrite strlen_dead.
Qed.

(** [WRITE_ERR] prints the message and the code as a signed number, on
    one line. *)
Theorem WRITE_ERR_output msg err st :
  statics_ok st -> x00 ∉ lit msg -> Z.of_nat (length (lit msg)) < 2 ^ 63 ->
  - 2 ^ 31 <= err < 2 ^ 31 ->
  prints (WRITE_ERR msg err) (lit msg ++ lit ": " ++ dec_Z err ++ lit nl) st.
Proof. apply WRITE_ERR_prints. Qed.

(** [ERREXIT] prints its message and powers the machine off; it never
    returns. *)
Theorem ERREXIT_powers_off {T} loc msg st :
  (forall r m sh k, rax r = NR_reboot -> exists k', kcall r m sh k = KNoret k') ->
  statics_ok st -> x00 ∉ lit (loc +:+ " " +:+ msg) ->
  Z.of_nat (length (lit (loc +:+ " " +:+ msg))) < 2 ^ 63 ->
  exists st' tr e, (ERREXIT loc msg : M T) st = Stop (Halted st') /\
    stdout_of st' = stdout_of st ++ lit (loc +:+ " " +:+ msg) /\
    st_trace st' = tr ++ [e] /\
    ev_regs e = Regs NR_reboot (of_int LINUX_REBOOT_MAGIC1) (of_int LINUX_REBOOT_MAGIC2)
      (of_int LINUX_REBOOT_CMD_POWER_OFF) (of_ptr Null) None None.
Proof.
  intros Hr Hok H0 Hlen. unfold ERREXIT.
  destruct (say_prints _ st Hok H0 Hlen) as (w & st1 & E1 & Hok1 & _ & Ho).
  rewrite (bind_ok _ _ _ _ _ E1). unfold reboot_hard, SYSCALL_4, syscall, mbind, stM_bind.
  set (r := Regs _ _ _ _ _ _ _). destruct (Hr r (st_mem st1) (st_shm st1) (st_k st1) eq_refl) as [k' ->].
  eexists _, _, _. split_and!; [reflexivity| |reflexivity|reflexivity].
  unfold stdout_of in *. cbn [st_trace]. rewrite written_app, Ho. unfold written at 2. cbn.
  by rewrite app_nil_r.
Qed.
End console.
