(* ===== verification/Script.v ===== *)
(** * Scripts of system calls

    What a piece of the program asks the kernel, in order, as a tree: each call
    may depend on the results of the calls before it.  [grants] says that the
    kernel, in one state, answers the calls of a script as they come; [plays]
    that a list of events goes through a script.  [leads] and [halts] are the
    judgements that the code does, for a kernel that grants. *)

From S2P Require Import Prelude Outcome CMem Machine Syscall Console.

Inductive script : Type :=
| Fin                                              (* no call *)
| Last (call : regs -> mem -> Prop)                (* a call that does not return *)
| Ask (call : regs -> mem -> Prop) (ok : Z -> Prop) (post : regs -> mem -> Prop)
      (next : Z -> script)                         (* a call, what it gives, what follows *)
| Touch (next : script).                           (* the mapped memory may be written *)

(** The call [r], whatever the memory is. *)
Definition exactly (r : regs) : regs -> mem -> Prop := fun r' _ => r' = r.

Definition no_post : regs -> mem -> Prop := fun _ _ => True.
Definition any_result (v : Z) : Prop := True.
Definition int_ok (v : Z) : Prop := 0 <= to_int v.
Definition long_ok (v : Z) : Prop := 0 <= v.

(** A call whose result does not matter; one that must succeed, of a wrapper
    that returns an [int], or a [long]. *)
Definition any_call (r : regs) (next : Z -> script) : script := Ask (exactly r) any_result no_post next.
Definition int_call (r : regs) (next : Z -> script) : script := Ask (exactly r) int_ok no_post next.
Definition long_call (r : regs) (next : Z -> script) : script := Ask (exactly r) long_ok no_post next.

(** The events go through the first script and leave the second to be played. *)
Inductive plays : script -> list event -> script -> Prop :=
| plays_nil s : plays s [] s
| plays_ask call ok post next e v es s :
    call (ev_regs e) (ev_mem e) -> ev_ret e = Some v -> ok v -> plays (next v) es s ->
    plays (Ask call ok post next) (e :: es) s
| plays_last call e : call (ev_regs e) (ev_mem e) -> ev_ret e = None -> plays (Last call) [e] Fin
| plays_touch s es s' : plays s es s' -> plays (Touch s) es s'.

(** The whole script was played. *)
Definition follows (s : script) (es : list event) : Prop := plays s es Fin.

Lemma plays_app s es s' es' s'' : plays s es s' -> plays s' es' s'' -> plays s (es ++ es') s''.
Proof.
  induction 1; intros Hp; cbn; [done|by econstructor; eauto| |by constructor; auto].
  inversion Hp. subst. by constructor.
Qed.

Section script.
Context {K : Kernel} {A : Abi}.

(** Given the mapped memory [sh], the kernel in the state [k] answers the calls
    of the script as they come. *)
Fixpoint grants (s : script) (sh : shm) (k : kstate) : Prop :=
  match s with
  | Fin => True
  | Last call => forall r m, call r m -> exists k', kcall r m sh k = KNoret k'
  | Ask call ok post next => forall r m, call r m -> exists v m' sh' k',
      kcall r m sh k = KRet v m' sh' k' /\ ok v /\ post r m' /\ grants (next v) sh' k'
  | Touch s => forall sh', grants s sh' k
  end.

(** ** Code that returns *)

(** [c] returns from [st], having played part of [s]; [Q] holds of the result,
    of what is left of the script, and of the state. *)
Definition leads {T} (c : M T) (s : script) (st : mach) (Q : T -> script -> mach -> Prop) : Prop :=
  grants s (st_shm st) (st_k st) -> exists v s' st' es, c st = Ok v st' /\
    st_trace st' = st_trace st ++ es /\ plays s es s' /\ grants s' (st_shm st') (st_k st') /\ Q v s' st'.

Lemma leads_mono {T} (c : M T) s st (Q Q' : T -> script -> mach -> Prop) : leads c s st Q ->
  (forall v s' st', c st = Ok v st' -> Q v s' st' -> Q' v s' st') -> leads c s st Q'.
Proof.
  intros Hc HQ Hg. destruct (Hc Hg) as (v & s' & st' & es & E & Ht & Hp & Hg' & H).
  exists v, s', st', es. split_and!; auto.
Qed.

Lemma leads_bind {T U} (c : M T) (f : T -> M U) s st Q :
  leads c s st (fun v s' st' => leads (f v) s' st' Q) -> leads (c ≫= f) s st Q.
Proof.
  intros Hc Hg. destruct (Hc Hg) as (v & s1 & st1 & es & E & Ht & Hp & Hg1 & Hf).
  destruct (Hf Hg1) as (w & s2 & st2 & es' & E' & Ht' & Hp' & Hg2 & HQ).
  exists w, s2, st2, (es ++ es'). split_and!; [by rewrite (bind_ok _ _ _ _ _ E)| |by eapply plays_app|done..].
  by rewrite Ht', Ht, app_assoc.
Qed.

(** Code between two calls. *)
Lemma leads_quiet {T} (c : M T) s st v st' (Q : T -> script -> mach -> Prop) : c st = Ok v st' ->
  st_trace st' = st_trace st -> st_shm st' = st_shm st -> st_k st' = st_k st -> Q v s st' -> leads c s st Q.
Proof.
  intros E Ht Hs Hk HQ Hg. exists v, s, st', []. rewrite app_nil_r, Hs, Hk. split_and!; try done. constructor.
Qed.

Lemma leads_ret {T} (v : T) s st (Q : T -> script -> mach -> Prop) : Q v s st -> leads (mret v) s st Q.
Proof. by apply leads_quiet. Qed.

Lemma leads_mem {T} (c : memM T) s st v m (Q : T -> script -> mach -> Prop) : c (st_mem st) = Ok v m ->
  Q v s (upd_mem m st) -> leads (on_mem c) s st Q.
Proof. intros E. by apply leads_quiet; [apply on_mem_ok|..]. Qed.

(** Code that writes in the mapped memory. *)
Lemma leads_touch {T} (c : M T) s st v sh (Q : T -> script -> mach -> Prop) : c st = Ok v (upd_shm sh st) ->
  Q v (Touch s) (upd_shm sh st) -> leads c (Touch s) st Q.
Proof.
  intros E HQ Hg. exists v, (Touch s), (upd_shm sh st), []. rewrite app_nil_r. split_and!; try done. constructor.
Qed.

Lemma leads_untouched {T} (c : M T) s st (Q : T -> script -> mach -> Prop) : leads c s st Q -> leads c (Touch s) st Q.
Proof.
  intros Hc Hg. destruct (Hc (Hg _)) as (v & s' & st' & es & E & Ht & Hp & H).
  exists v, s', st', es. split_and!; [done|done|by constructor|apply H..].
Qed.

(** A call of the script. *)
Lemma leads_syscall r call ok post next st (Q : Z -> script -> mach -> Prop) : call r (st_mem st) ->
  (forall v st', syscall r st = Ok v st' -> ok v -> post r (st_mem st') -> Q v (next v) st') ->
  leads (syscall r) (Ask call ok post next) st Q.
Proof.
  intros Hc HQ Hg. destruct (Hg r (st_mem st) Hc) as (v & m & sh & k & E & Hv & Hp & Hg').
  assert (syscall r st = Ok v (Mach _ m sh k (st_trace st ++ [Event r (st_mem st) (Some v)]))) as Es
    by (unfold syscall; by rewrite E).
  eexists v, (next v), _, [_]. split_and!; [exact Es|reflexivity| |done|by apply HQ].
  by econstructor; [..|constructor].
Qed.

(** A wrapper that returns an [int], unchecked and checked. *)
Lemma leads_int r call ok post next st (Q : Z -> script -> mach -> Prop) : call r (st_mem st) ->
  (forall v st', syscall r st = Ok v st' -> ok v -> post r (st_mem st') -> Q (to_int v) (next v) st') ->
  leads (ret_int (syscall r)) (Ask call ok post next) st Q.
Proof.
  intros Hc HQ. unfold ret_int. apply leads_bind, leads_syscall; [done|]. intros. by apply leads_ret, HQ.
Qed.

Lemma leads_SYSCHECK loc (c : M Z) s st (Q : Z -> script -> mach -> Prop) :
  leads c s st (fun v s' st' => 0 <= v /\ Q v s' st') -> leads (SYSCHECK loc c) s st Q.
Proof.
  intros Hc. unfold SYSCHECK. apply leads_bind. eapply leads_mono; [exact Hc|]. cbv beta.
  intros v s' st' _ [Hv HQ]. rewrite (proj2 (Z.ltb_ge _ _)) by done. by apply leads_ret.
Qed.

Lemma leads_checked loc r call post next st (Q : Z -> script -> mach -> Prop) : call r (st_mem st) ->
  (forall v st', syscall r st = Ok v st' -> int_ok v -> post r (st_mem st') -> Q (to_int v) (next v) st') ->
  leads (SYSCHECK loc (ret_int (syscall r))) (Ask call int_ok post next) st Q.
Proof. intros Hc HQ. apply leads_SYSCHECK, leads_int; [done|]. intros v st' E Hv Hp. split; [exact Hv|by apply HQ]. Qed.

Lemma leads_checked_long loc r call post next st (Q : Z -> script -> mach -> Prop) : call r (st_mem st) ->
  (forall v st', syscall r st = Ok v st' -> long_ok v -> post r (st_mem st') -> Q v (next v) st') ->
  leads (SYSCHECK loc (syscall r)) (Ask call long_ok post next) st Q.
Proof. intros Hc HQ. apply leads_SYSCHECK, leads_syscall; [done|]. intros v st' E Hv Hp. split; [exact Hv|by apply HQ]. Qed.

(** ** Code that does not *)

(** [c] plays the whole of [s] from [st], to its last call. *)
Definition halts {T} (c : M T) (s : script) (st : mach) : Prop :=
  grants s (st_shm st) (st_k st) -> exists st' es, c st = Stop (Halted st') /\
    st_trace st' = st_trace st ++ es /\ follows s es.

Lemma halts_bind {T U} (c : M T) (f : T -> M U) s st :
  leads c s st (fun v s' st' => halts (f v) s' st') -> halts (c ≫= f) s st.
Proof.
  intros Hc Hg. destruct (Hc Hg) as (v & s1 & st1 & es & E & Ht & Hp & Hg1 & Hf).
  destruct (Hf Hg1) as (st2 & es' & E' & Ht' & Hp').
  exists st2, (es ++ es'). split_and!; [by rewrite (bind_ok _ _ _ _ _ E)| |by eapply plays_app].
  by rewrite Ht', Ht, app_assoc.
Qed.

Lemma halts_last {T} r (f : Z -> M T) call st : call r (st_mem st) -> halts (syscall r ≫= f) (Last call) st.
Proof.
  intros Hc Hg. destruct (Hg r (st_mem st) Hc) as [k E].
  eexists _, [_]. split_and!; [apply bind_stop; unfold syscall; rewrite E; reflexivity|reflexivity|by constructor].
Qed.

(** ** Code that returned

    For any kernel: what the calls of code that came to its end were. *)

Definition asked (st st' : mach) (s : script) : Prop :=
  exists es, st_trace st' = st_trace st ++ es /\ follows s es.

Lemma asked_fin st : asked st st Fin.
Proof. exists []. rewrite app_nil_r. split; [done|constructor]. Qed.

Lemma asked_syscall r call ok post next st v st1 st' : syscall r st = Ok v st1 ->
  call r (st_mem st) -> ok v -> asked st1 st' (next v) -> asked st st' (Ask call ok post next).
Proof.
  unfold syscall. destruct (kcall _ _ _ _) as [w m sh k|]; [|done]. intros [= <- <-] Hc Hv (es & Ht & Hp). cbn in Ht.
  exists (Event r (st_mem st) (Some w) :: es). split; [by rewrite Ht, <- app_assoc|by econstructor].
Qed.
End script.
