(* ===== verification/Hello.v ===== *)
(** * hello-world/hello-world.c: the test program

    The one other program of the tree, built on the same two headers: it
    writes a line and ends.  It is not run by init but shows that the wrappers
    and the macros are enough for a program of their own. *)

From S2P Require Import Prelude Outcome CMem CString Machine Syscall Console.

Section hello.
Context {K : Kernel} {A : Abi}.

Definition greeting : string := "hello world!" +:+ nl.

(** Both arguments of [write] are the same constant. *)
Definition main {T} (argc : Z) (argv env : ptr) : M T :=
  n ← strlen (Ptr (BLit greeting) 0);
  _ ← write 1 (Ptr (BLit greeting) 0) n;
  exit 0.

Context {HK : KernelOk K}.

(** C40: the test program asks for exactly its line on the standard output,
    13 bytes in one call, whether or not the write succeeds, then ends with
    status 0 and makes no other call. *)
Theorem main_greets {T} argc argv env st :
  (forall r m sh k, rax r = NR_exit -> exists k', kcall r m sh k = KNoret k') ->
  exists st' e1 e2, (main argc argv env : M T) st = Stop (Halted st') /\
    st_trace st' = st_trace st ++ [e1; e2] /\ ev_write e1 = Some (1, lit greeting) /\
    ev_regs e1 = Regs NR_write (of_int 1) (of_ptr (Ptr (BLit greeting) 0)) (of_ulong 13) None None None /\
    ev_regs e2 = Regs NR_exit (of_int 0) None None None None None.
Proof.
  intros Hexit. unfold main. rewrite (bind_ok _ _ st 13 st) by reflexivity.
  destruct (write_ok 1 (Ptr (BLit greeting) 0) 13 st) as (v & m & sh & k & E & _).
  rewrite (bind_ok _ _ _ _ _ E). unfold exit, SYSCALL_1, syscall, mbind, stM_bind.
  set (r := Regs NR_exit _ _ _ _ _ _). cbn [st_mem st_shm st_k st_trace].
  destruct (Hexit r m sh k eq_refl) as [k' ->].
  eexists _, _, _. split_and!; [reflexivity|cbn; by rewrite <- app_assoc|vm_compute; reflexivity|done|done].
Qed.
End hello.
