(* ===== verification/Uring.v ===== *)
(** * util/uring_ctl.c: the submission and completion rings

    The operations of the program on the rings it shares with the kernel, over
    the words and entries at the machine addresses [uring_init] computes, and
    their refinement of two bounded FIFO queues ([ring]): submissions go from
    [pending] (handed out to the program) to [queued] (visible to the kernel),
    completions are taken in order.  Head and tail words are free-running
    32-bit counters; the entry counts are powers of two below [2^32]. *)

From S2P Require Import Prelude Outcome CMem CString Decimal Machine Syscall Console.

(** The program's handle; pointers into the mappings are addresses. *)
Record uring_queue : Type := Uring {
  ringfd : Z;
  mmap_ring : Z; mmap_ring_size : Z;
  mmap_sqes : Z; mmap_sqes_size : Z;
  cqes : Z; sqes : Z;
  sq_entries : Z; sq_mask : Z; sq_head : Z; sq_tail : Z; sq_array : Z;
  sq_list_head : Z; sq_list_tail : Z;
  cq_head : Z; cq_tail : Z; cq_mask : Z; cq_entries : Z
}.

Definition with_list (u : uring_queue) (head tail : Z) : uring_queue :=
  {| ringfd := ringfd u; mmap_ring := mmap_ring u; mmap_ring_size := mmap_ring_size u;
     mmap_sqes := mmap_sqes u; mmap_sqes_size := mmap_sqes_size u;
     cqes := cqes u; sqes := sqes u; sq_entries := sq_entries u; sq_mask := sq_mask u;
     sq_head := sq_head u; sq_tail := sq_tail u; sq_array := sq_array u;
     sq_list_head := head; sq_list_tail := tail;
     cq_head := cq_head u; cq_tail := cq_tail u; cq_mask := cq_mask u; cq_entries := cq_entries u |}.

Lemma with_list_id u a b : sq_list_head u = a -> sq_list_tail u = b -> with_list u a b = u.
Proof. destruct u. cbn. by intros -> ->. Qed.

Section uring.
Context {K : Kernel} {A : Abi}.

Definition uring_c (line : string) : string := here "/util/uring_ctl.c" line.

(** [struct io_uring_params p = {}]: the fields the program reads. *)
Definition io_uring_params_0 : obj :=
  OStruct {["features" := 0; "sq_entries" := 0; "cq_entries" := 0;
            "sq_off.head" := 0; "sq_off.tail" := 0; "sq_off.ring_mask" := 0;
            "sq_off.array" := 0; "sq_off.ring_entries" := 0;
            "cq_off.head" := 0; "cq_off.tail" := 0; "cq_off.ring_mask" := 0;
            "cq_off.cqes" := 0; "cq_off.ring_entries" := 0]}.

(** Lengths of the two rings in the mapping, as [int]s, and the larger. *)
Definition sring_size (array entries : Z) : Z := swrap 32 (uwrap 64 (array + entries * 4)).
Definition cring_size (off entries : Z) : Z :=
  swrap 32 (uwrap 64 (off + entries * sizeof_io_uring_cqe)).
Definition ring_size (sring_sz cring_sz : Z) : Z :=
  uwrap 64 (if sring_sz <? cring_sz then cring_sz else sring_sz).

Definition uring_init (size : Z) : M uring_queue :=
  p ← on_mem (alloc io_uring_params_0);
  let field f := on_mem (load_field p f) in
  fd ← io_uring_setup size p;
  if fd <? 0 then exit 1
  else
  features ← field "features";
  if Z.land features IORING_FEAT_SINGLE_MMAP =? 0 then exit 1
  else
  array ← field "sq_off.array";
  sq_n ← field "sq_entries";
  cq_off ← field "cq_off.cqes";
  cq_n ← field "cq_entries";
  let ring_sz := ring_size (sring_size array sq_n) (cring_size cq_off cq_n) in
  ring ← SYSCHECK (uring_c "32")
    (mmap Null ring_sz (Z.lor PROT_READ PROT_WRITE) (Z.lor MAP_SHARED MAP_POPULATE)
       fd IORING_OFF_SQ_RING);
  sqh ← field "sq_off.head"; sqt ← field "sq_off.tail"; sqm ← field "sq_off.ring_mask";
  sqe ← field "sq_off.ring_entries";
  cqh ← field "cq_off.head"; cqt ← field "cq_off.tail"; cqm ← field "cq_off.ring_mask";
  cqe ← field "cq_off.ring_entries";
  let sqes_sz := uwrap 64 (sq_n * sizeof_io_uring_sqe) in
  sqes ← SYSCHECK (uring_c "56")
    (mmap Null sqes_sz (Z.lor PROT_READ PROT_WRITE) (Z.lor MAP_SHARED MAP_POPULATE)
       fd IORING_OFF_SQES);
  _ ← on_mem (free p);
  mret {| ringfd := fd; mmap_ring := ring; mmap_ring_size := ring_sz;
          mmap_sqes := sqes; mmap_sqes_size := sqes_sz;
          cqes := ring + cq_off; sqes := sqes;
          sq_entries := ring + sqe; sq_mask := ring + sqm; sq_head := ring + sqh;
          sq_tail := ring + sqt; sq_array := ring + array;
          sq_list_head := 0; sq_list_tail := 0;
          cq_head := ring + cqh; cq_tail := ring + cqt; cq_mask := ring + cqm;
          cq_entries := ring + cqe |}.

(** The address of the oldest completion, 0 when there is none. *)
Definition uring_result (u : uring_queue) : shmM Z :=
  head ← load_u32 (cq_head u);
  tail ← load_u32 (cq_tail u);
  if head =? tail then mret 0
  else
    mask ← load_u32 (cq_mask u);
    mret (cqes u + Z.land head mask * sizeof_io_uring_cqe).

Definition uring_advance (u : uring_queue) : shmM unit :=
  head ← load_u32 (cq_head u);
  store_u32 (cq_head u) (uwrap 32 (head + 1)).

(** The address of a free entry, 0 when the ring is full. *)
Definition uring_new_submission (u : uring_queue) : shmM (Z * uring_queue) :=
  head ← load_u32 (sq_head u);
  let next := uwrap 32 (sq_list_tail u + 1) in
  entries ← load_u32 (sq_entries u);
  if uwrap 32 (next - head) <=? entries then
    mask ← load_u32 (sq_mask u);
    mret (sqes u + Z.land (sq_list_tail u) mask * sizeof_io_uring_sqe,
          with_list u (sq_list_head u) next)
  else mret (0, u).

(** The [do ... while (--to_submit)] of [uring_wait] on
    [(sq_tail, sq_list_head, to_submit)]. *)
Definition flush_body (u : uring_queue) (mask : Z) (st : Z * Z * Z) : shmM ((Z * Z * Z) + (Z * Z)) :=
  let '(tail, lhead, to_submit) := st in
  _ ← store_u32 (sq_array u + 4 * Z.land tail mask) (Z.land lhead mask);
  let tail := uwrap 32 (tail + 1) in
  let lhead := uwrap 32 (lhead + 1) in
  let to_submit := uwrap 32 (to_submit - 1) in
  if to_submit =? 0 then mret (inr (tail, lhead)) else mret (inl (tail, lhead, to_submit)).

(** The first half of [uring_wait]: the new entries are put in the ring and
    the tail is moved.  The result is the local [sq_tail]. *)
Definition uring_flush (u : uring_queue) : shmM (Z * uring_queue) :=
  mask ← load_u32 (sq_mask u);
  tail ← load_u32 (sq_tail u);
  let to_submit := uwrap 32 (sq_list_tail u - sq_list_head u) in
  if 0 <? to_submit then
    r ← iter (Z.to_nat to_submit) (flush_body u mask) (tail, sq_list_head u, to_submit);
    let '(tail, lhead) := (r : Z * Z) in
    _ ← store_u32 (sq_tail u) tail;
    mret (tail, with_list u lhead (sq_list_tail u))
  else mret (tail, u).

Definition uring_wait (u : uring_queue) (count : Z) : M uring_queue :=
  r ← on_shm (uring_flush u);
  let '(tail, u) := (r : Z * uring_queue) in
  head ← on_shm (load_u32 (sq_head u));
  let submitted := uwrap 32 (tail - head) in
  _ ← SYSCHECK (uring_c "138")
    (io_uring_enter (ringfd u) submitted count IORING_ENTER_GETEVENTS Null);
  mret u.

Definition uring_close (u : uring_queue) : M unit :=
  _ ← SYSCHECK (uring_c "142") (munmap (mmap_ring u) (mmap_ring_size u));
  _ ← SYSCHECK (uring_c "143") (munmap (mmap_sqes u) (mmap_sqes_size u));
  _ ← SYSCHECK (uring_c "144") (close (ringfd u));
  mret tt.
End uring.

(** ** Abstract rings *)

(** [r_head] and [r_chead] count the submissions the kernel has taken and the
    completions the program has taken since the start. *)
Record ring : Type := Ring {
  r_head : Z; queued : list io_uring_sqe; pending : list io_uring_sqe;
  r_chead : Z; completed : list io_uring_cqe
}.

Definition submit (R : ring) (e : io_uring_sqe) : ring :=
  {| r_head := r_head R; queued := queued R; pending := pending R ++ [e];
     r_chead := r_chead R; completed := completed R |}.

Definition publish (R : ring) : ring :=
  {| r_head := r_head R; queued := queued R ++ pending R; pending := [];
     r_chead := r_chead R; completed := completed R |}.

Definition take_completion (R : ring) : ring :=
  {| r_head := r_head R; queued := queued R; pending := pending R;
     r_chead := r_chead R + 1; completed := tail (completed R) |}.

(** The moves of the kernel: io_uring_enter takes the first [n] of the queued
    entries, in order, and adds them to those in flight; a completion is
    posted. *)
Definition consume (n : nat) (v : ring * list io_uring_sqe) : ring * list io_uring_sqe :=
  let '(R, F) := v in
  ({| r_head := r_head R + Z.of_nat (length (take n (queued R))); queued := drop n (queued R);
      pending := pending R; r_chead := r_chead R; completed := completed R |},
   F ++ take n (queued R)).

Definition post (R : ring) (c : io_uring_cqe) : ring :=
  {| r_head := r_head R; queued := queued R; pending := pending R;
     r_chead := r_chead R; completed := completed R ++ [c] |}.

(** What the kernel reads in the submission ring: from the head word to the
    tail word, the entries the index array names. *)
Definition kernel_view {A : Abi} (u : uring_queue) (sh : shm) : option (list io_uring_sqe) :=
  head ← sh_words sh !! sq_head u;
  tail ← sh_words sh !! sq_tail u;
  mask ← sh_words sh !! sq_mask u;
  mapM (fun j => i ← sh_words sh !! (sq_array u + 4 * Z.land (uwrap 32 (head + Z.of_nat j)) mask);
                 sh_sqes sh !! (sqes u + i * sizeof_io_uring_sqe))
       (seq 0 (Z.to_nat (uwrap 32 (tail - head)))).

Section rep.
Context {A : Abi}.

(** Slots of the submission ring of [2^k] entries, of the index array, of
    the completion ring of [2^ck] entries. *)
Definition sqe_at (u : uring_queue) (k i : Z) : Z := sqes u + i mod 2 ^ k * sizeof_io_uring_sqe.
Definition idx_at (u : uring_queue) (k i : Z) : Z := sq_array u + 4 * (i mod 2 ^ k).
Definition cqe_at (u : uring_queue) (ck i : Z) : Z := cqes u + i mod 2 ^ ck * sizeof_io_uring_cqe.

(** The mapping is laid out without overlap, at positive addresses. *)
Record layout (u : uring_queue) (k ck : Z) : Prop := {
  lay_k : 0 <= k < 32;
  lay_ck : 0 <= ck < 32;
  lay_sqe : 0 < sizeof_io_uring_sqe;
  lay_cqe : 0 < sizeof_io_uring_cqe;
  lay_sqes : 0 < sqes u;
  lay_cqes : 0 < cqes u;
  lay_words : NoDup [sq_head u; sq_tail u; sq_mask u; sq_entries u; cq_head u; cq_tail u; cq_mask u];
  lay_array w i : w ∈ [sq_head u; sq_tail u; sq_mask u; sq_entries u; cq_head u; cq_tail u; cq_mask u] ->
    idx_at u k i <> w
}.

(** The shared memory holds the abstract rings. *)
Record ring_rep (u : uring_queue) (k ck : Z) (sh : shm) (R : ring) : Prop := {
  rr_mask : sh_words sh !! sq_mask u = Some (2 ^ k - 1);
  rr_entries : sh_words sh !! sq_entries u = Some (2 ^ k);
  rr_cmask : sh_words sh !! cq_mask u = Some (2 ^ ck - 1);
  rr_head : sh_words sh !! sq_head u = Some (uwrap 32 (r_head R));
  rr_tail : sh_words sh !! sq_tail u = Some (uwrap 32 (r_head R + Z.of_nat (length (queued R))));
  rr_lhead : sq_list_head u = uwrap 32 (r_head R + Z.of_nat (length (queued R)));
  rr_ltail : sq_list_tail u =
    uwrap 32 (r_head R + Z.of_nat (length (queued R ++ pending R)));
  rr_chead : sh_words sh !! cq_head u = Some (uwrap 32 (r_chead R));
  rr_ctail : sh_words sh !! cq_tail u = Some (uwrap 32 (r_chead R + Z.of_nat (length (completed R))));
  rr_array i : is_Some (sh_words sh !! idx_at u k i);
  rr_slots i : is_Some (sh_sqes sh !! sqe_at u k i);
  rr_index j : (j < length (queued R))%nat ->
    sh_words sh !! idx_at u k (r_head R + Z.of_nat j) = Some ((r_head R + Z.of_nat j) mod 2 ^ k);
  rr_entry j e : (queued R ++ pending R) !! j = Some e ->
    sh_sqes sh !! sqe_at u k (r_head R + Z.of_nat j) = Some e;
  rr_cqe j c : completed R !! j = Some c ->
    sh_cqes sh !! cqe_at u ck (r_chead R + Z.of_nat j) = Some c;
  rr_room : Z.of_nat (length (queued R ++ pending R)) <= 2 ^ k;
  rr_croom : Z.of_nat (length (completed R)) <= 2 ^ ck
}.
End rep.

(** ** Index arithmetic *)

Lemma mask_index (k x : Z) : 0 <= k < 32 -> Z.land (uwrap 32 x) (2 ^ k - 1) = x mod 2 ^ k.
Proof. intros. rewrite land_mask by lia. apply uwrap_mod_pow. lia. Qed.

Lemma mod_window (n h i j : Z) : 0 < n -> (h + i) mod n = (h + j) mod n ->
  0 <= i < n -> 0 <= j < n -> i = j.
Proof.
  intros Hn E Hi Hj.
  pose proof (Z.div_mod (h + i) n ltac:(lia)) as Di. pose proof (Z.div_mod (h + j) n ltac:(lia)) as Dj.
  rewrite E in Di. revert Di Dj. generalize ((h + i) / n) ((h + j) / n) ((h + j) mod n).
  clear E. intros qi qj r Di Dj. assert (i - j = n * (qi - qj)) by lia.
  destruct (Z.lt_trichotomy qi qj) as [?|[->|?]]; [nia|lia|nia].
Qed.

Lemma pow2_32 (k : Z) : 0 <= k < 32 -> 2 ^ k <= 2 ^ 31 /\ 0 < 2 ^ k.
Proof. intros. split; [apply Z.pow_le_mono_r; lia|lia]. Qed.

(** The distance between two counters whose true distance fits. *)
Lemma counter_diff (h n : Z) : 0 <= n < 2 ^ 32 -> uwrap 32 (uwrap 32 (h + n) - uwrap 32 h) = n.
Proof.
  intros. rewrite uwrap_sub_l, uwrap_sub_r by lia.
  replace (h + n - h) with n by lia. by apply uwrap_small.
Qed.

Lemma load_u32_ok a w sh : sh_words sh !! a = Some w -> load_u32 a sh = Ok w sh.
Proof. unfold load_u32. by intros ->. Qed.

Definition set_word (sh : shm) (a w : Z) : shm :=
  {| sh_words := <[a := w]> (sh_words sh); sh_cqes := sh_cqes sh; sh_sqes := sh_sqes sh |}.

Lemma store_u32_ok a w sh : is_Some (sh_words sh !! a) ->
  store_u32 a w sh = Ok tt (set_word sh a w).
Proof. intros [v E]. unfold store_u32. by rewrite E. Qed.

Definition set_sqe (sh : shm) (a : Z) (e : io_uring_sqe) : shm :=
  {| sh_words := sh_words sh; sh_cqes := sh_cqes sh; sh_sqes := <[a := e]> (sh_sqes sh) |}.

Definition set_cqe (sh : shm) (a : Z) (c : io_uring_cqe) : shm :=
  {| sh_words := sh_words sh; sh_cqes := <[a := c]> (sh_cqes sh); sh_sqes := sh_sqes sh |}.

(** The words of the rings lie apart from each other. *)
Lemma words_ne {A : Abi} u k ck (L : layout u k ck) i j a b :
  [sq_head u; sq_tail u; sq_mask u; sq_entries u; cq_head u; cq_tail u; cq_mask u] !! i = Some a ->
  [sq_head u; sq_tail u; sq_mask u; sq_entries u; cq_head u; cq_tail u; cq_mask u] !! j = Some b ->
  i <> j -> a <> b.
Proof. intros Ha Hb Hij ->. by destruct (NoDup_lookup _ _ _ _ (lay_words _ _ _ L) Ha Hb). Qed.

(** The place of a word in that list. *)
Ltac word_index w :=
  lazymatch w with
  | sq_head _ => constr:(0%nat) | sq_tail _ => constr:(1%nat) | sq_mask _ => constr:(2%nat)
  | sq_entries _ => constr:(3%nat) | cq_head _ => constr:(4%nat) | cq_tail _ => constr:(5%nat)
  | cq_mask _ => constr:(6%nat)
  end.

(** Two different words, or a word and an entry of the index array. *)
Ltac apart L :=
  lazymatch goal with
  | |- idx_at _ _ _ <> _ => solve [eapply lay_array; [exact L|set_solver]]
  | |- _ <> idx_at _ _ _ => solve [apply not_eq_sym; eapply lay_array; [exact L|set_solver]]
  | |- ?a <> ?b =>
      let i := word_index a in let j := word_index b in
      solve [apply (words_ne _ _ _ L i j); [reflexivity|reflexivity|discriminate]]
  end.

Section rings.
Context {A : Abi} (u : uring_queue) (k ck : Z) (sh : shm) (R : ring).
Hypothesis L : layout u k ck.
Hypothesis H : ring_rep u k ck sh R.

Lemma k_bound : 0 < 2 ^ k <= 2 ^ 31.
Proof. destruct (pow2_32 k (lay_k _ _ _ L)). lia. Qed.

Lemma ck_bound : 0 < 2 ^ ck <= 2 ^ 31.
Proof. destruct (pow2_32 ck (lay_ck _ _ _ L)). lia. Qed.

Lemma sqe_at_inj h i j : sqe_at u k (h + i) = sqe_at u k (h + j) ->
  0 <= i < 2 ^ k -> 0 <= j < 2 ^ k -> i = j.
Proof.
  unfold sqe_at. intros E. pose proof (lay_sqe _ _ _ L).
  apply (mod_window _ h); [apply k_bound|nia].
Qed.

Lemma idx_at_inj h i j : idx_at u k (h + i) = idx_at u k (h + j) ->
  0 <= i < 2 ^ k -> 0 <= j < 2 ^ k -> i = j.
Proof. unfold idx_at. intros E. apply (mod_window _ h); [apply k_bound|lia]. Qed.

Lemma sqe_at_pos i : 0 < sqe_at u k i.
Proof.
  unfold sqe_at. pose proof (lay_sqe _ _ _ L). pose proof (lay_sqes _ _ _ L).
  pose proof (Z.mod_pos_bound i (2 ^ k) (proj1 k_bound)). nia.
Qed.

Lemma cqe_at_pos i : 0 < cqe_at u ck i.
Proof.
  unfold cqe_at. pose proof (lay_cqe _ _ _ L). pose proof (lay_cqes _ _ _ L).
  pose proof (Z.mod_pos_bound i (2 ^ ck) (proj1 ck_bound)). nia.
Qed.

(** *** Completions *)

Lemma uring_result_spec :
  uring_result u sh =
    Ok (match completed R with [] => 0 | _ => cqe_at u ck (r_chead R) end) sh /\
  (forall c cs, completed R = c :: cs -> load_cqe (cqe_at u ck (r_chead R)) sh = Ok c sh).
Proof.
  pose proof (rr_croom _ _ _ _ _ H) as Hroom. pose proof ck_bound.
  split.
  - unfold uring_result. rewrite (bind_ok _ _ _ _ _ (load_u32_ok _ _ _ (rr_chead _ _ _ _ _ H))).
    rewrite (bind_ok _ _ _ _ _ (load_u32_ok _ _ _ (rr_ctail _ _ _ _ _ H))).
    destruct (completed R) as [|c cs] eqn:E; cbn [length].
    + by rewrite Z.add_0_r, Z.eqb_refl.
    + cbn [length] in Hroom.
      destruct (Z.eqb_spec (uwrap 32 (r_chead R)) (uwrap 32 (r_chead R + Z.of_nat (S (length cs)))))
        as [E'|_].
      { pose proof (counter_diff (r_chead R) (Z.of_nat (S (length cs))) ltac:(lia)) as D.
        rewrite <- E', Z.sub_diag in D. change (uwrap 32 0) with 0 in D. lia. }
      rewrite (bind_ok _ _ _ _ _ (load_u32_ok _ _ _ (rr_cmask _ _ _ _ _ H))).
      by rewrite mask_index by apply L.
  - intros c cs E. pose proof (rr_cqe _ _ _ _ _ H 0%nat c) as Hc.
    rewrite E in Hc. specialize (Hc eq_refl). cbn in Hc. rewrite Z.add_0_r in Hc.
    unfold load_cqe. by rewrite Hc.
Qed.

(** The rings once the head is moved over the oldest completion. *)
Lemma advance_rep : completed R <> [] ->
  ring_rep u k ck (set_word sh (cq_head u) (uwrap 32 (r_chead R + 1))) (take_completion R).
Proof.
  intros Hne. destruct (completed R) as [|c cs] eqn:E; [done|].
  assert (forall i, idx_at u k i <> cq_head u) as Hi by (intros; eapply lay_array; [done|set_solver]).
  destruct H. split; cbn; rewrite ?E in *; cbn [length tail] in *; try done.
  all: try (intros; rewrite lookup_insert_ne by apart L; by eauto).
  - by rewrite lookup_insert_eq.
  - rewrite lookup_insert_ne by apart L. rewrite rr_ctail0. do 2 f_equal. lia.
  - intros j c' Hj. rewrite <- (rr_cqe0 (S j) c' Hj). do 2 f_equal. lia.
  - lia.
Qed.

Lemma uring_advance_spec : completed R <> [] ->
  exists sh', uring_advance u sh = Ok tt sh' /\ ring_rep u k ck sh' (take_completion R).
Proof.
  intros Hne. eexists. split; [|by apply advance_rep].
  unfold uring_advance. rewrite (bind_ok _ _ _ _ _ (load_u32_ok _ _ _ (rr_chead _ _ _ _ _ H))).
  rewrite store_u32_ok by (eexists; apply H). by rewrite uwrap_add_l.
Qed.

(** *** Submissions *)

Lemma layout_with_list a b : layout (with_list u a b) k ck.
Proof. by destruct L; split. Qed.

(** The number of entries handed out and not yet taken by the kernel. *)
Let used := Z.of_nat (length (queued R ++ pending R)).

Lemma new_submission_full : used = 2 ^ k -> uring_new_submission u sh = Ok (0, u) sh.
Proof.
  intros Hfull. pose proof k_bound. unfold uring_new_submission.
  rewrite (bind_ok _ _ _ _ _ (load_u32_ok _ _ _ (rr_head _ _ _ _ _ H))).
  rewrite (bind_ok _ _ _ _ _ (load_u32_ok _ _ _ (rr_entries _ _ _ _ _ H))).
  rewrite (rr_ltail _ _ _ _ _ H), uwrap_add_l, <- Z.add_assoc. fold used.
  rewrite counter_diff by lia.
  by rewrite (proj2 (Z.leb_gt _ _)) by lia.
Qed.

Lemma new_submission_free : used < 2 ^ k ->
  uring_new_submission u sh =
    Ok (sqe_at u k (r_head R + used),
        with_list u (sq_list_head u) (uwrap 32 (r_head R + used + 1))) sh.
Proof.
  intros Hfree. pose proof k_bound. unfold uring_new_submission.
  rewrite (bind_ok _ _ _ _ _ (load_u32_ok _ _ _ (rr_head _ _ _ _ _ H))).
  rewrite (bind_ok _ _ _ _ _ (load_u32_ok _ _ _ (rr_entries _ _ _ _ _ H))).
  rewrite (rr_ltail _ _ _ _ _ H). fold used. rewrite uwrap_add_l.
  rewrite <- (Z.add_assoc (r_head R)), counter_diff by lia.
  rewrite (proj2 (Z.leb_le _ _)) by lia.
  rewrite (bind_ok _ _ _ _ _ (load_u32_ok _ _ _ (rr_mask _ _ _ _ _ H))).
  by rewrite mask_index by apply L.
Qed.

(** Writing the entry [e] into the new slot submits it. *)
Lemma submit_rep e : used < 2 ^ k ->
  ring_rep (with_list u (sq_list_head u) (uwrap 32 (r_head R + used + 1))) k ck
    (set_sqe sh (sqe_at u k (r_head R + used)) e) (submit R e).
Proof.
  intros Hfree. pose proof k_bound.
  assert (length (queued R ++ pending R ++ [e]) = S (length (queued R ++ pending R))) as El.
  { rewrite app_assoc, length_app. cbn. lia. }
  destruct H. split; cbn [submit r_head queued pending r_chead completed with_list
    sq_mask sq_entries sq_head sq_tail sq_list_head sq_list_tail cq_head cq_tail cq_mask
    sh_words sh_cqes set_sqe]; try done.
  - rewrite El. unfold used. f_equal. lia.
  - intros i. change (sqe_at (with_list u _ _) k i) with (sqe_at u k i). cbn.
    rewrite lookup_insert. case_decide; [by eexists|done].
  - intros j e' Hj. change (sqe_at (with_list u _ _) k) with (sqe_at u k). cbn.
    rewrite app_assoc in Hj. apply lookup_app_Some in Hj as [Hj|[Hge Hj]].
    + rewrite lookup_insert_ne; [by apply rr_entry0|].
      intros E. apply sqe_at_inj in E; [|lia|].
      * apply lookup_lt_Some in Hj. lia.
      * apply lookup_lt_Some in Hj. lia.
    + apply list_lookup_singleton_Some in Hj as [E0 <-].
      replace j with (length (queued R ++ pending R)) by lia. by rewrite lookup_insert_eq.
  - rewrite El. lia.
Qed.

(** *** Publishing *)

Let t := r_head R + Z.of_nat (length (queued R)).

(** The shared memory when the indices of [i] new entries are stored. *)
Record indexed (i : nat) (sh' : shm) : Prop := {
  ix_sqes : sh_sqes sh' = sh_sqes sh;
  ix_cqes : sh_cqes sh' = sh_cqes sh;
  ix_other w : (forall j, (j < i)%nat -> w <> idx_at u k (t + Z.of_nat j)) ->
    sh_words sh' !! w = sh_words sh !! w;
  ix_mapped a : is_Some (sh_words sh !! a) -> is_Some (sh_words sh' !! a);
  ix_new j : (j < i)%nat ->
    sh_words sh' !! idx_at u k (t + Z.of_nat j) = Some ((t + Z.of_nat j) mod 2 ^ k)
}.

Lemma pending_room : Z.of_nat (length (pending R)) <= 2 ^ k.
Proof. pose proof (rr_room _ _ _ _ _ H) as Hr. rewrite length_app in Hr. lia. Qed.

Lemma indexed_step i sh' : (i < length (pending R))%nat -> indexed i sh' ->
  exists sh'', store_u32 (idx_at u k (t + Z.of_nat i)) ((t + Z.of_nat i) mod 2 ^ k) sh' = Ok tt sh'' /\
    indexed (S i) sh''.
Proof.
  intros Hi [Hs Hc Ho Hm Hn]. pose proof pending_room. pose proof k_bound.
  assert (forall j, (j < i)%nat -> idx_at u k (t + Z.of_nat i) <> idx_at u k (t + Z.of_nat j)) as Hne.
  { intros j Hj E. apply idx_at_inj in E; lia. }
  rewrite store_u32_ok by (rewrite Ho by done; apply H). eexists. split; [done|].
  split; cbn; [done|done| | |].
  2: { intros a Ha. rewrite lookup_insert. case_decide; [by eexists|by apply Hm]. }
  - intros w Hw. rewrite lookup_insert_ne by (apply not_eq_sym, Hw; lia).
    apply Ho. intros j Hj. apply Hw. lia.
  - intros j Hj. destruct (decide (j = i)) as [->|Hji].
    + by rewrite lookup_insert_eq.
    + rewrite lookup_insert_ne by (apply Hne; lia). apply Hn. lia.
Qed.

Definition flushing (st : Z * Z * Z) (sh' : shm) : Prop :=
  exists i, (i < length (pending R))%nat /\
    st = (uwrap 32 (t + Z.of_nat i), uwrap 32 (t + Z.of_nat i),
          Z.of_nat (length (pending R) - i)) /\ indexed i sh'.

Lemma flush_step st sh' : flushing st sh' ->
  wp (flush_body u (2 ^ k - 1) st) sh' (fun r sh'' =>
    match r with
    | inl st' => flushing st' sh'' /\ (Z.to_nat (snd st' - 1) < Z.to_nat (snd st - 1))%nat
    | inr x => x = (uwrap 32 (t + Z.of_nat (length (pending R))),
                    uwrap 32 (t + Z.of_nat (length (pending R)))) /\
               indexed (length (pending R)) sh''
    end) nostop.
Proof.
  intros (i & Hi & -> & Hix). pose proof pending_room. pose proof k_bound.
  unfold flush_body. rewrite mask_index by apply L.
  destruct (indexed_step i sh' Hi Hix) as (sh'' & Est & Hix').
  apply wp_bind. eapply wp_eq; [exact Est|].
  rewrite uwrap_add_l. rewrite (uwrap_small 32 (_ - 1)) by lia.
  replace (t + Z.of_nat i + 1) with (t + Z.of_nat (S i)) by lia.
  replace (Z.of_nat (length (pending R) - i) - 1) with (Z.of_nat (length (pending R) - S i)) by lia.
  destruct (Z.eqb_spec (Z.of_nat (length (pending R) - S i)) 0); apply wp_ret.
  - by replace (length (pending R)) with (S i) by lia.
  - split; [|cbn; lia]. exists (S i). split_and!; [lia|done|done].
Qed.

(** The rings after the tail is moved over the new indices. *)
Lemma indexed_rep sh' : indexed (length (pending R)) sh' ->
  ring_rep (with_list u (uwrap 32 (t + Z.of_nat (length (pending R)))) (sq_list_tail u)) k ck
    (set_word sh' (sq_tail u) (uwrap 32 (t + Z.of_nat (length (pending R))))) (publish R).
Proof.
  intros [Hs Hc Ho Hm Hn]. pose proof pending_room. pose proof k_bound.
  assert (forall w, w ∈ [sq_head u; sq_tail u; sq_mask u; sq_entries u; cq_head u; cq_tail u; cq_mask u] ->
    sh_words sh' !! w = sh_words sh !! w) as Hw.
  { intros w Hin. apply Ho. intros j _. apply not_eq_sym. by eapply lay_array. }
  assert (forall i, idx_at u k i <> sq_tail u) as Hit.
  { intros i. eapply lay_array; [done|set_solver]. }
  assert (r_head R + Z.of_nat (length (queued R ++ pending R)) =
    t + Z.of_nat (length (pending R))) as Et by (unfold t; rewrite length_app; lia).
  destruct H. split; cbn [publish r_head queued pending r_chead completed with_list
    sq_mask sq_entries sq_head sq_tail sq_list_head sq_list_tail cq_head cq_tail cq_mask
    sh_words sh_cqes sh_sqes set_word]; rewrite ?app_nil_r, ?Hs, ?Hc; try done.
  all: try (rewrite lookup_insert_ne by apart L; rewrite Hw by set_solver; done).
  - rewrite lookup_insert_eq. by rewrite Et.
  - by rewrite Et.
  - intros i. change (idx_at (with_list u _ _) k i) with (idx_at u k i).
    rewrite lookup_insert_ne by (apply not_eq_sym, Hit).
    by apply Hm.
  - intros j Hj. change (idx_at (with_list u _ _) k) with (idx_at u k).
    rewrite lookup_insert_ne by (apply not_eq_sym, Hit). rewrite length_app in Hj.
    destruct (decide (j < length (queued R))%nat) as [Hlt|Hge].
    + rewrite Ho; [by apply rr_index0|]. intros j' Hj' E. unfold t in E.
      rewrite <- Z.add_assoc in E. apply idx_at_inj in E; rewrite ?length_app in *; lia.
    + replace (r_head R + Z.of_nat j) with (t + Z.of_nat (j - length (queued R)))
        by (unfold t; lia). apply Hn. lia.
Qed.

Lemma uring_flush_spec :
  exists sh' u', uring_flush u sh = Ok (uwrap 32 (r_head R + used), u') sh' /\
    u' = with_list u (sq_list_tail u) (sq_list_tail u) /\
    ring_rep u' k ck sh' (publish R).
Proof.
  pose proof pending_room. pose proof k_bound.
  assert (r_head R + used = t + Z.of_nat (length (pending R))) as Et
    by (unfold t, used; rewrite length_app; lia).
  unfold uring_flush. rewrite (bind_ok _ _ _ _ _ (load_u32_ok _ _ _ (rr_mask _ _ _ _ _ H))).
  rewrite (bind_ok _ _ _ _ _ (load_u32_ok _ _ _ (rr_tail _ _ _ _ _ H))).
  assert (sq_list_tail u = uwrap 32 (t + Z.of_nat (length (pending R)))) as Hlt
    by (rewrite (rr_ltail _ _ _ _ _ H); fold used; by rewrite Et).
  rewrite Hlt, (rr_lhead _ _ _ _ _ H), Et. fold t. rewrite counter_diff by lia.
  destruct (Z.ltb_spec 0 (Z.of_nat (length (pending R)))) as [Hp|Hp].
  - assert (wp (iter (Z.to_nat (Z.of_nat (length (pending R)))) (flush_body u (2 ^ k - 1))
        (uwrap 32 t, uwrap 32 t, Z.of_nat (length (pending R)))) sh
      (fun x sh'' => x = (uwrap 32 (t + Z.of_nat (length (pending R))),
                    uwrap 32 (t + Z.of_nat (length (pending R)))) /\
               indexed (length (pending R)) sh'') nostop) as W.
    { apply (wp_iter _ flushing (fun st _ => Z.to_nat (snd st - 1))).
      - intros st sh'. apply flush_step.
      - exists 0%nat. split_and!; [lia|by rewrite Z.add_0_r, Nat.sub_0_r|].
        split; [done|done|done|done|lia].
      - cbn. lia. }
    apply wp_ok in W as (x & sh1 & E1 & -> & Hix).
    rewrite (bind_ok _ _ _ _ _ E1). cbv beta iota.
    erewrite bind_ok; [|apply store_u32_ok; eapply ix_mapped; [exact Hix|by eexists; apply H]].
    pose proof (indexed_rep sh1 Hix) as G. rewrite Hlt in *.
    eexists _, _. split_and!; [done|done|done].
  - assert (pending R = []) as Ep by (destruct (pending R); [done|cbn in *; lia]).
    assert (publish R = R) as Epub.
    { unfold publish. rewrite Ep, app_nil_r. destruct R. cbn in *. by subst. }
    exists sh, u. split_and!.
    + rewrite Ep. cbn. by rewrite Z.add_0_r.
    + symmetry. apply with_list_id; [|done]. rewrite (rr_lhead _ _ _ _ _ H), Ep.
      fold t. cbn. by rewrite Z.add_0_r.
    + by rewrite Epub.
Qed.

(** *** The kernel's side *)

(** What the kernel finds in the ring when the program has queued entries. *)
Lemma kernel_finds e q : queued R = e :: q ->
  uwrap 32 (r_head R) <> uwrap 32 (r_head R + Z.of_nat (length (queued R))) /\
  sh_words sh !! idx_at u k (r_head R) = Some (r_head R mod 2 ^ k) /\
  sh_sqes sh !! sqe_at u k (r_head R) = Some e.
Proof.
  intros Eq. pose proof k_bound. pose proof (rr_room _ _ _ _ _ H) as Hroom.
  rewrite length_app in Hroom. split_and!.
  - intros E. pose proof (counter_diff (r_head R) (Z.of_nat (length (queued R))) ltac:(lia)) as D.
    rewrite <- E, Z.sub_diag, Eq in D. change (uwrap 32 0) with 0 in D. cbn [length] in D. lia.
  - pose proof (rr_index _ _ _ _ _ H 0%nat) as Hi. rewrite Z.add_0_r in Hi. apply Hi.
    rewrite Eq. cbn. lia.
  - pose proof (rr_entry _ _ _ _ _ H 0%nat e) as He. rewrite Z.add_0_r in He. apply He. by rewrite Eq.
Qed.

Lemma take_rep F : queued R <> [] ->
  ring_rep u k ck (set_word sh (sq_head u) (uwrap 32 (r_head R + 1))) (consume 1 (R, F)).1.
Proof.
  destruct (queued R) as [|e q] eqn:Eq; [done|]. intros _.
  assert (forall i, idx_at u k i <> sq_head u) as Hi by (intros; eapply lay_array; [done|set_solver]).
  destruct H. rewrite Eq in *.
  split; cbn [consume fst r_head queued pending r_chead completed sh_words sh_cqes sh_sqes set_word];
    rewrite ?Eq; cbn [length take drop app] in *; rewrite ?take_0, ?drop_0; cbn [length];
    change (Z.of_nat 1) with 1; try done.
  all: try (intros; rewrite lookup_insert_ne by apart L; by eauto).
  - by rewrite lookup_insert_eq.
  - rewrite lookup_insert_ne by apart L. rewrite rr_tail0. do 2 f_equal. lia.
  - rewrite rr_lhead0. f_equal. lia.
  - rewrite rr_ltail0. f_equal. lia.
  - intros j Hj. rewrite lookup_insert_ne by (apply not_eq_sym, Hi).
    specialize (rr_index0 (S j) ltac:(lia)). rewrite <- !Z.add_assoc.
    by replace (1 + Z.of_nat j) with (Z.of_nat (S j)) by lia.
  - intros j e' Hj. specialize (rr_entry0 (S j) e' Hj). rewrite <- Z.add_assoc.
    by replace (1 + Z.of_nat j) with (Z.of_nat (S j)) by lia.
  - lia.
Qed.

Lemma post_rep c : Z.of_nat (length (completed R)) < 2 ^ ck ->
  ring_rep u k ck
    (set_word (set_cqe sh (cqe_at u ck (r_chead R + Z.of_nat (length (completed R)))) c)
       (cq_tail u) (uwrap 32 (r_chead R + Z.of_nat (length (completed R)) + 1)))
    (post R c).
Proof.
  intros Hroom. pose proof ck_bound. pose proof (lay_cqe _ _ _ L).
  assert (forall i, idx_at u k i <> cq_tail u) as Hi by (intros; eapply lay_array; [done|set_solver]).
  destruct H. split; cbn; try done.
  all: try (intros; rewrite lookup_insert_ne by apart L; by eauto).
  - rewrite lookup_insert_eq, length_app. cbn. do 2 f_equal. lia.
  - intros j c' Hj. apply lookup_app_Some in Hj as [Hj|[Hge Hj]].
    + rewrite lookup_insert_ne; [by apply rr_cqe0|]. intros E. apply lookup_lt_Some in Hj.
      unfold cqe_at in E. assert (length (completed R) = j) as Ej; [|lia].
      apply Nat2Z.inj, (mod_window (2 ^ ck) (r_chead R)); [lia|nia|lia|lia].
    + apply list_lookup_singleton_Some in Hj as [E0 <-].
      replace j with (length (completed R)) by lia. by rewrite lookup_insert_eq.
  - rewrite length_app. cbn. lia.
Qed.
End rings.

Section correctness.
Context {A : Abi} (u : uring_queue) (k ck : Z) (sh : shm) (R : ring).
Hypothesis L : layout u k ck.
Hypothesis H : ring_rep u k ck sh R.

(** The kernel sees exactly the queued entries, in order. *)
Lemma kernel_view_queued : kernel_view u sh = Some (queued R).
Proof.
  pose proof (k_bound u k ck L). pose proof (rr_room _ _ _ _ _ H) as Hroom. rewrite length_app in Hroom.
  unfold kernel_view. rewrite (rr_head _ _ _ _ _ H), (rr_tail _ _ _ _ _ H), (rr_mask _ _ _ _ _ H).
  cbn [mbind option_bind]. rewrite counter_diff, Nat2Z.id by lia.
  apply mapM_Some_2, Forall2_same_length_lookup_2; [by rewrite length_seq|].
  intros j x e Hj He. apply lookup_seq in Hj as [-> Hj].
  rewrite uwrap_add_l, mask_index by apply L. rewrite Nat.add_0_l.
  pose proof (rr_index _ _ _ _ _ H j Hj) as Hi. unfold idx_at in Hi. rewrite Hi. cbn [mbind option_bind].
  apply (rr_entry _ _ _ _ _ H). by rewrite lookup_app_l.
Qed.
End correctness.

(** A free entry, and the rings once it is written. *)
Lemma new_submission_ok {A : Abi} u k ck sh R :
  layout u k ck -> ring_rep u k ck sh R -> Z.of_nat (length (queued R ++ pending R)) < 2 ^ k ->
  exists a u', uring_new_submission u sh = Ok (a, u') sh /\ layout u' k ck /\ (exists x y, u' = with_list u x y) /\
    forall e, exists sh', update_sqe a (fun _ => e) sh = Ok tt sh' /\ ring_rep u' k ck sh' (submit R e).
Proof.
  intros L H Hroom. eexists _, _. split; [by apply (new_submission_free u k ck sh R)|].
  split_and!; [by apply layout_with_list|by eexists _, _|]. intros e. eexists. split.
  - unfold update_sqe. destruct (rr_slots _ _ _ _ _ H (r_head R + Z.of_nat (length (queued R ++ pending R))))
      as [e0 ->]. done.
  - by apply (submit_rep u k ck sh R).
Qed.

(** C12: [uring_new_submission] refines the bounded queue: when all the entries
    are in use it returns NULL and changes nothing; otherwise it returns a
    mapped entry that is not in use, and whatever entry is written there is
    pending after all the others. *)
Theorem new_submission_refines {A : Abi} u k ck sh R :
  layout u k ck -> ring_rep u k ck sh R ->
  (Z.of_nat (length (queued R ++ pending R)) = 2 ^ k /\ uring_new_submission u sh = Ok (0, u) sh) \/
  (Z.of_nat (length (queued R ++ pending R)) < 2 ^ k /\
   exists a u', uring_new_submission u sh = Ok (a, u') sh /\ a <> 0 /\
     forall e, exists sh', update_sqe a (fun _ => e) sh = Ok tt sh' /\ ring_rep u' k ck sh' (submit R e)).
Proof.
  intros L H. pose proof (rr_room _ _ _ _ _ H) as Hroom.
  destruct (decide (Z.of_nat (length (queued R ++ pending R)) = 2 ^ k)) as [E|E].
  - left. split; [done|]. by apply (new_submission_full u k ck sh R).
  - right. split; [lia|]. eexists _, _. split; [apply (new_submission_free u k ck sh R); [done|done|lia]|].
    split; [apply Z.neq_sym, Z.lt_neq, (sqe_at_pos u k ck L)|]. intros e. eexists. split.
    + unfold update_sqe. destruct (rr_slots _ _ _ _ _ H (r_head R + Z.of_nat (length (queued R ++ pending R))))
        as [e0 ->]. done.
    + apply (submit_rep u k ck sh R); [done|done|lia].
Qed.

(** C10: the first half of [uring_wait] publishes the pending entries: before
    it the kernel finds the queued entries in the ring, after it these and
    then the pending ones, each through its index, in the order they were
    handed out; the loop ends without running out of its bound. *)
Theorem flush_publishes {A : Abi} u k ck sh R :
  layout u k ck -> ring_rep u k ck sh R ->
  kernel_view u sh = Some (queued R) /\
  exists sh' u' tail, uring_flush u sh = Ok (tail, u') sh' /\ ring_rep u' k ck sh' (publish R) /\
    kernel_view u' sh' = Some (queued R ++ pending R) /\
    sh_words sh' !! sq_tail u' = Some tail /\ sq_list_head u' = sq_list_tail u'.
Proof.
  intros L H. split; [by eapply kernel_view_queued|].
  destruct (uring_flush_spec u k ck sh R L H) as (sh' & u' & E & Eu & H').
  exists sh', u'. eexists. split_and!; [exact E|done| | |by rewrite Eu].
  - apply (kernel_view_queued u' k ck sh' (publish R)); [rewrite Eu; by apply layout_with_list|done].
  - rewrite (rr_tail _ _ _ _ _ H'). cbn. do 2 f_equal.
Qed.

(** C13: completions are taken in order: [uring_result] returns NULL when there
    is none and the address of the oldest otherwise, which stays readable
    until [uring_advance] removes it, and it alone. *)
Theorem completions_in_order {A : Abi} u k ck sh R :
  layout u k ck -> ring_rep u k ck sh R ->
  match completed R with
  | [] => uring_result u sh = Ok 0 sh
  | c :: cs => exists a sh', uring_result u sh = Ok a sh /\ a <> 0 /\ load_cqe a sh = Ok c sh /\
      uring_advance u sh = Ok tt sh' /\ ring_rep u k ck sh' (take_completion R) /\
      completed (take_completion R) = cs
  end.
Proof.
  intros L H. destruct (uring_result_spec u k ck sh R L H) as [E Ec].
  destruct (completed R) as [|c cs] eqn:EC; [done|].
  destruct (uring_advance_spec u k ck sh R L H ltac:(by rewrite EC)) as (sh' & E' & H').
  eexists _, sh'. split_and!; [exact E| |by eapply Ec|done|done|cbn; by rewrite EC].
  apply Z.neq_sym, Z.lt_neq, (cqe_at_pos u k ck L).
Qed.

(** No conversion in the length of the mapping loses anything. *)
Lemma ring_size_max {A : Abi} array sq_n cq_off cq_n :
  0 < sizeof_io_uring_cqe -> 0 <= array -> 0 <= sq_n -> 0 <= cq_off -> 0 <= cq_n ->
  array + sq_n * 4 < 2 ^ 31 -> cq_off + cq_n * sizeof_io_uring_cqe < 2 ^ 31 ->
  ring_size (sring_size array sq_n) (cring_size cq_off cq_n) =
    Z.max (array + sq_n * 4) (cq_off + cq_n * sizeof_io_uring_cqe).
Proof.
  intros. unfold ring_size, sring_size, cring_size.
  rewrite (uwrap_small 64 (array + _)), (uwrap_small 64 (cq_off + _)) by nia.
  rewrite !swrap_small by nia. destruct (Z.ltb_spec (array + sq_n * 4) (cq_off + cq_n * sizeof_io_uring_cqe));
    rewrite uwrap_small by nia; lia.
Qed.

(** The length [uring_init] maps reaches the end of both rings, and is the
    end of one of them, when the offsets the kernel gives fit an [int]. *)
Theorem ring_size_covers {A : Abi} array sq_n cq_off cq_n :
  0 < sizeof_io_uring_cqe -> 0 <= array -> 0 <= sq_n -> 0 <= cq_off -> 0 <= cq_n ->
  array + sq_n * 4 < 2 ^ 31 -> cq_off + cq_n * sizeof_io_uring_cqe < 2 ^ 31 ->
  ring_size (sring_size array sq_n) (cring_size cq_off cq_n) =
    Z.max (array + sq_n * 4) (cq_off + cq_n * sizeof_io_uring_cqe).
Proof. apply ring_size_max. Qed.
