(* ===== verification/Access.v ===== *)
(** * The accesses of the program to the shared rings

    The operations of util/uring_ctl.c one access at a time, each with the
    memory order the source gives it, and what becomes of them when the kernel
    writes to the rings between any two accesses ([always]), as it does for a
    completion that arrives while the program runs.  That orders weaker than
    an interleaving matter is the subject of Order.v. *)

From S2P Require Import Prelude Outcome CMem CString Machine Syscall Console Uring.

(** [__ATOMIC_ACQUIRE] and [__ATOMIC_RELEASE]; [Plain] is an access that is
    not atomic. *)
Inductive order : Type := Plain | Acquire | Release.

#[export] Instance order_eq_dec : EqDecision order.
Proof. solve_decision. Defined.

(** A program over the rings: its next access and what follows. *)
Inductive access (T : Type) : Type :=
| Done (v : T)
| Spent                                  (* a loop out of its bound *)
| Load (o : order) (a : Z) (next : Z -> access T)
| Store (o : order) (a w : Z) (next : access T)
| LoadCqe (a : Z) (next : io_uring_cqe -> access T).
Arguments Done {T} v.
Arguments Spent {T}.
Arguments Load {T} o a next.
Arguments Store {T} o a w next.
Arguments LoadCqe {T} a next.

#[export] Instance access_ret : MRet access := @Done.

#[export] Instance access_bind : MBind access :=
  fun A B f => fix bind p :=
    match p with
    | Done v => f v
    | Spent => Spent
    | Load o a next => Load o a (fun w => bind (next w))
    | Store o a w next => Store o a w (bind next)
    | LoadCqe a next => LoadCqe a (fun c => bind (next c))
    end.

Definition load (o : order) (a : Z) : access Z := Load o a Done.
Definition store (o : order) (a w : Z) : access unit := Store o a w (Done tt).

(** The counterpart of [iter]. *)
Fixpoint loop {X T : Type} (fuel : nat) (body : X -> access (X + T)) (x : X) : access T :=
  match fuel with
  | O => Spent
  | S n => r ← body x; match r with inl x' => loop n body x' | inr v => mret v end
  end.

(** All the accesses one after the other, nothing in between. *)
Fixpoint run {T : Type} (p : access T) : shmM T :=
  match p with
  | Done v => mret v
  | Spent => nofuel
  | Load _ a next => w ← load_u32 a; run (next w)
  | Store _ a w next => _ ← store_u32 a w; run next
  | LoadCqe a next => c ← load_cqe a; run (next c)
  end.

Section operations.
Context {A : Abi}.

(** [uring_result]; the source loads the tail without an order. *)
Definition result_with (tail_order : order) (u : uring_queue) : access Z :=
  head ← load Acquire (cq_head u);
  tail ← load tail_order (cq_tail u);
  if head =? tail then mret 0
  else
    mask ← load Plain (cq_mask u);
    mret (cqes u + Z.land head mask * sizeof_io_uring_cqe).

Definition result_accesses : uring_queue -> access Z := result_with Plain.

Definition advance_accesses (u : uring_queue) : access unit :=
  head ← load Acquire (cq_head u);
  store Release (cq_head u) (uwrap 32 (head + 1)).

Definition new_submission_accesses (u : uring_queue) : access (Z * uring_queue) :=
  head ← load Acquire (sq_head u);
  let next := uwrap 32 (sq_list_tail u + 1) in
  entries ← load Plain (sq_entries u);
  if uwrap 32 (next - head) <=? entries then
    mask ← load Plain (sq_mask u);
    mret (sqes u + Z.land (sq_list_tail u) mask * sizeof_io_uring_sqe,
          with_list u (sq_list_head u) next)
  else mret (0, u).

Definition flush_body_accesses (u : uring_queue) (mask : Z) (st : Z * Z * Z) : access ((Z * Z * Z) + (Z * Z)) :=
  let '(tail, lhead, to_submit) := st in
  _ ← store Plain (sq_array u + 4 * Z.land tail mask) (Z.land lhead mask);
  let tail := uwrap 32 (tail + 1) in
  let lhead := uwrap 32 (lhead + 1) in
  let to_submit := uwrap 32 (to_submit - 1) in
  if to_submit =? 0 then mret (inr (tail, lhead)) else mret (inl (tail, lhead, to_submit)).

Definition flush_accesses (u : uring_queue) : access (Z * uring_queue) :=
  mask ← load Plain (sq_mask u);
  tail ← load Plain (sq_tail u);
  let to_submit := uwrap 32 (sq_list_tail u - sq_list_head u) in
  if 0 <? to_submit then
    r ← loop (Z.to_nat to_submit) (flush_body_accesses u mask) (tail, sq_list_head u, to_submit);
    let '(tail, lhead) := (r : Z * Z) in
    _ ← store Release (sq_tail u) tail;
    mret (tail, with_list u lhead (sq_list_tail u))
  else mret (tail, u).

(** [uring_wait] up to the call: the number of entries it asks the kernel to
    take, from a load of the head without an order. *)
Definition wait_accesses (u : uring_queue) : access (Z * uring_queue) :=
  r ← flush_accesses u;
  let '(tail, u) := (r : Z * uring_queue) in
  head ← load Plain (sq_head u);
  mret (uwrap 32 (tail - head), u).
End operations.

(** ** The accesses are those of the operations *)

Lemma run_bind {T U} (p : access T) (f : T -> access U) sh :
  run (p ≫= f) sh = (run p ≫= fun v => run (f v)) sh.
Proof.
  revert sh. induction p as [v| |o a next IH|o a w next IH|a next IH]; intros sh; cbn; [done|done|..];
    unfold mbind, stM_bind.
  - destruct (load_u32 a sh); [apply IH|done].
  - destruct (store_u32 a w sh); [apply IH|done].
  - destruct (load_cqe a sh); [apply IH|done].
Qed.

Lemma bind_ext {S T U} (m m' : stM S T) (f f' : T -> stM S U) s :
  m s = m' s -> (forall v s, f v s = f' v s) -> (m ≫= f) s = (m' ≫= f') s.
Proof. unfold mbind, stM_bind. intros -> Hf. destruct (m' s); [apply Hf|done]. Qed.

Lemma run_loop {X T} n (body : X -> access (X + T)) (body' : X -> shmM (X + T)) x sh :
  (forall x sh, run (body x) sh = body' x sh) -> run (loop n body x) sh = iter n body' x sh.
Proof.
  intros Hb. revert x sh. induction n as [|n IH]; intros x sh; [done|]. cbn [loop iter].
  rewrite run_bind. apply bind_ext; [apply Hb|]. intros [x'|v] s; [apply IH|done].
Qed.

Lemma run_flush_body {A : Abi} u mask st sh : run (flush_body_accesses u mask st) sh = flush_body u mask st sh.
Proof.
  destruct st as [[tail lhead] n]. cbn. unfold mbind, stM_bind.
  destruct (store_u32 _ _ sh); [|done]. by case_match.
Qed.

Lemma run_flush {A : Abi} u sh : run (flush_accesses u) sh = uring_flush u sh.
Proof.
  unfold flush_accesses, uring_flush. cbn. apply bind_ext; [done|]. intros mask s1.
  apply bind_ext; [done|]. intros tail s2. case_match; [|done]. rewrite run_bind.
  apply bind_ext; [by apply run_loop, run_flush_body|]. intros [t l] s3. done.
Qed.

Lemma run_result {A : Abi} u sh : run (result_accesses u) sh = uring_result u sh.
Proof.
  unfold uring_result. cbn. apply bind_ext; [done|]. intros h s1. apply bind_ext; [done|]. intros t s2.
  by case_match.
Qed.

Lemma run_new_submission {A : Abi} u sh : run (new_submission_accesses u) sh = uring_new_submission u sh.
Proof.
  unfold uring_new_submission. cbn. apply bind_ext; [done|]. intros h s1. apply bind_ext; [done|]. intros e s2.
  by case_match.
Qed.

(** Run without interference, the accesses of each ring operation, with
    their orders, compute what the operation computes: on every memory, the
    faults included. *)
Lemma accesses_are_operations {A : Abi} u sh :
  run (result_accesses u) sh = uring_result u sh /\ run (advance_accesses u) sh = uring_advance u sh /\
  run (new_submission_accesses u) sh = uring_new_submission u sh /\ run (flush_accesses u) sh = uring_flush u sh /\
  run (wait_accesses u) sh = (r ← uring_flush u; head ← load_u32 (sq_head r.2); mret (uwrap 32 (r.1 - head), r.2)) sh.
Proof.
  split_and!.
  - apply run_result.
  - cbn. unfold mbind, stM_bind, uring_advance. cbn. unfold mbind, stM_bind. destruct (load_u32 _ sh); [|done].
    by destruct (store_u32 _ _ _) as [[] ?|].
  - apply run_new_submission.
  - apply run_flush.
  - unfold wait_accesses. rewrite run_bind. apply bind_ext; [apply run_flush|]. by intros [t u'] s.
Qed.
