(* ===== verification/Interleave.v ===== *)
(** * The ring operations while the kernel runs

    The kernel writes to the rings between any two accesses of the program:
    it fills the slot after the last completion, moves the tail over it, and
    takes queued entries, each by one write ([kernel_acts]).  Whatever it does
    and whenever, each operation of the program acts on the abstract rings at
    one point in time ([always]). *)

From S2P Require Import Prelude Outcome CMem CString Machine Syscall Console Uring Access.

(** ** The kernel's writes *)

Section kernel.
Context {A : Abi} (u : uring_queue) (k ck : Z).

(** One write of the kernel: with room in the completion ring, an entry after
    the last, whatever it holds, or the tail; with entries queued, the head of
    the submission ring. *)
Inductive kernel_acts : shm -> shm -> Prop :=
| fills sh h t c :
    sh_words sh !! cq_head u = Some h -> sh_words sh !! cq_tail u = Some t -> uwrap 32 (t - h) < 2 ^ ck ->
    kernel_acts sh (set_cqe sh (cqe_at u ck t) c)
| bumps sh h t :
    sh_words sh !! cq_head u = Some h -> sh_words sh !! cq_tail u = Some t -> uwrap 32 (t - h) < 2 ^ ck ->
    is_Some (sh_cqes sh !! cqe_at u ck t) ->
    kernel_acts sh (set_word sh (cq_tail u) (uwrap 32 (t + 1)))
| takes sh h t :
    sh_words sh !! sq_head u = Some h -> sh_words sh !! sq_tail u = Some t -> h <> t ->
    kernel_acts sh (set_word sh (sq_head u) (uwrap 32 (h + 1))).

(** What they mean for the rings. *)
Inductive moves : ring -> ring -> Prop :=
| moves_post R c : moves R (post R c)
| moves_take R : queued R <> [] -> moves R (consume 1 (R, [])).1.

(** What the kernel leaves alone. *)
Definition quiet (sh sh' : shm) : Prop :=
  sh_sqes sh' = sh_sqes sh /\
  forall w, w <> cq_tail u -> w <> sq_head u -> sh_words sh' !! w = sh_words sh !! w.

#[export] Instance quiet_preorder : PreOrder quiet.
Proof.
  split; [by intros sh|]. intros s1 s2 s3 [E12 H12] [E23 H23]. split; [congruence|].
  intros w H1 H2. by rewrite H23, H12.
Qed.

Lemma cqe_at_wrap t : 0 <= ck < 32 -> cqe_at u ck (uwrap 32 t) = cqe_at u ck t.
Proof. intros. unfold cqe_at. by rewrite uwrap_mod_pow by lia. Qed.

Context (L : layout u k ck).

(** An entry written beyond the completions is not one of them. *)
Lemma fill_rep sh R c : ring_rep u k ck sh R -> Z.of_nat (length (completed R)) < 2 ^ ck ->
  ring_rep u k ck (set_cqe sh (cqe_at u ck (r_chead R + Z.of_nat (length (completed R)))) c) R.
Proof.
  intros H Hroom. pose proof (ck_bound u k ck L). pose proof (lay_cqe _ _ _ L).
  destruct H. split; cbn; try done. intros j c' Hj. rewrite lookup_insert_ne; [by apply rr_cqe|].
  intros E. apply lookup_lt_Some in Hj. unfold cqe_at in E.
  assert (length (completed R) = j) as Ej; [|lia].
  apply Nat2Z.inj, (mod_window (2 ^ ck) (r_chead R)); [lia|nia|lia|lia].
Qed.

Lemma room_below sh R h t : ring_rep u k ck sh R ->
  sh_words sh !! cq_head u = Some h -> sh_words sh !! cq_tail u = Some t -> uwrap 32 (t - h) < 2 ^ ck ->
  t = uwrap 32 (r_chead R + Z.of_nat (length (completed R))) /\ Z.of_nat (length (completed R)) < 2 ^ ck.
Proof.
  intros H Eh Et Hr. pose proof (ck_bound u k ck L). pose proof (rr_croom _ _ _ _ _ H).
  rewrite (rr_chead _ _ _ _ _ H) in Eh. rewrite (rr_ctail _ _ _ _ _ H) in Et. simplify_eq.
  split; [done|]. by rewrite counter_diff in Hr by lia.
Qed.

(** A write of the kernel is a move of the rings, or none. *)
Lemma kernel_acts_rep sh sh' R : ring_rep u k ck sh R -> kernel_acts sh sh' ->
  exists R', ring_rep u k ck sh' R' /\ rtc moves R R' /\ quiet sh sh'.
Proof.
  intros H Hact. pose proof (lay_ck _ _ _ L). destruct Hact as [sh h t c Eh Et Hr|sh h t Eh Et Hr [c Hc]|sh h t Eh Et Hne].
  - destruct (room_below _ _ _ _ H Eh Et Hr) as [-> Hroom]. rewrite cqe_at_wrap by done.
    exists R. split_and!; [by apply fill_rep|done|by split].
  - destruct (room_below _ _ _ _ H Eh Et Hr) as [-> Hroom]. rewrite cqe_at_wrap in Hc by done.
    exists (post R c). split_and!; [|apply rtc_once; constructor|].
    + rewrite uwrap_add_l. pose proof (post_rep u k ck sh R L H c Hroom) as Hp. unfold set_cqe in Hp.
      rewrite insert_id in Hp by done. by destruct sh.
    + split; [done|]. intros w Hw _. cbn. by rewrite lookup_insert_ne.
  - rewrite (rr_head _ _ _ _ _ H) in Eh. rewrite (rr_tail _ _ _ _ _ H) in Et.
    assert (queued R <> []) as Hq.
    { intros E. apply Hne. rewrite E in Et. cbn in Et. rewrite Z.add_0_r in Et. congruence. }
    injection Eh as <-. exists (consume 1 (R, [])).1. split_and!; [|by apply rtc_once; constructor|].
    + rewrite uwrap_add_l. by apply (take_rep u k ck sh R L H []).
    + split; [done|]. intros w _ Hw. cbn. by rewrite lookup_insert_ne.
Qed.

(** The memory and the rings at a later time. *)
Record later (sh : shm) (R : ring) (sh' : shm) (R' : ring) : Prop := {
  lt_rep : ring_rep u k ck sh' R';
  lt_moves : rtc moves R R';
  lt_quiet : quiet sh sh'
}.

Lemma later_refl sh R : ring_rep u k ck sh R -> later sh R sh R.
Proof. by split. Qed.

Lemma later_trans sh R sh1 R1 sh2 R2 : later sh R sh1 R1 -> later sh1 R1 sh2 R2 -> later sh R sh2 R2.
Proof. intros [H1 M1 Q1] [H2 M2 Q2]. split; [done|by etrans|by etrans]. Qed.

Lemma kernel_runs sh sh' R : ring_rep u k ck sh R -> rtc kernel_acts sh sh' -> exists R', later sh R sh' R'.
Proof.
  intros H Hr. revert R H. induction Hr as [sh|sh1 sh2 sh3 H12 _ IH]; intros R H.
  - exists R. by apply later_refl.
  - destruct (kernel_acts_rep _ _ _ H H12) as (R2 & H2 & M & Q).
    destruct (IH R2 H2) as [R3 H3]. exists R3. eapply later_trans; [by split|exact H3].
Qed.
End kernel.

(** What the moves leave alone, and the order they keep. *)
Lemma moves_rest R R' : rtc moves R R' ->
  pending R' = pending R /\ r_chead R' = r_chead R /\
  r_head R' + Z.of_nat (length (queued R')) = r_head R + Z.of_nat (length (queued R)) /\
  (exists cs, completed R' = completed R ++ cs) /\ exists qs, queued R = qs ++ queued R'.
Proof.
  induction 1 as [R|R1 R2 R3 H12 _ IH].
  - split_and!; [done..|by exists []; rewrite app_nil_r|by exists []].
  - destruct IH as (Ep & Ec & Eh & [cs Ecs] & [qs Eqs]). rewrite Ep, Ec, Eh, Ecs.
    destruct H12 as [R c|R Hq].
    + cbn in *. split_and!; [done..|by exists (c :: cs); rewrite <- app_assoc|by exists qs].
    + destruct (queued R) as [|e q] eqn:Eq; [done|]. cbn in *. rewrite Eq in *. cbn in *.
      rewrite drop_0 in *. split_and!; [done|done|rewrite take_0; cbn; lia|by exists cs|].
      exists (e :: qs). cbn. by rewrite Eqs.
Qed.

(** ** All interleavings *)

Section always.
Context (acts : shm -> shm -> Prop).

(** Whatever happens between its accesses, [p] finds what it accesses in the
    mapping, and ends with a result and a memory satisfying [Q]. *)
Fixpoint always {T : Type} (p : access T) (Q : T -> shm -> Prop) (sh : shm) : Prop :=
  forall sh1, rtc acts sh sh1 ->
    match p with
    | Done v => Q v sh1
    | Spent => False
    | Load _ a next => exists w, sh_words sh1 !! a = Some w /\ always (next w) Q sh1
    | Store _ a w next => is_Some (sh_words sh1 !! a) /\ always next Q (set_word sh1 a w)
    | LoadCqe a next => exists c, sh_cqes sh1 !! a = Some c /\ always (next c) Q sh1
    end.

Lemma always_stable {T} (p : access T) Q sh sh1 : always p Q sh -> rtc acts sh sh1 -> always p Q sh1.
Proof. intros Hp H1. destruct p; intros sh2 H2; refine (Hp sh2 _); by etrans. Qed.

Lemma always_bind {T U} (p : access T) (f : T -> access U) Q sh :
  always p (fun v sh' => always (f v) Q sh') sh -> always (p ≫= f) Q sh.
Proof.
  revert sh. induction p as [v| |o a next IH|o a w next IH|a next IH]; intros sh Hp.
  - change (Done v ≫= f) with (f v). by apply (Hp sh).
  - by destruct (Hp sh).
  - intros sh1 H1. destruct (Hp sh1 H1) as (w & E & Hn). exists w. split; [done|]. by apply IH.
  - intros sh1 H1. destruct (Hp sh1 H1) as [E Hn]. split; [done|]. by apply IH.
  - intros sh1 H1. destruct (Hp sh1 H1) as (c & E & Hn). exists c. split; [done|]. by apply IH.
Qed.

Lemma always_mono {T} (p : access T) (Q Q' : T -> shm -> Prop) sh :
  always p Q sh -> (forall v sh', Q v sh' -> Q' v sh') -> always p Q' sh.
Proof.
  intros Hp HQ. revert sh Hp. induction p as [v| |o a next IH|o a w next IH|a next IH]; intros sh Hp sh1 H1; cbn.
  - by apply HQ, Hp.
  - by destruct (Hp sh1 H1).
  - destruct (Hp sh1 H1) as (w & E & Hn). eauto.
  - destruct (Hp sh1 H1) as [E Hn]. eauto.
  - destruct (Hp sh1 H1) as (c & E & Hn). eauto.
Qed.

(** With nothing in between, [always] is the execution of [run]. *)
Lemma always_run {T} (p : access T) Q sh : always p Q sh -> exists v sh', run p sh = Ok v sh' /\ Q v sh'.
Proof.
  revert sh. induction p as [v| |o a next IH|o a w next IH|a next IH]; intros sh Hp.
  - exists v, sh. split; [done|]. by apply (Hp sh).
  - by destruct (Hp sh).
  - destruct (Hp sh (rtc_refl _ _)) as (w & E & Hn). destruct (IH w sh Hn) as (v & sh' & Er & HQ).
    exists v, sh'. split; [|done]. cbn. by rewrite (bind_ok _ _ _ _ _ (load_u32_ok _ _ _ E)).
  - destruct (Hp sh (rtc_refl _ _)) as [E Hn]. destruct (IH _ Hn) as (v & sh' & Er & HQ).
    exists v, sh'. split; [|done]. cbn. by rewrite (bind_ok _ _ _ _ _ (store_u32_ok _ w _ E)).
  - destruct (Hp sh (rtc_refl _ _)) as (c & E & Hn). destruct (IH c sh Hn) as (v & sh' & Er & HQ).
    exists v, sh'. split; [|done]. cbn. unfold mbind, stM_bind, load_cqe. by rewrite E.
Qed.
(** A program and the kernel, one access at a time. *)
Inductive step {T : Type} : access T * shm -> access T * shm -> Prop :=
| step_load o a next w sh : sh_words sh !! a = Some w -> step (Load o a next, sh) (next w, sh)
| step_store o a w next sh : is_Some (sh_words sh !! a) -> step (Store o a w next, sh) (next, set_word sh a w)
| step_load_cqe a next c sh : sh_cqes sh !! a = Some c -> step (LoadCqe a next, sh) (next c, sh)
| step_kernel p sh sh' : acts sh sh' -> step (p, sh) (p, sh').

Lemma always_step {T} (p p' : access T) Q sh sh' : step (p, sh) (p', sh') -> always p Q sh -> always p' Q sh'.
Proof.
  inversion 1; subst; intros Hp.
  - destruct (Hp _ (rtc_refl _ _)) as (w' & E & Hn). by simplify_eq.
  - by destruct (Hp _ (rtc_refl _ _)).
  - destruct (Hp _ (rtc_refl _ _)) as (c' & E & Hn). by simplify_eq.
  - eapply always_stable; [done|]. by apply rtc_once.
Qed.

(** [always] speaks of every interleaving: wherever the program and the kernel
    have got to, the next access is in the mapping, and at the end [Q] holds. *)
Lemma always_sound {T} (p p' : access T) Q sh sh' : always p Q sh -> rtc step (p, sh) (p', sh') ->
  match p' with
  | Done v => Q v sh'
  | Spent => False
  | Load _ a _ | Store _ a _ _ => is_Some (sh_words sh' !! a)
  | LoadCqe a _ => is_Some (sh_cqes sh' !! a)
  end.
Proof.
  intros Hp Hs. assert (always p' Q sh') as Hp'.
  { remember (p, sh) as c eqn:Ec. remember (p', sh') as c' eqn:Ec'. revert p sh Ec Hp.
    induction Hs as [c|c c1 c2 H1 _ IH]; intros p sh -> Hp; [by injection Ec' as -> ->|].
    destruct c1 as [p1 sh1]. apply (IH Ec' p1 sh1 eq_refl). by eapply always_step. }
  destruct p'; specialize (Hp' sh' (rtc_refl _ _)); [done|done|..].
  - destruct Hp' as (w & E & _). by eexists.
  - by destruct Hp'.
  - destruct Hp' as (w & E & _). by eexists.
Qed.
End always.

(** ** The index array *)

Section indexing.
Context {A : Abi} (u : uring_queue) (k ck : Z).
Context (L : layout u k ck).

(** The indices of the first [i] entries after the queued ones are stored. *)
Definition indices (R : ring) (i : nat) (sh : shm) : Prop :=
  forall j, (j < i)%nat -> sh_words sh !! idx_at u k (r_head R + Z.of_nat (length (queued R)) + Z.of_nat j) =
    Some ((r_head R + Z.of_nat (length (queued R)) + Z.of_nat j) mod 2 ^ k).

Lemma indices_later R0 i sh R sh' R' : indices R0 i sh -> later u k ck sh R sh' R' -> indices R0 i sh'.
Proof.
  intros Hi HL j Hj. rewrite <- (Hi j Hj). apply (lt_quiet _ _ _ _ _ _ _ HL);
    (eapply lay_array; [exact L|set_solver]).
Qed.

(** Storing the next index changes nothing of the rings. *)
Lemma index_rep sh R i : ring_rep u k ck sh R -> (i < length (pending R))%nat ->
  let t := r_head R + Z.of_nat (length (queued R)) in
  ring_rep u k ck (set_word sh (idx_at u k (t + Z.of_nat i)) ((t + Z.of_nat i) mod 2 ^ k)) R.
Proof.
  intros H Hi t. pose proof (k_bound u k ck L). pose proof (rr_room _ _ _ _ _ H) as Hroom. rewrite length_app in Hroom.
  destruct H. split; cbn; try done.
  all: try (rewrite lookup_insert_ne by apart L; done).
  - intros i'. rewrite lookup_insert. case_decide; [by eexists|done].
  - intros j Hj. rewrite lookup_insert_ne; [by apply rr_index|]. intros E. unfold t in E.
    rewrite <- Z.add_assoc in E. apply (idx_at_inj u k ck L) in E; lia.
Qed.

Lemma indices_step R0 sh R i : rtc moves R0 R -> ring_rep u k ck sh R -> (i < length (pending R0))%nat -> indices R0 i sh ->
  let t := r_head R0 + Z.of_nat (length (queued R0)) in
  let sh' := set_word sh (idx_at u k (t + Z.of_nat i)) ((t + Z.of_nat i) mod 2 ^ k) in
  is_Some (sh_words sh !! idx_at u k (t + Z.of_nat i)) /\ ring_rep u k ck sh' R /\ indices R0 (S i) sh'.
Proof.
  intros HM H Hi Hix t sh'. destruct (moves_rest _ _ HM) as (Ep & _ & Eh & _). split_and!; [apply H| |].
  - unfold sh', t. rewrite <- Eh. apply index_rep; [done|by rewrite Ep].
  - pose proof (k_bound u k ck L). pose proof (rr_room _ _ _ _ _ H) as Hroom. rewrite length_app, Ep in Hroom.
    intros j Hj. cbn. fold t. destruct (decide (j = i)) as [->|Hji]; [by rewrite lookup_insert_eq|].
    rewrite lookup_insert_ne; [by apply Hix; lia|]. intros E. apply (idx_at_inj u k ck L) in E; lia.
Qed.

(** The rings once the tail is moved over the indices. *)
Lemma publish_rep R0 sh R : rtc moves R0 R -> ring_rep u k ck sh R -> indices R0 (length (pending R0)) sh ->
  let last := uwrap 32 (r_head R0 + Z.of_nat (length (queued R0)) + Z.of_nat (length (pending R0))) in
  ring_rep (with_list u last (sq_list_tail u)) k ck (set_word sh (sq_tail u) last) (publish R).
Proof.
  intros HM H Hix last. destruct (moves_rest _ _ HM) as (Ep & _ & Eh & _). unfold last. rewrite <- Eh, <- Ep.
  apply (indexed_rep u k ck sh R L H). split; try done. rewrite Ep, Eh. exact Hix.
Qed.
End indexing.

(** ** The operations *)

Section operations.
Context {A : Abi} (u : uring_queue) (k ck : Z) (acts : shm -> shm -> Prop).
Context (L : layout u k ck) (Hacts : forall s s', acts s s' -> kernel_acts u ck s s').

Notation now := (always acts).
Notation later := (later u k ck).

Lemma acts_later sh R sh' : ring_rep u k ck sh R -> rtc acts sh sh' -> exists R', later sh R sh' R'.
Proof. intros H Hr. eapply kernel_runs; [done|done|]. by eapply rtc_subrel. Qed.

Lemma now_ret {T} (v : T) (Q : T -> shm -> Prop) sh R : ring_rep u k ck sh R ->
  (forall sh1 R1, later sh R sh1 R1 -> Q v sh1) -> now (mret v) Q sh.
Proof. intros H HQ sh1 H1. destruct (acts_later sh R sh1 H H1) as [R1 HL]. by eapply HQ. Qed.

Lemma now_load {U} o a (f : Z -> access U) Q sh R : ring_rep u k ck sh R ->
  (forall sh1 R1, later sh R sh1 R1 -> exists w, sh_words sh1 !! a = Some w /\ now (f w) Q sh1) ->
  now (load o a ≫= f) Q sh.
Proof. intros H HQ sh1 H1. destruct (acts_later sh R sh1 H H1) as [R1 HL]. by eapply HQ. Qed.

Lemma now_store {U} o a w (next : access U) Q sh R : ring_rep u k ck sh R ->
  (forall sh1 R1, later sh R sh1 R1 -> is_Some (sh_words sh1 !! a) /\ now next Q (set_word sh1 a w)) ->
  now (Store o a w next) Q sh.
Proof. intros H HQ sh1 H1. destruct (acts_later sh R sh1 H H1) as [R1 HL]. by eapply HQ. Qed.

(** [uring_result] looks at the rings when it loads the tail. *)
Lemma result_now tail_order sh R : ring_rep u k ck sh R ->
  now (result_with tail_order u) (fun a sh' => exists R1 R', rtc moves R R1 /\ rtc moves R1 R' /\
    ring_rep u k ck sh' R' /\
    match completed R1 with
    | [] => a = 0
    | c :: _ => a = cqe_at u ck (r_chead R) /\ a <> 0 /\ load_cqe a sh' = Ok c sh'
    end) sh.
Proof.
  intros H. unfold result_with. apply (now_load _ _ _ _ _ R H). intros sh1 R1 H1.
  exists (uwrap 32 (r_chead R1)). split; [apply H1|].
  apply (now_load _ _ _ _ _ R1 (lt_rep _ _ _ _ _ _ _ H1)). intros sh2 R2 H2.
  eexists. split; [apply (rr_ctail _ _ _ _ _ (lt_rep _ _ _ _ _ _ _ H2))|].
  destruct (moves_rest _ _ (lt_moves _ _ _ _ _ _ _ H1)) as (_ & Ec1 & _).
  destruct (moves_rest _ _ (lt_moves _ _ _ _ _ _ _ H2)) as (_ & Ec2 & _).
  pose proof (lt_rep _ _ _ _ _ _ _ H2) as Hrep2. pose proof (rr_croom _ _ _ _ _ Hrep2) as Hroom. pose proof (ck_bound u k ck L) as Hck.
  rewrite <- Ec2. set (n := Z.of_nat (length (completed R2))).
  assert (rtc moves R R2) as Hm by (etrans; [apply H1|apply H2]).
  destruct (Z.eqb_spec (uwrap 32 (r_chead R2)) (uwrap 32 (r_chead R2 + n))) as [E|E].
  - assert (completed R2 = []) as E0.
    { pose proof (counter_diff (r_chead R2) n ltac:(lia)) as D. rewrite <- E, Z.sub_diag in D.
      change (uwrap 32 0) with 0 in D. by destruct (completed R2). }
    apply (now_ret _ _ _ R2 Hrep2). intros sh3 R3 H3. exists R2, R3. rewrite E0.
    split_and!; [done|apply H3|apply H3|done].
  - destruct (completed R2) as [|c cs] eqn:E2; [by rewrite Z.add_0_r in E|].
    apply (now_load _ _ _ _ _ R2 Hrep2). intros sh3 R3 H3. eexists.
    split; [apply (rr_cmask _ _ _ _ _ (lt_rep _ _ _ _ _ _ _ H3))|].
    apply (now_ret _ _ _ R3 (lt_rep _ _ _ _ _ _ _ H3)). intros sh4 R4 H4.
    pose proof (later_trans _ _ _ _ _ _ _ _ _ H3 H4) as H24. exists R2, R4. rewrite E2.
    destruct (moves_rest _ _ (lt_moves _ _ _ _ _ _ _ H24)) as (_ & Ec4 & _ & [cs' Ecs] & _).
    rewrite mask_index by apply L. fold (cqe_at u ck (r_chead R2)). rewrite Ec2, Ec1 in *.
    split_and!; [done|apply H24|apply H24|done|apply Z.neq_sym, Z.lt_neq, (cqe_at_pos u k ck L)|].
    destruct (uring_result_spec u k ck sh4 R4 L (lt_rep _ _ _ _ _ _ _ H24)) as [_ Hl].
    rewrite Ec4 in Hl. eapply Hl. by rewrite Ecs, E2.
Qed.

(** [uring_advance] removes the oldest completion when it stores the head. *)
Lemma advance_now sh R : ring_rep u k ck sh R -> completed R <> [] ->
  now (advance_accesses u) (fun _ sh' => exists R1 R', rtc moves R R1 /\ rtc moves (take_completion R1) R' /\
    ring_rep u k ck sh' R') sh.
Proof.
  intros H Hne. unfold advance_accesses. apply (now_load _ _ _ _ _ R H). intros sh1 R1 H1.
  eexists. split; [apply (rr_chead _ _ _ _ _ (lt_rep _ _ _ _ _ _ _ H1))|].
  apply (now_store _ _ _ _ _ _ R1 (lt_rep _ _ _ _ _ _ _ H1)). intros sh2 R2 H2.
  pose proof (later_trans _ _ _ _ _ _ _ _ _ H1 H2) as H02.
  destruct (moves_rest _ _ (lt_moves _ _ _ _ _ _ _ H2)) as (_ & Ec & _).
  destruct (moves_rest _ _ (lt_moves _ _ _ _ _ _ _ H02)) as (_ & _ & _ & [cs Ecs] & _).
  split; [eexists; apply (rr_chead _ _ _ _ _ (lt_rep _ _ _ _ _ _ _ H02))|].
  assert (completed R2 <> []) as Hne2 by (rewrite Ecs; by destruct (completed R)).
  rewrite uwrap_add_l, <- Ec. eapply now_ret.
  - apply (advance_rep u k ck sh2 R2 L (lt_rep _ _ _ _ _ _ _ H02) Hne2).
  - intros sh3 R3 H3. exists R2, R3. split_and!; [apply H02|apply H3|apply H3].
Qed.

(** The number of entries handed out and not yet taken by the kernel. *)
Definition in_use (R : ring) : Z := Z.of_nat (length (queued R ++ pending R)).

Lemma moves_use R R' : rtc moves R R' ->
  r_head R' + in_use R' = r_head R + in_use R /\ in_use R' <= in_use R.
Proof.
  intros Hm. destruct (moves_rest _ _ Hm) as (Ep & _ & Eh & _ & [qs Eq]). unfold in_use.
  rewrite !length_app, Ep. rewrite Eq, length_app in *. lia.
Qed.

(** [uring_new_submission] looks at the rings when it loads the head. *)
Lemma new_submission_now sh R : ring_rep u k ck sh R ->
  now (new_submission_accesses u) (fun v sh' => exists R1 R', rtc moves R R1 /\ rtc moves R1 R' /\
    ring_rep u k ck sh' R' /\
    ((in_use R1 = 2 ^ k /\ v = (0, u)) \/
     (in_use R1 < 2 ^ k /\ v.1 <> 0 /\ forall e, exists sh'', update_sqe v.1 (fun _ => e) sh' = Ok tt sh'' /\
        ring_rep v.2 k ck sh'' (submit R' e)))) sh.
Proof.
  intros H. pose proof (k_bound u k ck L) as Hk. unfold new_submission_accesses.
  apply (now_load _ _ _ _ _ R H). intros sh1 R1 H1. pose proof (lt_rep _ _ _ _ _ _ _ H1) as Hr1.
  eexists. split; [apply (rr_head _ _ _ _ _ Hr1)|].
  apply (now_load _ _ _ _ _ R1 Hr1). intros sh2 R2 H2. pose proof (lt_rep _ _ _ _ _ _ _ H2) as Hr2.
  eexists. split; [apply (rr_entries _ _ _ _ _ Hr2)|]. pose proof (rr_room _ _ _ _ _ Hr1) as Hroom.
  rewrite (rr_ltail _ _ _ _ _ Hr1), uwrap_add_l, <- Z.add_assoc. fold (in_use R1) in *. rewrite counter_diff by (unfold in_use in *; lia).
  destruct (Z.leb_spec (in_use R1 + 1) (2 ^ k)) as [Hle|Hgt].
  - apply (now_load _ _ _ _ _ R2 Hr2). intros sh3 R3 H3. pose proof (lt_rep _ _ _ _ _ _ _ H3) as Hr3.
    eexists. split; [apply (rr_mask _ _ _ _ _ Hr3)|]. apply (now_ret _ _ _ R3 Hr3). intros sh4 R4 H4.
    assert (rtc moves R1 R4) as M14 by (etrans; [apply H2|etrans; [apply H3|apply H4]]).
    destruct (moves_use _ _ M14) as [Eu Hu]. exists R1, R4.
    split_and!; [apply H1|done|apply H4|right; split; [lia|]].
    rewrite Z.add_assoc, mask_index by apply L. fold (sqe_at u k (r_head R1 + in_use R1)). cbn [fst snd]. rewrite <- Eu.
    split; [apply Z.neq_sym, Z.lt_neq, (sqe_at_pos u k ck L)|]. intros e.
    pose proof (lt_rep _ _ _ _ _ _ _ H4) as Hr4. eexists. split; [|apply (submit_rep u k ck sh4 R4 L Hr4 e); unfold in_use in *; lia].
    unfold update_sqe. by destruct (rr_slots _ _ _ _ _ Hr4 (r_head R4 + in_use R4)) as [e0 ->].
  - apply (now_ret _ _ _ R2 Hr2). intros sh3 R3 H3. exists R1, R3.
    split_and!; [apply H1|etrans; [apply H2|apply H3]|apply H3|left; split; [unfold in_use in *; lia|done]].
Qed.

(** *** Publishing *)

Lemma flush_loop_now R0 n i sh R : rtc moves R0 R -> ring_rep u k ck sh R -> indices u k R0 i sh ->
  (0 < n)%nat -> (i + n)%nat = length (pending R0) ->
  let t := r_head R0 + Z.of_nat (length (queued R0)) in
  let last := uwrap 32 (t + Z.of_nat (length (pending R0))) in
  now (loop n (flush_body_accesses u (2 ^ k - 1)) (uwrap 32 (t + Z.of_nat i), uwrap 32 (t + Z.of_nat i), Z.of_nat n))
    (fun x sh' => x = (last, last) /\ exists R', rtc moves R0 R' /\ ring_rep u k ck sh' R' /\
      indices u k R0 (length (pending R0)) sh') sh.
Proof.
  intros HM H Hix Hn Hin t last. revert i sh R HM H Hix Hin. induction n as [|n IH]; [lia|]. intros i sh R HM H Hix Hin.
  pose proof (k_bound u k ck L). pose proof (rr_room _ _ _ _ _ H) as Hroom. rewrite length_app in Hroom.
  destruct (moves_rest _ _ HM) as (Ep & _). rewrite Ep in Hroom.
  cbn [loop]. unfold flush_body_accesses. rewrite mask_index by apply L. fold (idx_at u k (t + Z.of_nat i)).
  apply (now_store _ _ _ _ _ _ R H). intros sh1 R1 H1.
  assert (rtc moves R0 R1) as HM1 by (etrans; [exact HM|apply H1]).
  destruct (indices_step u k ck L R0 sh1 R1 i HM1 (lt_rep _ _ _ _ _ _ _ H1) ltac:(lia) (indices_later u k ck L _ _ _ _ _ _ Hix H1))
    as (Hm & Hr & Hi').
  split; [exact Hm|]. fold t in Hr, Hi'. rewrite uwrap_add_l, (uwrap_small 32 (_ - 1)) by lia.
  replace (t + Z.of_nat i + 1) with (t + Z.of_nat (S i)) by lia.
  replace (Z.of_nat (S n) - 1) with (Z.of_nat n) by lia.
  apply always_bind. destruct (Z.eqb_spec (Z.of_nat n) 0) as [En|En].
  - apply (now_ret _ _ _ R1 Hr). intros sh2 R2 H2. apply (now_ret _ _ _ R2 (lt_rep _ _ _ _ _ _ _ H2)). intros sh3 R3 H3.
    pose proof (later_trans _ _ _ _ _ _ _ _ _ H2 H3) as H23.
    replace (S i) with (length (pending R0)) in * by lia. split; [done|]. exists R3.
    split_and!; [etrans; [exact HM1|apply H23]|apply H23|by eapply indices_later].
  - apply (now_ret _ _ _ R1 Hr). intros sh2 R2 H2.
    apply (IH ltac:(lia) (S i) sh2 R2); [etrans; [exact HM1|apply H2]|apply H2|by eapply indices_later|lia].
Qed.

End operations.

Section wait.
Context {A : Abi} (u : uring_queue) (k ck : Z) (acts : shm -> shm -> Prop).
Context (L : layout u k ck) (Hacts : forall s s', acts s s' -> kernel_acts u ck s s').

(** The kernel does not see the list counters of the handle. *)
Lemma acts_handle a b s s' : acts s s' -> kernel_acts (with_list u a b) ck s s'.
Proof.
  intros Ha. destruct (Hacts _ _ Ha) as [sh h t c E1 E2 E3|sh h t E1 E2 E3 E4|sh h t E1 E2 E3].
  - by apply (fills (with_list u a b) ck sh h t c).
  - by apply (bumps (with_list u a b) ck sh h t).
  - by apply (takes (with_list u a b) ck sh h t).
Qed.

Definition published (R : ring) (sh : shm) (u' : uring_queue) (R1 R' : ring) : Prop :=
  rtc moves R R1 /\ rtc moves (publish R1) R' /\ ring_rep u' k ck sh R' /\
  u' = with_list u (sq_list_tail u) (sq_list_tail u).

Lemma flush_now sh R : ring_rep u k ck sh R ->
  always acts (flush_accesses u) (fun v sh' => exists R1 R', published R sh' v.2 R1 R' /\
    v.1 = uwrap 32 (r_head R' + Z.of_nat (length (queued R')))) sh.
Proof.
  intros H. pose proof (k_bound u k ck L) as Hk. pose proof (pending_room u k ck sh R H) as Hp.
  set (t := r_head R + Z.of_nat (length (queued R))).
  assert (sq_list_tail u = uwrap 32 (t + Z.of_nat (length (pending R)))) as Hlt.
  { rewrite (rr_ltail _ _ _ _ _ H), length_app. f_equal. unfold t. lia. }
  unfold flush_accesses. apply (now_load u k ck acts L Hacts _ _ _ _ _ R H). intros sh1 R1 H1. pose proof (lt_rep _ _ _ _ _ _ _ H1) as Hr1.
  eexists. split; [apply (rr_mask _ _ _ _ _ Hr1)|].
  apply (now_load u k ck acts L Hacts _ _ _ _ _ R1 Hr1). intros sh2 R2 H2. pose proof (lt_rep _ _ _ _ _ _ _ H2) as Hr2.
  eexists. split; [apply (rr_tail _ _ _ _ _ Hr2)|].
  assert (rtc moves R R2) as HM by (etrans; [apply H1|apply H2]). destruct (moves_rest _ _ HM) as (Ep & _ & Eh & _).
  rewrite Eh. fold t. replace (uwrap 32 (sq_list_tail u - sq_list_head u)) with (Z.of_nat (length (pending R)))
    by (rewrite Hlt, (rr_lhead _ _ _ _ _ H); fold t; rewrite counter_diff; lia).
  rewrite (rr_lhead _ _ _ _ _ H). fold t. cbv zeta.
  destruct (Z.ltb_spec 0 (Z.of_nat (length (pending R)))) as [Hlp|Hlp].
  - rewrite Nat2Z.id. apply always_bind. eapply always_mono.
    { pose proof (flush_loop_now u k ck acts L Hacts R (length (pending R)) 0 sh2 R2 HM Hr2
        ltac:(intros j Hj; lia) ltac:(lia) ltac:(lia)) as W. cbv zeta in W. rewrite Z.add_0_r in W. exact W. }
    cbv beta. intros x sh3 (-> & R3 & HM3 & Hr3 & Hix).
    apply (now_store u k ck acts L Hacts _ _ _ _ _ _ R3 Hr3). intros sh4 R4 H4.
    pose proof (lt_rep _ _ _ _ _ _ _ H4) as Hr4. assert (rtc moves R R4) as HM4 by (etrans; [exact HM3|apply H4]).
    split; [eexists; apply (rr_tail _ _ _ _ _ Hr4)|].
    pose proof (publish_rep u k ck L R sh4 R4 HM4 Hr4 (indices_later u k ck L _ _ _ _ _ _ Hix H4)) as Hpub.
    cbv zeta in Hpub |- *. fold t in Hpub |- *. rewrite <- Hlt in Hpub |- *. set (u' := with_list u _ _) in *.
    apply (now_ret u' k ck acts (layout_with_list u k ck L _ _) (acts_handle _ _) _ _ _ _ Hpub). intros sh5 R5 H5.
    exists R4, R5. split; [split_and!; [done|apply H5|apply H5|done]|].
    destruct (moves_rest _ _ (lt_moves _ _ _ _ _ _ _ H5)) as (_ & _ & E5 & _).
    destruct (moves_rest _ _ HM4) as (Ep4 & _ & E4 & _). rewrite E5. cbn [publish r_head queued fst]. rewrite length_app, Ep4, Hlt.
    f_equal. unfold t. lia.
  - assert (pending R = []) as E0 by (destruct (pending R); [done|cbn in *; lia]).
    apply (now_ret u k ck acts L Hacts _ _ _ R2 Hr2). intros sh3 R3 H3. exists R2, R3. unfold published. cbn [fst snd].
    assert (publish R2 = R2) as -> by (unfold publish; rewrite Ep, E0, app_nil_r; destruct R2; cbn in *; congruence).
    destruct (moves_rest _ _ (lt_moves _ _ _ _ _ _ _ H3)) as (_ & _ & E3 & _).
    split; [split_and!; [done|apply H3|apply H3|]|rewrite E3, Eh; done].
    symmetry. apply with_list_id; [|done]. rewrite (rr_lhead _ _ _ _ _ H), Hlt, E0. cbn. by rewrite Z.add_0_r.
Qed.

Lemma wait_now sh R : ring_rep u k ck sh R ->
  always acts (wait_accesses u) (fun v sh' => exists R1 R2 R', published R sh' v.2 R1 R' /\
    rtc moves (publish R1) R2 /\ rtc moves R2 R' /\ v.1 = Z.of_nat (length (queued R2))) sh.
Proof.
  intros H. unfold wait_accesses. apply always_bind. eapply always_mono; [by apply flush_now|].
  intros [tail u'] sh1 (R1 & R2 & (HM1 & HM2 & Hr2 & Eu) & Et). cbn [fst snd] in Hr2, Eu, Et.
  assert (layout u' k ck) as L' by (rewrite Eu; by apply layout_with_list).
  assert (forall s s', acts s s' -> kernel_acts u' ck s s') as Hacts' by (rewrite Eu; apply acts_handle).
  apply (now_load u' k ck acts L' Hacts' _ _ _ _ _ R2 Hr2). intros sh3 R3 H3. pose proof (lt_rep _ _ _ _ _ _ _ H3) as Hr3.
  eexists. split; [apply (rr_head _ _ _ _ _ Hr3)|]. apply (now_ret u' k ck acts L' Hacts' _ _ _ R3 Hr3). intros sh4 R4 H4.
  assert (rtc moves (publish R1) R3) as HM3 by (etrans; [exact HM2|apply H3]).
  exists R1, R3, R4. unfold published. cbn [fst snd]. split_and!; [done|etrans; [exact HM3|apply H4]|apply H4|done|done|apply H4|].
  destruct (moves_rest _ _ (lt_moves _ _ _ _ _ _ _ H3)) as (_ & _ & E3 & _). cbn. rewrite Et, <- E3.
  pose proof (k_bound u' k ck L'). pose proof (rr_room _ _ _ _ _ Hr3) as Hroom. rewrite length_app in Hroom.
  apply counter_diff. lia.
Qed.
End wait.

(** ** What the operations do in any interleaving *)

(** C16: the completion side, with the kernel writing to the rings between any
    two accesses: [uring_result] returns NULL or the oldest completion of the
    rings as they are at one moment of the call, and what it points at stays
    that completion; [uring_advance] removes the oldest completion at one
    moment, and keeps what the kernel posts before and after. *)
Theorem completions_interleaved {A : Abi} u k ck sh R : layout u k ck -> ring_rep u k ck sh R ->
  always (kernel_acts u ck) (result_accesses u) (fun a sh' => exists R1 R',
    rtc moves R R1 /\ rtc moves R1 R' /\ ring_rep u k ck sh' R' /\
    match completed R1 with
    | [] => a = 0
    | c :: _ => a = cqe_at u ck (r_chead R) /\ a <> 0 /\ load_cqe a sh' = Ok c sh'
    end) sh /\
  (completed R <> [] ->
   always (kernel_acts u ck) (advance_accesses u) (fun _ sh' => exists R1 R',
     rtc moves R R1 /\ rtc moves (take_completion R1) R' /\ ring_rep u k ck sh' R') sh).
Proof.
  intros L H. split; [by apply (result_now u k ck _ L (fun s s' Ha => Ha) Plain)|].
  intros Hne. by apply (advance_now u k ck _ L (fun s s' Ha => Ha)).
Qed.

(** C17: [uring_new_submission], with the kernel writing to the rings between
    any two accesses: NULL, and no change of the handle, exactly when all the
    entries are in use at the moment it loads the head; otherwise an entry
    that no entry in use lies in, and whatever is written there is submitted
    after all the others. *)
Theorem new_submission_interleaved {A : Abi} u k ck sh R : layout u k ck -> ring_rep u k ck sh R ->
  always (kernel_acts u ck) (new_submission_accesses u) (fun v sh' => exists R1 R',
    rtc moves R R1 /\ rtc moves R1 R' /\ ring_rep u k ck sh' R' /\
    ((in_use R1 = 2 ^ k /\ v = (0, u)) \/
     (in_use R1 < 2 ^ k /\ v.1 <> 0 /\ forall e, exists sh'', update_sqe v.1 (fun _ => e) sh' = Ok tt sh'' /\
        ring_rep v.2 k ck sh'' (submit R' e)))) sh.
Proof. intros L H. by apply (new_submission_now u k ck _ L (fun s s' Ha => Ha)). Qed.

(** C18: [uring_wait] up to its call, with the kernel writing to the rings
    between any two accesses, also while the indices are stored: the pending
    entries are published at one moment, in order; the number it asks the
    kernel to take was the number of queued entries at a moment after that,
    so that it can only be too large. *)
Theorem wait_interleaved {A : Abi} u k ck sh R : layout u k ck -> ring_rep u k ck sh R ->
  always (kernel_acts u ck) (wait_accesses u) (fun v sh' => exists R1 R2 R',
    rtc moves R R1 /\ rtc moves (publish R1) R2 /\ rtc moves R2 R' /\ ring_rep v.2 k ck sh' R' /\
    v.2 = with_list u (sq_list_tail u) (sq_list_tail u) /\
    v.1 = Z.of_nat (length (queued R2)) /\ Z.of_nat (length (queued R')) <= v.1) sh.
Proof.
  intros L H. eapply always_mono; [by apply (wait_now u k ck _ L (fun s s' Ha => Ha))|].
  intros v sh' (R1 & R2 & R' & (HM & _ & Hr & Eu) & HM2 & HM3 & E). exists R1, R2, R'. split_and!; [done..|].
  destruct (moves_rest _ _ HM3) as (_ & _ & _ & _ & [qs Eq]). rewrite E, Eq, length_app. lia.
Qed.
