(* ===== verification/Order.v ===== *)
(** * The memory orders of the ring accesses

    The program and the kernel run on different processors: a load need not
    see the last write.  The writes of the other side form a history, in the
    order it makes them ([history]); a load sees the state after some of them,
    no fewer than are known to have happened ([floor]), and only an acquire
    load of a word stored with release order raises the floor ([weak]).  The
    question is whether the program, which loads the completion tail without
    an order, reads the completion the kernel wrote. *)

From S2P Require Import Prelude Outcome CMem CString Machine Syscall Console Uring Access Interleave.

(** ** Histories *)

Inductive mwrite : Type :=
| WWord (o : order) (a w : Z)
| WCqe (a : Z) (c : io_uring_cqe).

Definition apply_write (sh : shm) (w : mwrite) : shm :=
  match w with WWord _ a w => set_word sh a w | WCqe a c => set_cqe sh a c end.

(** The memory after some writes. *)
Definition after (sh : shm) (H : list mwrite) : shm := foldl apply_write sh H.

(** How many writes come no later than the last one to the word [a], and the
    order of that one. *)
Fixpoint last_store (a : Z) (H : list mwrite) : option (nat * order) :=
  match H with
  | [] => None
  | w :: H' =>
      match last_store a H', w with
      | Some (n, o), _ => Some (S n, o)
      | None, WWord o b _ => if b =? a then Some (1%nat, o) else None
      | None, _ => None
      end
  end.

(** How many writes are known to have happened to who reads that one. *)
Definition released (a : Z) (H : list mwrite) : nat :=
  match last_store a H with Some (n, Release) => n | _ => 0%nat end.

(** Every execution of [p] against the history [H] of the other side ends with
    a result and a floor satisfying [Q].  The stores of [p] are to words that
    side does not write. *)
Fixpoint weak {T : Type} (H : list mwrite) (p : access T) (Q : T -> nat -> Prop) (floor : nat) (sh : shm) : Prop :=
  match p with
  | Done v => Q v floor
  | Spent => False
  | Load o a next => forall n, (floor <= n <= length H)%nat ->
      exists w, sh_words (after sh (take n H)) !! a = Some w /\
        weak H (next w) Q (match o with Acquire => Nat.max floor (released a (take n H)) | _ => floor end) sh
  | Store _ a w next => weak H next Q floor (set_word sh a w)
  | LoadCqe a next => forall n, (floor <= n <= length H)%nat ->
      exists c, sh_cqes (after sh (take n H)) !! a = Some c /\ weak H (next c) Q floor sh
  end.

Lemma after_app sh H H' : after sh (H ++ H') = after (after sh H) H'.
Proof. apply foldl_app. Qed.

Lemma last_store_le a H n o : last_store a H = Some (n, o) -> (n <= length H)%nat.
Proof.
  revert n. induction H as [|w H IH]; intros n; cbn; [done|]. destruct (last_store a H) as [[m o']|].
  - intros [= <- ->]. specialize (IH m eq_refl). lia.
  - destruct w; [|done]. case_match; [|done]. intros [= <- _]. lia.
Qed.

Lemma released_le a H : (released a H <= length H)%nat.
Proof.
  unfold released. destruct (last_store a H) as [[n []]|] eqn:E; try lia. by eapply last_store_le.
Qed.

(** The writes to [a] all have release order. *)
Definition all_released (a : Z) (H : list mwrite) : Prop :=
  Forall (fun w => match w with WWord o b _ => b = a -> o = Release | WCqe _ _ => True end) H.

(** After the last write to [a] the word does not change. *)
Lemma last_store_value a H sh :
  sh_words (after sh (take (match last_store a H with Some (n, _) => n | None => 0%nat end) H)) !! a =
  sh_words (after sh H) !! a.
Proof.
  revert sh. induction H as [|w H IH]; intros sh; [done|]. cbn [last_store].
  specialize (IH (apply_write sh w)). destruct (last_store a H) as [[n o]|] eqn:En; [exact IH|].
  change (after sh (w :: H)) with (after (apply_write sh w) H). rewrite <- IH, take_0.
  destruct w as [o b v|b c]; [|done]. destruct (Z.eqb_spec b a) as [->|Hb]; [by rewrite firstn_cons, take_0|].
  cbn. by rewrite lookup_insert_ne.
Qed.

Lemma last_store_order a H n o : all_released a H -> last_store a H = Some (n, o) -> o = Release.
Proof.
  intros Ha. revert n. induction Ha as [|w H Hw Ha IH]; intros n; cbn; [done|].
  destruct (last_store a H) as [[m o']|]; [intros [= _ ->]; by eapply IH|].
  destruct w as [o' b v|]; [|done]. destruct (Z.eqb_spec b a) as [->|]; [|done]. intros [= _ <-]. by apply Hw.
Qed.

Lemma released_spec a H sh : all_released a H ->
  sh_words (after sh (take (released a H) H)) !! a = sh_words (after sh H) !! a.
Proof.
  intros Ha. rewrite <- (last_store_value a H). unfold released.
  destruct (last_store a H) as [[n o]|] eqn:E; [|done]. by rewrite (last_store_order _ _ _ _ Ha E).
Qed.

Lemma weak_mono {T} H (p : access T) (Q Q' : T -> nat -> Prop) floor sh :
  weak H p Q floor sh -> (forall v f, Q v f -> Q' v f) -> weak H p Q' floor sh.
Proof.
  intros Hp HQ. revert floor sh Hp. induction p as [v| |o a next IH|o a w next IH|a next IH]; intros floor sh; cbn; auto.
  - intros Hp n Hn. destruct (Hp n Hn) as (w & E & Hw). eauto.
  - intros Hp n Hn. destruct (Hp n Hn) as (c & E & Hc). eauto.
Qed.

(** ** Posting completions *)

Section history.
Context {A : Abi} (u : uring_queue) (k ck : Z).

(** The kernel posts [cs] from the tail [t] on: each entry, then the tail with
    release order. *)
Fixpoint history (t : Z) (cs : list io_uring_cqe) : list mwrite :=
  match cs with
  | [] => []
  | c :: cs => WCqe (cqe_at u ck t) c :: WWord Release (cq_tail u) (uwrap 32 (t + 1)) :: history (t + 1) cs
  end.

Definition posts (R : ring) (cs : list io_uring_cqe) : ring := foldl post R cs.

Lemma posts_completed R cs : completed (posts R cs) = completed R ++ cs /\ r_chead (posts R cs) = r_chead R.
Proof.
  revert R. induction cs as [|c cs IH]; intros R; [by cbn; rewrite app_nil_r|].
  change (posts R (c :: cs)) with (posts (post R c) cs). destruct (IH (post R c)) as [-> ->]. cbn. by rewrite <- app_assoc.
Qed.

Lemma history_length t cs : length (history t cs) = (2 * length cs)%nat.
Proof. revert t. induction cs as [|c cs IH]; intros t; cbn; [done|]. rewrite IH. lia. Qed.

Lemma history_released t cs n : all_released (cq_tail u) (take n (history t cs)).
Proof.
  apply Forall_take. revert t. induction cs as [|c cs IH]; intros t; cbn; [constructor|].
  by repeat constructor.
Qed.

Context (L : layout u k ck).

(** After [n] of the writes half as many completions are posted. *)
Lemma history_rep cs n sh R : ring_rep u k ck sh R -> Z.of_nat (length (completed R) + length cs) <= 2 ^ ck ->
  (n <= 2 * length cs)%nat ->
  ring_rep u k ck (after sh (take n (history (r_chead R + Z.of_nat (length (completed R))) cs)))
    (posts R (take (Nat.div2 n) cs)).
Proof.
  revert n sh R. induction cs as [|c cs IH]; intros n sh R H Hroom Hn.
  - by destruct n as [|[|n]].
  - cbn [length] in *. destruct n as [|[|n]]; [done|apply (fill_rep u k ck L sh R c H); lia|]. cbn [history take Nat.div2].
    pose proof (post_rep u k ck sh R L H c ltac:(lia)) as Hp.
    specialize (IH n _ _ Hp). cbn [post r_chead completed] in IH. rewrite length_app in IH. cbn [length] in IH.
    replace (r_chead R + Z.of_nat (length (completed R) + 1)) with (r_chead R + Z.of_nat (length (completed R)) + 1) in IH by lia.
    apply IH; lia.
Qed.

(** *** Reading the oldest completion *)

(** The entry a result of [uring_result] points at. *)
Definition read_entry (a : Z) : access (option io_uring_cqe) :=
  if a =? 0 then mret None else LoadCqe a (fun c => Done (Some c)).

Definition oldest_with (tail_order : order) : access (option io_uring_cqe) :=
  result_with tail_order u ≫= read_entry.

Context (sh : shm) (R : ring) (cs : list io_uring_cqe).
Context (H : ring_rep u k ck sh R) (Hroom : Z.of_nat (length (completed R) + length cs) <= 2 ^ ck).

(** What the kernel writes, and the completions posted by the first [n] writes. *)
Definition posting : list mwrite := history (r_chead R + Z.of_nat (length (completed R))) cs.
Definition posted (n : nat) : list io_uring_cqe := completed R ++ take (Nat.div2 n) cs.

Lemma at_rep n : (n <= length posting)%nat ->
  ring_rep u k ck (after sh (take n posting)) (posts R (take (Nat.div2 n) cs)).
Proof. intros Hn. apply history_rep; [done|done|]. unfold posting in Hn. by rewrite history_length in Hn. Qed.

Lemma at_head n : (n <= length posting)%nat ->
  sh_words (after sh (take n posting)) !! cq_head u = Some (uwrap 32 (r_chead R)).
Proof. intros Hn. rewrite (rr_chead _ _ _ _ _ (at_rep n Hn)). by rewrite (proj2 (posts_completed _ _)). Qed.

Lemma at_tail n : (n <= length posting)%nat ->
  sh_words (after sh (take n posting)) !! cq_tail u = Some (uwrap 32 (r_chead R + Z.of_nat (length (posted n)))).
Proof.
  intros Hn. rewrite (rr_ctail _ _ _ _ _ (at_rep n Hn)). by destruct (posts_completed R (take (Nat.div2 n) cs)) as [-> ->].
Qed.

Lemma at_cqe n c : (n <= length posting)%nat -> head (posted n) = Some c ->
  sh_cqes (after sh (take n posting)) !! cqe_at u ck (r_chead R) = Some c.
Proof.
  intros Hn Hc. pose proof (rr_cqe _ _ _ _ _ (at_rep n Hn) 0%nat c) as Hr.
  destruct (posts_completed R (take (Nat.div2 n) cs)) as [E1 E2]. rewrite E1, E2, Z.add_0_r in Hr.
  apply Hr. unfold posted in Hc. by destruct (completed R ++ _).
Qed.

Lemma posted_room n : Z.of_nat (length (posted n)) <= 2 ^ ck.
Proof. unfold posted. rewrite length_app, length_take. lia. Qed.

(** The two words tell whether a completion is posted. *)
Lemma posted_tail n : uwrap 32 (r_chead R) = uwrap 32 (r_chead R + Z.of_nat (length (posted n))) <-> posted n = [].
Proof.
  split.
  - intros E. pose proof (posted_room n). pose proof (ck_bound u k ck L).
    pose proof (counter_diff (r_chead R) (Z.of_nat (length (posted n))) ltac:(lia)) as D.
    rewrite <- E, Z.sub_diag in D. change (uwrap 32 0) with 0 in D. by destruct (posted n).
  - intros ->. by rewrite Z.add_0_r.
Qed.

(** A completion that is posted stays the oldest. *)
Lemma posted_mono n m : (n <= m)%nat -> posted n <> [] -> head (posted m) = head (completed R ++ cs) /\ posted m <> [].
Proof.
  unfold posted. intros Hnm Hn. destruct (completed R) as [|c0 l]; [|done]. destruct cs as [|c cs']; [by rewrite take_nil in Hn|].
  cbn [app] in *. destruct (Nat.div2 n) as [|d] eqn:E; [done|].
  destruct (Nat.div2 m) as [|d'] eqn:E'; [|done]. rewrite Nat.div2_div in *.
  pose proof (Nat.Div0.div_le_mono n m 2 Hnm). lia.
Qed.

Lemma posted_released n : (n <= length posting)%nat -> posted n <> [] ->
  (released (cq_tail u) (take n posting) <= n)%nat /\ posted (released (cq_tail u) (take n posting)) <> [].
Proof.
  intros Hn Hne. set (m := released _ _).
  assert (m <= n)%nat as Hm by (etrans; [apply released_le|]; rewrite length_take; lia).
  split; [done|]. intros E. apply Hne, posted_tail. apply posted_tail in E.
  pose proof (released_spec (cq_tail u) (take n posting) sh (history_released _ _ n)) as Hr. fold m in Hr.
  rewrite take_take, Nat.min_l, (at_tail m), (at_tail n) in Hr by lia. injection Hr as Hr. by rewrite E.
Qed.

(** With a completion among the writes known to have happened, or when the
    tail is loaded with acquire order, the entry read is the posted one. *)
Lemma oldest_weak o floor : posted floor <> [] \/ o = Acquire ->
  weak posting (oldest_with o)
    (fun v _ => (v = None /\ posted floor = []) \/ v = head (completed R ++ cs)) floor sh.
Proof.
  intros Ho n1 Hn1. eexists. split; [apply at_head; lia|]. cbv iota.
  set (f1 := Nat.max floor _). assert (floor <= f1)%nat as Hf1 by lia. clearbody f1.
  intros n2 Hn2. eexists. split; [apply at_tail; lia|].
  set (f2 := match o with Acquire => _ | _ => _ end).
  change (weak posting ((if uwrap 32 (r_chead R) =? uwrap 32 (r_chead R + Z.of_nat (length (posted n2))) then mret 0
      else mask ← load Plain (cq_mask u); mret (cqes u + Z.land (uwrap 32 (r_chead R)) mask * sizeof_io_uring_cqe)) ≫= read_entry)
    (fun v _ => (v = None /\ posted floor = []) \/ v = head (completed R ++ cs)) f2 sh).
  destruct (Z.eqb_spec (uwrap 32 (r_chead R)) (uwrap 32 (r_chead R + Z.of_nat (length (posted n2))))) as [E|E].
  - apply (proj1 (posted_tail n2)) in E. left. split; [done|]. destruct (decide (posted floor = [])) as [|Hne]; [done|].
    by destruct (posted_mono floor n2 ltac:(lia) Hne).
  - rewrite posted_tail in E.
    assert (floor <= f2)%nat as Hf2 by (unfold f2; destruct o; lia).
    assert (exists m, (m <= f2)%nat /\ posted m <> []) as (m & Hm & Hpm).
    { destruct Ho as [Hne| ->]; [by exists floor|]. destruct (posted_released n2 ltac:(lia) E) as [_ Hp].
      eexists. split; [|exact Hp]. unfold f2. lia. }
    clearbody f2. intros n3 Hn3. eexists. split; [apply (rr_cmask _ _ _ _ _ (at_rep n3 ltac:(lia)))|].
    change (weak posting (read_entry (cqes u + Z.land (uwrap 32 (r_chead R)) (2 ^ ck - 1) * sizeof_io_uring_cqe))
      (fun v _ => (v = None /\ posted floor = []) \/ v = head (completed R ++ cs)) f2 sh).
    rewrite mask_index by apply L. fold (cqe_at u ck (r_chead R)). unfold read_entry.
    pose proof (cqe_at_pos u k ck L (r_chead R)). destruct (Z.eqb_spec (cqe_at u ck (r_chead R)) 0); [lia|].
    intros n4 Hn4. destruct (posted_mono m n4 ltac:(lia) Hpm) as [Eh Hp4].
    destruct (head (posted n4)) as [c|] eqn:Ec; [|by destruct (posted n4)].
    exists c. split; [apply at_cqe; [lia|done]|]. right. by rewrite <- Eh.
Qed.

(** Without acquire order the new tail can be seen before the new entry. *)
Lemma stale_read o c old : o <> Acquire -> completed R = [] -> cs = [c] ->
  sh_cqes sh !! cqe_at u ck (r_chead R) = Some old -> old <> c ->
  ~ weak posting (oldest_with o) (fun v _ => v = None \/ v = Some c) 0 sh.
Proof.
  intros Ho Ec Ecs Hold Hne W. assert (length posting = 2%nat) as El by (unfold posting; by rewrite history_length, Ecs).
  destruct (W 0%nat ltac:(lia)) as (h & Eh & W1). rewrite at_head in Eh by lia. injection Eh as <-.
  destruct (W1 2%nat ltac:(split; [change (0 <= 2)%nat|]; lia)) as (t & Et & W2). rewrite at_tail in Et by lia. injection Et as <-.
  change (weak posting ((if uwrap 32 (r_chead R) =? uwrap 32 (r_chead R + Z.of_nat (length (posted 2))) then mret 0
      else mask ← load Plain (cq_mask u); mret (cqes u + Z.land (uwrap 32 (r_chead R)) mask * sizeof_io_uring_cqe)) ≫= read_entry)
    (fun v _ => v = None \/ v = Some c)
    (match o with Acquire => Nat.max 0 (released (cq_tail u) (take 2 posting)) | _ => 0%nat end) sh) in W2.
  replace (match o with Acquire => Nat.max 0 (released (cq_tail u) (take 2 posting)) | _ => 0%nat end) with 0%nat in W2 by (by destruct o).
  destruct (Z.eqb_spec (uwrap 32 (r_chead R)) (uwrap 32 (r_chead R + Z.of_nat (length (posted 2))))) as [E|_].
  { apply posted_tail in E. unfold posted in E. by rewrite Ec, Ecs in E. }
  destruct (W2 0%nat ltac:(lia)) as (m & Em & W3). change (sh_words sh !! cq_mask u = Some m) in Em. rewrite (rr_cmask _ _ _ _ _ H) in Em. injection Em as <-.
  change (weak posting (read_entry (cqes u + Z.land (uwrap 32 (r_chead R)) (2 ^ ck - 1) * sizeof_io_uring_cqe))
    (fun v _ => v = None \/ v = Some c) 0 sh) in W3.
  rewrite mask_index in W3 by apply L. fold (cqe_at u ck (r_chead R)) in W3. unfold read_entry in W3.
  pose proof (cqe_at_pos u k ck L (r_chead R)). destruct (Z.eqb_spec (cqe_at u ck (r_chead R)) 0); [lia|].
  destruct (W3 0%nat ltac:(lia)) as (c' & Ec' & Hv). change (sh_cqes sh !! cqe_at u ck (r_chead R) = Some c') in Ec'.
  rewrite Hold in Ec'. injection Ec' as <-. by destruct Hv as [?|[= ?]].
Qed.
End history.

(** ** Publishing entries *)

(** The stores of a run. *)
Fixpoint stores {T : Type} (p : access T) (sh : shm) : list mwrite :=
  match p with
  | Done _ | Spent => []
  | Load _ a next => match sh_words sh !! a with Some w => stores (next w) sh | None => [] end
  | Store o a w next => WWord o a w :: stores next (set_word sh a w)
  | LoadCqe a next => match sh_cqes sh !! a with Some c => stores (next c) sh | None => [] end
  end.

Lemma stores_run {T} (p : access T) sh v sh' : run p sh = Ok v sh' -> after sh (stores p sh) = sh'.
Proof.
  revert sh. induction p as [x| |o a next IH|o a w next IH|a next IH]; intros sh; cbn; unfold mbind, stM_bind.
  - by intros [= _ ->].
  - done.
  - unfold load_u32. destruct (sh_words sh !! a); [apply IH|done].
  - unfold store_u32. destruct (sh_words sh !! a); [apply IH|done].
  - unfold load_cqe. destruct (sh_cqes sh !! a); [apply IH|done].
Qed.

Lemma stores_bind {T U} (p : access T) (f : T -> access U) sh v sh' : run p sh = Ok v sh' ->
  stores (p ≫= f) sh = stores p sh ++ stores (f v) sh'.
Proof.
  revert sh. induction p as [x| |o a next IH|o a w next IH|a next IH]; intros sh; cbn; unfold mbind, stM_bind.
  - by intros [= -> ->].
  - done.
  - unfold load_u32. destruct (sh_words sh !! a); [apply IH|done].
  - unfold store_u32. destruct (sh_words sh !! a); [|done]. intros E. f_equal. by apply IH.
  - unfold load_cqe. destruct (sh_cqes sh !! a); [apply IH|done].
Qed.

Lemma last_store_last a H o w : last_store a (H ++ [WWord o a w]) = Some (S (length H), o).
Proof. induction H as [|x H IH]; cbn; [by rewrite Z.eqb_refl|by rewrite IH]. Qed.

Section publishing.
Context {A : Abi} (u : uring_queue) (k ck : Z) (sh : shm) (R : ring).
Context (L : layout u k ck) (H : ring_rep u k ck sh R).

Let t := r_head R + Z.of_nat (length (queued R)).

(** The store of the index of entry [j]. *)
Definition index_store (j : nat) : mwrite := WWord Plain (idx_at u k (t + Z.of_nat j)) ((t + Z.of_nat j) mod 2 ^ k).

Lemma index_stores_rep n : (n <= length (pending R))%nat ->
  ring_rep u k ck (after sh (index_store <$> seq 0 n)) R.
Proof.
  induction n as [|n IH]; intros Hn; [done|]. rewrite seq_S, fmap_app, after_app. cbn.
  apply (index_rep u k ck L); [apply IH; lia|lia].
Qed.

Lemma body_store x n : Z.of_nat (S n) < 2 ^ 32 ->
  flush_body_accesses u (2 ^ k - 1) (uwrap 32 x, uwrap 32 x, Z.of_nat (S n)) =
  Store Plain (idx_at u k x) (x mod 2 ^ k)
    (Done (if Z.of_nat n =? 0 then inr (uwrap 32 (x + 1), uwrap 32 (x + 1))
           else inl (uwrap 32 (x + 1), uwrap 32 (x + 1), Z.of_nat n))).
Proof.
  intros Hn. unfold flush_body_accesses. rewrite mask_index by apply L. fold (idx_at u k x).
  rewrite uwrap_add_l, (uwrap_small 32 (_ - 1)) by lia. replace (Z.of_nat (S n) - 1) with (Z.of_nat n) by lia.
  by destruct (Z.of_nat n =? 0).
Qed.

(** The loop makes these stores, in order. *)
Lemma loop_stores n i s : (0 < n)%nat -> (i + n)%nat = length (pending R) ->
  stores (loop n (flush_body_accesses u (2 ^ k - 1)) (uwrap 32 (t + Z.of_nat i), uwrap 32 (t + Z.of_nat i), Z.of_nat n)) s =
    index_store <$> seq i n.
Proof.
  revert i s. induction n as [|n IH]; [lia|]. intros i s _ Hin. pose proof (k_bound u k ck L).
  pose proof (pending_room u k ck sh R H).
  cbn [loop seq fmap list_fmap]. rewrite body_store by lia.
  replace (t + Z.of_nat i + 1) with (t + Z.of_nat (S i)) by lia. cbn. f_equal.
  destruct (Z.eqb_spec (Z.of_nat n) 0) as [E|E]; [by replace n with 0%nat by lia|]. apply IH; lia.
Qed.

Lemma flush_stores : pending R <> [] ->
  stores (flush_accesses u) sh = (index_store <$> seq 0 (length (pending R))) ++
    [WWord Release (sq_tail u) (uwrap 32 (t + Z.of_nat (length (pending R))))].
Proof.
  intros Hne. assert (0 < length (pending R))%nat as Hp by (destruct (pending R); cbn; [done|lia]).
  pose proof (k_bound u k ck L). pose proof (pending_room u k ck sh R H).
  assert (sq_list_tail u = uwrap 32 (t + Z.of_nat (length (pending R)))) as Hlt.
  { rewrite (rr_ltail _ _ _ _ _ H), length_app. f_equal. unfold t. lia. }
  destruct (uring_flush_spec u k ck sh R L H) as (sh' & u' & E & _ & _). rewrite <- run_flush in E.
  revert E. unfold flush_accesses. cbn. unfold mbind, stM_bind.
  rewrite (load_u32_ok _ _ _ (rr_mask _ _ _ _ _ H)), (load_u32_ok _ _ _ (rr_tail _ _ _ _ _ H)).
  rewrite (rr_mask _ _ _ _ _ H), (rr_tail _ _ _ _ _ H). fold t.
  rewrite Hlt, (rr_lhead _ _ _ _ _ H). fold t. rewrite counter_diff by lia.
  rewrite (proj2 (Z.ltb_lt _ _)), Nat2Z.id by lia. intros E.
  set (p := loop _ _ _) in *. set (f := fun _ => _) in *.
  change (access_bind _ _ f p) with (p ≫= f) in *. rewrite run_bind in E. unfold mbind, stM_bind in E.
  destruct (run p sh) as [[x y] s|] eqn:Ep; [|done]. rewrite (stores_bind _ _ _ _ _ Ep).
  pose proof (loop_stores (length (pending R)) 0 sh Hp eq_refl) as Hl. rewrite Z.add_0_r in Hl. fold p in Hl. rewrite Hl.
  do 2 f_equal. unfold f in *. cbn in *. unfold mbind, stM_bind in E.
  destruct (store_u32 (sq_tail u) x s); [|done]. injection E as -> _ _.
  rewrite length_app, Nat2Z.inj_add, Z.add_assoc. done.
Qed.
End publishing.

(** ** The two directions *)

(** C19: what a completion tells when it is read.  [floor] is how many of the
    kernel's writes are known to have happened, as those before the return of
    io_uring_enter are; if a completion is posted by then, [uring_result], with
    the plain load of the tail the source has, does not return NULL, and the
    entry it points at reads as the oldest completion the kernel posted,
    whatever else the kernel is writing and however late writes become
    visible. *)
Theorem completion_visible {A : Abi} u k ck sh R cs floor : layout u k ck -> ring_rep u k ck sh R ->
  Z.of_nat (length (completed R) + length cs) <= 2 ^ ck -> posted R cs floor <> [] ->
  weak (posting u ck R cs) (result_accesses u ≫= read_entry)
    (fun v _ => v = head (completed R ++ cs) /\ v <> None) floor sh.
Proof.
  intros L H Hroom Hp. eapply weak_mono; [by eapply oldest_weak; eauto|]. cbv beta. intros v _ Hv.
  destruct Hv as [[_ E]|E]; [done|]. split; [done|]. rewrite E. unfold posted in Hp.
  destruct (completed R) as [|c l]; [|done]. destruct cs; [by rewrite take_nil in Hp|done].
Qed.

(** C21: when no completion is known to be posted the order of the load of the
    tail decides: with acquire order [uring_result] gives NULL or an entry that
    reads as the completion the kernel posts; with no order (as in the source)
    it can point at an entry that still reads as the one that was there
    before. *)
Theorem tail_order_decides {A : Abi} u k ck sh R c old tail_order : layout u k ck -> ring_rep u k ck sh R ->
  completed R = [] -> sh_cqes sh !! cqe_at u ck (r_chead R) = Some old -> old <> c ->
  weak (posting u ck R [c]) (result_with tail_order u ≫= read_entry) (fun v _ => v = None \/ v = Some c) 0 sh <->
  tail_order = Acquire.
Proof.
  intros L H Ec Hold Hne. pose proof (ck_bound u k ck L).
  assert (Z.of_nat (length (completed R) + length [c]) <= 2 ^ ck) as Hroom by (rewrite Ec; cbn; lia). split.
  - intros W. destruct (decide (tail_order = Acquire)) as [|Ho]; [done|]. exfalso.
    by eapply stale_read.
  - intros ->. eapply weak_mono; [by eapply oldest_weak; eauto|]. cbv beta. intros v _ Hv.
    destruct Hv as [[E _]|E]; [by left|right]. by rewrite E, Ec.
Qed.

(** C20: the release order of the store of the tail in [uring_wait] publishes:
    after each of its stores but the last the kernel finds in the ring what
    was queued before, after the last also the pending entries; and whoever
    loads that last store with acquire order has all the stores before it, so
    sees no other index. *)
Theorem flush_released {A : Abi} u k ck sh R : layout u k ck -> ring_rep u k ck sh R -> pending R <> [] ->
  let W := stores (flush_accesses u) sh in
  (forall n, (n < length W)%nat -> kernel_view u (after sh (take n W)) = Some (queued R)) /\
  kernel_view u (after sh W) = Some (queued R ++ pending R) /\
  released (sq_tail u) W = length W.
Proof.
  intros L H Hne W. unfold W. rewrite (flush_stores u k ck sh R L H Hne). set (w := WWord _ _ _). set (idx := fmap _ _).
  assert (length idx = length (pending R)) as El by (unfold idx; by rewrite length_fmap, length_seq).
  rewrite length_app. split_and!.
  - intros n Hn. cbn in Hn. rewrite take_app_le by lia. unfold idx. rewrite <- fmap_take, take_seq, Nat.min_l by lia.
    eapply kernel_view_queued; [done|]. apply (index_stores_rep u k ck sh R L H). lia.
  - unfold idx, w. rewrite <- (flush_stores u k ck sh R L H Hne).
    destruct (uring_flush_spec u k ck sh R L H) as (sh' & u' & E & Eu & H').
    rewrite <- run_flush in E. rewrite (stores_run _ _ _ _ E).
    assert (kernel_view u sh' = kernel_view u' sh') as -> by (by rewrite Eu).
    apply (kernel_view_queued u' k ck sh' (publish R)); [rewrite Eu; by apply layout_with_list|done].
  - unfold released, w. rewrite last_store_last. cbn. lia.
Qed.
