(* ===== verification/Atomic.v ===== *)
(** * The ring operations are atomic

    The program as a whole is modelled with a kernel that acts at system calls
    only.  Here is why nothing is lost by that in the ring operations: an
    operation whose accesses the kernel interrupts ends with the result and
    the memory it has when the kernel makes some of its writes first, the
    operation then runs undisturbed, and the kernel makes the rest after. *)

From S2P Require Import Prelude Outcome CMem CString Machine Syscall Console Uring Access Interleave Order.

Section atomic.
Context {A : Abi} (u : uring_queue) (k ck : Z).

Notation acts := (kernel_acts u ck).

(** Some of the kernel's writes come before [p], the others after it. *)
Definition atomic {T} (p : access T) (sh : shm) : Prop :=
  always acts p (fun v sh' => exists sh1 sh2, rtc acts sh sh1 /\ run p sh1 = Ok v sh2 /\ rtc acts sh2 sh') sh.

Lemma acts_quiet s s' : rtc acts s s' -> quiet u s s'.
Proof.
  induction 1 as [s|s1 s2 s3 H12 _ IH]; [done|]. etrans; [|exact IH]. destruct H12; split; cbn; try done.
  - intros w Hw _. by rewrite lookup_insert_ne.
  - intros w _ Hw. by rewrite lookup_insert_ne.
Qed.

Lemma acts_mapped s s' w : rtc acts s s' -> is_Some (sh_words s !! w) -> is_Some (sh_words s' !! w).
Proof.
  induction 1 as [s|s1 s2 s3 H12 _ IH]; [done|]. intros Hw. apply IH.
  destruct H12; cbn; [done|rewrite lookup_insert; case_decide; [by eexists|done]..].
Qed.

(** The kernel neither reads nor writes the other words. *)
Definition own_word (a : Z) : Prop := a <> cq_head u /\ a <> cq_tail u /\ a <> sq_head u /\ a <> sq_tail u.

(** A write of the kernel after a store to another word could come before it. *)
Lemma acts_before a w s s' : own_word a -> acts (set_word s a w) s' ->
  exists s1, acts s s1 /\ s' = set_word s1 a w.
Proof.
  intros (Hch & Hct & Hsh & Hst) Ha. inversion Ha as [? h t c E1 E2 Hr|? h t E1 E2 Hr Hc|? h t E1 E2 Hne]; subst; cbn in *;
    rewrite !lookup_insert_ne in * by done.
  - eexists. split; [by eapply (fills u ck s h t c)|done].
  - eexists. split; [by eapply (bumps u ck s h t)|]. unfold set_word. cbn. by rewrite insert_insert_ne.
  - eexists. split; [by eapply (takes u ck s h t)|]. unfold set_word. cbn. by rewrite insert_insert_ne.
Qed.

Lemma runs_before a w s s' : own_word a -> rtc acts (set_word s a w) s' ->
  exists s1, rtc acts s s1 /\ s' = set_word s1 a w.
Proof.
  intros Ha Hr. remember (set_word s a w) as s0 eqn:E0. revert s E0.
  induction Hr as [s0|s0 s1 s2 H01 _ IH]; intros s ->; [by exists s|].
  destruct (acts_before a w s s1 Ha H01) as (s3 & H3 & ->). destruct (IH s3 eq_refl) as (s4 & H4 & ->).
  exists s4. split; [by eapply rtc_l|done].
Qed.

Context (L : layout u k ck) (sh : shm) (R : ring) (H : ring_rep u k ck sh R).

(** A word of the handle that the kernel does not write. *)
Lemma quiet_word s a w : rtc acts sh s -> a <> cq_tail u -> a <> sq_head u -> sh_words sh !! a = Some w ->
  sh_words s !! a = Some w.
Proof. intros Hr H1 H2 <-. by apply (acts_quiet _ _ Hr). Qed.

Lemma head_at s : rtc acts sh s -> sh_words s !! cq_head u = Some (uwrap 32 (r_chead R)).
Proof. intros Hr. apply quiet_word; [done|apart L|apart L|apply H]. Qed.
Lemma cmask_at s : rtc acts sh s -> sh_words s !! cq_mask u = Some (2 ^ ck - 1).
Proof. intros Hr. apply quiet_word; [done|apart L|apart L|apply H]. Qed.
Lemma mask_at s : rtc acts sh s -> sh_words s !! sq_mask u = Some (2 ^ k - 1).
Proof. intros Hr. apply quiet_word; [done|apart L|apart L|apply H]. Qed.
Lemma entries_at s : rtc acts sh s -> sh_words s !! sq_entries u = Some (2 ^ k).
Proof. intros Hr. apply quiet_word; [done|apart L|apart L|apply H]. Qed.

Lemma result_atomic o : atomic (result_with o u) sh.
Proof.
  intros s1 H1. exists (uwrap 32 (r_chead R)). split; [by apply head_at|]. intros s2 H2.
  destruct (acts_mapped sh s2 (cq_tail u) ltac:(by etrans) ltac:(eexists; apply H)) as [t Et]. exists t. split; [done|].
  assert (rtc acts sh s2) as H02 by (by etrans).
  assert (run (result_with o u) s2 = Ok (if uwrap 32 (r_chead R) =? t then 0
      else cqes u + Z.land (uwrap 32 (r_chead R)) (2 ^ ck - 1) * sizeof_io_uring_cqe) s2) as E.
  { cbn. unfold mbind, stM_bind. rewrite (load_u32_ok _ _ _ (head_at s2 H02)), (load_u32_ok _ _ _ Et).
    destruct (Z.eqb_spec (uwrap 32 (r_chead R)) t); [done|]. cbn. unfold mbind, stM_bind.
    by rewrite (load_u32_ok _ _ _ (cmask_at s2 H02)). }
  change (always acts (if uwrap 32 (r_chead R) =? t then mret 0
      else mask ← load Plain (cq_mask u); mret (cqes u + Z.land (uwrap 32 (r_chead R)) mask * sizeof_io_uring_cqe))
    (fun v sh' => exists sh1 sh2, rtc acts sh sh1 /\ run (result_with o u) sh1 = Ok v sh2 /\ rtc acts sh2 sh') s2).
  destruct (uwrap 32 (r_chead R) =? t).
  - intros s3 H3. by exists s2, s2.
  - intros s3 H3. exists (2 ^ ck - 1). split; [apply cmask_at; by etrans|]. intros s4 H4. exists s2, s2.
    split_and!; [done|exact E|by etrans].
Qed.

Lemma advance_atomic : atomic (advance_accesses u) sh.
Proof.
  intros s1 H1. exists (uwrap 32 (r_chead R)). split; [by apply head_at|]. intros s2 H2.
  assert (rtc acts sh s2) as H02 by (by etrans). split; [eexists; by apply head_at|].
  intros s3 H3. exists s2. eexists. split_and!; [done| |exact H3].
  cbn. unfold mbind, stM_bind. rewrite (load_u32_ok _ _ _ (head_at s2 H02)).
  by rewrite store_u32_ok by (eexists; by apply head_at).
Qed.

Lemma new_submission_atomic : atomic (new_submission_accesses u) sh.
Proof.
  intros s1 H1. destruct (acts_mapped sh s1 (sq_head u) H1 ltac:(eexists; apply H)) as [h Eh]. exists h. split; [done|].
  intros s2 H2. exists (2 ^ k). split; [apply entries_at; by etrans|].
  set (next := uwrap 32 (sq_list_tail u + 1)).
  set (v := (sqes u + Z.land (sq_list_tail u) (2 ^ k - 1) * sizeof_io_uring_sqe, with_list u (sq_list_head u) next)).
  assert (run (new_submission_accesses u) s1 = Ok (if uwrap 32 (next - h) <=? 2 ^ k then v else (0, u)) s1) as E.
  { cbn. unfold mbind, stM_bind. rewrite (load_u32_ok _ _ _ Eh), (load_u32_ok _ _ _ (entries_at s1 H1)). fold next.
    destruct (uwrap 32 (next - h) <=? 2 ^ k); [|done]. cbn. unfold mbind, stM_bind.
    by rewrite (load_u32_ok _ _ _ (mask_at s1 H1)). }
  change (always acts (if uwrap 32 (next - h) <=? 2 ^ k then
      mask ← load Plain (sq_mask u); mret (sqes u + Z.land (sq_list_tail u) mask * sizeof_io_uring_sqe, with_list u (sq_list_head u) next)
      else mret (0, u))
    (fun v sh' => exists sh1 sh2, rtc acts sh sh1 /\ run (new_submission_accesses u) sh1 = Ok v sh2 /\ rtc acts sh2 sh') s2).
  destruct (uwrap 32 (next - h) <=? 2 ^ k).
  - intros s3 H3. exists (2 ^ k - 1). split; [apply mask_at; etrans; [exact H1|by etrans]|]. intros s4 H4. exists s1, s1.
    split_and!; [done|exact E|etrans; [exact H2|by etrans]].
  - intros s3 H3. exists s1, s1. split_and!; [done|exact E|by etrans].
Qed.

(** *** The stores of the indices *)

Lemma runs_before_all ws s s' :
  Forall (fun w => match w with WWord _ a _ => own_word a | WCqe _ _ => False end) ws ->
  rtc acts (after s ws) s' -> exists s1, rtc acts s s1 /\ s' = after s1 ws.
Proof.
  revert s'. induction ws as [|w ws IH] using rev_ind; intros s' Hw Hr; [by exists s'|].
  apply Forall_app in Hw as [Hws Hw]. rewrite after_app in Hr. inversion_clear Hw as [|? ? Ha _]. destruct w as [o a v|]; [|done].
  destruct (runs_before a v (after s ws) s' Ha Hr) as (s1 & H1 & ->). destruct (IH s1 Hws H1) as (s2 & H2 & ->).
  exists s2. split; [done|]. by rewrite after_app.
Qed.

Lemma after_mapped ws s a : is_Some (sh_words s !! a) -> is_Some (sh_words (after s ws) !! a).
Proof.
  revert s. induction ws as [|w ws IH]; intros s Ha; [done|]. apply (IH (apply_write s w)).
  destruct w; cbn; [rewrite lookup_insert; case_decide; [by eexists|done]|done].
Qed.

Definition index_stores (i : nat) : list mwrite := index_store u k R <$> seq 0 i.

Lemma index_stores_own i :
  Forall (fun w => match w with WWord _ a _ => own_word a | WCqe _ _ => False end) (index_stores i).
Proof. apply Forall_fmap, Forall_forall. intros j _. cbn. split_and!; apart L. Qed.

Lemma index_stores_S i s : after s (index_stores (S i)) = apply_write (after s (index_stores i)) (index_store u k R i).
Proof. unfold index_stores. by rewrite seq_S, fmap_app, after_app. Qed.

Lemma loop_atomic n i s : (0 < n)%nat -> (i + n)%nat = length (pending R) -> rtc acts sh s ->
  let t := r_head R + Z.of_nat (length (queued R)) in
  let last := uwrap 32 (t + Z.of_nat (length (pending R))) in
  always acts (loop n (flush_body_accesses u (2 ^ k - 1)) (uwrap 32 (t + Z.of_nat i), uwrap 32 (t + Z.of_nat i), Z.of_nat n))
    (fun x sh' => x = (last, last) /\ exists s', rtc acts sh s' /\ sh' = after s' (index_stores (length (pending R))))
    (after s (index_stores i)).
Proof.
  intros Hn Hin Hs t last. revert i s Hin Hs. induction n as [|n IH]; [lia|]. intros i s Hin Hs.
  pose proof (k_bound u k ck L) as Hk. pose proof (pending_room u k ck sh R H) as Hp.
  cbn [loop]. rewrite (body_store u k ck R L) by lia. intros s1 H1.
  destruct (runs_before_all _ _ _ (index_stores_own i) H1) as (s2 & H2 & ->).
  assert (rtc acts sh s2) as H02 by (by etrans). split; [apply after_mapped, (acts_mapped sh); [done|apply H]|].
  change (set_word (after s2 (index_stores i)) (idx_at u k (t + Z.of_nat i)) ((t + Z.of_nat i) mod 2 ^ k))
    with (apply_write (after s2 (index_stores i)) (index_store u k R i)). rewrite <- index_stores_S.
  replace (t + Z.of_nat i + 1) with (t + Z.of_nat (S i)) by lia.
  destruct (Z.eqb_spec (Z.of_nat n) 0) as [En|En].
  - intros s3 H3. destruct (runs_before_all _ _ _ (index_stores_own (S i)) H3) as (s4 & H4 & ->).
    replace (S i) with (length (pending R)) by lia. split; [done|]. exists s4. split; [by etrans|done].
  - apply (IH ltac:(lia) (S i) s2); [lia|done].
Qed.

(** The whole of the operation undisturbed, from a memory the kernel has
    written to. *)
Lemma flush_at s : rtc acts sh s -> pending R <> [] ->
  let last := uwrap 32 (r_head R + Z.of_nat (length (queued R)) + Z.of_nat (length (pending R))) in
  run (flush_accesses u) s = Ok (last, with_list u last (sq_list_tail u))
    (set_word (after s (index_stores (length (pending R)))) (sq_tail u) last).
Proof.
  intros Hs Hne last. destruct (kernel_runs u k ck L sh s R H Hs) as [R' [Hr Hm _]].
  destruct (moves_rest _ _ Hm) as (Ep & _ & Eh & _).
  destruct (uring_flush_spec u k ck s R' L Hr) as (sh' & u' & E & -> & _). rewrite <- run_flush in E.
  pose proof (stores_run _ _ _ _ E) as Ea. rewrite (flush_stores u k ck s R' L Hr) in Ea by (by rewrite Ep).
  rewrite after_app, Ep, Eh in Ea. fold last in Ea. rewrite E, <- Ea.
  assert (sq_list_tail u = last) as El.
  { rewrite (rr_ltail _ _ _ _ _ H), length_app. unfold last. f_equal. lia. }
  assert (uwrap 32 (r_head R' + Z.of_nat (length (queued R' ++ pending R'))) = last) as ->.
  { unfold last. rewrite length_app, Ep, <- Eh. f_equal. lia. }
  rewrite El. f_equal. cbn. f_equal. unfold index_stores. f_equal. apply list_fmap_ext. intros ? j _.
  unfold index_store. by rewrite Eh.
Qed.

(** From the two loads on, with entries to publish. *)
Lemma flush_rest_atomic s : rtc acts sh s -> pending R <> [] ->
  let t := r_head R + Z.of_nat (length (queued R)) in
  always acts
    (r ← loop (length (pending R)) (flush_body_accesses u (2 ^ k - 1)) (uwrap 32 t, uwrap 32 t, Z.of_nat (length (pending R)));
     let '(tail, lhead) := (r : Z * Z) in
     _ ← store Release (sq_tail u) tail;
     mret (tail, with_list u lhead (sq_list_tail u)))
    (fun v sh' => exists sh1 sh2, rtc acts sh sh1 /\ run (flush_accesses u) sh1 = Ok v sh2 /\ rtc acts sh2 sh') s.
Proof.
  intros Hs Hne t. apply always_bind. eapply always_mono.
  { assert (0 < length (pending R))%nat as Hp by (destruct (pending R); cbn; [done|lia]).
    pose proof (loop_atomic (length (pending R)) 0 s Hp eq_refl Hs) as W. cbv zeta in W. rewrite Z.add_0_r in W. exact W. }
  cbv beta. intros x sh1 (-> & s1 & H1 & ->). fold t. intros s2 H2.
  destruct (runs_before_all _ _ _ (index_stores_own _) H2) as (s3 & H3 & ->).
  assert (rtc acts sh s3) as H03 by (by etrans).
  split; [apply after_mapped, (acts_mapped sh); [done|eexists; apply H]|]. intros s4 H4.
  eexists s3, _. split_and!; [done|exact (flush_at s3 H03 Hne)|exact H4].
Qed.

Lemma flush_atomic : atomic (flush_accesses u) sh.
Proof.
  intros s1 H1. exists (2 ^ k - 1). split; [by apply mask_at|]. intros s2 H2. assert (rtc acts sh s2) as H02 by (by etrans).
  destruct (kernel_runs u k ck L sh s2 R H H02) as [R2 [Hr2 Hm2 _]]. destruct (moves_rest _ _ Hm2) as (_ & _ & Eh & _).
  eexists. split; [apply (rr_tail _ _ _ _ _ Hr2)|]. rewrite Eh. set (t := r_head R + Z.of_nat (length (queued R))).
  pose proof (k_bound u k ck L) as Hk. pose proof (pending_room u k ck sh R H) as Hp.
  assert (uwrap 32 (sq_list_tail u - sq_list_head u) = Z.of_nat (length (pending R))) as En.
  { rewrite (rr_ltail _ _ _ _ _ H), (rr_lhead _ _ _ _ _ H), length_app, Nat2Z.inj_add, Z.add_assoc. apply counter_diff. lia. }
  destruct (decide (pending R = [])) as [E0|Hne].
  - assert (run (flush_accesses u) s2 = Ok (uwrap 32 t, u) s2) as E.
    { cbn. unfold mbind, stM_bind. rewrite (load_u32_ok _ _ _ (mask_at s2 H02)), (load_u32_ok _ _ _ (rr_tail _ _ _ _ _ Hr2)).
      rewrite En, E0, Eh. done. }
    rewrite En, E0. intros s3 H3. by exists s2, s2.
  - rewrite En, (rr_lhead _ _ _ _ _ H). fold t. cbv zeta. rewrite Nat2Z.id.
    rewrite (proj2 (Z.ltb_lt 0 _)) by (destruct (pending R); [done|cbn; lia]).
    exact (flush_rest_atomic s2 H02 Hne).
Qed.
End atomic.

(** C15: each ring operation, interrupted by any writes of the kernel between
    its accesses, ends with a result and a memory that it also has when the
    kernel makes some of these writes first, the operation runs undisturbed,
    and the kernel makes the others after. *)
Theorem operations_atomic {A : Abi} u k ck sh R : layout u k ck -> ring_rep u k ck sh R ->
  atomic u ck (result_accesses u) sh /\ atomic u ck (advance_accesses u) sh /\
  atomic u ck (new_submission_accesses u) sh /\ atomic u ck (flush_accesses u) sh.
Proof.
  intros L H. split_and!.
  - by eapply result_atomic.
  - by eapply advance_atomic.
  - by eapply new_submission_atomic.
  - by eapply flush_atomic.
Qed.
