(* ===== verification/Delivery.v ===== *)
(** * Completions are delivered once and in order

    The ring side of the event loop, turn after turn, while the kernel writes.
    The kernel's writes are logged ([kernel_logs]): each time it moves the tail
    of the completion ring, the entry it moves it over.  What the program reads
    over any number of turns is what was in the ring and then what was logged,
    in that order, nothing twice and nothing left out ([tracked]). *)

From S2P Require Import Prelude Outcome CMem CString Machine Syscall Console Uring Access Interleave Order.

(** The accesses of [n] turns of the loop to the completion ring, and the
    entries they read: [uring_result], the entry if there is one, and
    [uring_advance] once it is handled. *)
Fixpoint turns {A : Abi} (n : nat) (u : uring_queue) : access (list io_uring_cqe) :=
  match n with
  | O => mret []
  | S n =>
      c ← result_accesses u ≫= read_entry;
      match c with
      | None => turns n u
      | Some c => _ ← advance_accesses u; cs ← turns n u; mret (c :: cs)
      end
  end.

(** ** The kernel's log *)

Section delivery.
Context {A : Abi} (u : uring_queue) (k ck : Z).

(** Any number of writes of the kernel ([kernel_acts]), with the completions
    they posted: the entries in the slots over which the tail was moved, as they
    were when it was. *)
Inductive kernel_logs : shm -> list io_uring_cqe -> shm -> Prop :=
| logs_nil sh : kernel_logs sh [] sh
| logs_fill sh h t c l sh' :
    sh_words sh !! cq_head u = Some h -> sh_words sh !! cq_tail u = Some t -> uwrap 32 (t - h) < 2 ^ ck ->
    kernel_logs (set_cqe sh (cqe_at u ck t) c) l sh' -> kernel_logs sh l sh'
| logs_post sh h t c l sh' :
    sh_words sh !! cq_head u = Some h -> sh_words sh !! cq_tail u = Some t -> uwrap 32 (t - h) < 2 ^ ck ->
    sh_cqes sh !! cqe_at u ck t = Some c ->
    kernel_logs (set_word sh (cq_tail u) (uwrap 32 (t + 1))) l sh' -> kernel_logs sh (c :: l) sh'
| logs_take sh h t l sh' :
    sh_words sh !! sq_head u = Some h -> sh_words sh !! sq_tail u = Some t -> h <> t ->
    kernel_logs (set_word sh (sq_head u) (uwrap 32 (h + 1))) l sh' -> kernel_logs sh l sh'.

(** They are the writes of [kernel_acts]. *)
Lemma kernel_logs_acts sh sh' : rtc (kernel_acts u ck) sh sh' <-> exists l, kernel_logs sh l sh'.
Proof.
  split.
  - induction 1 as [sh|s1 s2 s3 H12 _ [l IH]]; [by exists []; constructor|].
    destruct H12 as [sh h t c Eh Et Hr|sh h t Eh Et Hr [c Hc]|sh h t Eh Et Hne].
    + exists l. by eapply logs_fill.
    + exists (c :: l). by eapply logs_post.
    + exists l. by eapply logs_take.
  - intros [l H]. induction H as [sh|sh h t c l sh' Eh Et Hr _ IH|sh h t c l sh' Eh Et Hr Hc _ IH|sh h t l sh' Eh Et Hne _ IH];
      [done|eapply rtc_l; [|exact IH]..]; by econstructor.
Qed.

(** [tracked p Q sh]: whatever the kernel writes between the accesses of [p],
    [p] finds what it accesses in the mapping and comes to its end, and [Q] holds
    of its result, the memory and the completions posted until then. *)
Fixpoint tracked {T : Type} (p : access T) (Q : T -> shm -> list io_uring_cqe -> Prop) (sh : shm) : Prop :=
  forall sh1 l, kernel_logs sh l sh1 ->
    match p with
    | Done v => Q v sh1 l
    | Spent => False
    | Load _ a next => exists w, sh_words sh1 !! a = Some w /\ tracked (next w) (fun v sh' l' => Q v sh' (l ++ l')) sh1
    | Store _ a w next =>
        is_Some (sh_words sh1 !! a) /\ tracked next (fun v sh' l' => Q v sh' (l ++ l')) (set_word sh1 a w)
    | LoadCqe a next => exists c, sh_cqes sh1 !! a = Some c /\ tracked (next c) (fun v sh' l' => Q v sh' (l ++ l')) sh1
    end.

Lemma tracked_mono {T} (p : access T) (Q Q' : T -> shm -> list io_uring_cqe -> Prop) sh :
  tracked p Q sh -> (forall v sh' l, Q v sh' l -> Q' v sh' l) -> tracked p Q' sh.
Proof.
  revert Q Q' sh. induction p as [v| |o a next IH|o a w next IH|a next IH]; intros Q Q' sh Hp HQ sh1 l H1; cbn in Hp;
    specialize (Hp sh1 l H1); cbn in *; [by auto|done|..].
  - destruct Hp as (w & E & Hn). exists w. split; [done|]. eapply IH; [exact Hn|]. auto.
  - destruct Hp as [E Hn]. split; [done|]. eapply IH; [exact Hn|]. auto.
  - destruct Hp as (c & E & Hn). exists c. split; [done|]. eapply IH; [exact Hn|]. auto.
Qed.

Lemma tracked_bind {T U} (p : access T) (f : T -> access U) Q sh :
  tracked p (fun v sh' l => tracked (f v) (fun w sh'' l' => Q w sh'' (l ++ l')) sh') sh -> tracked (p ≫= f) Q sh.
Proof.
  revert Q sh. induction p as [v| |o a next IH|o a w next IH|a next IH]; intros Q sh Hp.
  - change (Done v ≫= f) with (f v). exact (Hp sh [] (logs_nil sh)).
  - by destruct (Hp sh [] (logs_nil sh)).
  - intros sh1 l H1. destruct (Hp sh1 l H1) as (w & E & Hn). exists w. split; [done|]. apply IH.
    eapply tracked_mono; [exact Hn|]. cbv beta. intros v sh2 l2 Hf. eapply tracked_mono; [exact Hf|]. cbv beta.
    intros. by rewrite app_assoc.
  - intros sh1 l H1. destruct (Hp sh1 l H1) as [E Hn]. split; [done|]. apply IH.
    eapply tracked_mono; [exact Hn|]. cbv beta. intros v sh2 l2 Hf. eapply tracked_mono; [exact Hf|]. cbv beta.
    intros. by rewrite app_assoc.
  - intros sh1 l H1. destruct (Hp sh1 l H1) as (c & E & Hn). exists c. split; [done|]. apply IH.
    eapply tracked_mono; [exact Hn|]. cbv beta. intros v sh2 l2 Hf. eapply tracked_mono; [exact Hf|]. cbv beta.
    intros. by rewrite app_assoc.
Qed.

(** Without the log it is [always]. *)
Lemma tracked_always {T} (p : access T) Q sh : tracked p (fun v sh' _ => Q v sh') sh <-> always (kernel_acts u ck) p Q sh.
Proof.
  revert sh. induction p as [v| |o a next IH|o a w next IH|a next IH]; intros sh; (split; intros Hp sh1);
    [intros [l H1]%kernel_logs_acts; specialize (Hp sh1 l H1)|intros l H1; specialize (Hp sh1 (proj2 (kernel_logs_acts _ _) (ex_intro _ l H1)))
    |intros [l H1]%kernel_logs_acts; specialize (Hp sh1 l H1)|intros l H1; specialize (Hp sh1 (proj2 (kernel_logs_acts _ _) (ex_intro _ l H1)))
    |intros [l H1]%kernel_logs_acts; specialize (Hp sh1 l H1)|intros l H1; specialize (Hp sh1 (proj2 (kernel_logs_acts _ _) (ex_intro _ l H1)))
    |intros [l H1]%kernel_logs_acts; specialize (Hp sh1 l H1)|intros l H1; specialize (Hp sh1 (proj2 (kernel_logs_acts _ _) (ex_intro _ l H1)))
    |intros [l H1]%kernel_logs_acts; specialize (Hp sh1 l H1)|intros l H1; specialize (Hp sh1 (proj2 (kernel_logs_acts _ _) (ex_intro _ l H1)))];
    cbn in *; setoid_rewrite IH in Hp || setoid_rewrite IH || idtac; exact Hp.
Qed.

(** ** The rings under it *)

(** The rings [R'] of [sh'] are [R] with the completions [l] posted. *)
Record grown (R : ring) (l : list io_uring_cqe) (sh' : shm) (R' : ring) : Prop := {
  gr_rep : ring_rep u k ck sh' R';
  gr_chead : r_chead R' = r_chead R;
  gr_pending : pending R' = pending R;
  gr_completed : completed R' = completed R ++ l
}.

Lemma grown_trans R l sh1 R1 l' sh2 R2 : grown R l sh1 R1 -> grown R1 l' sh2 R2 -> grown R (l ++ l') sh2 R2.
Proof. intros [_ C1 P1 E1] [H2 C2 P2 E2]. split; [done|congruence..|]. by rewrite E2, E1, app_assoc. Qed.

Context (L : layout u k ck).

(** What the kernel logs is what the rings get. *)
Lemma kernel_logs_rep sh l sh' R : ring_rep u k ck sh R -> kernel_logs sh l sh' -> exists R', grown R l sh' R'.
Proof.
  intros H Hl. pose proof (lay_ck _ _ _ L). revert R H.
  induction Hl as [sh|sh h t c l sh' Eh Et Hr _ IH|sh h t c l sh' Eh Et Hr Hc _ IH|sh h t l sh' Eh Et Hne _ IH]; intros R HR.
  - exists R. split; [done..|]. by rewrite app_nil_r.
  - apply IH. destruct (room_below u k ck L _ _ _ _ HR Eh Et Hr) as [-> Hroom]. rewrite cqe_at_wrap by done.
    by apply fill_rep.
  - destruct (room_below u k ck L _ _ _ _ HR Eh Et Hr) as [-> Hroom]. rewrite cqe_at_wrap in Hc by done.
    destruct (IH (post R c)) as (R' & [H' C' P' E']).
    { rewrite uwrap_add_l. pose proof (post_rep u k ck sh R L HR c Hroom) as Hp. unfold set_cqe in Hp.
      rewrite insert_id in Hp by done. by destruct sh. }
    exists R'. split; [done..|]. rewrite E'. cbn. by rewrite <- app_assoc.
  - rewrite (rr_head _ _ _ _ _ HR) in Eh. rewrite (rr_tail _ _ _ _ _ HR) in Et. injection Eh as <-.
    assert (queued R <> []) as Hq.
    { intros E. apply Hne. rewrite E in Et. cbn in Et. rewrite Z.add_0_r in Et. congruence. }
    destruct (IH (consume 1 (R, [])).1) as (R' & [H' C' P' E']); [|by exists R'].
    rewrite uwrap_add_l. by apply (take_rep u k ck sh R L HR []).
Qed.

Lemma tracked_ret {T} (v : T) (Q : T -> shm -> list io_uring_cqe -> Prop) sh R : ring_rep u k ck sh R ->
  (forall sh1 l R1, grown R l sh1 R1 -> Q v sh1 l) -> tracked (mret v) Q sh.
Proof. intros H HQ sh1 l H1. destruct (kernel_logs_rep sh l sh1 R H H1) as [R1 HG]. by eapply HQ. Qed.

Lemma tracked_load {U} o a (f : Z -> access U) Q sh R : ring_rep u k ck sh R ->
  (forall sh1 l R1, grown R l sh1 R1 ->
     exists w, sh_words sh1 !! a = Some w /\ tracked (f w) (fun v sh' l' => Q v sh' (l ++ l')) sh1) ->
  tracked (load o a ≫= f) Q sh.
Proof. intros H HQ sh1 l H1. destruct (kernel_logs_rep sh l sh1 R H H1) as [R1 HG]. by eapply HQ. Qed.

(** Reading the oldest entry: none only if there was none at the start. *)
Lemma oldest_tracked sh R : ring_rep u k ck sh R ->
  tracked (result_accesses u ≫= read_entry)
    (fun v sh' l => exists R', grown R l sh' R' /\
       match v with None => completed R = [] | Some c => head (completed R') = Some c end) sh.
Proof.
  intros H. apply tracked_bind, (tracked_load _ _ _ _ _ R H). intros sh1 l1 R1 G1. pose proof (gr_rep _ _ _ _ G1) as H1.
  eexists. split; [apply (rr_chead _ _ _ _ _ H1)|].
  apply (tracked_load _ _ _ _ _ R1 H1). intros sh2 l2 R2 G2. pose proof (gr_rep _ _ _ _ G2) as H2.
  eexists. split; [apply (rr_ctail _ _ _ _ _ H2)|].
  pose proof (rr_croom _ _ _ _ _ H2) as Hroom. pose proof (ck_bound u k ck L) as Hck.
  rewrite <- (gr_chead _ _ _ _ G2). set (n := Z.of_nat (length (completed R2))).
  pose proof (grown_trans _ _ _ _ _ _ _ G1 G2) as G02.
  destruct (Z.eqb_spec (uwrap 32 (r_chead R2)) (uwrap 32 (r_chead R2 + n))) as [E|E].
  - assert (completed R2 = []) as E0.
    { pose proof (counter_diff (r_chead R2) n ltac:(lia)) as D. rewrite <- E, Z.sub_diag in D.
      change (uwrap 32 0) with 0 in D. by destruct (completed R2). }
    apply (tracked_ret _ _ _ R2 H2). intros sh3 l3 R3 G3.
    apply (tracked_ret None _ _ R3 (gr_rep _ _ _ _ G3)). intros sh4 l4 R4 G4. exists R4.
    rewrite !app_assoc. split; [by eapply grown_trans; [by eapply grown_trans|]|].
    rewrite (gr_completed _ _ _ _ G02) in E0. by destruct (completed R).
  - destruct (completed R2) as [|c cs] eqn:E2; [by unfold n in E; cbn in E; rewrite Z.add_0_r in E|].
    apply (tracked_load _ _ _ _ _ R2 H2). intros sh3 l3 R3 G3. eexists.
    split; [apply (rr_cmask _ _ _ _ _ (gr_rep _ _ _ _ G3))|].
    apply (tracked_ret _ _ _ R3 (gr_rep _ _ _ _ G3)). intros sh4 l4 R4 G4.
    rewrite mask_index by apply L. fold (cqe_at u ck (r_chead R2)). unfold read_entry.
    pose proof (cqe_at_pos u k ck L (r_chead R2)) as Hpos. rewrite (proj2 (Z.eqb_neq _ _)) by lia.
    intros sh5 l5 Hl5. destruct (kernel_logs_rep sh4 l5 sh5 R4 (gr_rep _ _ _ _ G4) Hl5) as [R5 G5].
    pose proof (grown_trans _ _ _ _ _ _ _ G3 (grown_trans _ _ _ _ _ _ _ G4 G5)) as G25.
    pose proof (rr_cqe _ _ _ _ _ (gr_rep _ _ _ _ G5) 0%nat c) as Hc.
    rewrite (gr_completed _ _ _ _ G25), (gr_chead _ _ _ _ G25), Z.add_0_r, E2 in Hc.
    exists c. split; [by apply Hc|]. apply (tracked_ret _ _ _ R5 (gr_rep _ _ _ _ G5)). intros sh6 l6 R6 G6. exists R6.
    pose proof (grown_trans _ _ _ _ _ _ _ G02 (grown_trans _ _ _ _ _ _ _ G25 G6)) as G06. rewrite <- !app_assoc in *.
    split; [exact G06|]. rewrite (gr_completed _ _ _ _ G6), (gr_completed _ _ _ _ G25), E2. done.
Qed.

(** [uring_advance] removes the oldest completion, whatever is posted. *)
Lemma advance_tracked sh R : ring_rep u k ck sh R -> completed R <> [] ->
  tracked (advance_accesses u) (fun _ sh' l => exists R', ring_rep u k ck sh' R' /\ r_chead R' = r_chead R + 1 /\
    pending R' = pending R /\ completed R' = tail (completed R) ++ l) sh.
Proof.
  intros H Hne. unfold advance_accesses. apply (tracked_load _ _ _ _ _ R H). intros sh1 l1 R1 G1.
  eexists. split; [apply (rr_chead _ _ _ _ _ (gr_rep _ _ _ _ G1))|].
  intros sh2 l2 Hl2. destruct (kernel_logs_rep sh1 l2 sh2 R1 (gr_rep _ _ _ _ G1) Hl2) as [R2 G2].
  pose proof (grown_trans _ _ _ _ _ _ _ G1 G2) as [H2 C2 P2 E2].
  split; [eexists; apply (rr_chead _ _ _ _ _ H2)|].
  assert (completed R2 <> []) as Hne2 by (rewrite E2; by destruct (completed R)).
  rewrite uwrap_add_l, <- (gr_chead _ _ _ _ G2).
  apply (tracked_ret _ _ _ (take_completion R2)); [by apply (advance_rep u k ck sh2 R2 L)|].
  intros sh3 l3 R3 [H3 C3 P3 E3]. exists R3. cbn in *.
  split_and!; [done|by rewrite C3, C2|by rewrite P3, P2|]. rewrite E3, E2.
  destruct (completed R); [done|]. cbn. by rewrite <- !app_assoc.
Qed.

(** ** Turns *)

(** From the rings [R] the entries [cs] were read while [l] were posted, and the
    rings are [R']. *)
Record delivered (R : ring) (cs l : list io_uring_cqe) (R' : ring) : Prop := {
  dl_order : completed R ++ l = cs ++ completed R';
  dl_count : r_chead R' = r_chead R + Z.of_nat (length cs);
  dl_pending : pending R' = pending R
}.

Lemma grown_delivered R l sh' R' : grown R l sh' R' -> delivered R [] l R'.
Proof. intros [_ C P E]. split; [by rewrite E|cbn; lia|done]. Qed.

Lemma delivered_trans R cs l R1 cs' l' R' : delivered R cs l R1 -> delivered R1 cs' l' R' ->
  delivered R (cs ++ cs') (l ++ l') R'.
Proof.
  intros [O1 C1 P1] [O2 C2 P2]. split; [|rewrite C2, C1, length_app; lia|congruence].
  by rewrite app_assoc, O1, <- app_assoc, O2, app_assoc.
Qed.

Lemma turns_tracked n sh R : ring_rep u k ck sh R ->
  tracked (turns n u)
    (fun cs sh' l => exists R', ring_rep u k ck sh' R' /\ delivered R cs l R' /\
       (length cs <= n)%nat /\ ((n <= length (completed R))%nat -> length cs = n)) sh.
Proof.
  revert sh R. induction n as [|n IH]; intros sh R H.
  - apply (tracked_ret _ _ _ R H). intros sh1 l R1 G1. exists R1.
    split_and!; [apply G1|by eapply grown_delivered|done|done].
  - cbn [turns]. apply tracked_bind. eapply tracked_mono; [by apply oldest_tracked|]. cbv beta.
    intros [c|] sh1 l1 (R1 & G1 & Hv); pose proof (gr_rep _ _ _ _ G1) as H1.
    + destruct (completed R1) as [|c0 cs1] eqn:E1; [done|]. injection Hv as ->.
      apply tracked_bind. eapply tracked_mono; [apply (advance_tracked sh1 R1 H1); by rewrite E1|]. cbv beta.
      intros _ sh2 l2 (R2 & H2 & C2 & P2 & E2). rewrite E1 in E2. cbn [tail] in E2.
      assert (delivered R1 [c] l2 R2) as D12 by (split; [by rewrite E1, E2|cbn; lia|done]).
      apply tracked_bind. eapply tracked_mono; [by apply IH|]. cbv beta.
      intros cs sh3 l3 (R3 & H3 & D3 & Hlen & Hall). apply (tracked_ret _ _ _ R3 H3). intros sh4 l4 R4 G4. exists R4.
      split_and!; [apply G4| |cbn; lia|].
      * pose proof (delivered_trans _ _ _ _ _ _ _ (grown_delivered _ _ _ _ G1)
          (delivered_trans _ _ _ _ _ _ _ D12 (delivered_trans _ _ _ _ _ _ _ D3 (grown_delivered _ _ _ _ G4)))) as D.
        by rewrite app_nil_r in D.
      * intros Hn. cbn. f_equal. apply Hall. rewrite E2, length_app.
        pose proof (f_equal length (gr_completed _ _ _ _ G1)) as El. rewrite E1, length_app in El. cbn in El. lia.
    + eapply tracked_mono; [by apply IH|]. cbv beta. intros cs sh2 l2 (R2 & H2 & D2 & Hlen & _). exists R2.
      split_and!; [done| |lia|].
      * exact (delivered_trans _ _ _ _ _ _ _ (grown_delivered _ _ _ _ G1) D2).
      * intros Hn. rewrite Hv in Hn. cbn in Hn. lia.
Qed.
End delivery.

(** C14: over any number of turns of the loop, whatever the kernel writes and
    whenever, the entries the program reads are the completions in the order
    they were posted: those that were there at the start, then those the kernel
    posts during the run, each as it was when the kernel moved the tail over it,
    none twice and none left out; what is not read yet is still in the ring, the
    handed-out entries are untouched, and as many turns as there were
    completions read one each. *)
Theorem turns_deliver {A : Abi} u k ck n sh R : layout u k ck -> ring_rep u k ck sh R ->
  tracked u ck (turns n u)
    (fun cs sh' posted => exists R', ring_rep u k ck sh' R' /\
       completed R ++ posted = cs ++ completed R' /\
       r_chead R' = r_chead R + Z.of_nat (length cs) /\ pending R' = pending R /\
       (length cs <= n)%nat /\ ((n <= length (completed R))%nat -> length cs = n)) sh.
Proof.
  intros L H. eapply tracked_mono; [by apply (turns_tracked u k ck L)|]. cbv beta.
  intros cs sh' l (R' & Hr & [Ho Hc Hp] & Hlen). by exists R'.
Qed.
