(* ===== verification/Command.v ===== *)
(** * init/command.c: the commands

    The built-in commands, the run of a busybox applet, and the dispatch of a
    command line.  [uring], which every command receives and none uses, is left
    out of their arguments.  The loops the kernel drives (reading a file,
    listing a directory) take the bound [fuel]. *)

From S2P Require Import Prelude Headers Outcome CMem CString Decimal Parser Machine Syscall Console.

(** Objects of static storage in command.c: the two [nosignals]. *)
Definition nosignals_memrun : positive := 5.
Definition nosignals_busybox : positive := 6.

Section command.
Context {K : Kernel} {A : Abi} (fuel : nat).

(** A local object: it lives as long as the code in its scope. *)
Definition with_local {T} (o : memM ptr) (body : ptr -> M T) : M T :=
  p ← on_mem o;
  r ← body p;
  _ ← on_mem (free p);
  mret r.

Definition command_c (line : string) : string := here "/init/command.c" line.
Definition lit_ptr (s : string) : ptr := Ptr (BLit s) 0.

Definition MAX_ARGS : Z := if ARG_MAX <=? 32 then ARG_MAX else 32.

(** Structures whose initialiser sets some fields and zeroes the others. *)
Definition open_how (flags : Z) : obj :=
  OStruct {["flags" := flags; "mode" := 0; "resolve" := 0]}.
Definition clone_args (flags exit_signal : Z) : obj :=
  OStruct {["flags" := flags; "pidfd" := 0; "child_tid" := 0; "parent_tid" := 0;
            "exit_signal" := exit_signal; "stack" := 0; "stack_size" := 0; "tls" := 0;
            "set_tid" := 0; "set_tid_size" := 0; "cgroup" := 0]}.

Definition cmd_time (argc : Z) (argv envp next : ptr) : M unit :=
  with_local (alloc (OStruct ∅)) (fun time =>
    _ ← SYSCHECK (command_c "67") (clock_gettime CLOCK_REALTIME time);
    _ ← say "Current Time: ";
    sec ← on_mem (load_field time "tv_sec");
    _ ← write_int (uwrap 64 sec);
    _ ← say " sec ";
    nsec ← on_mem (load_field time "tv_nsec");
    _ ← write_int (uwrap 64 nsec);
    _ ← say (" nsec" +:+ nl);
    mret tt).

(** *** Listing a directory *)

(** The [switch] on [d_type]. *)
Definition type_suffix (d_type : Z) : string :=
  if d_type =? DT_DIR then "/" +:+ nl
  else if d_type =? DT_REG then nl
  else if d_type =? DT_FIFO then " (fifo)" +:+ nl
  else if d_type =? DT_CHR then " (character)" +:+ nl
  else if d_type =? DT_BLK then " (block)" +:+ nl
  else if d_type =? DT_LNK then " -> ???" +:+ nl
  else if d_type =? DT_SOCK then " (socket)" +:+ nl
  else "?" +:+ nl.

(** Offsets of the fields of [struct linux_dirent64]. *)
Definition off_d_reclen : Z := Eval cbv in default 0 (offsetof linux_dirent64 "d_reclen").
Definition off_d_type : Z := Eval cbv in default 0 (offsetof linux_dirent64 "d_type").
Definition off_d_name : Z := Eval cbv in default 0 (offsetof linux_dirent64 "d_name").

Definition load_u16 (p : ptr) : memM Z :=
  lo ← load_char p;
  hi ← load_char (padd p 1);
  mret (uchar lo + 256 * uchar hi).

Definition dirlist_entry (buffer : ptr) (count pos : Z) : M (Z + unit) :=
  if pos <? count then
    let entry := padd buffer pos in
    n ← strlen (padd entry off_d_name);
    _ ← write STDOUT (padd entry off_d_name) n;
    t ← on_mem (load_char (padd entry off_d_type));
    _ ← say (type_suffix (uchar t));
    reclen ← on_mem (load_u16 (padd entry off_d_reclen));
    mret (inl (pos + reclen))
  else mret (inr tt).

Definition dirlist_body (rootdir : Z) (_ : unit) : M (unit + unit) :=
  with_local (alloc_bytes 1024) (fun buffer =>
    count ← getdents64 rootdir buffer 1024;
    _ ← iter (S (Z.to_nat count)) (dirlist_entry buffer count) 0;
    if 0 <? count then mret (inl tt) else mret (inr tt)).

Definition dirlist (path : ptr) : M unit :=
  rootdir ← open path (Z.lor (Z.lor O_RDONLY O_NOATIME) O_DIRECTORY) 0;
  if rootdir <? 0 then
    _ ← say "Error opening directory ";
    _ ← WRITESTR path;
    _ ← say ": ";
    _ ← write_int (uwrap 64 rootdir);
    _ ← say nl;
    mret tt
  else iter fuel (dirlist_body rootdir) tt.

Definition cmd_ls (argc : Z) (argv envp next : ptr) : M unit :=
  dir ← on_mem (find_arg next);
  if decide (dir = Null) then dirlist (lit_ptr "/")
  else
    _ ← on_mem (terminate_arg dir);
    dirlist dir.

(** *** Printing a file *)

Definition cat_body (fd : Z) (buffer : ptr) (_ : unit) : M (unit + Z) :=
  v ← read fd buffer 1024;
  let result := to_int v in
  if 0 <? result then
    w ← write STDOUT buffer (uwrap 64 result);
    let wrresult := to_int w in
    _ ← (if wrresult <? 0 then WRITE_ERR "Error writing to stdout" wrresult else mret tt);
    mret (inl tt)
  else mret (inr result).

Definition cat_file (fd : Z) : M unit :=
  with_local (alloc_bytes 1024) (fun buffer =>
    result ← iter fuel (cat_body fd buffer) tt;
    if result <? 0 then WRITE_ERR "Error reading file" result else mret tt).

Definition cmd_cat (argc : Z) (argv envp next : ptr) : M unit :=
  path ← on_mem (find_arg next);
  if decide (path = Null) then _ ← say ("No file path specified." +:+ nl); mret tt
  else
    _ ← on_mem (terminate_arg path);
    with_local (alloc (open_how (Z.lor O_RDONLY O_NOATIME))) (fun how =>
      fd ← openat2 AT_FDCWD path how sizeof_open_how;
      if fd <? 0 then WRITE_ERR "Couldn't open file" fd
      else cat_file fd).

(** *** The environment, the end, the memory *)

Definition ptrs_left (m : mem) (p : ptr) : nat :=
  match p with
  | Ptr (BVar n) o =>
      match m_objs m !! n with
      | Some (OPtrs l) => Z.to_nat (Z.of_nat (length l) - o)
      | _ => 0%nat
      end
  | _ => 0%nat
  end.

Definition env_body (envp : ptr) (i : Z) : M (Z + unit) :=
  e ← on_mem (load_ptr (padd envp i));
  if decide (e = Null) then mret (inr tt)
  else
    _ ← WRITESTR e;
    _ ← say nl;
    mret (inl (uwrap 64 (i + 1))).

Definition cmd_env (argc : Z) (argv envp next : ptr) : M unit :=
  st ← get;
  iter (S (ptrs_left (st_mem st) envp)) (env_body envp) 0.

Definition cmd_exit (argc : Z) (argv envp next : ptr) : M unit :=
  reboot_hard LINUX_REBOOT_CMD_POWER_OFF.

Definition cmd_usage (argc : Z) (argv envp next : ptr) : M unit :=
  with_local (alloc (OStruct ∅)) (fun info =>
    _ ← SYSCHECK (command_c "128") (sysinfo info);
    _ ← say "Memory Used/Total: ";
    totalram ← on_mem (load_field info "totalram");
    freeram ← on_mem (load_field info "freeram");
    mem_unit ← on_mem (load_field info "mem_unit");
    _ ← write_int (uwrap 64 (uwrap 64 (totalram - freeram) * mem_unit));
    _ ← say "/";
    _ ← write_int (uwrap 64 (totalram * mem_unit));
    _ ← say (" bytes" +:+ nl);
    mret tt).

(** *** Running programs *)

Definition fill_args (maxargs : Z) (args next : ptr) : M unit :=
  i ← on_mem (fill_args_loop (Z.to_nat maxargs) args next);
  if Z.of_nat i =? MAX_ARGS then
    _ ← say "Truncated to ";
    _ ← write_int (uwrap 64 MAX_ARGS);
    _ ← say (" args" +:+ nl);
    mret tt
  else on_mem (store_ptr (padd args (Z.of_nat i)) Null).

(** [char *envp[] = { NULL }] *)
Definition empty_env : obj := OPtrs [Some Null].

(** [args[0] = path; fill_args(MAX_ARGS - 1, &args[1], next);] *)
Definition memrun_args (args path next : ptr) : M unit :=
  _ ← on_mem (store_ptr args path);
  fill_args (MAX_ARGS - 1) (padd args 1) next.

(** Console descriptors of a child: stdin, stdout, and stderr on stdout. *)
Definition console_fds (l1 l2 l3 : string) : M unit :=
  _ ← SYSCHECK (command_c l1) (open (lit_ptr "/dev/console") O_RDONLY 0);
  stdout ← SYSCHECK (command_c l2) (open (lit_ptr "/dev/console") (Z.lor O_APPEND O_WRONLY) 0);
  _ ← SYSCHECK (command_c l3) (dup3 stdout 2 0);
  mret tt.

(** The child's side of [cmd_memrun]. *)
Definition memrun_child (path next : ptr) : M unit :=
  with_local (alloc_ptrs (Z.to_nat MAX_ARGS)) (fun args =>
    _ ← memrun_args args path next;
    with_local (alloc empty_env) (fun envp =>
      _ ← close_all_files;
      _ ← console_fds "174" "175" "176";
      memfd ← memfd_create 0;
      with_local (alloc (open_how O_CLOEXEC)) (fun how =>
        infd ← SYSCHECK (command_c "183") (openat2 AT_FDCWD path how sizeof_open_how);
        with_local (alloc (OStruct ∅)) (fun stats =>
          _ ← SYSCHECK (command_c "187") (fstatat infd (lit_ptr "") stats AT_EMPTY_PATH);
          with_local (alloc (OStruct {["off64_t" := 0]})) (fun inp =>
          with_local (alloc (OStruct {["off64_t" := 0]})) (fun out =>
            size ← on_mem (load_field stats "st_size");
            _ ← SYSCHECK (command_c "191")
                  (copy_file_range infd inp memfd out (uwrap 64 size) 0);
            _ ← SYSCHECK (command_c "200")
                  (sigprocmask SIG_SETMASK (Ptr (BVar nosignals_memrun) 0) Null);
            execres ← execveat memfd (lit_ptr "") args envp AT_EMPTY_PATH;
            WRITE_ERR "execveat returned " execres)))))).

Definition cmd_memrun (argc : Z) (argv envp next : ptr) : M unit :=
  path ← on_mem (find_arg next);
  if decide (path = Null) then _ ← say ("No file path specified." +:+ nl); mret tt
  else
    next ← on_mem (terminate_arg path);
    with_local (alloc (clone_args 0 SIGCHLD)) (fun cl_args =>
      tid ← clone3 cl_args sizeof_clone_args;
      if 0 <? tid then
        _ ← say "Forked process ";
        _ ← write_int (uwrap 64 tid);
        _ ← say nl;
        with_local (alloc (OStruct ∅)) (fun siginfo =>
          _ ← SYSCHECK (command_c "153") (waitid P_PID tid siginfo WEXITED Null);
          _ ← say "Child process ";
          pid ← on_mem (load_field siginfo "si_pid");
          _ ← write_int (uwrap 64 pid);
          _ ← say " exited with status ";
          status ← on_mem (load_field siginfo "si_status");
          _ ← write_int (uwrap 64 status);
          _ ← say nl;
          mret tt)
      else if tid =? 0 then memrun_child path next
      else WRITE_ERR "clone3 error" tid).

(** [args[0] = "/busybox"; args[1] = command;
    fill_args(MAX_ARGS - 2, &args[2], next);] *)
Definition busybox_args (args command next : ptr) : M unit :=
  _ ← on_mem (store_ptr args (lit_ptr "/busybox"));
  _ ← on_mem (store_ptr (padd args 1) command);
  fill_args (MAX_ARGS - 2) (padd args 2) next.

(** The child's side of [busybox]. *)
Definition busybox_child (command next : ptr) : M unit :=
  with_local (alloc_ptrs (Z.to_nat MAX_ARGS)) (fun args =>
    _ ← busybox_args args command next;
    with_local (alloc empty_env) (fun envp =>
      _ ← close_all_files;
      _ ← console_fds "240" "241" "242";
      _ ← SYSCHECK (command_c "251")
            (sigprocmask SIG_SETMASK (Ptr (BVar nosignals_busybox) 0) Null);
      execres ← execveat AT_FDCWD (lit_ptr "/busybox") args envp 0;
      WRITE_ERR "execveat returned " execres)).

Definition busybox (command next : ptr) : M unit :=
  next ← on_mem (find_arg next);
  with_local (alloc (clone_args 0 SIGCHLD)) (fun cl_args =>
    tid ← clone3 cl_args sizeof_clone_args;
    if 0 <? tid then
      with_local (alloc (OStruct ∅)) (fun siginfo =>
        _ ← SYSCHECK (command_c "219") (waitid P_PID tid siginfo WEXITED Null);
        _ ← say "Busybox exited with status ";
        status ← on_mem (load_field siginfo "si_status");
        _ ← write_int (uwrap 64 status);
        _ ← say nl;
        mret tt)
    else if tid =? 0 then busybox_child command next
    else WRITE_ERR "clone3 error" tid).

Definition pathfd (path : ptr) : M Z :=
  with_local (alloc (open_how (Z.lor O_PATH O_CLOEXEC))) (fun how =>
    r ← SYSCHECK (command_c "304") (openat2 AT_FDCWD path how sizeof_open_how);
    mret (to_int r)).

(** *** Dispatch *)

Definition builtins : list (string * (Z -> ptr -> ptr -> ptr -> M unit)) :=
  [("time", cmd_time); ("ls", cmd_ls); ("cat", cmd_cat); ("env", cmd_env);
   ("exit", cmd_exit); ("usage", cmd_usage); ("memrun", cmd_memrun)].

(** The loop over the table; [none] is what follows it. *)
Fixpoint dispatch (table : list (string * (Z -> ptr -> ptr -> ptr -> M unit)))
    (prog : ptr) (argc : Z) (argv envp next : ptr) (none : M unit) : M unit :=
  match table with
  | [] => none
  | (name, func) :: table' =>
      eq ← on_mem (streq prog (lit_ptr name));
      if (eq : bool) then func argc argv envp next
      else dispatch table' prog argc argv envp next none
  end.

Definition process_command (args : ptr) (argc : Z) (argv envp : ptr) : M unit :=
  prog ← on_mem (find_arg args);
  if decide (prog = Null) then mret tt
  else
    next ← on_mem (terminate_arg prog);
    dispatch builtins prog argc argv envp next (busybox prog next).
End command.
