(* ===== verification/CommandSpec.v ===== *)
(** * What the commands do

    The dispatch of a command line, the argument vectors of the programs that
    are run, and what the built-in commands print, for any kernel that keeps
    [KernelOk] and answers the calls a command makes as documented. *)

From S2P Require Import Prelude Headers Outcome CMem CString Decimal Parser Machine Syscall Console Command.

(** ** Dispatch *)

Section dispatch.
Context {K : Kernel} {A : Abi} (fuel : nat).

(** The table is searched in order by name. *)
Lemma dispatch_find table prog argc argv envp next none st b i name :
  prog = Ptr b (Z.of_nat i) -> cstr (st_mem st) b i name ->
  Forall (fun e => x00 ∉ lit e.1) table ->
  dispatch table prog argc argv envp next none st =
    match list_find (fun e => lit e.1 = name) table with
    | Some (_, e) => e.2 argc argv envp next st
    | None => none st
    end.
Proof.
  intros -> Hc Ht. induction Ht as [|[x f] t Hx _ IH]; [done|]. cbn [dispatch list_find fst snd].
  erewrite bind_ok; [|apply on_mem_ok; apply (streq_correct _ b (BLit x) i 0);
    [exact Hc|by apply cstr_lit]].
  rewrite upd_mem_id. case_decide as E.
  - by rewrite bool_decide_eq_true_2.
  - rewrite bool_decide_eq_false_2 by congruence. rewrite IH. by destruct (list_find _ t) as [[]|].
Qed.

(** A command line, dispatched. *)
Lemma process_command_spec st n i s argc argv envp :
  cstr (st_mem st) (BVar n) i s ->
  match tokens s with
  | [] => process_command fuel (Ptr (BVar n) (Z.of_nat i)) argc argv envp st = Ok tt st
  | name :: ts =>
      exists m' j i' s',
        let prog := Ptr (BVar n) (Z.of_nat j) in
        let next := Ptr (BVar n) (Z.of_nat i') in
        process_command fuel (Ptr (BVar n) (Z.of_nat i)) argc argv envp st =
          match list_find (fun e => lit e.1 = name) (builtins fuel) with
          | Some (_, e) => e.2 argc argv envp next
          | None => busybox prog next
          end (upd_mem m' st) /\
        cstr m' (BVar n) j name /\ cstr m' (BVar n) i' s' /\ tokens s' = ts /\
        (i <= j)%nat /\ same_but n j (st_mem st) m'
  end.
Proof.
  intros Hs. destruct (find_arg_rest _ _ _ _ Hs) as (r & Er & Hrest).
  unfold process_command. destruct (tokens s) as [|name ts] eqn:Et.
  - rewrite (bind_ok _ _ _ _ _ (on_mem_ok _ _ _ _ Er)), upd_mem_id.
    destruct Hrest as [[-> _]|(j & s0 & _ & _ & _ & E)]; [done|]. by rewrite args_of_unfold in E.
  - destruct Hrest as [[_ ?]|(j & s0 & -> & Hj & Hs0 & E)]; [done|].
    destruct (cut_arg _ _ _ _ Hs0) as (m' & t & ts' & i' & s' & Ec & Ea & Hm & Ht & _ & Hs' & Ets & _).
    rewrite <- E in Ea. injection Ea as <- <-. exists m', j, i', s'. split_and!; [|done..].
    rewrite (bind_ok _ _ _ _ _ (on_mem_ok _ _ _ _ Er)), upd_mem_id. rewrite decide_False by done.
    rewrite (bind_ok _ _ _ _ _ (on_mem_ok _ _ _ _ Ec)).
    erewrite dispatch_find; [|done|exact Ht|]; [by destruct (list_find _ _) as [[]|]|].
    repeat (apply List.Forall_cons; [by apply (bool_decide_unpack _)|]). apply List.Forall_nil.
Qed.

(** C9: a command line is a name and arguments.  A blank line does nothing;
    otherwise the name is cut off and the first entry of the table that has
    it is called, or else busybox, with the rest of the line: a string whose
    arguments are those of the line.  Bytes before the name and other objects
    are not changed. *)
Theorem process_command_dispatches st n i s argc argv envp :
  cstr (st_mem st) (BVar n) i s ->
  match tokens s with
  | [] => process_command fuel (Ptr (BVar n) (Z.of_nat i)) argc argv envp st = Ok tt st
  | name :: ts =>
      exists m' j i' s',
        let prog := Ptr (BVar n) (Z.of_nat j) in
        let next := Ptr (BVar n) (Z.of_nat i') in
        process_command fuel (Ptr (BVar n) (Z.of_nat i)) argc argv envp st =
          match list_find (fun e => lit e.1 = name) (builtins fuel) with
          | Some (_, e) => e.2 argc argv envp next
          | None => busybox prog next
          end (upd_mem m' st) /\
        cstr m' (BVar n) j name /\ cstr m' (BVar n) i' s' /\ tokens s' = ts /\
        (i <= j)%nat /\ same_but n j (st_mem st) m'
  end.
Proof. apply process_command_spec. Qed.
End dispatch.

(** ** Argument vectors *)

Section argv.
Context {K : Kernel} {A : Abi}.
Hypothesis Hmax : 32 <= ARG_MAX.

Lemma MAX_ARGS_32 : MAX_ARGS = 32.
Proof. unfold MAX_ARGS. destruct (Z.leb_spec ARG_MAX 32); lia. Qed.

(** The strings [ts] lie where the pointers [qs] into object [n] say. *)
Definition points_to (m : mem) (n : positive) (qs : list ptr) (ts : list (list byte)) : Prop :=
  Forall2 (fun q t => exists i, q = Ptr (BVar n) (Z.of_nat i) /\ cstr m (BVar n) i t) qs ts.

(** The line [nb] was at most cut into pieces, at [lo] or later. *)
Definition line_kept (m m' : mem) (nb : positive) (lo : nat) : Prop :=
  exists l l', m_objs m !! nb = Some (OBytes l) /\ m_objs m' !! nb = Some (OBytes l') /\ cut_from lo l l'.

Section spec.
Context (st : mach) (nb na : positive) (lo a max : nat) (la : list (option ptr)).
Context (next : ptr) (ts : list (list byte)) (l : list byte).
Hypothesis Hne : na <> nb.
Hypothesis Hlt : (max < 32)%nat.
Hypothesis Hlen : (a + max)%nat = length la.
Hypothesis Ha : m_objs (st_mem st) !! na = Some (OPtrs la).
Hypothesis Hl : m_objs (st_mem st) !! nb = Some (OBytes l).
Hypothesis Hrest : rest_at (st_mem st) nb lo next ts.

(** [fill_args] over the last [max] cells of the array: it fits when there
    are fewer arguments than cells, and else the final NULL is stored past
    the end. *)
Lemma fill_args_spec :
  ((length ts < max)%nat -> exists m' qs,
    fill_args (Z.of_nat max) (Ptr (BVar na) (Z.of_nat a)) next st = Ok tt (upd_mem m' st) /\
    m_objs m' !! na =
      Some (OPtrs (take a la ++ (Some <$> qs ++ [Null]) ++ drop (a + S (length ts)) la)) /\
    points_to m' nb qs ts /\ (forall n, n <> na -> n <> nb -> m_objs m' !! n = m_objs (st_mem st) !! n) /\
    m_next m' = m_next (st_mem st) /\ line_kept (st_mem st) m' nb lo) /\
  ((max <= length ts)%nat ->
    fill_args (Z.of_nat max) (Ptr (BVar na) (Z.of_nat a)) next st = Stop (Fault FBounds)).
Proof.
  destruct (fill_args_loop_correct (st_mem st) nb na lo a max la Hne ltac:(lia) next ts l Ha Hl Hrest)
    as (cnt & m1 & E & Hcnt & qs & hi & Hqs & Hpts & [Hna Hline Ho Hnext]).
  unfold fill_args. rewrite Nat2Z.id.
  rewrite !(bind_ok _ _ _ _ _ (on_mem_ok _ _ _ _ E)).
  rewrite MAX_ARGS_32, (proj2 (Z.eqb_neq _ _)) by lia. cbn [padd].
  assert (length (stored a la qs) = length la) as Hst by (apply length_inserts).
  split; intros Hts.
  - replace cnt with (length ts) in * by lia. rewrite firstn_all in Hpts.
    exists (set_obj m1 na (OPtrs (<[(a + length qs)%nat := Some Null]> (stored a la qs)))), qs.
    split_and!.
    + erewrite on_mem_ok; [reflexivity|]. unfold store_ptr. cbn [st_mem upd_mem].
      rewrite Hna, <- Nat2Z.inj_add, zinsert_nat by lia. by rewrite Hqs.
    + rewrite set_obj_eq. do 2 f_equal.
      replace (a + length qs)%nat with (a + length (Some <$> qs))%nat by (by rewrite length_fmap).
      unfold stored. rewrite insert_inserts_snoc, fmap_app. rewrite inserts_split.
      * rewrite length_app, length_fmap. cbn [length fmap list_fmap]. do 3 f_equal. lia.
      * rewrite length_app, length_fmap. cbn [length]. lia.
    + eapply Forall2_impl; [|exact Hpts]. intros q t (i & -> & Hc & _). exists i. split; [done|].
      eapply cstr_other; [|exact Hc]. by apply set_obj_ne.
    + intros n Hn1 Hn2. rewrite set_obj_ne by done. by apply Ho.
    + exact Hnext.
    + destruct Hline as (l0 & l1 & Hl0 & Hl1 & R). exists l0, l1. split_and!; [done| |apply R].
      by rewrite set_obj_ne.
  - replace cnt with max by lia. unfold on_mem, zoom. cbn [st_mem upd_mem].
    rewrite (store_ptr_out _ _ _ _ _ Hna) by lia. done.
Qed.
End spec.

(** The argument vector of an applet. *)
Lemma busybox_args_spec st nb na lo command next ts l :
  na <> nb -> m_objs (st_mem st) !! na = Some (OPtrs (replicate 32 None)) ->
  m_objs (st_mem st) !! nb = Some (OBytes l) -> rest_at (st_mem st) nb lo next ts ->
  ((length ts <= 29)%nat -> exists m' qs,
    busybox_args (Ptr (BVar na) 0) command next st = Ok tt (upd_mem m' st) /\
    m_objs m' !! na = Some (OPtrs ((Some <$> lit_ptr "/busybox" :: command :: qs ++ [Null]) ++
                                   replicate (29 - length ts) None)) /\
    points_to m' nb qs ts /\ (forall n, n <> na -> n <> nb -> m_objs m' !! n = m_objs (st_mem st) !! n) /\
    m_next m' = m_next (st_mem st)) /\
  ((30 <= length ts)%nat ->
    busybox_args (Ptr (BVar na) 0) command next st = Stop (Fault FBounds)).
Proof.
  intros Hne Ha Hl Hrest. unfold busybox_args. rewrite MAX_ARGS_32.
  change (32 - 2) with (Z.of_nat 30). cbn [padd].
  set (la := Some (lit_ptr "/busybox") :: Some command :: replicate 30 None).
  set (st2 := upd_mem (set_obj (st_mem st) na (OPtrs la)) st).
  assert (forall T (f : M T), (_ ← on_mem (store_ptr (Ptr (BVar na) 0) (lit_ptr "/busybox"));
    _ ← on_mem (store_ptr (Ptr (BVar na) (0 + 1)) command); f) st = f st2) as E.
  { intros T f. erewrite bind_ok; [|apply on_mem_ok; unfold store_ptr; by rewrite Ha].
    erewrite bind_ok; [|apply on_mem_ok; unfold store_ptr; cbn [st_mem upd_mem]; by rewrite set_obj_eq].
    unfold st2, la. cbn [st_mem upd_mem]. rewrite set_obj_set_obj. done. }
  rewrite !E. change (0 + 2) with (Z.of_nat 2).
  destruct (fill_args_spec st2 nb na lo 2 30 la next ts l) as [H1 H2]; try done; try lia.
  - apply set_obj_eq.
  - cbn. by rewrite lookup_insert_ne.
  - destruct Hrest as [?|(i & s & -> & Hi & Hc & ->)]; [by left|]. right. exists i, s.
    split_and!; [done|done| |done]. eapply cstr_other; [|exact Hc]. cbn. by rewrite lookup_insert_ne.
  - split; [|done]. intros Hts. destruct H1 as (m' & qs & Ef & Hm' & Hq & Ho & Hnext & _); [lia|].
    exists m', qs. split_and!; [exact Ef| |done| |exact Hnext].
    + rewrite Hm'. unfold la. cbn [plus drop]. rewrite drop_replicate.
      by replace (30 - S (length ts))%nat with (29 - length ts)%nat by lia.
    + intros n Hn1 Hn2. rewrite Ho by done. cbn. by rewrite lookup_insert_ne.
Qed.

(** C11: the argument vector of a busybox applet.  With at most 29 arguments
    it is "/busybox", the command, the arguments of the line in order, each a
    string of its own, and NULL; with more, NULL is stored past the end of
    the array of 32: the test that should truncate the list never succeeds. *)
Theorem busybox_argv st nb na lo command next ts l :
  na <> nb -> m_objs (st_mem st) !! na = Some (OPtrs (replicate 32 None)) ->
  m_objs (st_mem st) !! nb = Some (OBytes l) -> rest_at (st_mem st) nb lo next ts ->
  ((length ts <= 29)%nat -> exists m' qs,
    busybox_args (Ptr (BVar na) 0) command next st = Ok tt (upd_mem m' st) /\
    m_objs m' !! na = Some (OPtrs ((Some <$> lit_ptr "/busybox" :: command :: qs ++ [Null]) ++
                                   replicate (29 - length ts) None)) /\
    points_to m' nb qs ts /\ (forall n, n <> na -> n <> nb -> m_objs m' !! n = m_objs (st_mem st) !! n) /\
    m_next m' = m_next (st_mem st)) /\
  ((30 <= length ts)%nat ->
    busybox_args (Ptr (BVar na) 0) command next st = Stop (Fault FBounds)).
Proof. apply busybox_args_spec. Qed.

(** The argument vector of a program run from memory. *)
Lemma memrun_args_spec st nb na i s path :
  na <> nb -> m_objs (st_mem st) !! na = Some (OPtrs (replicate 32 None)) ->
  cstr (st_mem st) (BVar nb) i s ->
  ((length (args_of s) <= 30)%nat -> exists m' qs,
    memrun_args (Ptr (BVar na) 0) path (Ptr (BVar nb) (Z.of_nat i)) st = Ok tt (upd_mem m' st) /\
    m_objs m' !! na = Some (OPtrs ((Some <$> path :: qs ++ [Null]) ++
                                   replicate (30 - length (args_of s)) None)) /\
    points_to m' nb qs (args_of s) /\
    (forall n, n <> na -> n <> nb -> m_objs m' !! n = m_objs (st_mem st) !! n) /\
    m_next m' = m_next (st_mem st) /\ line_kept (st_mem st) m' nb i) /\
  ((31 <= length (args_of s))%nat ->
    memrun_args (Ptr (BVar na) 0) path (Ptr (BVar nb) (Z.of_nat i)) st = Stop (Fault FBounds)).
Proof.
  intros Hne Ha Hs. unfold memrun_args. rewrite MAX_ARGS_32.
  change (32 - 1) with (Z.of_nat 31). cbn [padd].
  set (la := Some path :: replicate 31 None).
  set (st2 := upd_mem (set_obj (st_mem st) na (OPtrs la)) st).
  assert (forall T (f : M T), (_ ← on_mem (store_ptr (Ptr (BVar na) 0) path); f) st = f st2) as E.
  { intros T f. erewrite bind_ok; [|apply on_mem_ok; unfold store_ptr; by rewrite Ha]. done. }
  rewrite !E. change (0 + 1) with (Z.of_nat 1). pose proof Hs as (l & Hl & _ & _ & _)%cstr_inv.
  apply block_bytes_var_inv in Hl.
  destruct (fill_args_spec st2 nb na i 1 31 la (Ptr (BVar nb) (Z.of_nat i)) (args_of s) l) as [H1 H2]; try done; try lia.
  - apply set_obj_eq.
  - cbn. by rewrite lookup_insert_ne.
  - right. exists i, s. split_and!; [done|done| |done].
    eapply cstr_other; [|exact Hs]. cbn. by rewrite lookup_insert_ne.
  - split; [|done]. intros Hts. destruct H1 as (m' & qs & Ef & Hm' & Hq & Ho & Hnext & Hline); [lia|].
    exists m', qs. split_and!; [exact Ef| |done| |exact Hnext|].
    2: { intros n Hn1 Hn2. rewrite Ho by done. cbn. by rewrite lookup_insert_ne. }
    2: { destruct Hline as (l1 & l2 & Hl1 & R). exists l1, l2. split; [|done]. rewrite <- Hl1. cbn.
      by rewrite lookup_insert_ne. }
    rewrite Hm'. unfold la. cbn [plus drop]. rewrite drop_replicate.
    by replace (31 - S (length (args_of s)))%nat with (30 - length (args_of s))%nat by lia.
Qed.
(** C32: the argument vector of a program run from memory: its path, the
    piece of the line up to the next blank, empty or not, the arguments after
    that, and NULL, so that a line without arguments passes an empty one;
    31 or more such pieces overflow the array. *)
Theorem memrun_argv st nb na i s path :
  na <> nb -> m_objs (st_mem st) !! na = Some (OPtrs (replicate 32 None)) ->
  cstr (st_mem st) (BVar nb) i s ->
  ((length (args_of s) <= 30)%nat -> exists m' qs,
    memrun_args (Ptr (BVar na) 0) path (Ptr (BVar nb) (Z.of_nat i)) st = Ok tt (upd_mem m' st) /\
    m_objs m' !! na = Some (OPtrs ((Some <$> path :: qs ++ [Null]) ++
                                   replicate (30 - length (args_of s)) None)) /\
    points_to m' nb qs (args_of s) /\
    args_of s = take (lead nonblank s) s :: tokens (drop (S (lead nonblank s)) s)) /\
  ((31 <= length (args_of s))%nat ->
    memrun_args (Ptr (BVar na) 0) path (Ptr (BVar nb) (Z.of_nat i)) st = Stop (Fault FBounds)).
Proof.
  intros Hne Ha Hs. destruct (memrun_args_spec st nb na i s path Hne Ha Hs) as [H1 H2]. split; [|done].
  intros Hlen. destruct (H1 Hlen) as (m' & qs & E & Hv & Hp & _). exists m', qs.
  split_and!; [done..|apply args_of_unfold].
Qed.
End argv.

(** ** What is printed *)

Lemma same_objs_lookup m m' n o : same_objs m m' -> (10 <= n)%positive ->
  m_objs m !! n = Some o -> m_objs m' !! n = Some o.
Proof.
  intros (H & _) Hn E. rewrite H; [done|unfold siginfo_obj; lia|].
  unfold ltoa_buffer. rewrite list_elem_of_singleton. lia.
Qed.

(** The state after a message, with the object [Hn] tells of. *)
Ltac next_print Hn :=
  let st := fresh "st" in let Hs := fresh "Hs" in let Hok := fresh "Hok" in
  intros st Hs Hok; apply (same_objs_lookup _ _ _ _ Hs) in Hn; [|done].

Section output.
Context {K : Kernel} {A : Abi} {HK : KernelOk K}.

(** From [st], [c] returns, having asked for [s] on the standard output.
    Unlike [prints], this allows [c] to change the program's memory. *)
Definition outputs {T} (c : M T) (s : list byte) (st : mach) : Prop :=
  exists v st', c st = Ok v st' /\ statics_ok st' /\ stdout_of st' = stdout_of st ++ s.

Lemma prints_outputs {T} (c : M T) s st : prints c s st -> outputs c s st.
Proof. intros (v & st' & E & Hok & _ & Ho). by exists v, st'. Qed.

(** Cutting an argument off a line leaves the static objects alone. *)
Lemma statics_cut n i m' st : n <> ltoa_buffer -> same_but n i (st_mem st) m' ->
  statics_ok st -> statics_ok (upd_mem m' st).
Proof.
  intros Hn (l & l' & Hl & _ & Em) [(lb & Hlb & Hlenb) Hnext].
  split; cbn [st_mem upd_mem]; rewrite Em; [|done]. exists lb. by rewrite set_obj_ne.
Qed.

Lemma outputs_ret {T} (v : T) st : statics_ok st -> outputs (mret v) [] st.
Proof. intros. exists v, st. split_and!; [done..|by rewrite app_nil_r]. Qed.

(** Reading a field prints nothing. *)
Lemma prints_load_field {T} (n : positive) fs f z (k : Z -> M T) s st :
  m_objs (st_mem st) !! n = Some (OStruct fs) -> fs !! f = Some z ->
  prints (k z) s st -> prints (on_mem (load_field (Ptr (BVar n) 0) f) ≫= k) s st.
Proof.
  intros Hn Hf Hp. unfold prints. erewrite bind_ok; [exact Hp|].
  erewrite on_mem_ok; [by rewrite upd_mem_id|]. cbn. by rewrite Hn, Hf.
Qed.

(** A message, with what follows in a state with the same objects. *)
Lemma prints_say {T} t (k : M T) s st :
  statics_ok st -> x00 ∉ lit t -> Z.of_nat (length (lit t)) < 2 ^ 63 ->
  (forall st', same_objs (st_mem st) (st_mem st') -> statics_ok st' -> prints k s st') ->
  prints (_ ← say t; k) (lit t ++ s) st.
Proof. intros Hok H0 Hl Hk. apply prints_bind; [by apply say_prints|]. auto. Qed.

Lemma prints_write_int {T} z (k : M T) s st :
  statics_ok st -> - 2 ^ 63 < z < 2 ^ 63 ->
  (forall st', same_objs (st_mem st) (st_mem st') -> statics_ok st' -> prints k s st') ->
  prints (_ ← write_int (uwrap 64 z); k) (dec_Z z ++ s) st.
Proof.
  intros Hok Hz Hk. assert (swrap 64 (uwrap 64 z) = z) as E by (apply swrap_uwrap_small; lia).
  rewrite <- E at 2. apply prints_bind; [apply write_int_prints; [done|lia]|]. auto.
Qed.

(** A local object: its contents are what [o] gives, and it is gone at the end.
    What is printed may depend on what the body meets. *)
Lemma outputs_with_local_ex {T X} o (body : ptr -> M T) (P : X -> Prop) (s : X -> list byte) st :
  statics_ok st ->
  (forall st1, statics_ok st1 -> m_objs (st_mem st1) !! m_next (st_mem st) = Some o ->
     stdout_of st1 = stdout_of st -> st_k st1 = st_k st ->
     (forall n, n <> m_next (st_mem st) -> m_objs (st_mem st1) !! n = m_objs (st_mem st) !! n) ->
     exists x, P x /\ outputs (body (Ptr (BVar (m_next (st_mem st))) 0)) (s x) st1) ->
  exists x, P x /\ outputs (with_local (alloc o) body) (s x) st.
Proof.
  intros [(l & Hl & Hlen) Hnext] Hb. unfold with_local, outputs.
  set (n := m_next (st_mem st)) in *. set (st1 := upd_mem {| m_objs := <[n := o]> (m_objs (st_mem st)); m_next := Pos.succ n;
    m_base := m_base (st_mem st); m_junk := m_junk (st_mem st) |} st).
  destruct (Hb st1) as (x & HP & v & st2 & E & [(l2 & Hl2 & Hlen2) Hnext2] & Ho).
  - split; [|cbn; lia]. exists l. cbn. rewrite lookup_insert_ne by (unfold ltoa_buffer; lia). done.
  - cbn. apply lookup_insert_eq.
  - done.
  - done.
  - intros n' Hn'. cbn. by rewrite lookup_insert_ne by done.
  - exists x. split; [exact HP|]. erewrite bind_ok; [|apply on_mem_ok; reflexivity]. fold n.
    rewrite (bind_ok _ _ _ _ _ E). erewrite bind_ok; [|apply on_mem_ok; reflexivity].
    eexists _, _. split; [reflexivity|]. split; [|exact Ho]. split; [|exact Hnext2].
    exists l2. cbn. rewrite lookup_delete_ne by (unfold ltoa_buffer; lia). done.
Qed.

Lemma outputs_with_local {T} o (body : ptr -> M T) s st :
  statics_ok st ->
  (forall st1, statics_ok st1 -> m_objs (st_mem st1) !! m_next (st_mem st) = Some o ->
     stdout_of st1 = stdout_of st -> st_k st1 = st_k st ->
     (forall n, n <> m_next (st_mem st) -> m_objs (st_mem st1) !! n = m_objs (st_mem st) !! n) ->
     outputs (body (Ptr (BVar (m_next (st_mem st))) 0)) s st1) ->
  outputs (with_local (alloc o) body) s st.
Proof.
  intros Hok Hb. destruct (outputs_with_local_ex o body (fun _ : unit => True) (fun _ => s) st Hok) as (_ & _ & H); [|done].
  intros. exists tt. eauto.
Qed.

Lemma with_local_bytes {T} n (body : ptr -> M T) st :
  with_local (alloc_bytes n) body st = with_local (alloc (OBytes (junk_bytes (st_mem st) n))) body st.
Proof. done. Qed.

(** A call that is no [write] and has only the object [n] as an output. *)
Lemma call_frame r n st v m sh ks :
  kcall r (st_mem st) (st_shm st) (st_k st) = KRet v m sh ks ->
  rax r <> NR_write -> rax r <> NR_io_uring_enter ->
  arg_objs r ⊆ [n] -> (10 <= n)%positive -> statics_ok st ->
  let st' := {| st_mem := m; st_shm := sh; st_k := ks; st_trace := st_trace st ++ [Event r (st_mem st) (Some v)] |} in
  syscall r st = Ok v st' /\ statics_ok st' /\ stdout_of st' = stdout_of st /\
  mem_upto [n] (st_mem st) m.
Proof.
  intros E Hw He Ha Hn Hok st'. assert (mem_upto [n] (st_mem st) m) as Hm.
  { destruct (writes_memory (rax r)) eqn:Ew.
    - eapply mem_upto_weaken; [|eapply kernel_frame; [exact E|exact Ew]].
      unfold out_objs. rewrite decide_False, app_nil_r by done. done.
    - eapply mem_upto_weaken; [|eapply kernel_mem; [exact E|exact Ew]]. set_solver. }
  split_and!; [unfold syscall; by rewrite E| | |done].
  - eapply (statics_upto [n]); [exact Hm| |done].
    unfold ltoa_buffer. rewrite list_elem_of_singleton. lia.
  - unfold stdout_of. cbn [st_trace st']. rewrite written_app. unfold written at 2. cbn [mbind list_bind].
    replace (ev_write (Event r (st_mem st) (Some v))) with (@None (Z * list byte)); [by rewrite app_nil_r|].
    unfold ev_write. cbn [ev_regs]. destruct r as [nr]. cbn in Hw. by destruct nr.
Qed.

(** In the state [k] the kernel answers the call [r] with 0 and fills the
    structure [n]. *)
Definition fills (k : kstate) (r : regs) (n : positive) (fs : gmap string Z) : Prop :=
  forall m sh, is_Some (m_objs m !! n) -> exists m' sh' k',
    kcall r m sh k = KRet 0 m' sh' k' /\ m_objs m' !! n = Some (OStruct fs).

(** A command that asks the kernel for a structure and prints from it. *)
Lemma outputs_query {T} loc (r : ptr -> regs) fs (body : ptr -> M T) s st :
  statics_ok st ->
  (forall n, fills (st_k st) (r (Ptr (BVar n) 0)) n fs) ->
  (forall p, rax (r p) <> NR_write /\ rax (r p) <> NR_io_uring_enter) ->
  (forall n, arg_objs (r (Ptr (BVar n) 0)) ⊆ [n]) ->
  (forall n st1, (10 <= n)%positive -> statics_ok st1 -> m_objs (st_mem st1) !! n = Some (OStruct fs) ->
     prints (body (Ptr (BVar n) 0)) s st1) ->
  outputs (with_local (alloc (OStruct ∅)) (fun p => _ ← SYSCHECK loc (ret_int (syscall (r p))); body p)) s st.
Proof.
  intros Hok Hf Hr Ha Hb. apply outputs_with_local; [done|]. set (n := m_next (st_mem st)).
  intros st1 Hok1 Hn Ho1 Hk1 _. assert (10 <= n)%positive as Hn10 by apply Hok.
  destruct (Hf n (st_mem st1) (st_shm st1)) as (m & sh & ks & E & Hm); [by eexists|]. rewrite <- Hk1 in E.
  destruct (call_frame _ n st1 _ _ _ _ E) as (Ec & Hok2 & Ho2 & _); try apply Hr; try done.
  set (st2 := {| st_mem := m |}) in *.
  destruct (Hb n st2 Hn10 Hok2 Hm) as (v & st3 & Eb & Hok3 & _ & Ho3).
  exists v, st3. split_and!; [|done|by rewrite Ho3, Ho2].
  erewrite bind_ok; [exact Eb|]. unfold SYSCHECK, ret_int.
  erewrite bind_ok; [|erewrite bind_ok; [reflexivity|exact Ec]]. done.
Qed.

(** [time] prints the seconds and nanoseconds of the kernel's clock. *)
Theorem cmd_time_prints sec nsec fs st argc argv envp next :
  statics_ok st ->
  (forall n, fills (st_k st) (Regs NR_clock_gettime (of_int CLOCK_REALTIME) (of_ptr (Ptr (BVar n) 0)) None None None None) n fs) ->
  fs !! "tv_sec" = Some sec -> fs !! "tv_nsec" = Some nsec ->
  - 2 ^ 63 < sec < 2 ^ 63 -> 0 <= nsec < 1000000000 ->
  outputs (cmd_time argc argv envp next)
    (lit "Current Time: " ++ dec_Z sec ++ lit " sec " ++ dec_Z nsec ++ lit (" nsec" +:+ nl)) st.
Proof.
  intros Hok Hf H1 H2 Hsec Hnsec.
  apply (outputs_query _ (fun p => Regs NR_clock_gettime (of_int CLOCK_REALTIME) (of_ptr p) None None None None) fs);
    [done|done|done|set_solver|].
  intros n st1 Hn10 Hok1 Hn.
  apply prints_say; [done|by apply (bool_decide_unpack _)|done|]. next_print Hn.
  eapply prints_load_field; [exact Hn|exact H1|]. apply prints_write_int; [done|lia|]. next_print Hn.
  apply prints_say; [done|by apply (bool_decide_unpack _)|done|]. next_print Hn.
  eapply prints_load_field; [exact Hn|exact H2|]. apply prints_write_int; [done|lia|]. next_print Hn.
  rewrite <- (app_nil_r (lit (" nsec" +:+ nl))).
  apply prints_say; [done|by apply (bool_decide_unpack _)|done|]. next_print Hn. by apply prints_ret.
Qed.

(** [usage] prints the memory in use and the total in bytes, whenever
    the total fits a [long]; no product or difference wraps. *)
Theorem cmd_usage_prints total free unit fs st argc argv envp next :
  statics_ok st ->
  (forall n, fills (st_k st) (Regs NR_sysinfo (of_ptr (Ptr (BVar n) 0)) None None None None None) n fs) ->
  fs !! "totalram" = Some total -> fs !! "freeram" = Some free -> fs !! "mem_unit" = Some unit ->
  0 <= free <= total -> 0 < unit -> total * unit < 2 ^ 63 ->
  outputs (cmd_usage argc argv envp next)
    (lit "Memory Used/Total: " ++ dec_Z ((total - free) * unit) ++ lit "/" ++
     dec_Z (total * unit) ++ lit (" bytes" +:+ nl)) st.
Proof.
  intros Hok Hf H1 H2 H3 Hfree Hunit Htotal.
  apply (outputs_query _ (fun p => Regs NR_sysinfo (of_ptr p) None None None None None) fs);
    [done|done|done|set_solver|].
  intros n st1 Hn10 Hok1 Hn.
  apply prints_say; [done|by apply (bool_decide_unpack _)|done|]. next_print Hn.
  eapply prints_load_field; [exact Hn|exact H1|]. eapply prints_load_field; [exact Hn|exact H2|].
  eapply prints_load_field; [exact Hn|exact H3|].
  rewrite (uwrap_small 64 (total - free)) by nia. apply prints_write_int; [done|nia|]. next_print Hn.
  apply prints_say; [done|by apply (bool_decide_unpack _)|done|]. next_print Hn.
  apply prints_write_int; [done|nia|]. next_print Hn.
  rewrite <- (app_nil_r (lit (" bytes" +:+ nl))).
  apply prints_say; [done|by apply (bool_decide_unpack _)|done|]. next_print Hn. by apply prints_ret.
Qed.

(** *** The environment *)

(** A block that no message changes. *)
Definition kept (b : block) : Prop := b <> BVar ltoa_buffer /\ b <> BVar siginfo_obj.

Lemma same_objs_cstr m m' b i s : same_objs m m' -> kept b -> cstr m b i s -> cstr m' b i s.
Proof.
  intros (H & _) [Hb1 Hb2] (l & rest & Hb & Hd & Hs). exists l, rest. split_and!; [|done..].
  destruct b as [t|n]; [done|]. cbn in *. rewrite H; [done|congruence|].
  rewrite list_elem_of_singleton. congruence.
Qed.

(** The variable [s] at the pointer [q]. *)
Definition var_at (m : mem) (q : ptr) (s : list byte) : Prop :=
  exists b i, q = Ptr b (Z.of_nat i) /\ kept b /\ cstr m b i s /\ Z.of_nat (length s) < 2 ^ 63.

Definition env_lines (ss : list (list byte)) : list byte := ss ≫= fun s => s ++ lit nl.

Lemma env_load n pre q post rest m :
  m_objs m !! n = Some (OPtrs ((Some <$> pre ++ q :: post) ++ rest)) ->
  load_ptr (padd (Ptr (BVar n) 0) (Z.of_nat (length pre))) m = Ok q m.
Proof.
  intros Hn. cbn [padd]. rewrite Z.add_0_l. cbn. rewrite Hn, zlookup_nat, lookup_app_l.
  - rewrite list_lookup_fmap. by rewrite list_lookup_middle.
  - rewrite length_fmap, length_app. cbn. lia.
Qed.

Lemma env_loop n vars ss fuel pre rest st :
  statics_ok st -> kept (BVar n) ->
  m_objs (st_mem st) !! n = Some (OPtrs ((Some <$> pre ++ vars ++ [Null]) ++ rest)) ->
  Forall2 (var_at (st_mem st)) vars ss ->
  (length vars < fuel)%nat -> Z.of_nat (length pre + length vars) < 2 ^ 63 ->
  prints (iter fuel (env_body (Ptr (BVar n) 0)) (Z.of_nat (length pre))) (env_lines ss) st.
Proof.
  intros Hok Hk Hn Hv. revert vars pre fuel st Hok Hn Hv.
  induction ss as [|s ss IH]; intros vars pre fuel st Hok Hn Hv Hf Hlen;
    inversion Hv as [|q ? vars' ? Hq Hv']; subst; destruct fuel as [|fuel]; try (cbn in Hf; lia).
  - exists tt, st. split_and!; [|done|done|by rewrite app_nil_r].
    rewrite iter_S. unfold env_body. erewrite bind_ok; [|by eapply on_mem_ok, env_load].
    by rewrite upd_mem_id.
  - unfold prints. rewrite iter_S.
    assert (prints (env_body (Ptr (BVar n) 0) (Z.of_nat (length pre))) (s ++ lit nl) st) as (v & st1 & E & Hok1 & Hs1 & Ho1).
    { unfold env_body, prints. erewrite bind_ok; [|by eapply on_mem_ok, env_load].
      rewrite upd_mem_id. destruct Hq as (b & i & -> & Hb & Hc & Hl). rewrite decide_False by done.
      apply prints_bind; [by apply puts_prints|]. intros _ st1 _ Hok1.
      rewrite <- (app_nil_r (lit nl)). apply prints_bind; [apply say_prints; [done|by apply (bool_decide_unpack _)|done]|].
      intros _ st2 _ Hok2. by apply prints_ret. }
    assert (v = inl (Z.of_nat (length (pre ++ [q])))) as ->.
    { unfold env_body in E. erewrite bind_ok in E; [|by eapply on_mem_ok, env_load].
      destruct Hq as (b & i & -> & _). rewrite decide_False in E by done.
      unfold mbind, stM_bind in E. repeat case_match; simplify_eq. injection E as <- _.
      cbn in Hlen. rewrite uwrap_small by lia. rewrite length_app. cbn. f_equal. lia. }
    rewrite E. destruct (IH vars' (pre ++ [q]) fuel st1) as (w & st2 & E2 & Hok2 & Hs2 & Ho2); [done| | | | |].
    + destruct Hs1 as (H1 & _). rewrite H1; [|destruct Hk; congruence|].
      * rewrite <- app_assoc. exact Hn.
      * rewrite list_elem_of_singleton. destruct Hk. congruence.
    + eapply Forall2_impl; [|exact Hv']. intros q' s' (b & i & -> & Hb & Hc & Hl).
      exists b, i. split_and!; [done|done|by eapply same_objs_cstr|done].
    + cbn in Hf. lia.
    + rewrite length_app. cbn in *. lia.
    + exists w, st2. split_and!; [done|done|by etrans|]. rewrite Ho2, Ho1. unfold env_lines. cbn.
      by rewrite <- !app_assoc.
Qed.

(** [env] prints the variables of the environment in order, one to a
    line, up to the NULL that ends it. *)
Theorem cmd_env_prints n vars ss rest st argc argv next :
  statics_ok st -> kept (BVar n) ->
  m_objs (st_mem st) !! n = Some (OPtrs ((Some <$> vars ++ [Null]) ++ rest)) ->
  Forall2 (var_at (st_mem st)) vars ss -> Z.of_nat (length vars) < 2 ^ 63 ->
  prints (cmd_env argc argv (Ptr (BVar n) 0) next) (env_lines ss) st.
Proof.
  intros Hok Hk Hn Hv Hlen. unfold cmd_env, prints. rewrite bind_get.
  apply (env_loop n vars ss _ [] rest); [done|done|done|done| |cbn; lia].
  unfold ptrs_left. rewrite Hn, !length_app, length_fmap, length_app. cbn. lia.
Qed.
End output.

(** ** Printing a file *)

(** What read(2) and write(2) promise a command.  [reading k fd] is what is
    still to be read, piece by piece, of a file that is open for reading as [fd],
    with what the last read returns: 0 at the end of the file, or an error; of
    other descriptors nothing is promised.  In a state of [takes_output] the
    standard output accepts what is written to it from readable memory. *)
Class FileKernel (K : Kernel) : Type := {
  reading : kstate -> Z -> option (list (list byte) * Z);
  takes_output : kstate -> Prop;
  reading_size k fd cs last c : reading k fd = Some (cs, last) -> c ∈ cs -> 0 < Z.of_nat (length c) <= 1024;
  reading_end k fd cs last : reading k fd = Some (cs, last) -> - 2 ^ 31 <= last <= 0;
  file_read n fd m sh k l cs last :
    reading k fd = Some (cs, last) -> m_objs m !! n = Some (OBytes l) -> length l = 1024%nat ->
    exists m' sh' k', kcall (Regs NR_read (of_int fd) (of_ptr (Ptr (BVar n) 0)) (of_ulong 1024) None None None)
        m sh k = KRet (match cs with c :: _ => Z.of_nat (length c) | [] => last end) m' sh' k' /\
      m_objs m' !! n = Some (OBytes (list_inserts 0 (default [] (head cs)) l)) /\
      reading k' fd = Some (tail cs, last) /\ (takes_output k -> takes_output k');
  file_write r m sh k v m' sh' k' :
    kcall r m sh k = KRet v m' sh' k' -> rax r = NR_write -> rdi r = of_int STDOUT ->
    (forall fd, reading k' fd = reading k fd) /\ (takes_output k -> takes_output k');
  file_shows n count m sh k v m' sh' k' l :
    takes_output k -> m_objs m !! n = Some (OBytes l) -> 0 <= count <= Z.of_nat (length l) ->
    kcall (Regs NR_write (of_int STDOUT) (of_ptr (Ptr (BVar n) 0)) (of_ulong count) None None None) m sh k =
      KRet v m' sh' k' -> 0 <= to_int v
}.

(** Messages make no call but [write] to the standard output: they keep what
    it keeps. *)
Section messages.
Context {K : Kernel} {A : Abi} (P : kstate -> Prop).
Hypothesis HP : forall r m sh k v m' sh' k', kcall r m sh k = KRet v m' sh' k' -> rax r = NR_write ->
  rdi r = of_int STDOUT -> P k -> P k'.

Definition writes_only {T} (c : M T) : Prop := forall st, P (st_k st) -> match c st with Ok _ st' => P (st_k st') | Stop _ => True end.

Lemma writes_only_bind {T U} (c : M T) (f : T -> M U) :
  writes_only c -> (forall v, writes_only (f v)) -> writes_only (c ≫= f).
Proof.
  intros Hc Hf st Hst. specialize (Hc st Hst). unfold mbind, stM_bind. destruct (c st); [by apply Hf|done].
Qed.

Lemma writes_only_ret {T} (v : T) : writes_only (mret v).
Proof. by intros st. Qed.

Lemma writes_only_on_mem {T} (c : memM T) : writes_only (on_mem c).
Proof. intros st Hst. unfold on_mem, zoom. by destruct (c (st_mem st)) as [|[]]. Qed.

Lemma writes_only_write p n : writes_only (write STDOUT p n).
Proof.
  intros st Hst. unfold write, SYSCALL_3, syscall. destruct (kcall _ _ _ _) eqn:E; [|done]. cbn. by eapply HP.
Qed.

Lemma writes_only_WRITESTR p : writes_only (WRITESTR p).
Proof.
  apply writes_only_bind; [|intros; apply writes_only_write]. unfold strlen.
  destruct p as [|[] []]; first [apply writes_only_ret|apply writes_only_on_mem].
Qed.

Lemma writes_only_write_int z : writes_only (write_int z).
Proof.
  unfold write_int. apply writes_only_bind; [apply writes_only_on_mem|]. intros str. apply writes_only_bind.
  - unfold strlen. repeat case_match; first [apply writes_only_ret|apply writes_only_on_mem].
  - intros n. apply writes_only_bind; [apply writes_only_write|]. intros _. apply writes_only_ret.
Qed.

Lemma writes_only_WRITE_ERR msg err : writes_only (WRITE_ERR msg err).
Proof.
  unfold WRITE_ERR, say.
  repeat first [apply writes_only_WRITESTR|apply writes_only_ret|apply writes_only_write_int
    |apply writes_only_bind; [|intros ?]].
Qed.

(** A message, and what follows, which may change the memory. *)
Lemma outputs_say {HK : KernelOk K} {T} t (k : M T) s st : statics_ok st -> P (st_k st) ->
  x00 ∉ lit t -> Z.of_nat (length (lit t)) < 2 ^ 63 ->
  (forall st', statics_ok st' -> P (st_k st') -> outputs k s st') -> outputs (_ ← say t; k) (lit t ++ s) st.
Proof.
  intros Hok HPst H0 Hl Hk. destruct (say_prints t st Hok H0 Hl) as (v & st1 & E & Hok1 & _ & Ho).
  pose proof (writes_only_WRITESTR (Ptr (BLit t) 0) st HPst) as HP1. fold (say t) in HP1. rewrite E in HP1.
  destruct (Hk st1 Hok1 HP1) as (w & st2 & E2 & Hok2 & Ho2). exists w, st2.
  split_and!; [by rewrite (bind_ok _ _ _ _ _ E)|done|by rewrite Ho2, Ho, app_assoc].
Qed.

Lemma outputs_write_int {HK : KernelOk K} {T} z (k : M T) s st : statics_ok st -> P (st_k st) -> - 2 ^ 63 < z < 2 ^ 63 ->
  (forall st', statics_ok st' -> P (st_k st') -> outputs k s st') -> outputs (_ ← write_int (uwrap 64 z); k) (dec_Z z ++ s) st.
Proof.
  intros Hok HPst Hz Hk. assert (swrap 64 (uwrap 64 z) = z) as Ez by (apply swrap_uwrap_small; lia).
  destruct (write_int_prints (uwrap 64 z) st Hok ltac:(lia)) as (v & st1 & E & Hok1 & _ & Ho).
  pose proof (writes_only_write_int (uwrap 64 z) st HPst) as HP1. rewrite E in HP1.
  destruct (Hk st1 Hok1 HP1) as (w & st2 & E2 & Hok2 & Ho2). exists w, st2.
  split_and!; [by rewrite (bind_ok _ _ _ _ _ E)|done|by rewrite Ho2, Ho, Ez, app_assoc].
Qed.
End messages.

Section cat.
Context {K : Kernel} {A : Abi} {HK : KernelOk K} {HF : FileKernel K}.

(** What is shown of a piece: itself, and the error of its write. *)
Definition cat_piece (p : list byte * Z) : list byte :=
  p.1 ++ if p.2 <? 0 then lit "Error writing to stdout" ++ lit ": " ++ dec_Z p.2 ++ lit nl else [].

(** What the console says of a write: when it takes output, no error. *)
Definition written_well (k : kstate) (rs : list Z) : Prop := takes_output k -> Forall (Z.le 0) rs.

(** What is left to read, and what the console takes, stay as they are while
    messages are written. *)
Definition still (fd : Z) (cs : list (list byte)) (last : Z) (out : Prop) (k : kstate) : Prop :=
  reading k fd = Some (cs, last) /\ (out -> takes_output k).

Lemma still_write fd cs last out r m sh k v m' sh' k' : kcall r m sh k = KRet v m' sh' k' -> rax r = NR_write ->
  rdi r = of_int STDOUT -> still fd cs last out k -> still fd cs last out k'.
Proof.
  intros E Hr Hd [Hk Ho]. destruct (file_write _ _ _ _ _ _ _ _ E Hr Hd) as (Hk' & Ho'). split; [by rewrite Hk'|].
  intros H. by apply Ho', Ho.
Qed.

(** A piece in the buffer is written, and the error of that reported. *)
Lemma cat_shows n c cs last fd l st :
  statics_ok st -> (10 <= n)%positive -> m_objs (st_mem st) !! n = Some (OBytes (list_inserts 0 c l)) ->
  length l = 1024%nat -> (length c <= 1024)%nat -> reading (st_k st) fd = Some (cs, last) ->
  exists st' r, (w ← write STDOUT (Ptr (BVar n) 0) (Z.of_nat (length c));
      let wrresult := to_int w in
      _ ← (if wrresult <? 0 then WRITE_ERR "Error writing to stdout" wrresult else mret tt);
      mret (inl tt : unit + Z)) st = Ok (inl tt) st' /\
    (takes_output (st_k st) -> 0 <= r) /\ statics_ok st' /\ stdout_of st' = stdout_of st ++ cat_piece (c, r) /\
    still fd cs last (takes_output (st_k st)) (st_k st') /\
    m_objs (st_mem st') !! n = Some (OBytes (list_inserts 0 c l)).
Proof.
  intros Hok Hn10 Hn Hlen Hc Hk.
  destruct (write_prints (BVar n) (list_inserts 0 c l) 0 (length c) st Hok) as (v & st2 & Ew & Hok2 & Hs2 & Ho2).
  { by apply block_bytes_var. }
  { lia. }
  change (Z.of_nat 0) with 0 in Ew. rewrite (bind_ok _ _ _ _ _ Ew).
  pose proof (writes_only_write _ (still_write fd cs last (takes_output (st_k st))) (Ptr (BVar n) 0) (Z.of_nat (length c)) st
    (conj Hk (fun H => H))) as Hk2. rewrite Ew in Hk2.
  assert (takes_output (st_k st) -> 0 <= to_int v) as Hv.
  { unfold write, SYSCALL_3, syscall in Ew. destruct (kcall _ (st_mem st) _ _) as [v' m' sh' k'|] eqn:E'; [|done].
    injection Ew as <- _. intros H. eapply file_shows; [exact H|exact Hn| |exact E']. rewrite length_inserts. lia. }
  pose proof (same_objs_lookup _ _ _ _ Hs2 Hn10 Hn) as Hn2.
  assert (stdout_of st2 = stdout_of st ++ c) as Ho2'.
  { rewrite Ho2, drop_0. f_equal. rewrite inserts_split by lia. cbn [take app]. rewrite take_0.
    cbn [app]. by apply take_app_length. }
  pose proof (swrap_range 32 ltac:(lia) v) as Hvr. fold (to_int v) in Hvr. change (32 - 1) with 31 in Hvr.
  unfold cat_piece. cbn [fst snd]. destruct (Z.ltb_spec (to_int v) 0) as [Hneg|Hpos].
  - destruct (WRITE_ERR_prints "Error writing to stdout" (to_int v) st2) as (x & st3 & E3 & Hok3 & Hs3 & Ho3);
      [done|by apply (bool_decide_unpack _)|done|lia|].
    pose proof (writes_only_WRITE_ERR _ (still_write fd cs last (takes_output (st_k st))) "Error writing to stdout"
      (to_int v) st2 Hk2) as Hk3. rewrite E3 in Hk3. rewrite (bind_ok _ _ _ _ _ E3).
    exists st3, (to_int v). split_and!; [done|done|done| |done|by eapply same_objs_lookup; [exact Hs3|..]].
    rewrite (proj2 (Z.ltb_lt _ _)) by lia. rewrite Ho3, Ho2'. by rewrite <- !app_assoc.
  - rewrite bind_ret. exists st2, (to_int v).
    split_and!; [done|done|done|by rewrite (proj2 (Z.ltb_ge _ _)), app_nil_r by lia|done|done].
Qed.

(** One turn of the loop: a piece is read and printed. *)
Lemma cat_turn fd n l cs last st :
  statics_ok st -> (10 <= n)%positive -> m_objs (st_mem st) !! n = Some (OBytes l) -> length l = 1024%nat ->
  reading (st_k st) fd = Some (cs, last) ->
  match cs with
  | [] => exists st', cat_body fd (Ptr (BVar n) 0) tt st = Ok (inr last) st' /\
            statics_ok st' /\ stdout_of st' = stdout_of st
  | c :: cs => exists st' l' r, cat_body fd (Ptr (BVar n) 0) tt st = Ok (inl tt) st' /\
      (takes_output (st_k st) -> 0 <= r) /\
      statics_ok st' /\ stdout_of st' = stdout_of st ++ cat_piece (c, r) /\
      still fd cs last (takes_output (st_k st)) (st_k st') /\
      m_objs (st_mem st') !! n = Some (OBytes l') /\ length l' = 1024%nat
  end.
Proof.
  intros Hok Hn10 Hn Hlen Hread.
  destruct (file_read n fd (st_mem st) (st_shm st) (st_k st) l cs last Hread Hn Hlen) as (m & sh & k & E & Hm & Hk & Hout).
  pose proof (reading_end _ _ _ _ Hread) as Hend.
  destruct (call_frame _ n st _ _ _ _ E) as (Ec & Hok1 & Ho1 & _); [done|done|set_solver|done|done|].
  set (st1 := {| st_mem := m |}) in *. unfold cat_body. destruct cs as [|c cs]; cbn [head tail default length] in *.
  - erewrite bind_ok; [|exact Ec]. unfold to_int. rewrite swrap_small by lia.
    rewrite (proj2 (Z.ltb_ge _ _)) by lia. by exists st1.
  - pose proof (reading_size _ _ _ _ c Hread ltac:(by left)) as Hsize. erewrite bind_ok; [|exact Ec].
    unfold default in *. cbn [from_option id] in *.
    assert (to_int (Z.of_nat (length c)) = Z.of_nat (length c)) as -> by (apply swrap_small; lia). cbv zeta.
    rewrite (proj2 (Z.ltb_lt _ _)), uwrap_small by lia.
    destruct (cat_shows n c cs last fd l st1) as (st' & r & Es & Hr & Hok' & Ho' & Hk' & Hn'); [done..|lia|done|].
    exists st', (list_inserts 0 c l), r. rewrite <- Ho1, length_inserts.
    split_and!; [exact Es|by auto|done|done|split; [apply Hk'|intros H; by apply Hk', Hout]|done|done].
Qed.

Lemma cat_loop fd n fuel l cs last st :
  statics_ok st -> (10 <= n)%positive -> m_objs (st_mem st) !! n = Some (OBytes l) -> length l = 1024%nat ->
  reading (st_k st) fd = Some (cs, last) -> (length cs < fuel)%nat ->
  exists st' rs, iter fuel (cat_body fd (Ptr (BVar n) 0)) tt st = Ok last st' /\
    length rs = length cs /\ written_well (st_k st) rs /\
    statics_ok st' /\ stdout_of st' = stdout_of st ++ (zip cs rs ≫= cat_piece).
Proof.
  intros Hok Hn10. revert l cs st Hok. induction fuel as [|fuel IH]; intros l cs st Hok Hn Hlen Hread Hf; [lia|].
  pose proof (cat_turn fd n l cs last st Hok Hn10 Hn Hlen Hread) as Ht. rewrite iter_S. destruct cs as [|c cs].
  - destruct Ht as (st' & -> & Hok' & Ho'). exists st', []. split_and!; [done..|constructor|done|].
    by rewrite Ho', app_nil_r.
  - destruct Ht as (st1 & l' & r & -> & Hr & Hok1 & Ho1 & [Hk1 Hout] & Hn1 & Hlen1).
    destruct (IH l' cs st1 Hok1 Hn1 Hlen1 Hk1) as (st' & rs & E & Hrs & HQ & Hok' & Ho'); [cbn in Hf; lia|].
    exists st', (r :: rs). split_and!; [done|cbn; by rewrite Hrs| |done|].
    + intros H. constructor; [by apply Hr|by apply HQ, Hout].
    + change (zip (c :: cs) (r :: rs) ≫= cat_piece) with (cat_piece (c, r) ++ (zip cs rs ≫= cat_piece)).
      by rewrite Ho', Ho1, app_assoc.
Qed.

(** What [cat] shows of a file: its pieces, each with the error of its write if
    that failed, and the error that ended it. *)
Definition cat_output (cs : list (list byte)) (rs : list Z) (last : Z) : list byte :=
  (zip cs rs ≫= cat_piece) ++ if last <? 0 then lit "Error reading file" ++ lit ": " ++ dec_Z last ++ lit nl else [].

(** Writes that succeed show the file. *)
Lemma cat_pieces cs rs : length rs = length cs -> Forall (Z.le 0) rs -> zip cs rs ≫= cat_piece = concat cs.
Proof.
  revert rs. induction cs as [|c cs IH]; intros [|r rs] Hl H; [done..|]. inversion H. subst. cbn.
  unfold cat_piece at 1. cbn. rewrite (proj2 (Z.ltb_ge _ _)), app_nil_r by lia. f_equal. apply IH; [|done]. cbn in Hl. lia.
Qed.

Lemma cat_file_prints fuel fd cs last st :
  statics_ok st -> reading (st_k st) fd = Some (cs, last) -> (length cs < fuel)%nat ->
  exists rs, (length rs = length cs /\ written_well (st_k st) rs) /\
  outputs (cat_file fuel fd) (cat_output cs rs last) st.
Proof.
  intros Hok Hread Hf. unfold cat_file, outputs. rewrite with_local_bytes.
  apply (outputs_with_local_ex _ _ (fun rs => length rs = length cs /\ written_well (st_k st) rs)
    (fun rs => cat_output cs rs last)); [done|].
  intros st1 Hok1 Hn Ho1 Hk1 _. rewrite <- Hk1 in *. pose proof (reading_end _ _ _ _ Hread) as Hend.
  destruct (cat_loop fd (m_next (st_mem st)) fuel (junk_bytes (st_mem st) 1024) cs last st1)
    as (st2 & rs & E & Hrs & HQ & Hok2 & Ho2); [done|apply Hok|done| |done|done|].
  { unfold junk_bytes. by rewrite length_fmap, length_seq. }
  exists rs. split; [by split|]. unfold outputs, cat_output. rewrite (bind_ok _ _ _ _ _ E). destruct (_ <? 0).
  - destruct (WRITE_ERR_prints "Error reading file" last st2) as (v & st3 & E3 & Hok3 & _ & Ho3);
      [done|by apply (bool_decide_unpack _)|done|lia|].
    exists v, st3. split_and!; [done|done|]. by rewrite Ho3, Ho2, <- app_assoc.
  - exists tt, st2. split_and!; [done|done|]. by rewrite Ho2, app_nil_r.
Qed.

(** In the state [k] the kernel opens the file of that name for reading, and
    gives [fd] for it, when it is asked to as [cat] asks. *)
Definition opens_file (k : kstate) (path : list byte) (fd : Z) (cs : list (list byte)) (last : Z) : Prop :=
  forall b i nh m sh, cstr m b i path -> m_objs m !! nh = Some (open_how (Z.lor O_RDONLY O_NOATIME)) ->
  exists v m' sh' k',
    kcall (Regs NR_openat2 (of_int AT_FDCWD) (of_ptr (Ptr b (Z.of_nat i))) (of_ptr (Ptr (BVar nh) 0))
       (of_ulong sizeof_open_how) None None) m sh k = KRet v m' sh' k' /\
    to_int v = fd /\ (0 <= fd -> reading k' fd = Some (cs, last)) /\ (takes_output k -> takes_output k').

Lemma cmd_cat_spec fuel st n i s path fd cs last argc argv envp :
  statics_ok st -> n <> ltoa_buffer -> (n < m_next (st_mem st))%positive ->
  cstr (st_mem st) (BVar n) i s -> head (tokens s) = Some path ->
  opens_file (st_k st) path fd cs last -> - 2 ^ 31 <= fd < 2 ^ 31 -> (length cs < fuel)%nat ->
  exists rs, (0 <= fd -> length rs = length cs /\ written_well (st_k st) rs) /\
  outputs (cmd_cat fuel argc argv envp (Ptr (BVar n) (Z.of_nat i)))
    (if fd <? 0 then lit "Couldn't open file" ++ lit ": " ++ dec_Z fd ++ lit nl else cat_output cs rs last) st.
Proof.
  intros Hok Hn Hlt Hs Hpath Hopen Hfd Hf. unfold cmd_cat.
  destruct (find_arg_rest _ _ _ _ Hs) as (r & Er & Hrest).
  destruct Hrest as [[_ E]|(j & s0 & -> & Hj & Hs0 & E)]; rewrite E in Hpath; [done|].
  destruct (cut_arg _ _ _ _ Hs0) as (m' & t & ts & i' & s' & Ec & Ea & Hm & Ht & _).
  rewrite Ea in Hpath. injection Hpath as ->.
  unfold outputs. rewrite (bind_ok _ _ _ _ _ (on_mem_ok _ _ _ _ Er)), upd_mem_id, decide_False by done.
  rewrite (bind_ok _ _ _ _ _ (on_mem_ok _ _ _ _ Ec)).
  set (st1 := upd_mem m' st). assert (statics_ok st1) as Hok1 by by eapply statics_cut.
  change (stdout_of st) with (stdout_of st1). change (st_k st) with (st_k st1) in *.
  apply (outputs_with_local_ex _ _ (fun rs => 0 <= fd -> length rs = length cs /\ written_well (st_k st1) rs)
    (fun rs => if fd <? 0 then _ else cat_output cs rs last)); [done|].
  intros st2 Hok2 Hhow Ho2 Hk2 Hsame. rewrite <- Hk2 in *.
  assert (cstr (st_mem st2) (BVar n) j path) as Ht2.
  { eapply cstr_other; [|exact Ht]. apply Hsame. destruct Hm as (? & ? & _ & _ & Em). unfold st1. cbn. rewrite Em. cbn. lia. }
  destruct (Hopen (BVar n) j (m_next (st_mem st1)) (st_mem st2) (st_shm st2) Ht2 Hhow)
    as (v & m3 & sh & k & Eo & <- & Hread & Hout).
  unfold openat2, ret_int, outputs.
  erewrite bind_ok; [|erewrite bind_ok; [reflexivity|unfold SYSCALL_4, syscall; rewrite Eo; reflexivity]].
  set (st3 := {| st_mem := m3 |}). assert (statics_ok st3) as Hok3.
  { eapply (statics_upto [] st2); [by eapply kernel_mem; [exact Eo|]|set_solver|done]. }
  assert (stdout_of st3 = stdout_of st2) as Ho3.
  { unfold stdout_of. cbn [st_trace st3]. rewrite written_app. cbn. by rewrite app_nil_r. }
  rewrite <- Ho3. destruct (Z.ltb_spec (to_int v) 0).
  - exists []. split; [lia|]. apply prints_outputs, WRITE_ERR_prints; [done|by apply (bool_decide_unpack _)|done|lia].
  - destruct (cat_file_prints fuel (to_int v) cs last st3 Hok3 (Hread ltac:(lia)) Hf) as (rs & [Hrs HQ] & Hres).
    exists rs. split; [|exact Hres]. intros _. split; [done|]. intros H1. by apply HQ, Hout.
Qed.

(** C34: [cat] prints the file that is its first argument, whole and in order,
    for any way the kernel cuts it into pieces, and ends after as many reads as
    there are pieces and one more.  It asks for the file with the flags of the
    source, in the state in which it is called, and what it prints is read from
    the descriptor that gave.  A write that fails is reported after its piece,
    with the error, and the next piece follows; none does when the console
    takes output.  When the last read fails, or the file cannot be opened, it
    says so, with the error. *)
Theorem cmd_cat_prints fuel st n i s path fd cs last argc argv envp :
  statics_ok st -> n <> ltoa_buffer -> (n < m_next (st_mem st))%positive ->
  cstr (st_mem st) (BVar n) i s -> head (tokens s) = Some path ->
  opens_file (st_k st) path fd cs last -> - 2 ^ 31 <= fd < 2 ^ 31 -> (length cs < fuel)%nat ->
  exists rs, (0 <= fd -> length rs = length cs /\ written_well (st_k st) rs) /\
  outputs (cmd_cat fuel argc argv envp (Ptr (BVar n) (Z.of_nat i)))
    (if fd <? 0 then lit "Couldn't open file" ++ lit ": " ++ dec_Z fd ++ lit nl else cat_output cs rs last) st.
Proof. apply cmd_cat_spec. Qed.
End cat.
