(* ===== verification/Init.v ===== *)
(** * init/init.c: start-up and the event loop

    [start] brings the machine up and then serves completions for ever: each
    turn of the loop ([event_step]) waits for a completion, handles it
    (console line, signal, prompt written) and submits what is to happen next.
    [start n] is the program with [n] turns of its endless loop. *)

From S2P Require Import Prelude Headers Outcome CMem CString Decimal Parser Machine Syscall Console Uring Command.

(** Objects of static storage in init.c besides [buffer] ([line_obj]) and
    [siginfo] ([siginfo_obj]). *)
Definition allsignals_obj : positive := 4.
Definition sigfd_obj : positive := 7.

(** [sizeof buffer] *)
Definition line_size : nat := 1024.

(** [enum { EVENT_CONSOLE_READ, EVENT_SIGNAL, EVENT_OTHER }] *)
Definition EVENT_CONSOLE_READ : Z := 0.
Definition EVENT_SIGNAL : Z := 1.
Definition EVENT_OTHER : Z := 2.

(** [__bswap_16], as its constant branch computes it. *)
Definition bswap_16 (x : Z) : Z :=
  uwrap 16 (Z.lor (Z.land (Z.shiftr x 8) 255) (Z.shiftl (Z.land x 255) 8)).

(** Its other branch, [rorw $8]: the rotation of a 16-bit register. *)
Definition rorw (n x : Z) : Z := uwrap 16 (Z.lor (Z.shiftr x n) (Z.shiftl x (16 - n))).
Definition bswap_16_asm (x : Z) : Z := rorw 8 x.

Section init.
Context {K : Kernel} {A : Abi} (fuel : nat).

Definition init_c (line : string) : string := here "/init/init.c" line.

(** Set the entry at [a].  The source assigns one field at a time; the fields it
    assigns are those the record has, and what else is in an entry, which it
    leaves as it is, is not modelled. *)
Definition set_entry (a : Z) (e : io_uring_sqe) : M unit := on_shm (update_sqe a (fun _ => e)).

Definition signal_entry (sigfd : Z) : io_uring_sqe :=
  {| sqe_opcode := IORING_OP_READ; sqe_flags := 0; sqe_ioprio := 0; sqe_fd := sigfd;
     sqe_addr := Ptr (BVar siginfo_obj) 0; sqe_len := sizeof_signalfd_siginfo;
     sqe_user_data := EVENT_SIGNAL |}.

Definition prompt_entry : io_uring_sqe :=
  {| sqe_opcode := IORING_OP_WRITE; sqe_flags := IOSQE_IO_LINK; sqe_ioprio := 0; sqe_fd := STDOUT;
     sqe_addr := lit_ptr "Command: "; sqe_len := builtin_strlen "Command: ";
     sqe_user_data := EVENT_OTHER |}.

Definition line_entry : io_uring_sqe :=
  {| sqe_opcode := IORING_OP_READ; sqe_flags := 0; sqe_ioprio := 0; sqe_fd := STDIN;
     sqe_addr := Ptr (BVar line_obj) 0; sqe_len := Z.of_nat line_size;
     sqe_user_data := EVENT_CONSOLE_READ |}.

(** The result of [uring_new_submission] is not checked: an entry is written
    through whatever it is. *)
Definition submit_sig_listen (u : uring_queue) : M uring_queue :=
  r ← on_shm (uring_new_submission u);
  let '(sqe, u) := (r : Z * uring_queue) in
  sigfd ← on_mem (load_field (Ptr (BVar sigfd_obj) 0) "int");
  _ ← set_entry sqe (signal_entry sigfd);
  mret u.

Definition create_console_prompt (u : uring_queue) : M uring_queue :=
  r ← on_shm (uring_new_submission u);
  let '(sqe, u) := (r : Z * uring_queue) in
  _ ← set_entry sqe prompt_entry;
  r ← on_shm (uring_new_submission u);
  let '(sqe, u) := (r : Z * uring_queue) in
  _ ← set_entry sqe line_entry;
  mret u.

Definition init (u : uring_queue) : M uring_queue :=
  fd ← SYSCHECK (init_c "107") (signalfd (-1) (Ptr (BVar allsignals_obj) 0) 0);
  _ ← on_mem (store_field (Ptr (BVar sigfd_obj) 0) "int" (to_int fd));
  u ← create_console_prompt u;
  submit_sig_listen u.

(** Its whole body is commented out. *)
Definition process_signal : M unit := mret tt.

(** [cqe] is the address of the completion, in the ring. *)
Definition process_input (u : uring_queue) (cqe : Z) (argc : Z) (argv envp : ptr) : M uring_queue :=
  c ← on_shm (load_cqe cqe);
  let res := cqe_res c in
  if 0 <? res then
    let last_index := res - 1 in
    b ← on_mem (load_char (Ptr (BVar line_obj) last_index));
    _ ← (if decide (b <> x0a) then _ ← say ("No end of line." +:+ nl); mret tt
         else
           _ ← on_mem (store_char (Ptr (BVar line_obj) last_index) x00);
           process_command fuel (Ptr (BVar line_obj) 0) argc argv envp);
    create_console_prompt u
  else if res =? 0 then ERREXIT (init_c "152") ("End of console input." +:+ nl)
  else ERREXIT (init_c "154") ("Error reading file." +:+ nl).

Definition handle (u : uring_queue) (cqe : Z) (argc : Z) (argv envp : ptr) : M uring_queue :=
  c ← on_shm (load_cqe cqe);
  let user_data := cqe_user_data c in
  if user_data =? EVENT_CONSOLE_READ then process_input u cqe argc argv envp
  else if user_data =? EVENT_SIGNAL then
    _ ← process_signal;
    submit_sig_listen u
  else if user_data =? EVENT_OTHER then
    _ ← SYSCHECK (init_c "123") (c ← on_shm (load_cqe cqe); mret (cqe_res c));
    mret u
  else mret u.

(** One turn of [while (true)]. *)
Definition event_step (u : uring_queue) (argc : Z) (argv envp : ptr) : M uring_queue :=
  u ← uring_wait u 1;
  cqe ← on_shm (uring_result u);
  if cqe =? 0 then mret u
  else
    u ← handle u cqe argc argv envp;
    _ ← on_shm (uring_advance u);
    mret u.

Fixpoint event_loop (n : nat) (u : uring_queue) (argc : Z) (argv envp : ptr) : M uring_queue :=
  match n with
  | O => mret u
  | S n => u ← event_step u argc argv envp; event_loop n u argc argv envp
  end.

(** [start] up to the event loop: the file systems and descriptors, *)
Definition start_system : M unit :=
  _ ← umask 0;
  let mode := Z.lor (Z.lor S_IRWXU S_IRWXG) S_IRWXO in
  _ ← SYSCHECK (init_c "46") (mkdir (lit_ptr "/proc") mode);
  _ ← SYSCHECK (init_c "47") (mkdir (lit_ptr "/dev") mode);
  _ ← SYSCHECK (init_c "48") (mkdir (lit_ptr "/sys") mode);
  _ ← SYSCHECK (init_c "50") (mount Null (lit_ptr "/proc") (lit_ptr "proc") MS_NOEXEC Null);
  _ ← SYSCHECK (init_c "51") (mount Null (lit_ptr "/sys") (lit_ptr "sysfs") (Z.lor MS_NOEXEC MS_RDONLY) Null);
  _ ← SYSCHECK (init_c "52") (mount Null (lit_ptr "/dev") (lit_ptr "devtmpfs") MS_NOEXEC Null);
  _ ← SYSCHECK (init_c "55") (open (lit_ptr "/dev/console") O_RDONLY 0);
  stdout ← SYSCHECK (init_c "56") (open (lit_ptr "/dev/console") (Z.lor O_APPEND O_WRONLY) 0);
  _ ← SYSCHECK (init_c "57") (dup3 (to_int stdout) 2 0);
  printkfd ← SYSCHECK (init_c "59") (open (lit_ptr "/proc/sys/kernel/printk") O_WRONLY 0);
  _ ← SYSCHECK (init_c "60") (write (to_int printkfd) (lit_ptr "0") 1);
  _ ← SYSCHECK (init_c "61") (close (to_int printkfd));
  mret tt.

(** then the rings, the signals and the first submissions. *)
Definition boot : M uring_queue :=
  _ ← start_system;
  u ← uring_init 16;
  _ ← SYSCHECK (init_c "66") (sigprocmask SIG_SETMASK (Ptr (BVar allsignals_obj) 0) Null);
  u ← init u;
  _ ← SYSCHECK (init_c "76") (socket AF_PACKET SOCK_DGRAM (bswap_16 ETH_P_ALL));
  mret u.

Definition start (n : nat) (argc : Z) (argv envp : ptr) : M uring_queue :=
  u ← boot;
  event_loop n u argc argv envp.
End init.
