(* ===== verification/InitSpec.v ===== *)
(** * What init.c does

    The calls of the start-up, the entries a prompt submits, and the outcomes
    of a completed console read. *)

From S2P Require Import Prelude Headers Outcome CMem CString Decimal Parser Machine Syscall Console Script Uring Command Init.

(** ** Running backwards: code that returned *)

Lemma bind_inv {S T U} (m : stM S T) (f : T -> stM S U) s v s' :
  (m ≫= f) s = Ok v s' -> exists w s1, m s = Ok w s1 /\ f w s1 = Ok v s'.
Proof. unfold mbind, stM_bind. destruct (m s); [eauto|done]. Qed.

Section returned.
Context {K : Kernel} {A : Abi}.

(** The calls made so far. *)
Definition calls (st : mach) : list regs := ev_regs <$> st_trace st.

(** [c] returned [v], having made the calls [rs]. *)
Definition made {T} (c : M T) (st : mach) (v : T) (st' : mach) (rs : list regs) : Prop :=
  c st = Ok v st' /\ calls st' = calls st ++ rs.

(** A checked call that returns succeeded. *)
Lemma SYSCHECK_inv loc c st v st' : SYSCHECK loc c st = Ok v st' -> c st = Ok v st' /\ 0 <= v.
Proof.
  unfold SYSCHECK. intros (w & s1 & E & H)%bind_inv. destruct (Z.ltb_spec w 0).
  - repeat apply bind_inv in H as (? & ? & _ & H). done.
  - unfold mret, stM_ret in H. injection H as <- <-. done.
Qed.

Lemma syscall_inv r st v st' : syscall r st = Ok v st' -> made (syscall r) st v st' [r].
Proof.
  intros E. split; [done|]. unfold syscall in E. destruct (kcall _ _ _ _); [|done].
  injection E as <- <-. unfold calls. cbn. by rewrite fmap_app.
Qed.

Lemma ret_int_inv r st v st' : ret_int (syscall r) st = Ok v st' -> calls st' = calls st ++ [r].
Proof.
  unfold ret_int. intros (w & s1 & E & H)%bind_inv. apply syscall_inv in E as [_ E].
  unfold mret, stM_ret in H. by injection H as _ <-.
Qed.

Lemma checked_call loc r st v st' :
  SYSCHECK loc (ret_int (syscall r)) st = Ok v st' -> calls st' = calls st ++ [r] /\ 0 <= v.
Proof. intros [E Hv]%SYSCHECK_inv. split; [by eapply ret_int_inv|done]. Qed.

Lemma checked_long loc r st v st' :
  SYSCHECK loc (syscall r) st = Ok v st' -> calls st' = calls st ++ [r] /\ 0 <= v.
Proof. intros [E Hv]%SYSCHECK_inv. split; [by apply syscall_inv in E as [_ ?]|done]. Qed.

(** A call of a script, from code that returned. *)
Lemma asked_any r next st v st1 st' : ret_int (syscall r) st = Ok v st1 ->
  (forall w, v = to_int w -> asked st1 st' (next w)) -> asked st st' (any_call r next).
Proof.
  unfold ret_int. intros (w & s & E & [= <- <-])%bind_inv Hn. by eapply asked_syscall; [exact E|..|apply Hn].
Qed.

Lemma asked_int loc r next st v st1 st' : SYSCHECK loc (ret_int (syscall r)) st = Ok v st1 ->
  (forall w, v = to_int w -> asked st1 st' (next w)) -> asked st st' (int_call r next).
Proof.
  intros [E Hv]%SYSCHECK_inv Hn. unfold ret_int in E. apply bind_inv in E as (w & s & E & [= <- <-]).
  by eapply asked_syscall; [exact E|..|apply Hn].
Qed.

Lemma asked_long loc r next st v st1 st' : SYSCHECK loc (syscall r) st = Ok v st1 ->
  asked st1 st' (next v) -> asked st st' (long_call r next).
Proof. intros [E Hv]%SYSCHECK_inv Hn. by eapply asked_syscall. Qed.

Lemma to_int_idem v : to_int (to_int v) = to_int v.
Proof.
  pose proof (swrap_range 32 ltac:(lia) v) as Hr. change (32 - 1) with 31 in Hr.
  unfold to_int at 1. apply swrap_small; [lia|exact Hr].
Qed.
End returned.

Section init.
Context {K : Kernel} {A : Abi}.

Definition path (s : string) : option rval := of_ptr (lit_ptr s).

(** The calls of the start-up, and then [next].  The descriptor that is made
    standard error is the result of the second open of the console; what is
    written to and closed is the result of the open of printk. *)
Definition startup_script (next : script) : script :=
  let mode := of_int (Z.lor (Z.lor S_IRWXU S_IRWXG) S_IRWXO) in
  any_call (Regs NR_umask (of_int 0) None None None None None) (fun _ =>
  int_call (Regs NR_mkdirat (of_int AT_FDCWD) (path "/proc") mode None None None) (fun _ =>
  int_call (Regs NR_mkdirat (of_int AT_FDCWD) (path "/dev") mode None None None) (fun _ =>
  int_call (Regs NR_mkdirat (of_int AT_FDCWD) (path "/sys") mode None None None) (fun _ =>
  int_call (Regs NR_mount (of_ptr Null) (path "/proc") (path "proc") (of_ulong MS_NOEXEC) (of_ptr Null) None) (fun _ =>
  int_call (Regs NR_mount (of_ptr Null) (path "/sys") (path "sysfs") (of_ulong (Z.lor MS_NOEXEC MS_RDONLY))
    (of_ptr Null) None) (fun _ =>
  int_call (Regs NR_mount (of_ptr Null) (path "/dev") (path "devtmpfs") (of_ulong MS_NOEXEC) (of_ptr Null) None) (fun _ =>
  int_call (Regs NR_openat (of_int AT_FDCWD) (path "/dev/console") (of_int O_RDONLY) (of_int 0) None None) (fun _ =>
  int_call (Regs NR_openat (of_int AT_FDCWD) (path "/dev/console") (of_int (Z.lor O_APPEND O_WRONLY)) (of_int 0) None None)
    (fun stdout =>
  int_call (Regs NR_dup3 (of_int (to_int stdout)) (of_int 2) (of_int 0) None None None) (fun _ =>
  int_call (Regs NR_openat (of_int AT_FDCWD) (path "/proc/sys/kernel/printk") (of_int O_WRONLY) (of_int 0) None None)
    (fun printkfd =>
  long_call (Regs NR_write (of_int (to_int printkfd)) (path "0") (of_ulong 1) None None None) (fun _ =>
  int_call (Regs NR_close (of_int (to_int printkfd)) None None None None None) (fun _ => next))))))))))))).

(** The next call of code that returned, with its result in the script. *)
Ltac next_asked :=
  let v := fresh "v" in let s := fresh "s" in let E := fresh "E" in let w := fresh "w" in let Ew := fresh "Ew" in
  lazymatch goal with
  | H : (mbind _ _) _ = Ok _ _ |- asked _ _ _ =>
      apply bind_inv in H as (v & s & E & H);
      first [eapply asked_int; [exact E|intros w Ew; subst v; rewrite ?to_int_idem in H; clear E]
            |eapply asked_long; [exact E|clear E]
            |eapply asked_any; [exact E|intros w Ew; subst v; clear E]]
  end.

(** C27: when the start-up gets to the rings it has made the calls of its script
    and no others: the file systems are mounted before the devices and files on
    them are opened; standard error is the console, opened for output; printk
    is opened, a single zero is written to that descriptor, and it is closed;
    and every one of these calls succeeded. *)
Theorem start_system_calls st st' :
  start_system st = Ok tt st' ->
  exists es, st_trace st' = st_trace st ++ es /\ follows (startup_script Fin) es.
Proof.
  unfold start_system, umask, mkdir, mount, open, dup3, write, close, startup_script. cbv zeta.
  intros H. change (asked st st' (startup_script Fin)). do 13 next_asked.
  injection H as <-. apply asked_fin.
Qed.

(** The next checked call, after the calls [E0] tells of. *)
Ltac next_call :=
  let v := fresh "v" in let s := fresh "s" in let E := fresh "E" in let H0 := fresh "Hv" in
  lazymatch goal with
  | H : (mbind _ _) _ = Ok _ _, E0 : calls _ = _ |- _ =>
      apply bind_inv in H as (v & s & E & H);
      first [apply checked_call in E as [E H0]|apply checked_long in E as [E H0]];
      rewrite E0 in E; clear E0; rename E into E0
  end.

(** [uring_close] gives back both mappings, with the lengths they were mapped
    with, and the descriptor. *)
Lemma uring_close_calls u st st' : uring_close u st = Ok tt st' ->
  calls st' = calls st ++
    [ Regs NR_munmap (of_int (mmap_ring u)) (of_ulong (mmap_ring_size u)) None None None None;
      Regs NR_munmap (of_int (mmap_sqes u)) (of_ulong (mmap_sqes_size u)) None None None None;
      Regs NR_close (of_int (ringfd u)) None None None None None ].
Proof.
  unfold uring_close, munmap, close. intros (v & s1 & E & H)%bind_inv. apply checked_call in E as [E _].
  do 2 next_call. unfold mret, stM_ret in H. injection H as <-. by rewrite E, <- !app_assoc.
Qed.

(** The two entries of a prompt, as [create_console_prompt] hands them out. *)
Lemma console_prompt_entries u k ck st R :
  layout u k ck -> ring_rep u k ck (st_shm st) R ->
  Z.of_nat (length (queued R ++ pending R)) + 2 <= 2 ^ k ->
  exists u' sh', create_console_prompt u st = Ok u' (upd_shm sh' st) /\
    (exists x y, u' = with_list u x y) /\ ring_rep u' k ck sh' (submit (submit R prompt_entry) line_entry).
Proof.
  intros L H Hroom. unfold create_console_prompt.
  destruct (new_submission_ok u k ck (st_shm st) R L H ltac:(lia)) as (a & u1 & E1 & L1 & (x1 & y1 & U1) & Hw1).
  rewrite (bind_ok _ _ _ _ _ (on_shm_ok _ _ _ _ E1)).
  destruct (Hw1 prompt_entry) as (sh1 & W1 & H1).
  erewrite bind_ok; [|unfold set_entry; apply on_shm_ok; exact W1].
  assert (Z.of_nat (length (queued (submit R prompt_entry) ++ pending (submit R prompt_entry))) < 2 ^ k) as Hroom1.
  { cbn. rewrite !length_app in *. cbn. lia. }
  destruct (new_submission_ok u1 k ck sh1 _ L1 H1 Hroom1) as (a' & u2 & E2 & L2 & (x2 & y2 & U2) & Hw2).
  erewrite bind_ok; [|apply on_shm_ok; exact E2]. cbv beta iota.
  destruct (Hw2 line_entry) as (sh2 & W2 & H2).
  erewrite bind_ok; [|unfold set_entry; apply on_shm_ok; exact W2].
  exists u2, sh2. split_and!; [done| |done]. exists x2, y2. by rewrite U2, U1.
Qed.


(** The next read of a signal, of the descriptor stored at the start. *)
Lemma submit_sig_listen_submits u k ck st R sigfd fs :
  layout u k ck -> ring_rep u k ck (st_shm st) R -> Z.of_nat (length (queued R ++ pending R)) < 2 ^ k ->
  m_objs (st_mem st) !! sigfd_obj = Some (OStruct fs) -> fs !! "int" = Some sigfd ->
  exists u' sh', submit_sig_listen u st = Ok u' (upd_shm sh' st) /\
    (exists x y, u' = with_list u x y) /\ ring_rep u' k ck sh' (submit R (signal_entry sigfd)).
Proof.
  intros L H Hroom Hfd Hfs.
  destruct (new_submission_ok u k ck _ R L H Hroom) as (a & u1 & E & _ & Hu & Hw).
  destruct (Hw (signal_entry sigfd)) as (sh' & Ew & Hrep').
  unfold submit_sig_listen. rewrite (bind_ok _ _ _ _ _ (on_shm_ok _ _ _ _ E)).
  erewrite bind_ok; [|apply on_mem_ok; cbn; by rewrite Hfd, Hfs].
  erewrite bind_ok; [|apply on_shm_ok; exact Ew]. by exists u1, sh'.
Qed.

(** What becomes of a completed read of the console. *)
Lemma process_input_spec fuel u cqe argc argv envp st c l :
  sh_cqes (st_shm st) !! cqe = Some c -> m_objs (st_mem st) !! line_obj = Some (OBytes l) ->
  (forall s, 0 < cqe_res c -> cqe_res c = Z.of_nat (length s) + 1 -> take (length s + 1) l = s ++ [x0a] ->
     x00 ∉ s -> exists m', cstr m' (BVar line_obj) 0 s /\
       (forall n, n <> line_obj -> m_objs m' !! n = m_objs (st_mem st) !! n) /\ m_next m' = m_next (st_mem st) /\
       process_input fuel u cqe argc argv envp st =
         (_ ← process_command fuel (Ptr (BVar line_obj) 0) argc argv envp; create_console_prompt u) (upd_mem m' st)) /\
  (forall b, 0 < cqe_res c -> l !! Z.to_nat (cqe_res c - 1) = Some b -> b <> x0a ->
     process_input fuel u cqe argc argv envp st =
       (_ ← say ("No end of line." +:+ nl); create_console_prompt u) st) /\
  (cqe_res c = 0 -> process_input fuel u cqe argc argv envp st =
     ERREXIT (init_c "152") ("End of console input." +:+ nl) st) /\
  (cqe_res c < 0 -> process_input fuel u cqe argc argv envp st =
     ERREXIT (init_c "154") ("Error reading file." +:+ nl) st).
Proof.
  intros Hc Hl. assert (forall T (f : io_uring_cqe -> M T), (on_shm (load_cqe cqe) ≫= f) st = f c st) as El.
  { intros T f. erewrite bind_ok; [|apply on_shm_ok; unfold load_cqe; by rewrite Hc]. by destruct st. }
  assert (forall T (f : byte -> M T) b, 0 < cqe_res c -> l !! Z.to_nat (cqe_res c - 1) = Some b ->
    (on_mem (load_char (Ptr (BVar line_obj) (cqe_res c - 1))) ≫= f) st = f b st) as Eb.
  { intros T f b Hr Hb. erewrite bind_ok; [|apply on_mem_ok; unfold load_char].
    2: { cbn. rewrite Hl. unfold zlookup. rewrite (proj2 (Z.ltb_ge _ _)), Hb by lia. done. }
    by rewrite upd_mem_id. }
  unfold process_input. rewrite !El. split_and!.
  - intros s Hr Es Hline H0. rewrite (proj2 (Z.ltb_lt _ _)) by done.
    assert (length l = length (take (length s + 1) l) + length (drop (length s + 1) l))%nat as Hlen
      by (by rewrite <- length_app, take_drop).
    rewrite Hline, length_app in Hlen. cbn in Hlen.
    assert (l !! length s = Some x0a) as Hb.
    { rewrite <- (take_drop (length s + 1) l), Hline, <- app_assoc. by apply list_lookup_middle. }
    rewrite (Eb _ _ x0a Hr) by (rewrite Es; by replace (Z.to_nat _) with (length s) by lia).
    rewrite decide_False by (by intros []).
    exists (set_obj (st_mem st) line_obj (OBytes (<[length s := x00]> l))). split_and!.
    + exists (<[length s := x00]> l), (drop (length s + 1) l).
      split_and!; [apply block_bytes_set_eq| |done]. rewrite drop_0.
      rewrite <- (take_drop (length s + 1) l) at 1. rewrite Hline, <- app_assoc.
      rewrite insert_app_r_alt, Nat.sub_diag by lia. done.
    + intros n Hn. by rewrite set_obj_ne.
    + done.
    + unfold mbind at 1 2 3, stM_bind. unfold on_mem at 1, zoom, store_char. rewrite Hl.
      rewrite Es. replace (Z.of_nat (length s) + 1 - 1) with (Z.of_nat (length s)) by lia.
      rewrite zinsert_nat by lia. done.
  - intros b Hr Hb Hne. rewrite (proj2 (Z.ltb_lt _ _)) by done. rewrite (Eb _ _ b Hr Hb).
    rewrite decide_True by done. unfold mbind, stM_bind. by destruct (say _ st).
  - intros ->. done.
  - intros Hr. rewrite (proj2 (Z.ltb_ge _ _)), (proj2 (Z.eqb_neq _ _)) by lia. done.
Qed.
(** C24: a line that ends in a newline is made a C string in place and given
    to [process_command], and the next prompt is submitted after it; one that
    does not is refused with a message; at the end of input, and on an error,
    the machine is powered off by [ERREXIT]. *)
Theorem process_input_outcomes fuel u cqe argc argv envp st c l :
  sh_cqes (st_shm st) !! cqe = Some c -> m_objs (st_mem st) !! line_obj = Some (OBytes l) ->
  (forall s, 0 < cqe_res c -> cqe_res c = Z.of_nat (length s) + 1 -> take (length s + 1) l = s ++ [x0a] ->
     x00 ∉ s -> exists m', cstr m' (BVar line_obj) 0 s /\
       (forall n, n <> line_obj -> m_objs m' !! n = m_objs (st_mem st) !! n) /\ m_next m' = m_next (st_mem st) /\
       process_input fuel u cqe argc argv envp st =
         (_ ← process_command fuel (Ptr (BVar line_obj) 0) argc argv envp; create_console_prompt u) (upd_mem m' st)) /\
  (forall b, 0 < cqe_res c -> l !! Z.to_nat (cqe_res c - 1) = Some b -> b <> x0a ->
     process_input fuel u cqe argc argv envp st =
       (_ ← say ("No end of line." +:+ nl); create_console_prompt u) st) /\
  (cqe_res c = 0 -> process_input fuel u cqe argc argv envp st =
     ERREXIT (init_c "152") ("End of console input." +:+ nl) st) /\
  (cqe_res c < 0 -> process_input fuel u cqe argc argv envp st =
     ERREXIT (init_c "154") ("Error reading file." +:+ nl) st).
Proof. apply process_input_spec. Qed.
End init.

(** The two ways to exchange the bytes are equal bit by bit. *)
Lemma bswap_16_rotates x : 0 <= x < 2 ^ 16 -> bswap_16 x = bswap_16_asm x.
Proof.
  intros Hx. unfold bswap_16, bswap_16_asm, rorw, uwrap. change (16 - 8) with 8. change 255 with (Z.ones 8).
  apply Z.bits_inj'. intros i Hi. destruct (Z.lt_ge_cases i 16) as [H16|?];
    [|by rewrite !Z.mod_pow2_bits_high by lia].
  rewrite !Z.mod_pow2_bits_low, !Z.lor_spec, Z.land_spec, !Z.shiftr_spec by lia.
  destruct (Z.lt_ge_cases i 8).
  - rewrite !Z.shiftl_spec_low, Z.ones_spec_low by lia. by rewrite andb_true_r.
  - rewrite !Z.shiftl_spec, Z.land_spec, Z.ones_spec_high, Z.ones_spec_low by lia.
    rewrite andb_false_r, andb_true_r. replace (Z.testbit x (i + 8)) with false; [done|].
    symmetry. destruct (decide (x = 0)) as [->|]; [apply Z.bits_0|]. apply Z.bits_above_log2; [lia|].
    apply Z.log2_lt_pow2; [lia|]. apply Z.lt_le_trans with (2 ^ 16); [lia|]. apply Z.pow_le_mono_r; lia.
Qed.

(** [__bswap_16] exchanges the two bytes of a 16-bit number, so it undoes
    itself; the rotation of its run-time branch does the same. *)
Theorem bswap_16_exchanges hi lo :
  0 <= hi < 256 -> 0 <= lo < 256 ->
  bswap_16 (hi * 256 + lo) = lo * 256 + hi /\ bswap_16 (bswap_16 (hi * 256 + lo)) = hi * 256 + lo /\
  bswap_16_asm (hi * 256 + lo) = bswap_16 (hi * 256 + lo).
Proof.
  assert (forall h l, 0 <= h < 256 -> 0 <= l < 256 -> bswap_16 (h * 256 + l) = l * 256 + h) as E.
  { intros h l Hh Hl. unfold bswap_16. rewrite Z.shiftr_div_pow2, Z.shiftl_mul_pow2 by lia.
    change 255 with (2 ^ 8 - 1). rewrite !land_mask by lia. change (2 ^ 8) with 256.
    rewrite Z.div_add_l, (Z.div_small l), Z.add_0_r, (Z.mod_small h) by lia.
    rewrite (Z.add_comm (h * 256)), Z_mod_plus_full, (Z.mod_small l) by lia.
    assert (Z.land h (l * 256) = 0) as E0.
    { apply Z.bits_inj'. intros i Hi. rewrite Z.bits_0, Z.land_spec.
      change 256 with (2 ^ 8). rewrite Z.mul_pow2_bits by lia.
      destruct (Z.ltb_spec i 8).
      + by rewrite (Z.testbit_neg_r l), andb_false_r by lia.
      + rewrite (Z.bits_above_log2 h); [done|lia|]. destruct (decide (h = 0)) as [->|]; [cbn; lia|].
        apply Z.log2_lt_pow2; [lia|]. apply Z.lt_le_trans with (2 ^ 8); [lia|]. by apply Z.pow_le_mono_r. }
    pose proof (Z.add_lor_land h (l * 256)) as Ea. rewrite E0 in Ea. rewrite uwrap_small by lia. lia. }
  intros Hh Hl. rewrite !E by done. split_and!; [done..|]. rewrite <- bswap_16_rotates by lia. by apply E.
Qed.

Lemma bswap_16_exchanges_witness : bswap_16 (0 * 256 + 3) = 3 * 256 + 0 /\ bswap_16 (bswap_16 (0 * 256 + 3)) = 0 * 256 + 3 /\
  bswap_16_asm (0 * 256 + 3) = bswap_16 (0 * 256 + 3).
Proof. exact (bswap_16_exchanges 0 3 ltac:(lia) ltac:(lia)). Defined.
