(* ===== verification/Listing.v ===== *)
(** * Listing a directory

    [cmd_ls] prints the entries of a directory: the records getdents64(2) puts
    in the buffer ([records]), one line each, batch after batch until a batch
    is empty. *)

From S2P Require Import Prelude Headers Outcome CMem CString Decimal Parser Machine Syscall Console Command CommandSpec.

(** ** Records *)

(** A name and a [d_type]. *)
Definition entry : Type := (list byte * Z)%type.

(** The [struct linux_dirent64] of [e] lies at [pos] in [l] and is [len] long:
    its length at offset 16, its type at 18, its name, ended by a zero, at 19. *)
Definition record_at (l : list byte) (pos : nat) (e : entry) (len : nat) : Prop :=
  exists lo hi ty rest, (0 < len)%nat /\
    l !! (pos + 16)%nat = Some lo /\ l !! (pos + 17)%nat = Some hi /\
    Z.of_nat len = (uchar lo + 256 * uchar hi)%Z /\
    l !! (pos + 18)%nat = Some ty /\ e.2 = uchar ty /\
    drop (pos + 19) l = e.1 ++ x00 :: rest /\ x00 ∉ e.1.

(** The records of [es] fill [l] from [pos] to [stop]. *)
Fixpoint records (l : list byte) (pos : nat) (es : list entry) (stop : nat) : Prop :=
  match es with
  | [] => pos = stop
  | e :: es => exists len, record_at l pos e len /\ records l (pos + len) es stop
  end.

Lemma records_le l es : forall pos stop, records l pos es stop -> (pos <= stop)%nat.
Proof.
  induction es as [|e es IH]; intros pos stop; cbn; [lia|].
  intros (len & _ & H%IH). lia.
Qed.

(** The line printed for an entry. *)
Definition entry_line (e : entry) : list byte := e.1 ++ lit (type_suffix e.2).
Definition entry_lines (es : list entry) : list byte := (es ≫= entry_line).

(** What getdents64(2) promises: [listing k fd] is what is still to be listed,
    by calls, of a directory that is open as [fd]; the last call finds nothing.
    Of other descriptors nothing is promised. *)
Class DirKernel (K : Kernel) : Type := {
  listing : kstate -> Z -> option (list (list entry));
  dir_read n fd m sh k l ess :
    listing k fd = Some ess -> m_objs m !! n = Some (OBytes l) -> length l = 1024%nat ->
    exists m' sh' k' l' (count : nat),
      kcall (Regs NR_getdents64 (of_int fd) (of_ptr (Ptr (BVar n) 0)) (of_int 1024) None None None) m sh k =
        KRet (Z.of_nat count) m' sh' k' /\
      m_objs m' !! n = Some (OBytes l') /\ length l' = 1024%nat /\ listing k' fd = Some (tail ess) /\
      Z.of_nat count <= 1024 /\
      match ess with
      | [] => count = 0%nat
      | es :: _ => (0 < count)%nat /\ records l' 0 es count
      end;
  dir_write r m sh k v m' sh' k' :
    kcall r m sh k = KRet v m' sh' k' -> rax r = NR_write -> rdi r = of_int STDOUT ->
    forall fd, listing k' fd = listing k fd
}.

Lemma type_suffix_ok t : (x00 ∉ lit (type_suffix t)) /\ Z.of_nat (length (lit (type_suffix t))) < 2 ^ 63.
Proof.
  unfold type_suffix.
  repeat (destruct (_ =? _); [split; [by apply (bool_decide_unpack _)|done]|]).
  split; [by apply (bool_decide_unpack _)|done].
Qed.

Section listing.
Context {K : Kernel} {A : Abi} {HK : KernelOk K} {HD : DirKernel K}.

(** What is still to be listed is the same. *)
Definition same_listing (st st' : mach) : Prop := forall fd, listing (st_k st') fd = listing (st_k st) fd.

#[export] Instance same_listing_trans : Transitive same_listing.
Proof. intros st1 st2 st3 H1 H2 fd. by rewrite H2. Qed.

(** [c] returns a value in [Q], having printed [s] and nothing else. *)
Definition shows {T} (c : M T) (Q : T -> Prop) (s : list byte) (st : mach) : Prop :=
  exists v st', c st = Ok v st' /\ Q v /\ statics_ok st' /\ same_objs (st_mem st) (st_mem st') /\
    stdout_of st' = stdout_of st ++ s /\ same_listing st st'.

Definition anyway {T} (_ : T) : Prop := True.

Lemma shows_bind {T U} (c : M T) (f : T -> M U) Q Q' s s' st :
  shows c Q s st ->
  (forall v st', Q v -> same_objs (st_mem st) (st_mem st') -> statics_ok st' -> shows (f v) Q' s' st') ->
  shows (c ≫= f) Q' (s ++ s') st.
Proof.
  intros (v & st1 & Hc & Hv & Hok & Hs & Ho & Hb) Hf.
  destruct (Hf v st1 Hv Hs Hok) as (w & st2 & Hf' & Hw & Hok' & Hs' & Ho' & Hb').
  exists w, st2. split_and!; [by rewrite (bind_ok _ _ _ _ _ Hc)|done|done|by etrans| |by etrans].
  by rewrite Ho', Ho, app_assoc.
Qed.

(** A step that changes nothing. *)
Lemma shows_pure {T U} (c : M T) (f : T -> M U) Q s st v :
  c st = Ok v st -> shows (f v) Q s st -> shows (c ≫= f) Q s st.
Proof. intros Hc Hf. unfold shows. by rewrite (bind_ok _ _ _ _ _ Hc). Qed.

Lemma shows_ret {T} (v : T) (Q : T -> Prop) st : statics_ok st -> Q v -> shows (mret v) Q [] st.
Proof. intros. exists v, st. split_and!; [done..|by rewrite app_nil_r|done]. Qed.

Lemma write_listing p n st v st' : write STDOUT p n st = Ok v st' -> same_listing st st'.
Proof.
  unfold write, SYSCALL_3, syscall. destruct (kcall _ _ _ _) as [v' m sh ks|] eqn:E; [|done].
  intros [= _ <-] fd. by eapply dir_write.
Qed.

Lemma write_shows b l (i k : nat) st :
  statics_ok st -> block_bytes (st_mem st) b = Some l -> Z.of_nat k < 2 ^ 63 ->
  shows (write STDOUT (Ptr b (Z.of_nat i)) (Z.of_nat k)) anyway (take k (drop i l)) st.
Proof.
  intros Hok Hb Hk. destruct (write_prints b l i k st Hok Hb Hk) as (v & st' & E & Hok' & Hs & Ho).
  exists v, st'. split_and!; [done..|by eapply write_listing].
Qed.

(** A C string is printed, by its length and a write. *)
Lemma string_shows {U} b i s (f : Z -> M U) Q s' st :
  statics_ok st -> cstr (st_mem st) b i s -> Z.of_nat (length s) < 2 ^ 63 ->
  (forall v st', same_objs (st_mem st) (st_mem st') -> statics_ok st' -> shows (f v) Q s' st') ->
  shows (k ← strlen (Ptr b (Z.of_nat i)); write STDOUT (Ptr b (Z.of_nat i)) k ≫= f) Q (s ++ s') st.
Proof.
  intros Hok Hs Hlen Hf. eapply shows_pure; [by eapply strlen_ok|].
  apply shows_bind with (Q := anyway); [|auto].
  destruct Hs as (l & rest & Hb & Hd & _).
  pose proof (write_shows b l i (length s) st Hok Hb Hlen) as W.
  by rewrite Hd, take_app_length in W.
Qed.

Lemma say_shows {U} s (f : Z -> M U) Q s' st :
  statics_ok st -> x00 ∉ lit s -> Z.of_nat (length (lit s)) < 2 ^ 63 ->
  (forall v st', same_objs (st_mem st) (st_mem st') -> statics_ok st' -> shows (f v) Q s' st') ->
  shows (say s ≫= f) Q (lit s ++ s') st.
Proof.
  intros Hok H0 Hlen Hf. apply shows_bind with (Q := anyway); [|auto].
  pose proof (write_shows (BLit s) (lit s ++ [x00]) 0 (length (lit s)) st Hok eq_refl Hlen) as W.
  rewrite drop_0, take_app_length in W. unfold say, WRITESTR. eapply shows_pure; [|exact W].
  by apply (strlen_ok (BLit s) 0), Hlen; apply cstr_lit.
Qed.

Lemma load_at n l i c st : m_objs (st_mem st) !! n = Some (OBytes l) -> l !! i = Some c ->
  on_mem (load_char (Ptr (BVar n) (Z.of_nat i))) st = Ok c st.
Proof.
  intros Hn Hi. erewrite on_mem_ok; [by rewrite upd_mem_id|].
  unfold load_char. cbn. by rewrite Hn, zlookup_nat, Hi.
Qed.

Lemma load_u16_at n l i lo hi st : m_objs (st_mem st) !! n = Some (OBytes l) ->
  l !! i = Some lo -> l !! (i + 1)%nat = Some hi ->
  on_mem (load_u16 (Ptr (BVar n) (Z.of_nat i))) st = Ok (uchar lo + 256 * uchar hi) st.
Proof.
  intros Hn Hlo Hhi. erewrite on_mem_ok; [by rewrite upd_mem_id|]. unfold load_u16. cbn [padd].
  replace (Z.of_nat i + 1) with (Z.of_nat (i + 1)) by lia.
  unfold load_char, mbind, stM_bind. cbn [block_bytes].
  by rewrite Hn, zlookup_nat, Hlo, Hn, zlookup_nat, Hhi.
Qed.

Section batch.
Context (n : positive) (l : list byte) (stop : nat).
Hypothesis Hn : (10 <= n)%positive.
Hypothesis Hlen : length l = 1024%nat.

Definition buffer_ok (st : mach) : Prop := statics_ok st /\ m_objs (st_mem st) !! n = Some (OBytes l).

Lemma buffer_same st st' : buffer_ok st -> same_objs (st_mem st) (st_mem st') -> statics_ok st' -> buffer_ok st'.
Proof. intros [_ Hl] Hs Hok. split; [done|]. by eapply same_objs_lookup. Qed.

(** One turn prints one entry. *)
Lemma entry_shows pos e len st :
  buffer_ok st -> record_at l pos e len -> (pos < stop)%nat ->
  shows (dirlist_entry (Ptr (BVar n) 0) (Z.of_nat stop) (Z.of_nat pos))
    (eq (inl (Z.of_nat (pos + len)))) (entry_line e) st.
Proof.
  intros Hb (lo & hi & ty & rest & Hpos & Hlo & Hhi & Elen & Hty & Ety & Hd & H0) Hlt.
  unfold dirlist_entry. rewrite (proj2 (Z.ltb_lt _ _)) by lia. cbv zeta. cbn [padd].
  unfold off_d_name, off_d_type, off_d_reclen. rewrite !Z.add_0_l.
  replace (Z.of_nat pos + 19) with (Z.of_nat (pos + 19)) by lia.
  replace (Z.of_nat pos + 18) with (Z.of_nat (pos + 18)) by lia.
  replace (Z.of_nat pos + 16) with (Z.of_nat (pos + 16)) by lia.
  assert (length e.1 < 1024)%nat as Hname.
  { pose proof (length_drop l (pos + 19)) as E. rewrite Hd, length_app in E. cbn in E. lia. }
  unfold entry_line. apply string_shows; [apply Hb| |lia|].
  { exists l, rest. split_and!; [apply block_bytes_var, Hb|done|done]. }
  intros _ st1 Hs1 Hok1. pose proof (buffer_same _ _ Hb Hs1 Hok1) as Hb1. clear Hb Hs1.
  eapply shows_pure; [eapply load_at; [apply Hb1|exact Hty]|]. rewrite <- Ety.
  rewrite <- (app_nil_r (lit _)). apply say_shows; [done|apply type_suffix_ok..|].
  intros _ st2 Hs2 Hok2. pose proof (buffer_same _ _ Hb1 Hs2 Hok2) as Hb2.
  eapply shows_pure; [eapply load_u16_at; [apply Hb2|exact Hlo|by replace (pos + 16 + 1)%nat with (pos + 17)%nat by lia]|].
  apply shows_ret; [done|]. f_equal. lia.
Qed.

(** The records of a batch are printed in order. *)
Lemma batch_shows es : forall pos fuel st,
  buffer_ok st -> records l pos es stop -> (stop - pos < fuel)%nat ->
  shows (iter fuel (dirlist_entry (Ptr (BVar n) 0) (Z.of_nat stop)) (Z.of_nat pos)) anyway (entry_lines es) st.
Proof.
  induction es as [|e es IH]; intros pos [|fuel] st Hb Hr Hf; try lia; unfold shows; rewrite iter_S.
  - cbn in Hr. subst. unfold dirlist_entry. rewrite (proj2 (Z.ltb_ge _ _)) by lia.
    apply (shows_ret tt anyway); [apply Hb|done].
  - destruct Hr as (len & He & Hr). pose proof (records_le _ _ _ _ Hr) as Hle.
    assert (0 < len)%nat by (by destruct He as (? & ? & ? & ? & ? & _)).
    destruct (entry_shows pos e len st Hb He ltac:(lia)) as (v & st1 & E & <- & Hok1 & Hs1 & Ho1 & Hk1).
    rewrite E. destruct (IH (pos + len)%nat fuel st1) as (w & st2 & E2 & _ & Hok2 & Hs2 & Ho2 & Hk2);
      [by eapply buffer_same|done|lia|].
    exists w, st2. split_and!; [done|done|done|by etrans| |by etrans].
    by rewrite Ho2, Ho1, <- app_assoc.
Qed.
End batch.

(** A local object that lives through code that returns. *)
Lemma with_local_ok {T} o (body : ptr -> M T) st v st2 :
  let n := m_next (st_mem st) in
  let st1 := upd_mem {| m_objs := <[n := o]> (m_objs (st_mem st)); m_next := Pos.succ n;
                        m_base := m_base (st_mem st); m_junk := m_junk (st_mem st) |} st in
  statics_ok st ->
  statics_ok st1 /\ (body (Ptr (BVar n) 0) st1 = Ok v st2 -> statics_ok st2 ->
    exists st', with_local (alloc o) body st = Ok v st' /\ statics_ok st' /\
      stdout_of st' = stdout_of st2 /\ st_k st' = st_k st2).
Proof.
  intros n st1 [(l & Hl & Hlen) Hnext]. split.
  - split; [|cbn; lia]. exists l. cbn. rewrite lookup_insert_ne; [done|unfold n, ltoa_buffer in *; lia].
  - intros E [(l2 & Hl2 & Hlen2) Hnext2]. unfold with_local.
    erewrite bind_ok; [|apply on_mem_ok; reflexivity]. fold n st1. rewrite (bind_ok _ _ _ _ _ E).
    erewrite bind_ok; [|apply on_mem_ok; reflexivity]. eexists. split_and!; [reflexivity| |done..].
    split; [|done]. exists l2. cbn. rewrite lookup_delete_ne; [done|unfold n, ltoa_buffer in *; lia].
Qed.

(** One call of getdents64, and what it finds. *)
Lemma dirlist_turn fd ess st : statics_ok st -> listing (st_k st) fd = Some ess ->
  exists st', dirlist_body fd tt st = Ok (match ess with [] => inr tt | _ => inl tt end) st' /\ statics_ok st' /\
    stdout_of st' = stdout_of st ++ entry_lines (default [] (head ess)) /\ listing (st_k st') fd = Some (tail ess).
Proof.
  intros Hok Hlist. unfold dirlist_body. rewrite with_local_bytes.
  set (o := OBytes _). set (n := m_next (st_mem st)).
  destruct (with_local_ok o (fun p => mret p) st Null st Hok) as [Hok1 _]. fold n in Hok1.
  set (st1 := upd_mem _ st) in Hok1. assert (10 <= n)%positive as Hn by apply Hok.
  destruct (dir_read n fd (st_mem st1) (st_shm st1) (st_k st1) (junk_bytes (st_mem st) 1024) ess Hlist)
    as (m & sh & ks & l & count & E & Hl & Hlen & Hk & Hcount & Hc).
  { apply lookup_insert_eq. }
  { unfold junk_bytes. by rewrite length_fmap, length_seq. }
  destruct (call_frame _ n st1 _ _ _ _ E) as (Ec & Hok2 & Ho2 & _); [done|done|set_solver|done|done|].
  set (st2 := {| st_mem := m |}) in *.
  assert (shows (iter (S (Z.to_nat (Z.of_nat count))) (dirlist_entry (Ptr (BVar n) 0) (Z.of_nat count)) 0) anyway
    (entry_lines (default [] (head ess))) st2) as (v & st3 & E3 & _ & Hok3 & _ & Ho3 & Hk3).
  { change 0 with (Z.of_nat 0). apply batch_shows with (l := l); [done|done|by split| |lia].
    by destruct ess; [|apply Hc]. }
  destruct (with_local_ok o (fun buffer => count ← getdents64 fd buffer 1024;
    _ ← iter (S (Z.to_nat count)) (dirlist_entry buffer count) 0;
    if 0 <? count then mret (inl tt) else mret (inr tt)) st
    (match ess with [] => inr tt | _ => inl tt end) st3 Hok) as [_ Hw].
  fold n st1 in Hw. destruct Hw as (st' & E' & Hok' & Ho' & Hk').
  - unfold getdents64, ret_int. erewrite bind_ok; [|erewrite bind_ok; [reflexivity|exact Ec]].
    unfold to_int. rewrite swrap_small by lia. rewrite (bind_ok _ _ _ _ _ E3). destruct ess; [by subst|].
    by rewrite (proj2 (Z.ltb_lt _ _)) by lia.
  - done.
  - exists st'. split_and!; [exact E'|done|by rewrite Ho', Ho3, Ho2|by rewrite Hk', Hk3; exact Hk].
Qed.

Lemma dirlist_loop fd fuel ess st : statics_ok st -> listing (st_k st) fd = Some ess -> (length ess < fuel)%nat ->
  outputs (iter fuel (dirlist_body fd) tt) (entry_lines (concat ess)) st.
Proof.
  revert ess st. induction fuel as [|fuel IH]; intros ess st Hok Hlist Hf; [lia|].
  destruct (dirlist_turn fd ess st Hok Hlist) as (st1 & E & Hok1 & Ho1 & Hk1). unfold outputs. rewrite iter_S, E.
  destruct ess as [|es ess].
  - exists tt, st1. by split_and!.
  - destruct (IH ess st1 Hok1 Hk1) as (v & st2 & E2 & Hok2 & Ho2); [cbn in *; lia|].
    exists v, st2. split_and!; [done|done|]. rewrite Ho2, Ho1. cbn.
    unfold entry_lines. by rewrite bind_app, app_assoc.
Qed.

(** In the state [k] the kernel opens the directory of that name for listing,
    and gives [fd] for it. *)
Definition opens_dir (k : kstate) (path : list byte) (fd : Z) (ess : list (list entry)) : Prop :=
  forall b i m sh, cstr m b i path -> exists v m' sh' k',
    kcall (Regs NR_openat (of_int AT_FDCWD) (of_ptr (Ptr b (Z.of_nat i)))
      (of_int (Z.lor (Z.lor O_RDONLY O_NOATIME) O_DIRECTORY)) (of_int 0) None None) m sh k = KRet v m' sh' k' /\
    to_int v = fd /\ (0 <= fd -> listing k' fd = Some ess).

(** [open] leaves the program's memory as it is. *)
Lemma open_ok b i path fd ess st : statics_ok st -> cstr (st_mem st) b i path -> opens_dir (st_k st) path fd ess ->
  exists st', open (Ptr b (Z.of_nat i)) (Z.lor (Z.lor O_RDONLY O_NOATIME) O_DIRECTORY) 0 st = Ok fd st' /\
    statics_ok st' /\ mem_upto [] (st_mem st) (st_mem st') /\ stdout_of st' = stdout_of st /\
    (0 <= fd -> listing (st_k st') fd = Some ess).
Proof.
  intros Hok Hp Ho. destruct (Ho b i (st_mem st) (st_shm st) Hp) as (v & m & sh & k & E & <- & Hk).
  pose proof (kernel_mem _ _ _ _ _ _ _ _ E eq_refl) as Hm. unfold open, ret_int, SYSCALL_4.
  eexists. split; [erewrite bind_ok; [reflexivity|unfold syscall; rewrite E; reflexivity]|].
  split_and!; [|exact Hm| |exact Hk].
  - eapply statics_upto; [exact Hm|apply not_elem_of_nil|done].
  - unfold stdout_of. cbn [st_trace]. rewrite written_app. cbn. by rewrite app_nil_r.
Qed.

(** A string in a block no message changes. *)
Lemma upto_cstr m m' b i s : mem_upto [] m m' -> kept b -> cstr m b i s -> cstr m' b i s.
Proof.
  intros Hm Hb. apply same_objs_cstr; [|done]. eapply mem_upto_weaken; [|exact Hm]. apply list_subseteq_nil.
Qed.

Lemma dirlist_outputs fuel b i path fd ess st :
  statics_ok st -> kept b -> cstr (st_mem st) b i path -> Z.of_nat (length path) < 2 ^ 63 ->
  opens_dir (st_k st) path fd ess -> - 2 ^ 31 <= fd < 2 ^ 31 -> (length ess < fuel)%nat ->
  outputs (dirlist fuel (Ptr b (Z.of_nat i)))
    (if fd <? 0 then lit "Error opening directory " ++ path ++ lit ": " ++ dec_Z fd ++ lit nl
     else entry_lines (concat ess)) st.
Proof.
  intros Hok Hb Hp Hlen Hopen Hfd Hf.
  destruct (open_ok _ _ _ _ _ _ Hok Hp Hopen) as (st1 & E & Hok1 & Hm1 & Ho1 & Hk1).
  unfold dirlist, outputs. rewrite (bind_ok _ _ _ _ _ E), <- Ho1. destruct (Z.ltb_spec fd 0).
  - apply prints_outputs. apply prints_say; [done|by apply (bool_decide_unpack _)|done|]. intros st2 Hs2 Hok2.
    apply prints_bind; [apply puts_prints; [done| |done]|].
    { eapply same_objs_cstr; [exact Hs2|done|]. by eapply upto_cstr. }
    intros _ st3 _ Hok3. apply prints_say; [done|by apply (bool_decide_unpack _)|done|]. intros st4 _ Hok4.
    apply prints_write_int; [done|lia|]. intros st5 _ Hok5. rewrite <- (app_nil_r (lit nl)).
    apply prints_say; [done|by apply (bool_decide_unpack _)|done|]. intros st6 _ Hok6. by apply prints_ret.
  - by apply dirlist_loop; [|apply Hk1|].
Qed.

(** The listing of the directory that is named, or of the root. *)
Lemma cmd_ls_spec fuel st n i s path fd ess argc argv envp :
  statics_ok st -> kept (BVar n) -> cstr (st_mem st) (BVar n) i s ->
  path = default (lit "/") (head (tokens s)) -> Z.of_nat (length path) < 2 ^ 63 ->
  opens_dir (st_k st) path fd ess -> - 2 ^ 31 <= fd < 2 ^ 31 -> (length ess < fuel)%nat ->
  outputs (cmd_ls fuel argc argv envp (Ptr (BVar n) (Z.of_nat i)))
    (if fd <? 0 then lit "Error opening directory " ++ path ++ lit ": " ++ dec_Z fd ++ lit nl
     else entry_lines (concat ess)) st.
Proof.
  intros Hok Hn Hs Epath Hlen Hopen Hfd Hf. unfold cmd_ls.
  destruct (find_arg_rest _ _ _ _ Hs) as (r & Er & Hrest). unfold outputs.
  rewrite (bind_ok _ _ _ _ _ (on_mem_ok _ _ _ _ Er)), upd_mem_id.
  destruct Hrest as [[-> Et]|(j & s0 & -> & Hj & Hs0 & Et)].
  - rewrite Et in Epath. cbn [head default] in Epath. rewrite decide_True by done.
    subst path. apply (dirlist_outputs fuel (BLit "/") 0); try done. apply cstr_lit. by apply (bool_decide_unpack _).
  - destruct (cut_arg _ _ _ _ Hs0) as (m' & t & ts & i' & s' & Ec & Ea & Hm & Ht & _).
    rewrite <- Et in Ea. rewrite Ea in Epath. cbn [head default] in Epath. rewrite decide_False by done.
    rewrite (bind_ok _ _ _ _ _ (on_mem_ok _ _ _ _ Ec)).
    subst path. apply (dirlist_outputs fuel (BVar n) j t fd ess (upd_mem m' st)); try done.
    eapply statics_cut; [|exact Hm|done]. by destruct Hn; congruence.
Qed.

(** C33: [ls] lists the directory that is its first argument, or the root
    without one: every entry, in the order the kernel gives them and however it
    cuts them into batches, its name followed by what its type is shown as;
    it ends after as many calls as there are batches and one more.  The
    directory is opened with the flags of the source, in the state in which [ls]
    is called, and listed by the descriptor that gave.  When it cannot be opened
    that is said, with its name and the error. *)
Theorem cmd_ls_prints fuel st n i s path fd ess argc argv envp :
  statics_ok st -> kept (BVar n) -> cstr (st_mem st) (BVar n) i s ->
  path = default (lit "/") (head (tokens s)) -> Z.of_nat (length path) < 2 ^ 63 ->
  opens_dir (st_k st) path fd ess -> - 2 ^ 31 <= fd < 2 ^ 31 -> (length ess < fuel)%nat ->
  outputs (cmd_ls fuel argc argv envp (Ptr (BVar n) (Z.of_nat i)))
    (if fd <? 0 then lit "Error opening directory " ++ path ++ lit ": " ++ dec_Z fd ++ lit nl
     else entry_lines (concat ess)) st.
Proof. apply cmd_ls_spec. Qed.
End listing.
