(* ===== verification/Process.v ===== *)
(** * Running a program

    The whole of [busybox]: the parent waits for the child and reports its
    status; the child closes what it inherited, opens the console three times
    over, unblocks the signals and becomes the applet, with its argument vector
    in place at the moment of execveat(2). *)

From S2P Require Import Prelude Headers Outcome CMem CString Decimal Parser Machine Syscall Console Script Command CommandSpec InitSpec.

(** ** The life of a child *)

Definition clone_call {A : Abi} (cl_args : ptr) : regs :=
  Regs NR_clone3 (of_ptr cl_args) (of_ulong sizeof_clone_args) None None None None.

Definition wait_call {A : Abi} (tid : Z) (siginfo : ptr) : regs :=
  Regs NR_waitid (of_int P_PID) (of_int tid) (of_ptr siginfo) (of_int WEXITED) (of_ptr Null) None.

(** What waitid(2) promises: [ending k tid] is the process and the status with
    which the child [tid], started and not yet waited for, is going to end. *)
Class ChildKernel (K : Kernel) (A : Abi) : Type := {
  ending : kstate -> Z -> option (Z * Z);
  ending_range k tid pid status : ending k tid = Some (pid, status) ->
    - 2 ^ 31 <= pid < 2 ^ 31 /\ - 2 ^ 31 <= status < 2 ^ 31;
  ending_wait k tid pid status : ending k tid = Some (pid, status) ->
    exists fs, fs !! "si_pid" = Some pid /\ fs !! "si_status" = Some status /\
      forall n, fills k (wait_call tid (Ptr (BVar n) 0)) n fs;
  ending_write r m sh k v m' sh' k' :
    kcall r m sh k = KRet v m' sh' k' -> rax r = NR_write -> rdi r = of_int STDOUT ->
    forall tid, ending k' tid = ending k tid
}.

Section process.
Context {K : Kernel} {A : Abi} {HK : KernelOk K} {HC : ChildKernel K A}.

(** In the state [k] clone3(2), asked for a child that signals its end, returns
    [tid]: positive in the parent, whose child then ends as [pid] and [status]
    say, 0 in the child, negative when there is no child. *)
Definition clones (k : kstate) (tid pid status : Z) : Prop :=
  forall n m sh, m_objs m !! n = Some (clone_args 0 SIGCHLD) -> exists v m' sh' k',
    kcall (clone_call (Ptr (BVar n) 0)) m sh k = KRet v m' sh' k' /\ to_int v = tid /\
    (0 < tid -> ending k' tid = Some (pid, status)).

(** The memory a call may write. *)
Definition may_write (r : regs) : list positive := if writes_memory (rax r) then out_objs r else [].

Lemma call_upto r m sh k v m' sh' k' : kcall r m sh k = KRet v m' sh' k' -> mem_upto (may_write r) m m'.
Proof.
  intros E. unfold may_write. destruct (writes_memory (rax r)) eqn:Ew; [by eapply kernel_frame|by eapply kernel_mem].
Qed.

Lemma syscall_upto r st v st' : syscall r st = Ok v st' -> mem_upto (may_write r) (st_mem st) (st_mem st').
Proof.
  unfold syscall. destruct (kcall _ _ _ _) as [w m sh k|] eqn:E; [|done]. intros [= _ <-]. by eapply call_upto.
Qed.

(** ** A child on its way to execveat(2)

    It goes through a script, and the objects created before [n] stay as they
    were in [m0], apart from some the code never looks at. *)

Definition scratch : list positive := [siginfo_obj; nosignals_memrun; nosignals_busybox].

Section child.
Context (n : positive) (m0 : mem).

Definition as_before (m : mem) : Prop :=
  (forall k, (k < n)%positive -> k ∉ scratch -> m_objs m !! k = m_objs m0 !! k) /\ (n <= m_next m)%positive.

(** The call [r] leaves the objects before [n] alone. *)
Definition harmless (r : regs) : Prop := Forall (fun k => (n <= k)%positive \/ k ∈ scratch) (may_write r).

Lemma as_before_upto r m m' : harmless r -> mem_upto (may_write r) m m' -> as_before m -> as_before m'.
Proof.
  intros Hr (Hm & Hn & _) [Ho Hx]. split; [|by rewrite Hn]. intros k Hk Hs. rewrite Hm; [by apply Ho| |].
  - intros ->. apply Hs. by left.
  - intros Hin. unfold harmless in Hr. rewrite List.Forall_forall in Hr.
    destruct (Hr k) as [?|?]; [by apply list_elem_of_In|lia|done].
Qed.

Lemma as_before_call r st v st' : harmless r -> syscall r st = Ok v st' -> as_before (st_mem st) -> as_before (st_mem st').
Proof. intros Hr E. eapply as_before_upto; [exact Hr|by eapply syscall_upto]. Qed.

(** A local object comes to life. *)
Definition push_local (o : obj) (st : mach) : mach :=
  let n := m_next (st_mem st) in
  upd_mem {| m_objs := <[n := o]> (m_objs (st_mem st)); m_next := Pos.succ n;
             m_base := m_base (st_mem st); m_junk := m_junk (st_mem st) |} st.

Lemma with_local_stop {T} o (body : ptr -> M T) st e :
  body (Ptr (BVar (m_next (st_mem st))) 0) (push_local o st) = Stop e ->
  with_local (alloc o) body st = Stop e.
Proof. intros E. unfold with_local. erewrite bind_ok; [|apply on_mem_ok; reflexivity]. by apply bind_stop. Qed.

Lemma as_before_push o st : as_before (st_mem st) -> as_before (st_mem (push_local o st)).
Proof.
  intros [Ho Hx]. split; [|cbn; lia]. intros k Hk Hs. cbn. rewrite lookup_insert_ne by lia. by apply Ho.
Qed.

Lemma halts_local {T} o (body : ptr -> M T) s st :
  halts (body (Ptr (BVar (m_next (st_mem st))) 0)) s (push_local o st) -> halts (with_local (alloc o) body) s st.
Proof.
  intros H Hg. destruct (H Hg) as (st' & es & E & R). exists st', es. split; [by apply with_local_stop|exact R].
Qed.

(** A call that does not matter, or must succeed, and what follows it. *)
Lemma halts_any {T} r next (f : Z -> M T) st : as_before (st_mem st) -> harmless r ->
  (forall v st', as_before (st_mem st') -> halts (f (to_int v)) (next v) st') ->
  halts (ret_int (syscall r) ≫= f) (any_call r next) st.
Proof.
  intros Hb Hr Hf. apply halts_bind, leads_int; [done|]. intros v st' E _ _. by apply Hf, (as_before_call r st v).
Qed.

Lemma halts_checked {T} loc r call post next (f : Z -> M T) st : as_before (st_mem st) -> harmless r -> call r (st_mem st) ->
  (forall v st', syscall r st = Ok v st' -> post r (st_mem st') -> as_before (st_mem st') -> halts (f (to_int v)) (next v) st') ->
  halts (SYSCHECK loc (ret_int (syscall r)) ≫= f) (Ask call int_ok post next) st.
Proof.
  intros Hb Hr Hc Hf. apply halts_bind, leads_checked; [done|]. intros v st' E _ Hp.
  apply Hf; [exact E|exact Hp|by eapply as_before_call].
Qed.

Definition close_all : regs := Regs NR_close_range (of_int 0) (of_int (uwrap 32 (Z.lnot 0))) (of_int 0) None None None.

Lemma halts_assoc {T U V} (c : M T) (f : T -> M U) (g : U -> M V) s st :
  halts (c ≫= fun x => f x ≫= g) s st -> halts ((c ≫= f) ≫= g) s st.
Proof. unfold halts, mbind, stM_bind. by destruct (c st). Qed.

(** The console of a child: input, output, and errors on the output: the result
    of the second call is what is duplicated. *)
Definition console_script (next : script) : script :=
  int_call (Regs NR_openat (of_int AT_FDCWD) (path "/dev/console") (of_int O_RDONLY) (of_int 0) None None) (fun _ =>
  int_call (Regs NR_openat (of_int AT_FDCWD) (path "/dev/console") (of_int (Z.lor O_APPEND O_WRONLY)) (of_int 0) None None)
    (fun stdout =>
  int_call (Regs NR_dup3 (of_int (to_int stdout)) (of_int 2) (of_int 0) None None None) (fun _ => next))).

Lemma halts_console {T} l1 l2 l3 next (f : unit -> M T) st : as_before (st_mem st) ->
  (forall st', as_before (st_mem st') -> halts (f tt) next st') ->
  halts (console_fds l1 l2 l3 ≫= f) (console_script next) st.
Proof.
  intros Hb Hf. unfold console_fds, open, dup3, SYSCALL_4, SYSCALL_3, console_script.
  apply halts_assoc, halts_checked; [done|by apply List.Forall_nil|done|]. intros v1 st1 _ _ Hb1.
  apply halts_assoc, halts_checked; [done|by apply List.Forall_nil|done|]. intros v2 st2 _ _ Hb2.
  apply halts_assoc, halts_checked; [done|by apply List.Forall_nil|done|]. intros v3 st3 _ _ Hb3. by apply Hf.
Qed.

(** The signals are unblocked. *)
Definition unblock (nosignals : positive) : regs :=
  Regs NR_rt_sigprocmask (of_int SIG_SETMASK) (of_ptr (Ptr (BVar nosignals) 0)) (of_ptr Null)
    (of_ulong sizeof_sigset_t) None None.

Lemma unblock_harmless nosignals : nosignals ∈ scratch -> harmless (unblock nosignals).
Proof. intros Hn. apply List.Forall_cons; [by right|by apply List.Forall_nil]. Qed.

(** The objects a child prepares are there at each call. *)
Lemma as_before_obj m k : as_before m -> (k < n)%positive -> k ∉ scratch -> m_objs m !! k = m_objs m0 !! k.
Proof. intros [H _]. apply H. Qed.
End child.

(** An argument vector in the array [na] of 32 pointers: [hd], the pieces [ts]
    of the line [nb] and NULL. *)
Definition args_vector (m : mem) (na nb : positive) (hd : list ptr) (ts : list (list byte)) : Prop :=
  exists qs, m_objs m !! na = Some (OPtrs ((Some <$> (hd ++ qs ++ [Null])) ++
      replicate (31 - length hd - length ts) None)) /\
    points_to m nb qs ts.

Lemma args_vector_same m m' na nb hd ts :
  m_objs m' !! na = m_objs m !! na -> m_objs m' !! nb = m_objs m !! nb ->
  args_vector m na nb hd ts -> args_vector m' na nb hd ts.
Proof.
  intros Ha Hb (qs & Hq & Hp). exists qs. split; [by rewrite Ha|].
  eapply Forall2_impl; [|exact Hp]. intros q t (i & -> & Hc). exists i. split; [done|]. by eapply cstr_other.
Qed.

Lemma not_scratch k : (10 <= k)%positive -> k ∉ scratch.
Proof. unfold scratch, siginfo_obj, nosignals_memrun, nosignals_busybox. set_unfold. lia. Qed.

(** The vector and the environment stay as they are up to the execveat. *)
Lemma vector_kept st na nb hd ts m : let ne := m_next (st_mem st) in
  as_before (Pos.succ ne) (st_mem (push_local empty_env st)) m ->
  (10 <= na)%positive -> (na < ne)%positive -> nb ∉ scratch -> (nb < ne)%positive ->
  args_vector (st_mem st) na nb hd ts ->
  args_vector m na nb hd ts /\ m_objs m !! ne = Some empty_env.
Proof.
  intros ne Hm Hna Hne Hnb Hlt Hv. assert (10 <= ne)%positive as Hne10 by lia. split.
  - eapply args_vector_same; [| |exact Hv].
    + rewrite (as_before_obj _ _ _ _ Hm) by (apply not_scratch, Hna || lia). apply lookup_insert_ne. fold ne. lia.
    + rewrite (as_before_obj _ _ _ _ Hm) by (exact Hnb || lia). apply lookup_insert_ne. fold ne. lia.
  - rewrite (as_before_obj _ _ _ _ Hm) by (apply not_scratch, Hne10 || lia). apply lookup_insert_eq.
Qed.

(** The object of the line. *)
Definition line_of (nb : positive) (st : mach) : Prop := nb ∉ scratch /\ (nb < m_next (st_mem st))%positive.

Hypothesis Hmax : 32 <= ARG_MAX.

(** ** The child of [busybox] *)

Definition exec_call (args envp : ptr) : regs :=
  Regs NR_execveat (of_int AT_FDCWD) (path "/busybox") (of_ptr args) (of_ptr envp) (of_int 0) None.

(** The child of [busybox], with the arguments [ts] on the line [nb]. *)
Definition child_script (nb : positive) (command : ptr) (ts : list (list byte)) : script :=
  any_call close_all (fun _ => console_script (
  int_call (unblock nosignals_busybox) (fun _ =>
  Last (fun r m => exists na ne, r = exec_call (Ptr (BVar na) 0) (Ptr (BVar ne) 0) /\
    args_vector m na nb [lit_ptr "/busybox"; command] ts /\ m_objs m !! ne = Some empty_env)))).

(** The clone3(2) that starts a child, for the child. *)
Definition forked (next : script) : script :=
  Ask (fun r m => exists n, r = clone_call (Ptr (BVar n) 0) /\ m_objs m !! n = Some (clone_args 0 SIGCHLD))
    (fun v => to_int v = 0) no_post (fun _ => next).

Lemma busybox_child_halts st nb lo command next ts l :
  (10 <= m_next (st_mem st))%positive -> line_of nb st ->
  m_objs (st_mem st) !! nb = Some (OBytes l) -> rest_at (st_mem st) nb lo next ts -> (length ts <= 29)%nat ->
  halts (busybox_child command next) (child_script nb command ts) st.
Proof.
  intros Hst [Hn1 Hn2] Hl Hrest Hts. unfold busybox_child.
  set (na := m_next (st_mem st)) in *.
  replace (Z.to_nat MAX_ARGS) with 32%nat by (by rewrite MAX_ARGS_32).
  apply halts_local. fold na. set (st1 := push_local _ st). assert (na <> nb) as Hne by lia.
  assert (m_objs (st_mem st1) !! nb = m_objs (st_mem st) !! nb) as Hnb1 by (cbn; by rewrite lookup_insert_ne).
  destruct (busybox_args_spec Hmax st1 nb na lo command next ts l Hne) as [H1 _].
  { apply lookup_insert_eq. }
  { by rewrite Hnb1. }
  { destruct Hrest as [?|(i & s & -> & Hi & Hs & ->)]; [by left|]. right. exists i, s.
    split_and!; [done|done|by eapply cstr_other|done]. }
  destruct (H1 Hts) as (m2 & qs & E2 & Ha2 & Hq2 & _ & Hnext2). clear H1.
  apply halts_bind. eapply leads_quiet; [exact E2|done..|]. apply halts_local.
  set (st2 := upd_mem m2 st1). set (ne := m_next (st_mem st2)).
  assert (ne = Pos.succ na) as Hne2 by exact Hnext2. set (st3 := push_local empty_env st2).
  assert (as_before (Pos.succ ne) (st_mem st3) (st_mem st3)) as Hb3 by done.
  apply (halts_any (Pos.succ ne) (st_mem st3)); [done|by apply List.Forall_nil|]. intros _ st4 Hb4.
  apply halts_console with (n := Pos.succ ne) (m0 := st_mem st3); [done|]. intros st5 Hb5.
  apply (halts_checked (Pos.succ ne) (st_mem st3)); [done|by apply unblock_harmless; cbn; set_solver|done|].
  intros _ st6 _ _ Hb6. apply halts_assoc, halts_last. exists na, ne. split; [done|].
  apply (vector_kept st2); [exact Hb6|done|fold ne; lia|done|fold ne; lia|by exists qs].
Qed.

(** ** Forking *)

(** The code after clone3(2) prints what the whole prints. *)
Lemma outputs_clone {T} tid pid status (f : Z -> M T) s st : statics_ok st -> clones (st_k st) tid pid status ->
  (forall st', statics_ok st' -> (0 < tid -> ending (st_k st') tid = Some (pid, status)) -> outputs (f tid) s st') ->
  outputs (with_local (alloc (clone_args 0 SIGCHLD)) (fun cl_args => clone3 cl_args sizeof_clone_args ≫= f)) s st.
Proof.
  intros Hok Hc Hf. apply outputs_with_local; [done|]. intros st1 Hok1 Hn Ho1 Hk1 _. rewrite <- Hk1 in Hc.
  set (n := m_next (st_mem st)) in *. assert (10 <= n)%positive as Hn10 by apply Hok.
  destruct (Hc n (st_mem st1) (st_shm st1) Hn) as (v & m & sh & k & E & <- & Hend).
  destruct (call_frame _ n st1 _ _ _ _ E) as (Ec & Hok' & Ho & _); [done|done|cbn; set_solver|done|done|].
  unfold outputs, clone3, ret_int, SYSCALL_2. erewrite bind_ok; [|erewrite bind_ok; [reflexivity|exact Ec]].
  rewrite <- Ho. by apply Hf.
Qed.

(** The child starts with the objects there were. *)
Lemma halts_forked {T} (f : Z -> M T) next st : statics_ok st ->
  let n0 := m_next (st_mem st) in
  (forall st', (10 <= m_next (st_mem st'))%positive -> (n0 < m_next (st_mem st'))%positive ->
     (forall k, (k < n0)%positive -> k ∉ scratch -> m_objs (st_mem st') !! k = m_objs (st_mem st) !! k) ->
     halts (f 0) next st') ->
  halts (with_local (alloc (clone_args 0 SIGCHLD)) (fun cl_args => clone3 cl_args sizeof_clone_args ≫= f)) (forked next) st.
Proof.
  intros Hok n0 Hf. assert (10 <= n0)%positive as Hn0 by apply Hok. apply halts_local. fold n0.
  set (st1 := push_local _ st). apply halts_bind. unfold clone3, SYSCALL_2, forked. apply leads_int.
  { exists n0. split; [done|apply lookup_insert_eq]. }
  intros v st2 E -> _. destruct (syscall_upto _ _ _ _ E) as (Hm & Hx & _). cbn in Hx. apply Hf; [lia|lia|].
  intros k Hk Hs. rewrite Hm; [cbn; by rewrite lookup_insert_ne by (fold n0; lia)| |].
  - intros ->. apply Hs. by left.
  - unfold may_write, out_objs. cbn. rewrite list_elem_of_singleton. fold n0. lia.
Qed.

(** The report of the parent, once the child has ended. *)
Lemma parent_reports tid pid status st :
  statics_ok st -> ending (st_k st) tid = Some (pid, status) ->
  outputs (with_local (alloc (OStruct ∅)) (fun siginfo =>
    _ ← SYSCHECK (command_c "219") (waitid P_PID tid siginfo WEXITED Null);
    _ ← say "Busybox exited with status ";
    status ← on_mem (load_field siginfo "si_status");
    _ ← write_int (uwrap 64 status);
    _ ← say nl;
    mret tt)) (lit "Busybox exited with status " ++ dec_Z status ++ lit nl) st.
Proof.
  intros Hok He. destruct (ending_range _ _ _ _ He) as [_ Hs]. destruct (ending_wait _ _ _ _ He) as (fs & _ & Hfs & Hf).
  apply (outputs_query _ (wait_call tid) fs); [done|done|done|intros n; cbn; set_solver|].
  intros n st1 Hn Hok1 Hobj.
  apply prints_say; [done|by apply (bool_decide_unpack _)|done|]. intros st2 Hs2 Hok2.
  apply (same_objs_lookup _ _ _ _ Hs2) in Hobj; [|done].
  eapply prints_load_field; [exact Hobj|exact Hfs|]. apply prints_write_int; [done|lia|]. intros st3 _ Hok3.
  rewrite <- (app_nil_r (lit nl)).
  apply prints_say; [done|by apply (bool_decide_unpack _)|done|]. intros st4 _ Hok4. by apply prints_ret.
Qed.

(** What the parent reports: the failure of clone3, or [report]. *)
Definition child_report (tid : Z) (report : list byte) : list byte :=
  if tid <? 0 then lit "clone3 error" ++ lit ": " ++ dec_Z tid ++ lit nl else report.

Definition busybox_report (status : Z) : list byte := lit "Busybox exited with status " ++ dec_Z status ++ lit nl.

(** [busybox] in the parent, or without a child. *)
Lemma busybox_outputs st nb i s command tid pid status :
  statics_ok st -> cstr (st_mem st) (BVar nb) i s -> clones (st_k st) tid pid status -> tid <> 0 -> - 2 ^ 31 <= tid ->
  outputs (busybox command (Ptr (BVar nb) (Z.of_nat i))) (child_report tid (busybox_report status)) st.
Proof.
  intros Hok Hs Hclone Hne Htid. destruct (find_arg_rest _ _ _ _ Hs) as (next & Er & _).
  unfold busybox, outputs. rewrite (bind_ok _ _ _ _ _ (on_mem_ok _ _ _ _ Er)), upd_mem_id.
  apply (outputs_clone tid pid status); [done..|]. intros st1 Hok1 He. unfold child_report. destruct (Z.ltb_spec tid 0).
  - rewrite (proj2 (Z.ltb_ge _ _)), (proj2 (Z.eqb_neq _ _)) by lia.
    apply prints_outputs, WRITE_ERR_prints; [done|by apply (bool_decide_unpack _)|done|lia].
  - rewrite (proj2 (Z.ltb_lt _ _)) by lia. apply (parent_reports tid pid status); [done|]. apply He. lia.
Qed.

(** C8: [busybox] runs the applet [command] with the rest of the line.  It
    starts a child; the parent waits for it and prints its status, and when
    there is no child the error is printed.  The child, with at most 29
    arguments and a kernel that grants its calls, makes these and no others: it
    closes every descriptor, opens the console for input, opens it for output,
    makes that second descriptor the one of the errors too, unblocks the signals
    and executes /busybox; at that moment its argument vector is "/busybox",
    the command, the arguments of the line in order and NULL, and its
    environment is empty. *)
Theorem busybox_runs st nb i s l command :
  statics_ok st -> line_of nb st -> m_objs (st_mem st) !! nb = Some (OBytes l) -> cstr (st_mem st) (BVar nb) i s ->
  (forall tid pid status, clones (st_k st) tid pid status -> tid <> 0 -> - 2 ^ 31 <= tid ->
     outputs (busybox command (Ptr (BVar nb) (Z.of_nat i))) (child_report tid (busybox_report status)) st) /\
  (let child := forked (child_script nb command (tokens s)) in
   (length (tokens s) <= 29)%nat -> grants child (st_shm st) (st_k st) ->
   exists st' es, busybox command (Ptr (BVar nb) (Z.of_nat i)) st = Stop (Halted st') /\
     st_trace st' = st_trace st ++ es /\ follows child es).
Proof.
  intros Hok [Hnb Hlt] Hl Hs. split; [intros; by eapply busybox_outputs|]. intros child Hts.
  destruct (find_arg_rest _ _ _ _ Hs) as (next & Er & Hrest).
  unfold busybox. rewrite (bind_ok _ _ _ _ _ (on_mem_ok _ _ _ _ Er)), upd_mem_id.
  apply halts_forked; [done|]. intros st1 H10 Hn1 Hsame. pose proof (Hsame nb Hlt Hnb) as Enb.
  apply (busybox_child_halts st1 nb i command next (tokens s) l); [done|split; [done|lia]|by rewrite Enb| |done].
  destruct Hrest as [?|(j & s0 & -> & Hj & Hs0 & ->)]; [by left|]. right. exists j, s0.
  split_and!; [done|done|by eapply cstr_other|done].
Qed.
End process.
