(* ===== verification/Memrun.v ===== *)
(** * Running a program from memory

    The whole of [cmd_memrun]: the parent reports its child; the child copies
    the file into a file in memory and executes that, with its argument vector
    and the path it opened as they were on the line. *)

From S2P Require Import Prelude Headers Outcome CMem CString Decimal Parser Machine Syscall Console Script Command CommandSpec InitSpec Process.

(** The arguments of the program: what [fill_args] finds after the path, from
    the byte behind the blank that ends it. *)
Definition program_args (s : list byte) : list (list byte) :=
  let path := drop (lead blank s) s in args_of (drop (S (lead nonblank path)) path).

Section memrun.
Context {K : Kernel} {A : Abi} {HK : KernelOk K} {HC : ChildKernel K A}.
Hypothesis Hmax : 32 <= ARG_MAX.

Definition memfd_call : regs := Regs NR_memfd_create (path "") (of_int 0) None None None None.

Definition open_call (file how : ptr) : regs :=
  Regs NR_openat2 (of_int AT_FDCWD) (of_ptr file) (of_ptr how) (of_ulong sizeof_open_how) None None.

Definition stat_call (fd : Z) (stats : ptr) : regs :=
  Regs NR_newfstatat (of_int fd) (path "") (of_ptr stats) (of_int AT_EMPTY_PATH) None None.

Definition copy_call (infd : Z) (inp : ptr) (outfd : Z) (out : ptr) (size : Z) : regs :=
  Regs NR_copy_file_range (of_int infd) (of_ptr inp) (of_int outfd) (of_ptr out) (of_ulong (uwrap 64 size)) (of_int 0).

Definition memrun_exec (memfd : Z) (args envp : ptr) : regs :=
  Regs NR_execveat (of_int memfd) (path "") (of_ptr args) (of_ptr envp) (of_int AT_EMPTY_PATH) None.

(** An offset of copy_file_range(2) that is the start of the file. *)
Definition from_start : obj := OStruct {["off64_t" := 0]}.

(** The structure the kernel filled says that the file is [size] long. *)
Definition tells_size (size : Z) : regs -> mem -> Prop := fun r m =>
  forall fd n, r = stat_call fd (Ptr (BVar n) 0) -> exists fs, m_objs m !! n = Some (OStruct fs) /\ fs !! "st_size" = Some size.

(** From the file in memory to the copy, and then [next], which is given the
    descriptor of the file in memory. *)
Definition copy_script (size : Z) (nb : positive) (j : nat) (file : list byte) (next : Z -> script) : script :=
  any_call memfd_call (fun memfd =>
  Ask (fun r m => exists how, r = open_call (Ptr (BVar nb) (Z.of_nat j)) (Ptr (BVar how) 0) /\
      m_objs m !! how = Some (open_how O_CLOEXEC) /\ cstr m (BVar nb) j file) int_ok no_post (fun infd =>
  Ask (fun r m => exists stats, r = stat_call (to_int infd) (Ptr (BVar stats) 0) /\ is_Some (m_objs m !! stats))
    int_ok (tells_size size) (fun _ =>
  Ask (fun r m => exists inp out, r = copy_call (to_int infd) (Ptr (BVar inp) 0) (to_int memfd) (Ptr (BVar out) 0) size /\
      m_objs m !! inp = Some from_start /\ m_objs m !! out = Some from_start) long_ok no_post (fun _ => next memfd)))).

(** The child of [memrun], for the file named at [j] on the line [nb], which is
    [size] bytes long, and the arguments [ts]. *)
Definition memrun_script (size : Z) (nb : positive) (j : nat) (file : list byte) (ts : list (list byte)) : script :=
  any_call close_all (fun _ => console_script (copy_script size nb j file (fun memfd =>
  int_call (unblock nosignals_memrun) (fun _ =>
  Last (fun r m => exists na ne, r = memrun_exec (to_int memfd) (Ptr (BVar na) 0) (Ptr (BVar ne) 0) /\
    args_vector m na nb [Ptr (BVar nb) (Z.of_nat j)] ts /\ cstr m (BVar nb) j file /\ m_objs m !! ne = Some empty_env))))).

Section copying.
Context (n : positive) (m0 : mem) (size : Z) (nb : positive) (j : nat) (file : list byte).
Hypothesis Hnb : (nb < n)%positive /\ nb ∉ scratch.
Hypothesis Hfile : cstr m0 (BVar nb) j file.

Lemma file_there m : as_before n m0 m -> cstr m (BVar nb) j file.
Proof. intros Hb. eapply cstr_other; [|exact Hfile]. by apply (as_before_obj n m0); [|apply Hnb..]. Qed.

(** The size is asked for, and with it two offsets are prepared. *)
Lemma halts_stat {T} loc infd stats next (f : Z -> M T) st : as_before n m0 (st_mem st) -> (n <= stats)%positive ->
  is_Some (m_objs (st_mem st) !! stats) ->
  (forall v st' fs, as_before n m0 (st_mem st') -> m_next (st_mem st') = m_next (st_mem st) ->
     m_objs (st_mem st') !! stats = Some (OStruct fs) -> fs !! "st_size" = Some size -> halts (f v) next st') ->
  halts (SYSCHECK loc (fstatat (to_int infd) (lit_ptr "") (Ptr (BVar stats) 0) AT_EMPTY_PATH) ≫= f)
    (Ask (fun r m => exists stats, r = stat_call (to_int infd) (Ptr (BVar stats) 0) /\ is_Some (m_objs m !! stats))
       int_ok (tells_size size) (fun _ => next)) st.
Proof.
  intros Hb Hk Ho Hf. unfold fstatat, SYSCALL_4. apply (halts_checked n m0); [done| |by exists stats|].
  { apply List.Forall_cons; [by left|]. by apply List.Forall_nil. }
  intros v st' E Hp Hb'. destruct (Hp _ _ eq_refl) as (fs & Hs & Hsize).
  apply (Hf _ _ fs); [done| |done..]. by apply syscall_upto in E as (_ & ? & _).
Qed.

(** From the file in memory to the last call. *)
Lemma memrun_copies {T} next (f : Z -> M T) st : as_before n m0 (st_mem st) ->
  (forall memfd st', as_before n m0 (st_mem st') -> halts (f (to_int memfd)) (next memfd) st') ->
  halts (memfd ← memfd_create 0;
      with_local (alloc (open_how O_CLOEXEC)) (fun how =>
        infd ← SYSCHECK (command_c "183") (openat2 AT_FDCWD (Ptr (BVar nb) (Z.of_nat j)) how sizeof_open_how);
        with_local (alloc (OStruct ∅)) (fun stats =>
          _ ← SYSCHECK (command_c "187") (fstatat infd (lit_ptr "") stats AT_EMPTY_PATH);
          with_local (alloc (OStruct {["off64_t" := 0]})) (fun inp =>
          with_local (alloc (OStruct {["off64_t" := 0]})) (fun out =>
            size ← on_mem (load_field stats "st_size");
            _ ← SYSCHECK (command_c "191") (copy_file_range infd inp memfd out (uwrap 64 size) 0);
            f memfd))))) (copy_script size nb j file next) st.
Proof.
  intros Hb Hf. unfold memfd_create, SYSCALL_2, copy_script.
  apply (halts_any n m0); [done|by apply List.Forall_nil|]. intros memfd st1 Hb1.
  apply halts_local. set (how := m_next (st_mem st1)). apply (as_before_push n m0 (open_how O_CLOEXEC)) in Hb1 as Hb2.
  set (st2 := push_local _ st1) in *. unfold openat2, SYSCALL_4.
  apply (halts_checked n m0); [done|by apply List.Forall_nil| |].
  { exists how. split_and!; [done|apply lookup_insert_eq|by apply file_there]. }
  intros infd st3 _ _ Hb3. apply halts_local. set (stats := m_next (st_mem st3)).
  apply (as_before_push n m0 (OStruct ∅)) in Hb3 as Hb4. set (st4 := push_local _ st3) in *.
  apply halts_stat; [done|apply Hb3|eexists; apply lookup_insert_eq|]. intros _ st5 fs Hb5 Hnext Hobj Hsize.
  do 2 apply halts_local. set (inp := m_next (st_mem st5)). set (st6 := push_local _ st5).
  set (out := m_next (st_mem st6)). set (st7 := push_local _ st6).
  assert (as_before n m0 (st_mem st7)) as Hb7 by (by do 2 apply as_before_push).
  assert (out = Pos.succ inp) as Eout by done. assert (stats < inp)%positive as Hlt by (unfold inp; rewrite Hnext; cbn; unfold stats; lia).
  apply halts_bind, leads_mem with (v := size) (m := st_mem st7).
  { cbn. rewrite !lookup_insert_ne by (fold inp; lia). by rewrite Hobj, Hsize. }
  rewrite upd_mem_id. unfold copy_file_range, SYSCALL_6. apply halts_bind, leads_checked_long.
  { exists inp, out. split_and!; [done| |apply lookup_insert_eq]. cbn. rewrite lookup_insert_ne; [apply lookup_insert_eq|].
    fold inp. lia. }
  intros v st8 E _ _. apply Hf. eapply as_before_call; [|exact E|exact Hb7].
  destruct Hb5 as [_ Hx]. repeat (apply List.Forall_cons; [left; cbn; lia|]). by apply List.Forall_nil.
Qed.
End copying.

Lemma memrun_child_halts st nb j t i s l size :
  (10 <= m_next (st_mem st))%positive -> line_of nb st ->
  m_objs (st_mem st) !! nb = Some (OBytes l) -> cstr (st_mem st) (BVar nb) j t -> (j + length t <= i)%nat ->
  cstr (st_mem st) (BVar nb) i s -> (length (args_of s) <= 30)%nat ->
  halts (memrun_child (Ptr (BVar nb) (Z.of_nat j)) (Ptr (BVar nb) (Z.of_nat i))) (memrun_script size nb j t (args_of s)) st.
Proof.
  intros Hst [Hn1 Hn2] Hl Ht Hji Hs Hlen. unfold memrun_child.
  set (na := m_next (st_mem st)) in *. set (file := Ptr (BVar nb) (Z.of_nat j)).
  replace (Z.to_nat MAX_ARGS) with 32%nat by (by rewrite MAX_ARGS_32).
  apply halts_local. fold na. set (st1 := push_local _ st). assert (na <> nb) as Hne by lia.
  assert (m_objs (st_mem st1) !! nb = m_objs (st_mem st) !! nb) as Hnb1 by (cbn; by rewrite lookup_insert_ne).
  destruct (memrun_args_spec Hmax st1 nb na i s file Hne) as [H1 _].
  { apply lookup_insert_eq. }
  { by eapply cstr_other. }
  destruct (H1 Hlen) as (m2 & qs & E2 & Ha2 & Hq2 & _ & Hnext2 & l1 & l2 & Hl1 & Hl2 & Hcut). clear H1.
  apply halts_bind. eapply leads_quiet; [exact E2|done..|]. apply halts_local.
  set (st2 := upd_mem m2 st1). set (ne := m_next (st_mem st2)).
  assert (ne = Pos.succ na) as Hne2 by exact Hnext2. set (st3 := push_local empty_env st2).
  assert (cstr (st_mem st3) (BVar nb) j t) as Ht3.
  { apply (cstr_other m2); [apply lookup_insert_ne; fold ne; lia|].
    eapply cut_from_cstr; [exact Hl1|exact Hl2|exact Hcut|by eapply cstr_other|done]. }
  assert (as_before (Pos.succ ne) (st_mem st3) (st_mem st3)) as Hb3 by done.
  assert ((nb < Pos.succ ne)%positive /\ nb ∉ scratch) as Hnb by (split; [lia|done]).
  apply (halts_any (Pos.succ ne) (st_mem st3)); [done|by apply List.Forall_nil|]. intros _ st4 Hb4.
  apply halts_console with (n := Pos.succ ne) (m0 := st_mem st3); [done|]. intros st5 Hb5.
  apply (memrun_copies (Pos.succ ne) (st_mem st3) size nb j t Hnb Ht3
    (fun memfd => int_call _ (fun _ => Last _)) (fun memfd => _ ← SYSCHECK _ _; execres ← execveat memfd _ _ _ _; _)); [done|].
  intros memfd st6 Hb6.
  apply (halts_checked (Pos.succ ne) (st_mem st3)); [done|by apply unblock_harmless; cbn; set_solver|done|].
  intros _ st7 _ _ Hb7. apply halts_assoc, halts_last. exists na, ne. split; [done|].
  assert (cstr (st_mem st7) (BVar nb) j t) as Ht7 by (by eapply file_there; [exact Hnb|exact Ht3|exact Hb7]).
  destruct (vector_kept st2 na nb [file] (args_of s) _ Hb7) as [Hv He]; [done|fold ne; lia|done|fold ne; lia|by exists qs|].
  by split_and!.
Qed.

Definition memrun_report (tid pid status : Z) : list byte :=
  lit "Forked process " ++ dec_Z tid ++ lit nl ++ lit "Child process " ++ dec_Z pid ++
  lit " exited with status " ++ dec_Z status ++ lit nl.

(** The report of the parent, once the child has ended. *)
Lemma memrun_parent_reports tid pid status st : statics_ok st -> 0 < tid < 2 ^ 31 -> ending (st_k st) tid = Some (pid, status) ->
  outputs (_ ← say "Forked process ";
        _ ← write_int (uwrap 64 tid);
        _ ← say nl;
        with_local (alloc (OStruct ∅)) (fun siginfo =>
          _ ← SYSCHECK (command_c "153") (waitid P_PID tid siginfo WEXITED Null);
          _ ← say "Child process ";
          pid ← on_mem (load_field siginfo "si_pid");
          _ ← write_int (uwrap 64 pid);
          _ ← say " exited with status ";
          status ← on_mem (load_field siginfo "si_status");
          _ ← write_int (uwrap 64 status);
          _ ← say nl;
          mret tt))
    (memrun_report tid pid status) st.
Proof.
  intros Hok Htid He. destruct (ending_range _ _ _ _ He) as [Hpid Hs].
  set (P := fun k => ending k tid = Some (pid, status)).
  assert (forall r m sh k v m' sh' k', kcall r m sh k = KRet v m' sh' k' -> rax r = NR_write -> rdi r = of_int STDOUT ->
    P k -> P k') as HP.
  { unfold P. intros r m sh k v m' sh' k' E Hr Hd <-. by eapply ending_write. }
  apply (outputs_say P HP); [done|exact He|by apply (bool_decide_unpack _)|done|]. intros st1 Hok1 He1.
  apply (outputs_write_int P HP); [done|exact He1|lia|]. intros st2 Hok2 He2.
  apply (outputs_say P HP); [done|exact He2|by apply (bool_decide_unpack _)|done|]. intros st3 Hok3 He3.
  destruct (ending_wait _ _ _ _ He3) as (fs & Hfp & Hfs & Hf).
  apply (outputs_query _ (wait_call tid) fs); [done|done|done|intros n; cbn; set_solver|].
  intros n st4 Hn Hok4 Hobj.
  apply prints_say; [done|by apply (bool_decide_unpack _)|done|]. next_print Hobj.
  eapply prints_load_field; [exact Hobj|exact Hfp|]. apply prints_write_int; [done|lia|]. next_print Hobj.
  apply prints_say; [done|by apply (bool_decide_unpack _)|done|]. next_print Hobj.
  eapply prints_load_field; [exact Hobj|exact Hfs|]. apply prints_write_int; [done|lia|]. next_print Hobj.
  rewrite <- (app_nil_r (lit nl)).
  apply prints_say; [done|by apply (bool_decide_unpack _)|done|]. next_print Hobj. by apply prints_ret.
Qed.

(** The path on the line, cut off. *)
Lemma memrun_cuts st nb i s argc argv envp : statics_ok st -> nb <> ltoa_buffer -> cstr (st_mem st) (BVar nb) i s ->
  match tokens s with
  | [] => cmd_memrun argc argv envp (Ptr (BVar nb) (Z.of_nat i)) st =
      (_ ← say ("No file path specified." +:+ nl); mret tt) st
  | file :: _ => let j := (i + lead blank s)%nat in exists m i' s', let st1 := upd_mem m st in
      same_but nb j (st_mem st) m /\ cstr m (BVar nb) j file /\ (j + length file <= i')%nat /\
      cstr m (BVar nb) i' s' /\ program_args s = args_of s' /\ statics_ok st1 /\
      cmd_memrun argc argv envp (Ptr (BVar nb) (Z.of_nat i)) st =
        with_local (alloc (clone_args 0 SIGCHLD)) (fun cl_args => clone3 cl_args sizeof_clone_args ≫= fun tid =>
          if 0 <? tid then
            _ ← say "Forked process ";
            _ ← write_int (uwrap 64 tid);
            _ ← say nl;
            with_local (alloc (OStruct ∅)) (fun siginfo =>
              _ ← SYSCHECK (command_c "153") (waitid P_PID tid siginfo WEXITED Null);
              _ ← say "Child process ";
              pid ← on_mem (load_field siginfo "si_pid");
              _ ← write_int (uwrap 64 pid);
              _ ← say " exited with status ";
              status ← on_mem (load_field siginfo "si_status");
              _ ← write_int (uwrap 64 status);
              _ ← say nl;
              mret tt)
          else if tid =? 0 then memrun_child (Ptr (BVar nb) (Z.of_nat j)) (Ptr (BVar nb) (Z.of_nat i'))
          else WRITE_ERR "clone3 error" tid) st1
  end.
Proof.
  intros Hok Hbuf Hs. unfold cmd_memrun.
  pose proof (find_arg_correct _ _ _ _ Hs) as Er. pose proof (lead_le blank s) as Hle. rewrite (tokens_skip s).
  set (s0 := drop (lead blank s) s) in *. set (j := (i + lead blank s)%nat) in *.
  case_decide as E; rewrite (bind_ok _ _ _ _ _ (on_mem_ok _ _ _ _ Er)), upd_mem_id.
  { unfold s0. rewrite E, drop_all. by rewrite decide_True by done. }
  assert (cstr (st_mem st) (BVar nb) j s0) as Hs0 by (apply cstr_drop; [done|lia]).
  assert (s0 <> []) as Hne.
  { intros E0. apply (f_equal length) in E0. unfold s0 in E0. rewrite length_drop in E0. cbn in E0. lia. }
  destruct (cut_arg _ _ _ _ Hs0) as (m1 & file & ts & i' & s' & Ec & Ea & Hm & Hfile & Hi' & Hs' & _ & Es').
  assert (program_args s = args_of s') as Hargs.
  { unfold program_args. fold s0. rewrite Es'. rewrite args_of_unfold in Ea. injection Ea as <- _.
    by rewrite length_take, Nat.min_l by apply lead_le. }
  destruct s0 as [|c s1] eqn:Es0; [done|]. rewrite <- Es0 in *. rewrite Ea. rewrite decide_False by done.
  rewrite (bind_ok _ _ _ _ _ (on_mem_ok _ _ _ _ Ec)). cbv zeta. fold j. exists m1, i', s'.
  split_and!; [done..|by eapply statics_cut|done].
Qed.

(** [memrun] in the parent, or without a child, or without a path. *)
Lemma memrun_outputs st nb i s tid pid status argc argv envp :
  statics_ok st -> nb <> ltoa_buffer -> cstr (st_mem st) (BVar nb) i s ->
  clones (st_k st) tid pid status -> tid <> 0 -> - 2 ^ 31 <= tid < 2 ^ 31 ->
  outputs (cmd_memrun argc argv envp (Ptr (BVar nb) (Z.of_nat i)))
    match tokens s with
    | [] => lit ("No file path specified." +:+ nl)
    | _ => child_report tid (memrun_report tid pid status)
    end st.
Proof.
  intros Hok Hbuf Hs Hclone Hne Htid. pose proof (memrun_cuts st nb i s argc argv envp Hok Hbuf Hs) as Hcut.
  unfold outputs. destruct (tokens s) as [|file ts].
  { rewrite Hcut. rewrite <- (app_nil_r (lit _)). apply prints_outputs, prints_say; [done|by apply (bool_decide_unpack _)|done|].
    intros st1 _ Hok1. by apply prints_ret. }
  destruct Hcut as (m & i' & s' & _ & _ & _ & _ & _ & Hok1 & ->).
  change (stdout_of st) with (stdout_of (upd_mem m st)).
  apply (outputs_clone tid pid status); [done..|]. intros st2 Hok2 He. unfold child_report. destruct (Z.ltb_spec tid 0).
  - rewrite (proj2 (Z.ltb_ge _ _)), (proj2 (Z.eqb_neq _ _)) by lia.
    apply prints_outputs, WRITE_ERR_prints; [done|by apply (bool_decide_unpack _)|done|lia].
  - rewrite (proj2 (Z.ltb_lt _ _)) by lia. apply memrun_parent_reports; [done|lia|apply He; lia].
Qed.

(** C7: [memrun] runs a file with the rest of the line.  Without a path it says
    so.  Otherwise it starts a child; the parent names it, waits for it and
    prints its status, and when there is no child that is reported.  The child,
    with at most 30 pieces of line after the path and a kernel that grants its
    calls, makes these and no others: it closes every descriptor; opens the
    console for input, opens it for output, and makes that second descriptor the
    one of the errors; makes a file in memory; opens the path of the line, with
    [O_CLOEXEC]; asks for the size of what it opened; copies that many bytes
    from its start to the start of the file in memory; unblocks the signals; and
    executes the file in memory.  At that last call the argument vector is the
    path, the pieces after it and NULL, and the environment is empty. *)
Theorem memrun_runs st nb i s l argc argv envp :
  statics_ok st -> line_of nb st -> nb <> ltoa_buffer -> m_objs (st_mem st) !! nb = Some (OBytes l) ->
  cstr (st_mem st) (BVar nb) i s ->
  (forall tid pid status, clones (st_k st) tid pid status -> tid <> 0 -> - 2 ^ 31 <= tid < 2 ^ 31 ->
     outputs (cmd_memrun argc argv envp (Ptr (BVar nb) (Z.of_nat i)))
       match tokens s with
       | [] => lit ("No file path specified." +:+ nl)
       | _ => child_report tid (memrun_report tid pid status)
       end st) /\
  (forall size file, head (tokens s) = Some file -> (length (program_args s) <= 30)%nat ->
     let child := forked (memrun_script size nb (i + lead blank s) file (program_args s)) in
     grants child (st_shm st) (st_k st) ->
     exists st' es, cmd_memrun argc argv envp (Ptr (BVar nb) (Z.of_nat i)) st = Stop (Halted st') /\
       st_trace st' = st_trace st ++ es /\ follows child es).
Proof.
  intros Hok [Hnb Hlt] Hbuf Hl Hs. split; [intros; by eapply memrun_outputs|].
  intros size file Hhead Hlen. pose proof (memrun_cuts st nb i s argc argv envp Hok Hbuf Hs) as Hcut.
  destruct (tokens s) as [|f ts]; [done|]. injection Hhead as ->. cbv zeta in *.
  destruct Hcut as (m1 & i' & s' & Hm & Hfile & Hi' & Hs' & Eargs & Hok1 & ->). rewrite Eargs in *.
  destruct Hm as (l1 & l2 & _ & _ & Em1). set (st1 := upd_mem m1 st) in *.
  change (st_shm st) with (st_shm st1). change (st_k st) with (st_k st1). change (st_trace st) with (st_trace st1).
  assert (m_next (st_mem st1) = m_next (st_mem st)) as Hx by (unfold st1; cbn; by rewrite Em1).
  apply halts_forked; [done|]. intros st2 H10 Hn1 Hsame. rewrite Hx in *.
  assert (m_objs (st_mem st2) !! nb = m_objs m1 !! nb) as Enb by (by apply Hsame).
  apply (memrun_child_halts st2 nb _ file i' s' l2 size); [done| | | |done| |done].
  - split; [done|lia].
  - rewrite Enb, Em1. apply set_obj_eq.
  - by eapply cstr_other.
  - by eapply cstr_other.
Qed.
End memrun.
