(* ===== verification/Shell.v ===== *)
(** * The shell, as its user sees it

    A specification of the command interpreter without memory, pointers or
    system calls: [shell_output] maps a command line to the text that answers
    it, in a [world] of files, directories, a clock, memory and children.
    [process_command] refines it for any kernel that answers as that world
    ([answers]). *)

From S2P Require Import Prelude Headers Outcome CMem CString Decimal Parser Machine Syscall Console Command CommandSpec InitSpec Listing Process Memrun.

(** ** The specification *)

Record world : Type := World {
  w_sec : Z; w_nsec : Z;                                  (* the clock *)
  w_total : Z; w_free : Z; w_unit : Z;                    (* the memory *)
  w_file : list byte -> Z * list (list byte) * Z;         (* descriptor, pieces, last read *)
  w_dir : list byte -> Z * list (list entry);             (* descriptor, batches of entries *)
  w_child : Z; w_pid : Z; w_status : Z                    (* clone3, and the end of the child *)
}.

Definition show_time (w : world) : list byte :=
  lit "Current Time: " ++ dec_Z (w_sec w) ++ lit " sec " ++ dec_Z (w_nsec w) ++ lit (" nsec" +:+ nl).

Definition show_usage (w : world) : list byte :=
  lit "Memory Used/Total: " ++ dec_Z ((w_total w - w_free w) * w_unit w) ++ lit "/" ++
  dec_Z (w_total w * w_unit w) ++ lit (" bytes" +:+ nl).

Definition show_dir (w : world) (path : list byte) : list byte :=
  let '(fd, ess) := w_dir w path in
  if fd <? 0 then lit "Error opening directory " ++ path ++ lit ": " ++ dec_Z fd ++ lit nl
  else entry_lines (concat ess).

Definition show_file (w : world) (path : list byte) : list byte :=
  let '(fd, cs, last) := w_file w path in
  if fd <? 0 then lit "Couldn't open file" ++ lit ": " ++ dec_Z fd ++ lit nl else
    concat cs ++ if last <? 0 then lit "Error reading file" ++ lit ": " ++ dec_Z last ++ lit nl else [].

Definition no_path : list byte := lit ("No file path specified." +:+ nl).

(** The answer to a line: [None] when the machine is switched off. *)
Definition shell_output (w : world) (vars : list (list byte)) (line : list byte) : option (list byte) :=
  match tokens line with
  | [] => Some []
  | name :: args =>
      if decide (lit "time" = name) then Some (show_time w)
      else if decide (lit "ls" = name) then Some (show_dir w (default (lit "/") (head args)))
      else if decide (lit "cat" = name) then
        Some (match args with [] => no_path | path :: _ => show_file w path end)
      else if decide (lit "env" = name) then Some (env_lines vars)
      else if decide (lit "exit" = name) then None
      else if decide (lit "usage" = name) then Some (show_usage w)
      else if decide (lit "memrun" = name) then
        Some (match args with [] => no_path | _ => child_report (w_child w) (memrun_report (w_child w) (w_pid w) (w_status w)) end)
      else Some (child_report (w_child w) (busybox_report (w_status w)))
  end.

(** ** The kernel and the world *)

Section shell.
Context {K : Kernel} {A : Abi} {HK : KernelOk K} {HF : FileKernel K} {HD : DirKernel K} {HC : ChildKernel K A}.

(** The call that switches the machine off. *)
Definition power_off : regs :=
  Regs NR_reboot (of_int LINUX_REBOOT_MAGIC1) (of_int LINUX_REBOOT_MAGIC2)
    (of_int LINUX_REBOOT_CMD_POWER_OFF) (of_ptr Null) None None.

(** The kernel in the state [k] answers as the world [w]: a call made in this
    state finds the clock, the memory, the files and directories of [w], or
    starts the child of [w], or switches the machine off, and the console takes
    output.  Of other states nothing is said; what is opened or started is
    followed by the kernel's own state ([reading], [listing], [ending]).  Reading
    a file or a directory takes fewer than [fuel] calls. *)
Record answers (fuel : nat) (w : world) (k : kstate) : Prop := {
  an_clock : - 2 ^ 63 < w_sec w < 2 ^ 63 /\ 0 <= w_nsec w < 1000000000 /\
    exists fs, fs !! "tv_sec" = Some (w_sec w) /\ fs !! "tv_nsec" = Some (w_nsec w) /\
      forall n, fills k (Regs NR_clock_gettime (of_int CLOCK_REALTIME) (of_ptr (Ptr (BVar n) 0)) None None None None) n fs;
  an_memory : 0 <= w_free w <= w_total w /\ 0 < w_unit w /\ w_total w * w_unit w < 2 ^ 63 /\
    exists fs, fs !! "totalram" = Some (w_total w) /\ fs !! "freeram" = Some (w_free w) /\ fs !! "mem_unit" = Some (w_unit w) /\
      forall n, fills k (Regs NR_sysinfo (of_ptr (Ptr (BVar n) 0)) None None None None None) n fs;
  an_file path : let '(fd, cs, last) := w_file w path in
    - 2 ^ 31 <= fd < 2 ^ 31 /\ (length cs < fuel)%nat /\ opens_file k path fd cs last;
  an_write : takes_output k;
  an_dir path : let '(fd, ess) := w_dir w path in
    - 2 ^ 31 <= fd < 2 ^ 31 /\ (length ess < fuel)%nat /\ opens_dir k path fd ess;
  an_child : - 2 ^ 31 <= w_child w < 2 ^ 31 /\ w_child w <> 0 /\ clones k (w_child w) (w_pid w) (w_status w);
  an_off m sh : exists k', kcall power_off m sh k = KNoret k'
}.

(** The environment of the program, apart from the line [nb]. *)
Definition env_at (m : mem) (nb : positive) (envp : ptr) (ss : list (list byte)) : Prop :=
  exists ne vars rest, envp = Ptr (BVar ne) 0 /\ kept (BVar ne) /\ ne <> nb /\
    m_objs m !! ne = Some (OPtrs ((Some <$> vars ++ [Null]) ++ rest)) /\ Z.of_nat (length vars) < 2 ^ 63 /\
    Forall2 (fun q s => var_at m q s /\ forall b i, q = Ptr b i -> b <> BVar nb) vars ss.

(** The environment stays when the line, and what a signal is read into, change. *)
Lemma env_same m m' nb envp ss :
  (forall n, n <> nb -> n <> siginfo_obj -> m_objs m' !! n = m_objs m !! n) ->
  env_at m nb envp ss -> env_at m' nb envp ss.
Proof.
  intros Hm (ne & vars & rest & -> & Hk & Hne & Ho & Hlen & Hv).
  exists ne, vars, rest. split_and!; [done|done|done| |done|].
  { rewrite Hm; [done|done|]. destruct Hk. congruence. }
  eapply Forall2_impl; [|exact Hv]. intros q s [(b & j & -> & Hb & Hc & Hs) Hq]. split; [|done].
  exists b, j. split_and!; [done|done| |done]. pose proof (Hq b (Z.of_nat j) eq_refl) as Hbn.
  destruct b as [t|n]; [exact Hc|]. destruct Hb. eapply cstr_other; [|exact Hc]. apply Hm; congruence.
Qed.

Lemma env_outputs st nb envp ss argc argv next : statics_ok st -> env_at (st_mem st) nb envp ss ->
  outputs (cmd_env argc argv envp next) (env_lines ss) st.
Proof.
  intros Hok (ne & vars & rest & -> & Hk & _ & Ho & Hlen & Hv).
  apply prints_outputs, (cmd_env_prints ne vars ss rest); [done|done|done| |done].
  eapply Forall2_impl; [|exact Hv]. by intros q s [? _].
Qed.

(** [cat] without and with a path. *)
Lemma cat_outputs fuel w st nb i s argc argv envp : answers fuel w (st_k st) -> statics_ok st ->
  nb <> ltoa_buffer -> (nb < m_next (st_mem st))%positive -> cstr (st_mem st) (BVar nb) i s ->
  outputs (cmd_cat fuel argc argv envp (Ptr (BVar nb) (Z.of_nat i)))
    (match tokens s with [] => no_path | path :: _ => show_file w path end) st.
Proof.
  intros Ha Hok Hb Hlt Hs. destruct (tokens s) as [|path ts] eqn:Et.
  - unfold cmd_cat. destruct (find_arg_rest _ _ _ _ Hs) as (r & Er & Hrest). rewrite Et in Hrest.
    destruct Hrest as [[-> _]|(? & ? & _ & _ & _ & E)]; [|by rewrite args_of_unfold in E].
    unfold outputs. rewrite (bind_ok _ _ _ _ _ (on_mem_ok _ _ _ _ Er)), upd_mem_id, decide_True by done.
    rewrite <- (app_nil_r no_path). apply prints_outputs, prints_say; [done|by apply (bool_decide_unpack _)|done|].
    intros st1 _ Hok1. by apply prints_ret.
  - pose proof (an_file _ _ _ Ha path) as Hf. unfold show_file.
    destruct (w_file w path) as [[fd cs] last]. destruct Hf as (Hfd & Hlen & Hopen).
    destruct (cmd_cat_spec fuel st nb i s path fd cs last argc argv envp) as (rs & Hrs & Hout);
      [done|done|done|done|by rewrite Et|done..|].
    destruct (Z.ltb_spec fd 0); [done|]. destruct (Hrs ltac:(lia)) as [Hl HQ]. unfold cat_output in Hout.
    rewrite cat_pieces in Hout; [exact Hout|done|]. apply HQ, (an_write _ _ _ Ha).
Qed.

(** [exit] makes one call and does not return. *)
Definition powers_off {T} (c : M T) (st : mach) : Prop :=
  exists st' e, c st = Stop (Halted st') /\ st_trace st' = st_trace st ++ [e] /\ ev_regs e = power_off.

Lemma exit_powers_off st argc argv envp next : (exists k', kcall power_off (st_mem st) (st_shm st) (st_k st) = KNoret k') ->
  powers_off (cmd_exit argc argv envp next) st.
Proof.
  intros [k' E]. unfold powers_off, cmd_exit, reboot_hard, SYSCALL_4. fold power_off.
  eexists _, (Event power_off (st_mem st) None). split_and!; [apply bind_stop; unfold syscall; rewrite E; reflexivity|reflexivity|reflexivity].
Qed.

(** ** The refinement *)

Lemma process_command_answers fuel w st nb i s argc argv envp vars :
  answers fuel w (st_k st) -> statics_ok st -> kept (BVar nb) -> (nb < m_next (st_mem st))%positive ->
  cstr (st_mem st) (BVar nb) i s -> Z.of_nat (length s) < 2 ^ 63 -> env_at (st_mem st) nb envp vars ->
  match shell_output w vars s with
  | Some out => outputs (process_command fuel (Ptr (BVar nb) (Z.of_nat i)) argc argv envp) out st
  | None => powers_off (process_command fuel (Ptr (BVar nb) (Z.of_nat i)) argc argv envp) st
  end.
Proof.
  intros Ha Hok Hkept Hlt Hs Hlen Henv.
  pose proof (process_command_spec fuel st nb i s argc argv envp Hs) as Hp. unfold shell_output.
  pose proof (tokens_length s) as Hle.
  destruct (tokens s) as [|name args]; [exists tt, st; by rewrite app_nil_r|].
  destruct Hp as (m & j & i' & s' & Ep & _ & Hs' & Ets & _ & Hm). cbv zeta in Ep.
  set (st1 := upd_mem m st) in *.
  assert (nb <> ltoa_buffer) as Hb by (destruct Hkept; congruence).
  assert (statics_ok st1) as Hok1 by (by eapply statics_cut).
  assert (env_at (st_mem st1) nb envp vars) as Henv1.
  { eapply env_same; [|exact Henv]. intros n Hn _. destruct Hm as (? & ? & _ & _ & Em). unfold st1. cbn. rewrite Em.
    by apply set_obj_ne. }
  assert (answers fuel w (st_k st1)) as Ha1 by done.
  assert (nb < m_next (st_mem st1))%positive as Hlt1.
  { destruct Hm as (? & ? & _ & _ & Em). unfold st1. cbn. by rewrite Em. }
  unfold outputs, powers_off. rewrite Ep. change (stdout_of st) with (stdout_of st1). change (st_trace st) with (st_trace st1).
  clear Ep Hm Henv Hok Ha. unfold builtins. cbn [list_find fst snd].
  destruct (decide (lit "time" = name)) as [_|_].
  { destruct (an_clock _ _ _ Ha1) as (H1 & H2 & fs & Hf1 & Hf2 & Hf).
    by apply (cmd_time_prints (w_sec w) (w_nsec w) fs st1). }
  destruct (decide (lit "ls" = name)) as [_|_].
  { unfold show_dir. subst args. pose proof (an_dir _ _ _ Ha1 (default (lit "/") (head (tokens s')))) as Hd.
    destruct (w_dir w _) as [fd ess]. destruct Hd as (Hfd & Hl & Hopen).
    apply (cmd_ls_spec fuel st1 nb i' s' (default (lit "/") (head (tokens s')))); try done.
    destruct (tokens s') as [|t ts]; [done|]. cbn. specialize (Hle t). set_unfold. specialize (Hle (or_intror (or_introl eq_refl))). lia. }
  destruct (decide (lit "cat" = name)) as [_|_].
  { subst args. by apply (cat_outputs fuel w st1). }
  destruct (decide (lit "env" = name)) as [_|_]; [by apply (env_outputs st1 nb)|].
  destruct (decide (lit "exit" = name)) as [_|_]; [apply exit_powers_off, (an_off _ _ _ Ha1)|].
  destruct (decide (lit "usage" = name)) as [_|_].
  { destruct (an_memory _ _ _ Ha1) as (H1 & H2 & H3 & fs & Hf1 & Hf2 & Hf3 & Hf).
    by apply (cmd_usage_prints (w_total w) (w_free w) (w_unit w) fs st1). }
  destruct (an_child _ _ _ Ha1) as (H1 & H2 & H3).
  destruct (decide (lit "memrun" = name)) as [_|_].
  { subst args. by apply (memrun_outputs st1 nb i' s' (w_child w) (w_pid w) (w_status w)). }
  by apply (busybox_outputs st1 nb i' s' _ (w_child w) (w_pid w) (w_status w)); [..|lia].
Qed.

(** C5: the command interpreter refines its specification.  In a state in which
    the kernel answers as the world [w], every line is answered with the text
    [shell_output] gives, a function of the line and the world alone: nothing
    for a blank line; for [time], [ls], [cat], [env], [usage] and [memrun] what
    they show, errors of the kernel included; for any other name the report of
    busybox; and [exit] switches the machine off without another call. *)
Theorem process_command_refines fuel w st nb i s argc argv envp vars :
  answers fuel w (st_k st) -> statics_ok st -> kept (BVar nb) -> (nb < m_next (st_mem st))%positive ->
  cstr (st_mem st) (BVar nb) i s -> Z.of_nat (length s) < 2 ^ 63 -> env_at (st_mem st) nb envp vars ->
  match shell_output w vars s with
  | Some out => outputs (process_command fuel (Ptr (BVar nb) (Z.of_nat i)) argc argv envp) out st
  | None => powers_off (process_command fuel (Ptr (BVar nb) (Z.of_nat i)) argc argv envp) st
  end.
Proof. apply process_command_answers. Qed.
End shell.
