(* ===== verification/System.v ===== *)
(** * The event loop and the kernel

    The program together with the kernel's side of io_uring.  The kernel is an
    interface ([UringKernel]): during any call it may complete operations in
    flight, in any order but for links; io_uring_enter also takes the entries
    submitted.  The invariant [tokens_ok] says that exactly one read of a
    signal, and one console exchange (a prompt then a line, or the line alone),
    is outstanding at any time, whatever order the kernel completes them in. *)

From S2P Require Import Prelude Headers Outcome CMem CString Decimal Parser Machine Syscall Console Uring Command Init.

(** ** Outstanding operations *)

Inductive kind : Type := KSignal | KPrompt | KLine.

#[export] Instance kind_eq_dec : EqDecision kind.
Proof. solve_decision. Defined.

Definition is_console (k : kind) : bool := match k with KSignal => false | _ => true end.

(** A prompt still to be completed is followed by the line it is linked to. *)
Fixpoint linked (t : list kind) : bool :=
  match t with
  | KPrompt :: t' => match t' with KLine :: t'' => linked t'' | _ => false end
  | _ :: t' => linked t'
  | [] => true
  end.

(** [c]: completed, not yet handled; [t]: handed out, submitted or in flight. *)
Definition tokens_ok (c t : list kind) : bool :=
  bool_decide (List.filter (fun k => negb (is_console k)) (c ++ t) = [KSignal]) &&
  (bool_decide (List.filter is_console (c ++ t) = [KPrompt; KLine]) ||
   bool_decide (List.filter is_console (c ++ t) = [KLine])) &&
  linked t.

Lemma filter_split_length (l : list kind) :
  length l = (length (List.filter (fun k => negb (is_console k)) l) + length (List.filter is_console l))%nat.
Proof. induction l as [|[] l IH]; cbn; lia. Qed.

Lemma tokens_ok_length c t : tokens_ok c t = true -> (length c + length t <= 3)%nat.
Proof.
  unfold tokens_ok. rewrite !andb_true_iff, orb_true_iff, !bool_decide_eq_true.
  intros [[H1 H2] _]. rewrite <- length_app, filter_split_length, H1.
  destruct H2 as [-> | ->]; cbn; lia.
Qed.

(** Operation [i] in flight may complete unless it waits for its prompt. *)
Definition completable (t : list kind) (i : nat) : bool :=
  match i with
  | O => true
  | S j => match t !! j with Some KPrompt => false | _ => true end
  end.

(** All the lists of at most [n] kinds. *)
Fixpoint all_kinds (n : nat) : list (list kind) :=
  match n with
  | O => [[]]
  | S n => [] :: (all_kinds n ≫= fun l => [KSignal :: l; KPrompt :: l; KLine :: l])
  end.

Lemma all_kinds_complete n l : (length l <= n)%nat -> l ∈ all_kinds n.
Proof.
  revert l. induction n as [|n IH]; intros [|k l] Hl; cbn in *.
  - by left.
  - lia.
  - by left.
  - right. apply list_elem_of_bind. exists l. split; [|apply IH; lia].
    destruct k; set_solver.
Qed.

(** Properties of all short pairs are checked by computation. *)
Lemma tokens_check (P : list kind -> list kind -> bool) :
  forallb (fun c => forallb (fun t => negb (tokens_ok c t) || P c t) (all_kinds 3)) (all_kinds 3) = true ->
  forall c t, tokens_ok c t = true -> P c t = true.
Proof.
  intros H c t Hok. pose proof (tokens_ok_length _ _ Hok) as Hl.
  rewrite forallb_forall in H. specialize (H c).
  rewrite <- list_elem_of_In in H. specialize (H (all_kinds_complete 3 c ltac:(lia))).
  rewrite forallb_forall in H. specialize (H t).
  rewrite <- list_elem_of_In in H. specialize (H (all_kinds_complete 3 t ltac:(lia))).
  by rewrite Hok in H.
Qed.

(** Completing any operation that may complete keeps the invariant, *)
Lemma tokens_complete c t i k : tokens_ok c t = true -> t !! i = Some k ->
  completable t i = true -> tokens_ok (c ++ [k]) (delete i t) = true.
Proof.
  intros Hok Hi Hc.
  pose proof (tokens_check (fun c t => forallb (fun i => negb (completable t i) ||
    match t !! i with Some k => tokens_ok (c ++ [k]) (delete i t) | None => true end) (seq 0 3))
    ltac:(by vm_compute) c t Hok) as H.
  pose proof (tokens_ok_length _ _ Hok). apply lookup_lt_Some in Hi as Hlt.
  rewrite forallb_forall in H. specialize (H i).
  rewrite in_seq in H. specialize (H ltac:(lia)). by rewrite Hi, Hc in H.
Qed.

(** and so does handling the oldest completion the way [handle] does. *)
Definition response (k : kind) : list kind :=
  match k with KSignal => [KSignal] | KPrompt => [] | KLine => [KPrompt; KLine] end.

Lemma tokens_handle k c t : tokens_ok (k :: c) t = true -> tokens_ok c (t ++ response k) = true.
Proof.
  intros Hok. exact (tokens_check (fun c t => match c with
    | k :: c => tokens_ok c (t ++ response k) | [] => true end) ltac:(by vm_compute) _ _ Hok).
Qed.

(** ** Code that leaves the rings to the kernel *)

(** The memory operations never touch the shared mappings. *)
Definition unmapped {S A : Type} (o : outcome S A) : Prop :=
  match o with Stop (Fault (FUnmapped _)) => True | _ => False end.

Definition local {S A : Type} (m : stM S A) : Prop := forall s, ~ unmapped (m s).

Section local.
Context {S : Type}.

Lemma local_ret {A} (a : A) : local (mret a : stM S A).
Proof. by intros s []. Qed.

Lemma local_bind {A B} (m : stM S A) (f : A -> stM S B) :
  local m -> (forall a, local (f a)) -> local (m ≫= f).
Proof.
  intros Hm Hf s. specialize (Hm s). unfold mbind, stM_bind.
  destruct (m s); [apply Hf|exact Hm].
Qed.

Lemma local_iter {X A} (body : X -> stM S (X + A)) n x :
  (forall x, local (body x)) -> local (iter n body x).
Proof.
  intros Hb. revert x. induction n as [|n IH]; intros x s; [by intros []|].
  rewrite iter_S. specialize (Hb x s). destruct (body x s) as [[x'|a] s'|]; [apply IH|by intros []|done].
Qed.

Lemma local_get : local (get : stM S S).
Proof. by intros s []. Qed.
End local.

Create HintDb local discriminated.

(** Break a goal [local m] along the structure of [m]. *)
Ltac local_tac :=
  repeat lazymatch goal with
  | |- local (mbind _ _) => apply local_bind; [|intros ?]
  | |- local (mret _) => apply local_ret
  | |- local get => apply local_get
  | |- local (iter _ _ _) => apply local_iter; intros ?
  | |- local (match ?x with _ => _ end) => destruct x
  | |- local (let '_ := ?x in _) => destruct x
  | |- forall _, local _ => intros ?
  | |- local _ => solve [auto with local nocore]
  end.

Lemma local_load_char p : local (load_char p).
Proof. intros m. unfold load_char, why_not. repeat case_match; by intros []. Qed.
Lemma local_store_char p c : local (store_char p c).
Proof. intros m. unfold store_char, why_not. repeat case_match; by intros []. Qed.
Lemma local_load_ptr p : local (load_ptr p).
Proof. intros m. unfold load_ptr, why_not. repeat case_match; by intros []. Qed.
Lemma local_store_ptr p q : local (store_ptr p q).
Proof. intros m. unfold store_ptr, why_not. repeat case_match; by intros []. Qed.
Lemma local_load_field p f : local (load_field p f).
Proof. intros m. unfold load_field, why_not. repeat case_match; by intros []. Qed.
Lemma local_store_field p f z : local (store_field p f z).
Proof. intros m. unfold store_field, why_not. repeat case_match; by intros []. Qed.
Lemma local_alloc o : local (alloc o).
Proof. by intros m []. Qed.
Lemma local_free p : local (free p).
Proof. intros m. unfold free. repeat case_match; by intros []. Qed.
Lemma local_magnitude z : local (magnitude z).
Proof. unfold magnitude. intros m. repeat case_match; by intros []. Qed.
Lemma local_need {A} (o : option A) : local (need FType o : memM A).
Proof. destruct o; by intros m []. Qed.

#[export] Hint Resolve local_load_char local_store_char local_load_ptr local_store_ptr
  local_load_field local_store_field local_alloc local_free local_magnitude local_need : local.

Lemma local_strlen p : local (nolibc_strlen p).
Proof. unfold nolibc_strlen, strlen_body. local_tac. Qed.
Lemma local_print_long b z : local (print_long b z).
Proof. unfold print_long, digits_body. local_tac. Qed.
#[export] Hint Resolve local_strlen local_print_long : local.
Lemma local_ltoa z : local (ltoa z).
Proof. unfold ltoa. local_tac. Qed.
Lemma local_int_to_str z : local (int_to_str z).
Proof. unfold int_to_str, alloc_bytes. local_tac. Qed.
Lemma local_find_arg p : local (find_arg p).
Proof. unfold find_arg, find_arg_body. local_tac. Qed.
Lemma local_terminate_arg p : local (terminate_arg p).
Proof. unfold terminate_arg, terminate_arg_body. local_tac. Qed.
#[export] Hint Resolve local_ltoa local_int_to_str local_find_arg local_terminate_arg : local.
Lemma local_streq p q : local (streq p q).
Proof. unfold streq, streq_body. local_tac. Qed.
Lemma local_fill_args_loop n p q : local (fill_args_loop n p q).
Proof. unfold fill_args_loop, fill_args_body. local_tac. Qed.
Lemma local_alloc_bytes n : local (alloc_bytes n).
Proof. unfold alloc_bytes. local_tac. Qed.
Lemma local_load_u16 p : local (load_u16 p).
Proof. unfold load_u16. local_tac. Qed.
Lemma local_alloc_ptrs n : local (alloc_ptrs n).
Proof. apply local_alloc. Qed.
#[export] Hint Resolve local_streq local_fill_args_loop local_alloc_bytes local_alloc_ptrs local_load_u16 : local.

(** Program code that keeps a property [P] of the rings and the kernel, and
    never leaves the mapped memory, when every call but io_uring_enter keeps
    [P]. *)
Section safe.
Context {K : Kernel} {A : Abi} (fuel : nat) (P : shm -> kstate -> Prop).

Definition ring_inv (st : mach) : Prop := P (st_shm st) (st_k st).

Definition safe {T} (c : M T) : Prop := forall st, ring_inv st ->
  match c st with
  | Ok _ st' => ring_inv st'
  | Stop e => ~ unmapped (Stop e : outcome mach T)
  end.

Lemma safe_ret {T} (v : T) : safe (mret v).
Proof. by intros st. Qed.

Lemma safe_bind {T U} (c : M T) (f : T -> M U) :
  safe c -> (forall v, safe (f v)) -> safe (c ≫= f).
Proof.
  intros Hc Hf st Hst. specialize (Hc st Hst). unfold mbind, stM_bind.
  destruct (c st) as [v st'|e]; [by apply Hf|done].
Qed.

Lemma safe_iter {X T} (body : X -> M (X + T)) n x :
  (forall x, safe (body x)) -> safe (iter n body x).
Proof.
  intros Hb. revert x. induction n as [|n IH]; intros x st Hst; [by intros []|].
  rewrite iter_S. specialize (Hb x st Hst). destruct (body x st) as [[x'|a] st'|]; [|done|done].
  by apply IH.
Qed.

Lemma safe_on_mem {T} (m : memM T) : local m -> safe (on_mem m).
Proof.
  intros Hm st Hst. specialize (Hm (st_mem st)). unfold on_mem, zoom.
  destruct (m (st_mem st)) as [a s|[s|f|]]; [done|by intros []|done|by intros []].
Qed.

Lemma safe_get : safe get.
Proof. by intros st. Qed.

Lemma safe_unreachable {T} : safe (fail FUnreachable : M T).
Proof. intros st _. by intros []. Qed.

Hypothesis HP : forall r m sh ks v m' sh' ks',
  rax r <> NR_io_uring_enter -> kcall r m sh ks = KRet v m' sh' ks' -> P sh ks -> P sh' ks'.

Lemma safe_syscall r : rax r <> NR_io_uring_enter -> safe (syscall r).
Proof.
  intros Hr st Hst. unfold syscall.
  destruct (kcall r (st_mem st) (st_shm st) (st_k st)) as [v m sh ks|ks] eqn:E.
  - unfold ring_inv. cbn. by eapply HP.
  - by intros [].
Qed.
End safe.

Create HintDb safe discriminated.

(** Break a goal [safe P c] along the structure of [c]. *)
Ltac safe_tac :=
  repeat lazymatch goal with
  | |- safe _ (mbind _ _) => apply safe_bind; [|intros ?]
  | |- safe _ (mret _) => apply safe_ret
  | |- safe _ get => apply safe_get
  | |- safe _ (fail FUnreachable) => apply safe_unreachable
  | |- safe _ (iter _ _ _) => apply safe_iter; intros ?
  | |- safe _ (on_mem _) => apply safe_on_mem; local_tac
  | |- safe _ (syscall _) => eapply safe_syscall; [eassumption|done]
  | |- safe _ (match ?x with _ => _ end) => destruct x
  | |- safe _ (let '_ := ?x in _) => destruct x
  | |- safe _ _ => solve [eauto with safe nocore]
  end.
Section commands.
Context {K : Kernel} {A : Abi} (fuel : nat) (P : shm -> kstate -> Prop).
Hypothesis HP : forall r m sh ks v m' sh' ks',
  rax r <> NR_io_uring_enter -> kcall r m sh ks = KRet v m' sh' ks' -> P sh ks -> P sh' ks'.

Hint Extern 1 (safe _ (ret_int _)) => unfold ret_int; safe_tac : safe.
Ltac safe_prim := cbv delta [write read reboot_hard exit umask mkdir mount open close close_range
  close_all_files dup3 execveat getdents64 memfd_create clone3 clock_gettime openat2 waitid
  sysinfo fstatat copy_file_range sigprocmask signalfd socket ret_int
  SYSCALL_0 SYSCALL_1 SYSCALL_2 SYSCALL_3 SYSCALL_4 SYSCALL_5 SYSCALL_6]; cbv beta; safe_tac.

Lemma safe_write fd p n : safe P (write fd p n).
Proof. safe_prim. Qed.
Lemma safe_exit {T} s : safe P (exit s : M T).
Proof. safe_prim. Qed.
Hint Resolve safe_write safe_exit : safe.

Lemma safe_strlen p : safe P (strlen p).
Proof. unfold strlen. safe_tac. Qed.
Hint Resolve safe_strlen : safe.

Lemma safe_WRITESTR p : safe P (WRITESTR p).
Proof. unfold WRITESTR. safe_tac. Qed.
Lemma safe_say s : safe P (say s).
Proof. apply safe_WRITESTR. Qed.
Lemma safe_write_int z : safe P (write_int z).
Proof. unfold write_int. safe_tac. Qed.
Hint Resolve safe_WRITESTR safe_say safe_write_int : safe.

Lemma safe_SYSCHECK loc c : safe P c -> safe P (SYSCHECK loc c).
Proof. intros Hc. unfold SYSCHECK. safe_tac. Qed.
Lemma safe_WRITE_ERR m e : safe P (WRITE_ERR m e).
Proof. unfold WRITE_ERR. safe_tac. Qed.
Lemma safe_ERREXIT {T} l m : safe P (ERREXIT l m : M T).
Proof. unfold ERREXIT. safe_prim. Qed.
Lemma safe_with_local {T} o (body : ptr -> M T) :
  local o -> (forall p, safe P (body p)) -> safe P (with_local o body).
Proof. intros Ho Hb. unfold with_local. safe_tac. Qed.
Hint Resolve safe_WRITE_ERR safe_ERREXIT : safe.

(** A command goal: unfold the definition, then the wrappers it calls. *)
Ltac safe_cmd :=
  repeat first
    [ progress safe_tac
    | lazymatch goal with
      | |- safe _ (with_local _ _) => apply safe_with_local; [local_tac|intros ?]
      | |- safe _ (SYSCHECK _ _) => apply safe_SYSCHECK
      end
    | progress safe_prim ].

Lemma safe_dirlist p : safe P (dirlist fuel p).
Proof. unfold dirlist, dirlist_body, dirlist_entry. safe_cmd. Qed.
Lemma safe_cat_file fd : safe P (cat_file fuel fd).
Proof. unfold cat_file, cat_body. safe_cmd. Qed.
Hint Resolve safe_dirlist safe_cat_file : safe.

Lemma safe_time c v e n : safe P (cmd_time c v e n).
Proof. unfold cmd_time. safe_cmd. Qed.
Lemma safe_ls c v e n : safe P (cmd_ls fuel c v e n).
Proof. unfold cmd_ls. safe_cmd. Qed.
Lemma safe_cat c v e n : safe P (cmd_cat fuel c v e n).
Proof. unfold cmd_cat. safe_cmd. Qed.
Lemma safe_env c v e n : safe P (cmd_env c v e n).
Proof. unfold cmd_env, env_body. safe_cmd. Qed.
Lemma safe_cmd_exit c v e n : safe P (cmd_exit c v e n).
Proof. unfold cmd_exit. safe_cmd. Qed.
Lemma safe_usage c v e n : safe P (cmd_usage c v e n).
Proof. unfold cmd_usage. safe_cmd. Qed.
Lemma safe_fill_args n a x : safe P (fill_args n a x).
Proof. unfold fill_args. safe_cmd. Qed.
Hint Resolve safe_fill_args : safe.
Lemma safe_console_fds a b c : safe P (console_fds a b c).
Proof. unfold console_fds. safe_cmd. Qed.
Hint Resolve safe_console_fds : safe.
Lemma safe_memrun_child p n : safe P (memrun_child p n).
Proof. unfold memrun_child, memrun_args. safe_cmd. Qed.
Lemma safe_busybox_child p n : safe P (busybox_child p n).
Proof. unfold busybox_child, busybox_args. safe_cmd. Qed.
Hint Resolve safe_memrun_child safe_busybox_child : safe.
Lemma safe_memrun c v e n : safe P (cmd_memrun c v e n).
Proof. unfold cmd_memrun. safe_cmd. Qed.
Lemma safe_busybox p n : safe P (busybox p n).
Proof. unfold busybox. safe_cmd. Qed.
Hint Resolve safe_time safe_ls safe_cat safe_env safe_cmd_exit safe_usage safe_memrun safe_busybox : safe.

Lemma safe_dispatch table prog c v e n none :
  Forall (fun b => forall c v e n, safe P (b.2 c v e n)) table -> safe P none ->
  safe P (dispatch table prog c v e n none).
Proof.
  intros Ht Hn. induction Ht as [|[name f] t Hf _ IH]; [done|].
  cbn [dispatch]. safe_tac.
Qed.

(** Whatever command is typed, the rings are left to the kernel. *)
Lemma safe_process_command p c v e : safe P (process_command fuel p c v e).
Proof.
  unfold process_command. safe_cmd. apply safe_dispatch; [|safe_cmd].
  repeat constructor; intros; cbn; auto with safe.
Qed.
End commands.

(** ** The kernel's side of io_uring *)

Section kernel.
Context {A : Abi}.

Definition is_link (e : io_uring_sqe) : bool := negb (Z.land (sqe_flags e) IOSQE_IO_LINK =? 0).

(** An operation in flight completes, with any result; one whose predecessor
    in the chain is linked to it waits for that one. *)
Inductive kernel_step : ring * list io_uring_sqe -> ring * list io_uring_sqe -> Prop :=
| complete R F i e res :
    F !! i = Some e ->
    (forall j p, i = S j -> F !! j = Some p -> is_link p = false) ->
    kernel_step (R, F) (post R (Cqe (sqe_user_data e) res), delete i F).
End kernel.

(** What io_uring(7) and io_uring_enter(2) promise for the rings of [u0]:
    [flight] are the operations taken and not completed; a call that is not
    io_uring_enter only completes some of them; io_uring_enter that does not
    fail has taken as many entries as it returns. *)
Class UringKernel (K : Kernel) (A : Abi) (u0 : uring_queue) (k ck : Z) : Type := {
  flight : kstate -> list io_uring_sqe;
  uring_quiet r m sh ks v m' sh' ks' a b R :
    kcall r m sh ks = KRet v m' sh' ks' -> rax r <> NR_io_uring_enter ->
    ring_rep (with_list u0 a b) k ck sh R ->
    exists R', ring_rep (with_list u0 a b) k ck sh' R' /\
      rtc kernel_step (R, flight ks) (R', flight ks');
  uring_enter r m sh ks v m' sh' ks' a b R :
    kcall r m sh ks = KRet v m' sh' ks' -> rax r = NR_io_uring_enter ->
    rsi r = Some (VInt (Z.of_nat (length (queued R)))) -> to_int v >= 0 ->
    ring_rep (with_list u0 a b) k ck sh R ->
    exists R', ring_rep (with_list u0 a b) k ck sh' R' /\
      rtc kernel_step (consume (Z.to_nat (to_int v)) (R, flight ks)) (R', flight ks')
}.

(** ** The invariant of the loop *)

Section invariant.
Context {A : Abi}.

Definition sqe_kind (e : io_uring_sqe) : option kind :=
  if sqe_user_data e =? EVENT_CONSOLE_READ then if is_link e then None else Some KLine
  else if sqe_user_data e =? EVENT_SIGNAL then if is_link e then None else Some KSignal
  else if sqe_user_data e =? EVENT_OTHER then if is_link e then Some KPrompt else None
  else None.

Definition cqe_kind (c : io_uring_cqe) : option kind :=
  if cqe_user_data c =? EVENT_CONSOLE_READ then Some KLine
  else if cqe_user_data c =? EVENT_SIGNAL then Some KSignal
  else if cqe_user_data c =? EVENT_OTHER then Some KPrompt
  else None.

(** The outstanding operations of the rings and the kernel are in order. *)
Definition loop_ok (R : ring) (F : list io_uring_sqe) : Prop :=
  exists c t, Forall2 (fun e k => cqe_kind e = Some k) (completed R) c /\
    Forall2 (fun e k => sqe_kind e = Some k) (F ++ queued R ++ pending R) t /\
    tokens_ok c t = true.

Lemma sqe_cqe_kind e k res : sqe_kind e = Some k -> cqe_kind (Cqe (sqe_user_data e) res) = Some k.
Proof. unfold sqe_kind, cqe_kind. cbn. repeat case_match; congruence. Qed.

Lemma sqe_kind_link e k : sqe_kind e = Some k -> is_link e = bool_decide (k = KPrompt).
Proof. unfold sqe_kind. repeat case_match; intros [= <-]; done. Qed.

(** The kernel keeps the invariant, whatever it completes. *)
Lemma kernel_step_ok v v' : kernel_step v v' -> loop_ok v.1 v.2 -> loop_ok v'.1 v'.2.
Proof.
  intros [R F i e res Hi Hlink] (c & t & Hc & Ht & Hok). cbn in *.
  pose proof (lookup_lt_Some _ _ _ Hi) as Hlt.
  destruct (Forall2_lookup_l _ _ _ i e Ht) as (kd & Hk & Hkd); [by rewrite lookup_app_l|].
  exists (c ++ [kd]), (delete i t). split_and!.
  - apply Forall2_app; [done|]. constructor; [by apply sqe_cqe_kind|constructor].
  - cbn. rewrite <- delete_app_lt by done. by apply Forall2_delete.
  - apply tokens_complete; [done|done|]. destruct i as [|j]; [done|]. cbn.
    destruct (lookup_lt_is_Some_2 F j ltac:(lia)) as [p Hp].
    destruct (Forall2_lookup_l _ _ _ j p Ht) as (kp & Hkp & Hpp); [by rewrite lookup_app_l by lia|].
    rewrite Hkp. pose proof (Hlink j p eq_refl Hp) as Hl.
    rewrite (sqe_kind_link _ _ Hpp) in Hl. apply bool_decide_eq_false in Hl. by destruct kp.
Qed.

(** What the kernel leaves alone. *)
Lemma kernel_step_rest v v' : kernel_step v v' ->
  r_chead v'.1 = r_chead v.1 /\ queued v'.1 = queued v.1 /\ pending v'.1 = pending v.1 /\
  exists cs, completed v'.1 = completed v.1 ++ cs.
Proof. intros [R F i e res Hi Hlink]. cbn. eauto. Qed.

Lemma kernel_steps_ok v v' : rtc kernel_step v v' -> loop_ok v.1 v.2 ->
  loop_ok v'.1 v'.2 /\ r_chead v'.1 = r_chead v.1 /\ queued v'.1 = queued v.1 /\
  pending v'.1 = pending v.1 /\ exists cs, completed v'.1 = completed v.1 ++ cs.
Proof.
  induction 1 as [v|v1 v2 v3 H12 _ IH]; intros Hok.
  - split_and!; [done..|]. exists []. by rewrite app_nil_r.
  - destruct (kernel_step_rest _ _ H12) as (E1 & E2 & E3 & cs & E4).
    destruct (IH (kernel_step_ok _ _ H12 Hok)) as (Hok' & E1' & E2' & E3' & cs' & E4').
    split_and!; [done|congruence..|]. exists (cs ++ cs'). by rewrite E4', E4, app_assoc.
Qed.

(** With nothing in flight there is nothing to complete. *)
Lemma kernel_steps_idle R v' : rtc kernel_step (R, []) v' -> v' = (R, []).
Proof. inversion 1 as [|v1 v2 v3 H12]; [done|]. inversion H12; subst. done. Qed.
End invariant.

(** ** One turn of the loop *)

(** From a state satisfying [Pre], [c] never leaves the mapped memory; if it
    returns, [Post] holds. *)
Definition keeps {K : Kernel} {T : Type} (Pre : mach -> Prop) (c : M T) (Post : T -> mach -> Prop) : Prop :=
  forall st, Pre st ->
    match c st with
    | Ok v st' => Post v st'
    | Stop e => ~ unmapped (Stop e : outcome mach T)
    end.

Section keeps.
Context {K : Kernel} {A : Abi}.

Lemma keeps_bind {T U} Pre Mid Post (c : M T) (f : T -> M U) :
  keeps Pre c Mid -> (forall v, keeps (Mid v) (f v) Post) -> keeps Pre (c ≫= f) Post.
Proof.
  intros Hc Hf st Hst. specialize (Hc st Hst). unfold mbind, stM_bind.
  destruct (c st) as [v st'|e]; [by apply Hf|done].
Qed.

Lemma keeps_ret {T} Pre (Post : T -> mach -> Prop) v :
  (forall st, Pre st -> Post v st) -> keeps Pre (mret v) Post.
Proof. intros H st Hst. by apply H. Qed.

Lemma keeps_safe {T} (P : shm -> kstate -> Prop) (c : M T) :
  safe P c -> keeps (ring_inv P) c (fun _ => ring_inv P).
Proof. done. Qed.

Lemma keeps_weaken {T} (Pre Pre' : mach -> Prop) (Post Post' : T -> mach -> Prop) (c : M T) :
  keeps Pre c Post -> (forall st, Pre' st -> Pre st) ->
  (forall v st, Post v st -> Post' v st) -> keeps Pre' c Post'.
Proof.
  intros Hc H1 H2 st Hst. specialize (Hc st (H1 st Hst)). destruct (c st); [by apply H2|done].
Qed.

(** Code over the rings that runs to the end. *)
Lemma keeps_shm {T} Pre (Post : T -> mach -> Prop) (m : shmM T) :
  (forall st, Pre st -> exists v sh, m (st_shm st) = Ok v sh /\ Post v (upd_shm sh st)) ->
  keeps Pre (on_shm m) Post.
Proof. intros H st Hst. destruct (H st Hst) as (v & sh & E & HP). by rewrite (on_shm_ok _ _ _ _ E). Qed.

(** After [exit] nothing follows. *)
Lemma exit_stops {T} s (st : mach) : exists e, (exit s : M T) st = Stop e.
Proof.
  unfold exit, SYSCALL_1, syscall, mbind, stM_bind.
  destruct (kcall _ _ _ _); cbn; by eexists.
Qed.

Lemma reboot_stops {T} s (st : mach) : exists e, (reboot_hard s : M T) st = Stop e.
Proof.
  unfold reboot_hard, SYSCALL_4, syscall, mbind, stM_bind.
  destruct (kcall _ _ _ _); cbn; by eexists.
Qed.

Definition anything (sh : shm) (ks : kstate) : Prop := True.

Lemma safe_anything_keeps {T} Pre (c : M T) (Post : T -> mach -> Prop) :
  safe anything c -> (forall st v st', c st = Ok v st' -> False) -> keeps Pre c Post.
Proof.
  intros Hs Hn st _. specialize (Hs st I). destruct (c st) eqn:E; [by destruct (Hn _ _ _ E)|done].
Qed.

Lemma bind_no_return {T U} (c : M T) (f : T -> M U) :
  (forall v st w st', f v st = Ok w st' -> False) -> forall st w st', (c ≫= f) st = Ok w st' -> False.
Proof. intros Hf st w st'. unfold mbind, stM_bind. destruct (c st); [apply Hf|done]. Qed.

Lemma keeps_SYSCHECK loc Pre (Post : Z -> mach -> Prop) (c : M Z) :
  keeps Pre c Post -> keeps Pre (SYSCHECK loc c) (fun v st => 0 <= v /\ Post v st).
Proof.
  intros Hc. unfold SYSCHECK. eapply keeps_bind; [exact Hc|]. intros v.
  destruct (Z.ltb_spec v 0).
  - apply safe_anything_keeps.
    + apply safe_bind; [apply safe_say; done|intros _].
      apply safe_bind; [apply safe_on_mem; local_tac|intros s].
      apply safe_bind; [apply safe_strlen; done|intros n].
      apply safe_bind; [apply safe_write; done|intros _].
      apply safe_bind; [apply safe_say; done|intros _]. by apply safe_exit.
    + do 5 (apply bind_no_return; intros ? ?).
      intros w st' E. match type of E with _ ?s = _ =>
        destruct (exit_stops (T := Z) (- v) s) as [e E'] end. congruence.
  - apply keeps_ret. auto.
Qed.

Lemma keeps_ERREXIT {T} loc msg Pre (Post : T -> mach -> Prop) : keeps Pre (ERREXIT loc msg) Post.
Proof.
  apply safe_anything_keeps; [by apply safe_ERREXIT|]. unfold ERREXIT.
  apply bind_no_return. intros v st w st' E.
  destruct (reboot_stops (T := T) LINUX_REBOOT_CMD_POWER_OFF st) as [e E']. congruence.
Qed.
End keeps.

Section loop.
Context {K : Kernel} {A : Abi} (fuel : nat) (u0 : uring_queue) (k ck : Z).
Context {UK : UringKernel K A u0 k ck}.
Hypothesis L : layout u0 k ck.
Hypothesis Hk : 2 <= k.
Hypothesis Hlink : IOSQE_IO_LINK <> 0.

(** The handle of the program is that of [u0], with its own two indices. *)
Definition handle_of (u : uring_queue) : Prop := exists a b, u = with_list u0 a b.

Lemma layout_handle u : handle_of u -> layout u k ck.
Proof. intros (a & b & ->). by destruct L; split. Qed.

(** The rings [R], in the state of the machine. *)
Definition rings_at (u : uring_queue) (R : ring) (sh : shm) (ks : kstate) : Prop :=
  handle_of u /\ ring_rep u k ck sh R /\ loop_ok R (flight ks).

(** The state between two turns of the loop. *)
Definition idle (u : uring_queue) (sh : shm) (ks : kstate) : Prop :=
  exists R, rings_at u R sh ks.

(** No entry is handed out; [h] completions were taken, and the next is [c0]
    if that is given. *)
Definition serving (u : uring_queue) (h : Z) (c0 : option io_uring_cqe) (sh : shm) (ks : kstate) : Prop :=
  exists R, rings_at u R sh ks /\ pending R = [] /\ r_chead R = h /\
    (c0 <> None -> head (completed R) = c0).

Lemma serving_quiet u h c0 r m sh ks v m' sh' ks' :
  rax r <> NR_io_uring_enter -> kcall r m sh ks = KRet v m' sh' ks' ->
  serving u h c0 sh ks -> serving u h c0 sh' ks'.
Proof.
  intros Hr E (R & ((a & b & ->) & Hrep & Hok) & Hp & Hh & Hc).
  destruct (uring_quiet _ _ _ _ _ _ _ _ _ _ _ E Hr Hrep) as (R' & Hrep' & Hsteps).
  destruct (kernel_steps_ok _ _ Hsteps Hok) as (Hok' & E1 & E2 & E3 & cs & E4). cbn in *.
  exists R'. split_and!; [by split_and!; [eexists _, _|..]|congruence|congruence|].
  intros Hne. rewrite E4. specialize (Hc Hne). destruct (completed R); [|done].
  cbn in Hc. by destruct Hne.
Qed.

(** Taking entries into flight keeps their order. *)
Lemma consume_ok n R F : pending R = [] -> loop_ok R F -> loop_ok (consume n (R, F)).1 (consume n (R, F)).2.
Proof.
  intros Hp (c & t & Hc & Ht & Hok). exists c, t. split_and!; [done| |done].
  cbn. by rewrite <- app_assoc, (app_assoc (take _ _)), take_drop.
Qed.

(** [uring_wait]: all the entries handed out are submitted. *)
Lemma keeps_wait u count : keeps (ring_inv (idle u)) (uring_wait u count)
  (fun u' st => exists h, ring_inv (serving u' h None) st).
Proof.
  unfold uring_wait.
  apply keeps_bind with (Mid := fun x st => exists R, x.1 = uwrap 32 (r_head R + Z.of_nat (length (queued R))) /\
    pending R = [] /\ ring_inv (rings_at x.2 R) st).
  { apply keeps_shm. intros st (R & Hu & Hrep & Hok).
    destruct (uring_flush_spec u k ck _ R (layout_handle u Hu) Hrep) as (sh' & u' & E & -> & Hrep').
    eexists _, sh'. split; [exact E|]. exists (publish R). split_and!; [done|done|].
    split_and!; [|exact Hrep'|].
    - destruct Hu as (a & b & ->). by eexists _, _.
    - destruct Hok as (c & t & Hc & Ht & Hok). exists c, t. split_and!; [done| |done].
      cbn. by rewrite app_nil_r. }
  intros [tail u']. cbn [fst snd].
  apply keeps_bind with (Mid := fun hd st => exists R, tail = uwrap 32 (r_head R + Z.of_nat (length (queued R))) /\
    hd = uwrap 32 (r_head R) /\ pending R = [] /\ ring_inv (rings_at u' R) st).
  { apply keeps_shm. intros st (R & -> & Hp & Hu & Hrep & Hok).
    eexists _, _. split; [apply load_u32_ok, Hrep|]. exists R. by split_and!. }
  intros hd. eapply keeps_bind.
  { apply keeps_SYSCHECK with (Post := fun v st => 0 <= v -> exists h, ring_inv (serving u' h None) st).
    intros st (R & -> & -> & Hp & Hu & Hrep & Hok).
    unfold io_uring_enter, ret_int, SYSCALL_6, mbind, stM_bind, syscall.
    destruct (kcall _ _ _ _) as [v m sh ks|ks] eqn:E; [|by intros []]. cbn. intros Hv.
    pose proof (k_bound u' k ck (layout_handle u' Hu)).
    pose proof (rr_room _ _ _ _ _ Hrep) as Hroom. rewrite Hp, app_nil_r in Hroom.
    destruct Hu as (a & b & ->).
    destruct (uring_enter _ _ _ _ _ _ _ _ a b R E eq_refl) as (R' & Hrep' & Hsteps);
      [|lia|done|].
    { cbn. unfold of_int. by rewrite counter_diff by lia. }
    destruct (kernel_steps_ok _ _ Hsteps (consume_ok _ _ _ Hp Hok)) as (Hok' & E1 & E2 & E3 & cs & E4).
    cbn in *. exists (r_chead R'), R'.
    split_and!; [by split_and!; [eexists _, _|..]|congruence|done|done]. }
  intros v. apply keeps_ret. intros st [Hv Hs]. auto.
Qed.

(** *** Submitting *)

(** Entries are being handed out: [new] since the last [uring_wait]; [t] are
    the operations that were outstanding, [c] those completed, after [h]. *)
Record submitting_at (u : uring_queue) (h : Z) (new : list io_uring_sqe) (c t : list kind)
    (R : ring) (sh : shm) (ks : kstate) : Prop := {
  sb_handle : handle_of u;
  sb_rep : ring_rep u k ck sh R;
  sb_pending : pending R = new;
  sb_chead : r_chead R = h;
  sb_completed : Forall2 (fun e k => cqe_kind e = Some k) (completed R) c;
  sb_outstanding : Forall2 (fun e k => sqe_kind e = Some k) (flight ks ++ queued R) t
}.

Definition submitting u h new c t (sh : shm) (ks : kstate) : Prop :=
  exists R, submitting_at u h new c t R sh ks.

(** An entry [sqe] was found, the handle is now [u'], and [sqe] is yet to be filled. *)
Definition handed (u u' : uring_queue) (sqe : Z) h new c t (sh : shm) (ks : kstate) : Prop :=
  exists R, submitting_at u h new c t R sh ks /\
    Z.of_nat (length (queued R ++ pending R)) < 2 ^ k /\
    sqe = sqe_at u k (r_head R + Z.of_nat (length (queued R ++ pending R))) /\
    u' = with_list u (sq_list_head u) (uwrap 32 (r_head R + Z.of_nat (length (queued R ++ pending R)) + 1)).

Lemma four_entries : 4 <= 2 ^ k.
Proof. pose proof (Z.pow_le_mono_r 2 2 k ltac:(lia) Hk). lia. Qed.

Lemma keeps_new_submission u h new c t : (length new + length t < 4)%nat ->
  keeps (ring_inv (submitting u h new c t)) (on_shm (uring_new_submission u))
    (fun r => ring_inv (handed u r.2 r.1 h new c t)).
Proof.
  intros Hroom. apply keeps_shm. intros st (R & Hst).
  pose proof (Forall2_length (sb_outstanding _ _ _ _ _ _ _ _ Hst)) as Hlen.
  rewrite length_app in Hlen.
  assert (Z.of_nat (length (queued R ++ pending R)) < 2 ^ k) as Hr.
  { pose proof four_entries. rewrite length_app, (sb_pending _ _ _ _ _ _ _ _ Hst). lia. }
  eexists _, _. split.
  - apply (new_submission_free u k ck _ R); [apply layout_handle|..]; try apply Hst. exact Hr.
  - exists R. by split_and!.
Qed.

Lemma keeps_set_entry u u' sqe h new c t e :
  keeps (ring_inv (handed u u' sqe h new c t)) (set_entry sqe e)
    (fun _ => ring_inv (submitting u' h (new ++ [e]) c t)).
Proof.
  apply keeps_shm. intros st (R & Hst & Hr & Es & Eu).
  destruct Hst as [(a & b & ->) Hrep Hp Hh Hc Ht]. subst sqe u'.
  destruct (rr_slots _ _ _ _ _ Hrep (r_head R + Z.of_nat (length (queued R ++ pending R)))) as [e0 He0].
  unfold update_sqe. rewrite He0. eexists _, _. split; [done|].
  exists (submit R e). split; [by eexists _, _| |cbn; by rewrite Hp|done..].
  apply (submit_rep (with_list u0 a b) k ck _ R); [by apply layout_handle; eexists _, _|done|done].
Qed.

Lemma keeps_submit_sig_listen u h new c t : (length new + length t < 4)%nat ->
  keeps (ring_inv (submitting u h new c t)) (submit_sig_listen u)
    (fun u' st => exists e, sqe_kind e = Some KSignal /\ ring_inv (submitting u' h (new ++ [e]) c t) st).
Proof.
  intros Hroom. unfold submit_sig_listen. eapply keeps_bind; [apply keeps_new_submission; cbn; lia|].
  intros [sqe u']. cbn [fst snd].
  eapply keeps_bind; [apply keeps_safe, safe_on_mem; local_tac|]. intros sigfd.
  eapply keeps_bind; [apply keeps_set_entry|]. intros ?. apply keeps_ret. intros st Hst.
  exists (signal_entry sigfd). split; [|done]. done.
Qed.

Lemma keeps_create_console_prompt u h c t : (length t < 3)%nat ->
  keeps (ring_inv (submitting u h [] c t)) (create_console_prompt u)
    (fun u' => ring_inv (submitting u' h [prompt_entry; line_entry] c t)).
Proof.
  intros Hroom. unfold create_console_prompt.
  eapply keeps_bind; [apply keeps_new_submission; cbn; lia|]. intros [sqe u']. cbn [fst snd].
  eapply keeps_bind; [apply keeps_set_entry|]. intros ?. cbn [app].
  eapply keeps_bind; [apply keeps_new_submission; cbn; lia|]. intros [sqe' u'']. cbn [fst snd].
  eapply keeps_bind; [apply keeps_set_entry|]. intros ?. by apply keeps_ret.
Qed.

Lemma prompt_kind : sqe_kind prompt_entry = Some KPrompt.
Proof.
  unfold sqe_kind, is_link. cbn. by rewrite Z.land_diag, (proj2 (Z.eqb_neq _ _) Hlink).
Qed.

(** *** Handling a completion *)

(** The oldest completion is handled: what it asks for was handed out. *)
Definition handled (u : uring_queue) (h : Z) (sh : shm) (ks : kstate) : Prop :=
  exists k0 c t new, submitting u h new (k0 :: c) t sh ks /\
    Forall2 (fun e k => sqe_kind e = Some k) new (response k0) /\ tokens_ok (k0 :: c) t = true.

(** The oldest completion is [c0], and is of kind [k0]. *)
Lemma serving_submitting u h c0 sh ks : serving u h (Some c0) sh ks ->
  exists k0 c t, cqe_kind c0 = Some k0 /\ (length t < 3)%nat /\
    submitting u h [] (k0 :: c) t sh ks /\ tokens_ok (k0 :: c) t = true.
Proof.
  intros (R & (Hu & Hrep & kc & t & Hc & Ht & Hok) & Hp & Hh & Hcs). specialize (Hcs ltac:(done)).
  destruct (completed R) as [|c1 cs] eqn:E; [done|]. injection Hcs as ->.
  inversion Hc as [|? k0 ? c Hk0 Hc']; subst. exists k0, c, t.
  pose proof (tokens_ok_length _ _ Hok) as Hl. cbn in Hl.
  split_and!; [done|lia| |done]. exists R. split; [done..|by rewrite E|].
  by rewrite Hp, app_nil_r in Ht.
Qed.

(** Reading the completion, which stays the oldest. *)
Lemma keeps_load_cqe u h c0 :
  keeps (ring_inv (serving u h (Some c0))) (on_shm (load_cqe (cqe_at u ck h)))
    (fun c st => c = c0 /\ ring_inv (serving u h (Some c0)) st).
Proof.
  apply keeps_shm. intros st (R & (Hu & Hrep & Hok) & Hp & Hh & Hcs).
  pose proof (Hcs ltac:(done)) as Hcs'.
  destruct (completed R) as [|c1 cs] eqn:E; [done|]. injection Hcs' as ->.
  destruct (uring_result_spec u k ck _ R (layout_handle u Hu) Hrep) as [_ Hl].
  exists c0, (st_shm st). split; [rewrite <- Hh; by eapply Hl|]. split; [done|].
  exists R. rewrite E. by split_and!.
Qed.

Lemma keeps_process_input u h c0 argc argv envp :
  cqe_kind c0 = Some KLine ->
  keeps (ring_inv (serving u h (Some c0))) (process_input fuel u (cqe_at u ck h) argc argv envp)
    (fun u' => ring_inv (handled u' h)).
Proof.
  intros Hc0. unfold process_input.
  eapply keeps_bind; [apply keeps_load_cqe|]. intros c.
  destruct (0 <? cqe_res c); [|destruct (cqe_res c =? 0); apply keeps_ERREXIT].
  eapply keeps_bind with (Mid := fun _ => ring_inv (serving u h (Some c0))).
  { eapply keeps_weaken; [apply keeps_safe, safe_on_mem; local_tac|by intros ? [_ ?]|done]. }
  intros b. eapply keeps_bind.
  { apply (keeps_safe (serving u h (Some c0))). pose proof (serving_quiet u h (Some c0)) as HP.
    case_decide.
    - apply safe_bind; [by apply safe_say|intros _; apply safe_ret].
    - apply safe_bind; [apply safe_on_mem; local_tac|intros _]. by apply safe_process_command. }
  intros _ st Hst. destruct (serving_submitting _ _ _ _ _ Hst) as (k0 & c' & t & Ek & Ht & Hs & Hok).
  pose proof (keeps_create_console_prompt u h (k0 :: c') t Ht st Hs) as Hc.
  destruct (create_console_prompt u st) as [u' st'|]; [|done].
  exists k0, c', t, [prompt_entry; line_entry]. split_and!; [done| |done].
  replace k0 with KLine by congruence. repeat constructor. apply prompt_kind.
Qed.

Lemma keeps_handle u h c0 argc argv envp :
  keeps (ring_inv (serving u h (Some c0))) (handle fuel u (cqe_at u ck h) argc argv envp)
    (fun u' => ring_inv (handled u' h)).
Proof.
  intros st0 Hst0. destruct (serving_submitting _ _ _ _ _ Hst0) as (k0 & c & t & Ek & Ht & _ & _).
  revert st0 Hst0. unfold handle. eapply keeps_bind; [apply keeps_load_cqe|]. intros c1.
  intros st [-> Hst]. revert st Hst.
  unfold cqe_kind in Ek. destruct (cqe_user_data c0 =? EVENT_CONSOLE_READ) eqn:E0.
  { apply keeps_process_input. unfold cqe_kind. by rewrite E0. }
  destruct (cqe_user_data c0 =? EVENT_SIGNAL) eqn:E1.
  { intros st Hst. destruct (serving_submitting _ _ _ _ _ Hst) as (k1 & c' & t' & Ek' & Ht' & Hs & Hok).
    assert (k1 = KSignal) as -> by (unfold cqe_kind in Ek'; rewrite E0, E1 in Ek'; congruence).
    unfold process_signal. rewrite bind_ret.
    pose proof (keeps_submit_sig_listen u h [] (KSignal :: c') t' ltac:(cbn; lia) st Hs) as Hc.
    destruct (submit_sig_listen u st) as [u' st'|]; [|done]. destruct Hc as (e & He & Hs').
    exists KSignal, c', t', [e]. split_and!; [done|by repeat constructor|done]. }
  destruct (cqe_user_data c0 =? EVENT_OTHER) eqn:E2; [|done].
  eapply keeps_bind.
  { apply keeps_SYSCHECK. eapply keeps_bind; [apply keeps_load_cqe|]. intros c1.
    by apply keeps_ret with (Post := fun _ => ring_inv (serving u h (Some c0))); intros ? [_ ?]. }
  intros v. apply keeps_ret. intros st [_ Hst].
  destruct (serving_submitting _ _ _ _ _ Hst) as (k1 & c' & t' & Ek' & Ht' & Hs & Hok).
  assert (k1 = KPrompt) as -> by (unfold cqe_kind in Ek'; rewrite E0, E1, E2 in Ek'; congruence).
  exists KPrompt, c', t', []. split_and!; [done|constructor|done].
Qed.

Lemma keeps_advance u h :
  keeps (ring_inv (handled u h)) (on_shm (uring_advance u)) (fun _ => ring_inv (idle u)).
Proof.
  apply keeps_shm. intros st (k0 & c & t & new & (R & [Hu Hrep Hp Hh Hc Ht]) & Hnew & Hok).
  inversion Hc as [|c0 ? cs ? Hc0 Hcs E]; subst.
  destruct (uring_advance_spec u k ck _ R (layout_handle u Hu) Hrep) as (sh' & E' & Hrep');
    [by rewrite <- E|].
  exists tt, sh'. split; [done|]. exists (take_completion R). split_and!; [done|done|].
  exists c, (t ++ response k0). split_and!; [cbn; by rewrite <- E| |by apply tokens_handle].
  cbn. rewrite app_assoc. by apply Forall2_app.
Qed.

Lemma keeps_event_step u argc argv envp :
  keeps (ring_inv (idle u)) (event_step fuel u argc argv envp) (fun u' => ring_inv (idle u')).
Proof.
  unfold event_step. eapply keeps_bind; [apply keeps_wait|]. intros u1.
  apply keeps_bind with (Mid := fun cqe st => exists h,
    (cqe = 0 /\ ring_inv (serving u1 h None) st) \/
    (cqe <> 0 /\ cqe = cqe_at u1 ck h /\ exists c0, ring_inv (serving u1 h (Some c0)) st)).
  { apply keeps_shm. intros st (h & R & (Hu & Hrep & Hok) & Hp & Hh & _).
    pose proof (layout_handle u1 Hu) as L1.
    destruct (uring_result_spec u1 k ck _ R L1 Hrep) as [E _].
    eexists _, _. split; [exact E|]. exists h. subst h.
    pose proof (cqe_at_pos u1 k ck L1 (r_chead R)).
    destruct (completed R) as [|c0 cs] eqn:Ec; [left|right].
    - split; [done|]. exists R. by split_and!.
    - split_and!; [lia|done|]. exists c0, R. rewrite Ec. by split_and!. }
  intros cqe. destruct (Z.eqb_spec cqe 0) as [->|Hne].
  - apply keeps_ret. intros st (h & [[_ Hs]|[? _]]); [|done].
    destruct Hs as (R & Hr & _). by exists R.
  - intros st (h & [[? _]|(_ & -> & c0 & Hs)]); [done|]. revert st Hs.
    eapply keeps_bind; [apply keeps_handle|]. intros u2.
    eapply keeps_bind; [apply keeps_advance|]. intros ?. by apply keeps_ret.
Qed.

Lemma keeps_event_loop n u argc argv envp :
  keeps (ring_inv (idle u)) (event_loop fuel n u argc argv envp) (fun u' => ring_inv (idle u')).
Proof.
  revert u. induction n as [|n IH]; intros u; [by apply keeps_ret|].
  cbn [event_loop]. eapply keeps_bind; [apply keeps_event_step|]. apply IH.
Qed.

(** *** The first submissions *)

(** The rings as they are set up: empty, nothing in flight. *)
Definition fresh (u : uring_queue) (sh : shm) (ks : kstate) : Prop :=
  exists R, handle_of u /\ ring_rep u k ck sh R /\ queued R = [] /\ pending R = [] /\
    completed R = [] /\ flight ks = [].

Lemma fresh_quiet u r m sh ks v m' sh' ks' :
  rax r <> NR_io_uring_enter -> kcall r m sh ks = KRet v m' sh' ks' ->
  fresh u sh ks -> fresh u sh' ks'.
Proof.
  intros Hr E (R & (a & b & ->) & Hrep & Hq & Hp & Hc & Hf).
  destruct (uring_quiet _ _ _ _ _ _ _ _ _ _ _ E Hr Hrep) as (R' & Hrep' & Hsteps).
  rewrite Hf in Hsteps. apply kernel_steps_idle in Hsteps. injection Hsteps as -> Hf'.
  exists R. split_and!; [by eexists _, _|done..].
Qed.

Lemma keeps_init u : keeps (ring_inv (fresh u)) (init u) (fun u' => ring_inv (idle u')).
Proof.
  pose proof (fresh_quiet u) as HP.
  unfold init. eapply keeps_bind.
  { apply (keeps_safe (fresh u)). apply safe_SYSCHECK; [done|].
    unfold signalfd, ret_int, SYSCALL_4. safe_tac. }
  intros fd. eapply keeps_bind; [apply keeps_safe, safe_on_mem; local_tac|].
  intros _ st (R & Hu & Hrep & Hq & Hp & Hc & Hf).
  assert (exists h, ring_inv (submitting u h [] [] []) st) as [h Hst].
  { exists (r_chead R), R. split; [done..| |]; rewrite ?Hc, ?Hf, ?Hq; constructor. }
  clear Hu Hrep Hq Hp Hc Hf. revert st Hst.
  eapply keeps_bind; [apply keeps_create_console_prompt; cbn; lia|]. intros u1.
  eapply keeps_weaken; [apply (keeps_submit_sig_listen u1 h [prompt_entry; line_entry] [] []); cbn; lia|done|].
  intros u2 st (e & He & R' & [Hu Hrep Hp Hh Hc Ht]). exists R'. split_and!; [done|done|].
  exists [], [KPrompt; KLine; KSignal]. split_and!; [done| |by vm_compute].
  rewrite app_assoc, Hp. change [KPrompt; KLine; KSignal] with ([] ++ [KPrompt; KLine; KSignal]).
  apply Forall2_app; [done|].
  repeat constructor; [apply prompt_kind|done].
Qed.
End loop.

(** ** The theorems *)

(** The outstanding operations, by their [user_data]: completed and not yet
    handled, in flight, queued, handed out. *)
Definition outstanding (R : ring) (F : list io_uring_sqe) : list Z :=
  (cqe_user_data <$> completed R) ++ (sqe_user_data <$> F ++ queued R ++ pending R).

Definition kind_data (k : kind) : Z :=
  match k with KSignal => EVENT_SIGNAL | KPrompt => EVENT_OTHER | KLine => EVENT_CONSOLE_READ end.

Lemma kinds_data {A : Abi} R F c t :
  Forall2 (fun e k => cqe_kind e = Some k) (completed R) c ->
  Forall2 (fun e k => sqe_kind e = Some k) (F ++ queued R ++ pending R) t ->
  outstanding R F = kind_data <$> c ++ t.
Proof.
  intros Hc Ht. unfold outstanding. rewrite (fmap_app kind_data). f_equal.
  - revert Hc. generalize (completed R). induction 1 as [|e k l l' He _ IH]; [done|]. cbn. rewrite IH. f_equal.
    unfold cqe_kind in He. repeat case_match; simplify_eq; by apply Z.eqb_eq.
  - revert Ht. generalize (F ++ queued R ++ pending R). induction 1 as [|e k l l' He _ IH]; [done|]. cbn. rewrite IH. f_equal.
    unfold sqe_kind in He. repeat case_match; simplify_eq; by apply Z.eqb_eq.
Qed.

Lemma filter_split_perm (l : list kind) :
  l ≡ₚ List.filter (fun k => negb (is_console k)) l ++ List.filter is_console l.
Proof.
  induction l as [|k l IH]; [done|]. cbn. destruct (is_console k); cbn.
  - by rewrite <- Permutation_middle, <- IH.
  - by rewrite <- IH.
Qed.

(** One read of a signal and one console exchange are outstanding. *)
Lemma loop_ok_outstanding {A : Abi} R F : loop_ok R F ->
  outstanding R F ≡ₚ [EVENT_SIGNAL; EVENT_CONSOLE_READ] \/
  outstanding R F ≡ₚ [EVENT_SIGNAL; EVENT_OTHER; EVENT_CONSOLE_READ].
Proof.
  intros (c & t & Hc & Ht & Hok). rewrite (kinds_data _ _ _ _ Hc Ht).
  unfold tokens_ok in Hok. rewrite !andb_true_iff, orb_true_iff, !bool_decide_eq_true in Hok.
  destruct Hok as [[H1 H2] _].
  pose proof (fmap_Permutation kind_data _ _ (filter_split_perm (c ++ t))) as Hp. rewrite H1 in Hp.
  destruct H2 as [H2|H2]; rewrite H2 in Hp; [right|left]; exact Hp.
Qed.

Section theorems.
Context {K : Kernel} {A : Abi} (fuel : nat) (u0 : uring_queue) (k ck : Z).
Context {UK : UringKernel K A u0 k ck}.

(** The safety of the event loop.  From empty rings, the first
    submissions and then any number of turns, with any command lines typed and
    the kernel completing operations in any order, never leave the mapped
    memory: the entry [uring_new_submission] returns, which no caller checks,
    is never NULL, and no completion is read that is not there.  Whenever a
    turn ends the rings are consistent, and the outstanding operations are
    one read of a signal and one console exchange, so that the ring never
    fills up. *)
Theorem event_loop_safe n u argc argv envp st :
  layout u0 k ck -> 2 <= k -> IOSQE_IO_LINK <> 0 -> fresh u0 k ck u (st_shm st) (st_k st) ->
  match (u' ← init u; event_loop fuel n u' argc argv envp) st with
  | Ok u' st' => exists R, ring_rep u' k ck (st_shm st') R /\
      (outstanding R (flight (st_k st')) ≡ₚ [EVENT_SIGNAL; EVENT_CONSOLE_READ] \/
       outstanding R (flight (st_k st')) ≡ₚ [EVENT_SIGNAL; EVENT_OTHER; EVENT_CONSOLE_READ])
  | Stop e => ~ unmapped (Stop e : outcome mach uring_queue)
  end.
Proof.
  intros L Hk Hlink Hf.
  assert (keeps (ring_inv (fresh u0 k ck u)) (u' ← init u; event_loop fuel n u' argc argv envp)
    (fun u' => ring_inv (idle u0 k ck u'))) as Hkeep.
  { eapply keeps_bind; [by apply keeps_init|]. intros u'. by apply keeps_event_loop. }
  specialize (Hkeep st Hf). destruct ((init u ≫= _) st) as [u' st'|e]; [|done].
  destruct Hkeep as (R & _ & Hrep & Hok). exists R. split; [done|]. by apply loop_ok_outstanding.
Qed.

(** C22: one turn keeps the invariant of the loop, whichever of the
    outstanding operations the kernel completes: also when the line is
    completed together with its prompt, or the prompt failed. *)
Theorem event_step_invariant u argc argv envp st R :
  layout u0 k ck -> 2 <= k -> IOSQE_IO_LINK <> 0 ->
  handle_of u0 u -> ring_rep u k ck (st_shm st) R -> loop_ok R (flight (st_k st)) ->
  match event_step fuel u argc argv envp st with
  | Ok u' st' => handle_of u0 u' /\
      exists R', ring_rep u' k ck (st_shm st') R' /\ loop_ok R' (flight (st_k st'))
  | Stop e => ~ unmapped (Stop e : outcome mach uring_queue)
  end.
Proof.
  intros L Hk Hlink Hu Hrep Hok.
  pose proof (keeps_event_step fuel u0 k ck L Hk Hlink u argc argv envp st) as Hs.
  destruct (event_step fuel u argc argv envp st) as [u' st'|e].
  - destruct Hs as (R' & Hu' & Hrep' & Hok'); [by exists R|]. split; [done|]. by exists R'.
  - apply Hs. by exists R.
Qed.
End theorems.

(** The kernel may complete the operations in flight in any order that
    respects links, any number of them at a time: the operations outstanding
    stay one read of a signal and one console exchange, and what the program
    has handed out or queued is not touched. *)
Theorem any_completion_order {A : Abi} R F R' F' :
  rtc kernel_step (R, F) (R', F') -> loop_ok R F ->
  loop_ok R' F' /\ queued R' = queued R /\ pending R' = pending R /\
  (exists cs, completed R' = completed R ++ cs) /\
  (outstanding R' F' ≡ₚ [EVENT_SIGNAL; EVENT_CONSOLE_READ] \/
   outstanding R' F' ≡ₚ [EVENT_SIGNAL; EVENT_OTHER; EVENT_CONSOLE_READ]).
Proof.
  intros Hs Hok. destruct (kernel_steps_ok _ _ Hs Hok) as (Hok' & _ & E1 & E2 & E3).
  split_and!; [done..|by apply loop_ok_outstanding].
Qed.

(** Whatever is typed, a command neither touches the shared rings nor
    leaves the mapped memory: a property of the rings and the kernel that the
    calls other than io_uring_enter keep is kept by [process_command]. *)
Theorem commands_keep_rings {K : Kernel} {A : Abi} fuel (P : shm -> kstate -> Prop) args argc argv envp st :
  (forall r m sh ks v m' sh' ks', rax r <> NR_io_uring_enter ->
     kcall r m sh ks = KRet v m' sh' ks' -> P sh ks -> P sh' ks') ->
  P (st_shm st) (st_k st) ->
  match process_command fuel args argc argv envp st with
  | Ok _ st' => P (st_shm st') (st_k st')
  | Stop e => ~ unmapped (Stop e : outcome mach unit)
  end.
Proof. intros HP Hst. by apply (safe_process_command fuel P HP). Qed.
