(* ===== verification/Frame.v ===== *)
(** * What the program leaves alone

    The stores of the commands and of a turn of the event loop: whatever is
    typed and whatever the kernel answers, an object that was there before is
    the same afterwards, but for the few objects of static storage that the
    code works in ([scratch]).  The judgement [framed] follows the structure of
    the code as [safe] does (System.v), and keeps track of the pointers that
    are stored through. *)

From S2P Require Import Prelude Headers Outcome CMem CString Decimal Parser Machine Syscall Console Uring Command Init.

(** The signal sets handed to the kernel, by the program and by a child. *)
Definition signal_sets : list positive := [allsignals_obj; nosignals_memrun; nosignals_busybox].

(** What may change: the buffer of [ltoa], the line, what a signal is read into,
    and the signal sets. *)
Definition scratch : list positive := [ltoa_buffer; line_obj; siginfo_obj] ++ signal_sets.

(** The objects numbered below [lim] are there before. *)
Definition owned (lim n : positive) : Prop := (n < lim)%positive /\ n ∉ scratch.

(** The buffer of [ltoa] keeps its size. *)
Definition buffer_ok (m : mem) : Prop :=
  exists l, m_objs m !! ltoa_buffer = Some (OBytes l) /\ length l = 21%nat.

Definition stays (lim : positive) (m m' : mem) : Prop :=
  (m_next m <= m_next m')%positive /\ (forall n, owned lim n -> m_objs m' !! n = m_objs m !! n) /\
  (buffer_ok m -> buffer_ok m').

#[export] Instance stays_refl lim : Reflexive (stays lim).
Proof. by intros m. Qed.

#[export] Instance stays_trans lim : Transitive (stays lim).
Proof.
  intros m1 m2 m3 (N1 & H1 & B1) (N2 & H2 & B2). split_and!; [lia| |auto]. intros n Hn. by rewrite H2, H1.
Qed.

Lemma buffer_set m n x : n <> ltoa_buffer -> buffer_ok m -> buffer_ok (set_obj m n x).
Proof. intros Hn (l & Hl & Hlen). exists l. by rewrite set_obj_ne. Qed.

Lemma buffer_ok_same m m' : m_objs m' !! ltoa_buffer = m_objs m !! ltoa_buffer -> buffer_ok m -> buffer_ok m'.
Proof. intros E (l & Hl & Hlen). exists l. by rewrite E. Qed.

Section framed.
Context (lim : positive) (Hlim : (10 <= lim)%positive).

(** Pointers the code may store through, *)
Definition mine (p : ptr) : Prop :=
  match p with Ptr (BVar n) _ => n ∈ scratch \/ (lim <= n)%positive | _ => True end.

(** and those it hands to the kernel: to objects of its own, and signal sets. *)
Definition handed (p : ptr) : Prop :=
  match p with Ptr (BVar n) _ => n ∈ signal_sets \/ (lim <= n)%positive | _ => True end.

Definition handed_arg (a : option rval) : Prop := match a with Some (VPtr p) => handed p | _ => True end.

Lemma handed_mine p : handed p -> mine p.
Proof. destruct p as [|[t|n] o]; [done..|]. intros [H|H]; [left; unfold scratch; set_solver|by right]. Qed.

Lemma mine_padd p i : mine p -> mine (padd p i).
Proof. by destruct p as [|[]]. Qed.

Lemma not_owned n o : mine (Ptr (BVar n) o) -> ~ owned lim n.
Proof. intros [H|H] [H1 H2]; [done|lia]. Qed.

Lemma stays_set n o m x : mine (Ptr (BVar n) o) -> (buffer_ok m -> buffer_ok (set_obj m n x)) ->
  stays lim m (set_obj m n x).
Proof.
  intros Hn Hb. split_and!; [cbn; lia| |done]. intros n' Hn'. apply set_obj_ne. intros ->. by eapply not_owned.
Qed.

(** The code [c], over a state with the memory [view], leaves the objects it
    does not own alone, and its result satisfies [Q]. *)
Section judgement.
Context {S : Type} (view : S -> mem).

Definition framed {T} (Q : T -> Prop) (c : stM S T) : Prop :=
  forall s, (lim <= m_next (view s))%positive ->
  match c s with
  | Ok v s' => Q v /\ stays lim (view s) (view s')
  | Stop (Halted s') => stays lim (view s) (view s')
  | Stop _ => True
  end.

Lemma framed_ret {T} (Q : T -> Prop) v : Q v -> framed Q (mret v).
Proof. by intros HQ s _. Qed.

Lemma framed_bind {T U} (Mid : T -> Prop) (Q : U -> Prop) (c : stM S T) f :
  framed Mid c -> (forall v, Mid v -> framed Q (f v)) -> framed Q (c ≫= f).
Proof.
  intros Hc Hf s Hs. specialize (Hc s Hs). unfold mbind, stM_bind.
  destruct (c s) as [v s1|]; [|done]. destruct Hc as [Hv H1]. specialize (Hf v Hv s1 ltac:(destruct H1; lia)).
  destruct (f v s1) as [w s2|[s2|g|]]; [|by etrans|done..]. destruct Hf as [Hw H2]. split; [done|by etrans].
Qed.

Lemma framed_iter {X T} (I : X -> Prop) (Q : T -> Prop) (body : X -> stM S (X + T)) n x :
  (forall x, I x -> framed (fun r => match r with inl x' => I x' | inr v => Q v end) (body x)) ->
  I x -> framed Q (iter n body x).
Proof.
  intros Hb. revert x. induction n as [|n IH]; intros x Hx; [by intros s Hs|].
  cbn [iter]. eapply framed_bind; [by apply Hb|]. intros [x'|v] Hr; [by apply IH|by apply framed_ret].
Qed.

Lemma framed_weaken {T} (Q Q' : T -> Prop) c : framed Q c -> (forall v, Q v -> Q' v) -> framed Q' c.
Proof.
  intros H HQ s Hs. specialize (H s Hs). destruct (c s); [destruct H; auto|done].
Qed.

Lemma framed_fail {T} (Q : T -> Prop) f : framed Q (fail f).
Proof. by intros s Hs. Qed.

Lemma framed_get : framed (fun _ => True) get.
Proof. by intros s Hs. Qed.

(** Code that only reads. *)
Lemma framed_reads {T} (c : stM S T) :
  (forall s, match c s with Ok _ s' => s' = s | Stop (Halted _) => False | Stop _ => True end) ->
  framed (fun _ => True) c.
Proof. intros H s _. specialize (H s). destruct (c s) as [v s'|[s'|f|]]; [by subst|done..]. Qed.
End judgement.

(** ** Memory *)

Notation mem_framed := (framed (fun m : mem => m)).

Lemma framed_load_char p : mem_framed (fun _ => True) (load_char p).
Proof. apply framed_reads. intros m. unfold load_char. by repeat case_match; simplify_eq. Qed.
Lemma framed_load_ptr p : mem_framed (fun _ => True) (load_ptr p).
Proof. apply framed_reads. intros m. unfold load_ptr. by repeat case_match; simplify_eq. Qed.
Lemma framed_load_field p f : mem_framed (fun _ => True) (load_field p f).
Proof. apply framed_reads. intros m. unfold load_field. by repeat case_match; simplify_eq. Qed.
Lemma framed_magnitude z : mem_framed (fun _ => True) (magnitude z).
Proof. apply framed_reads. intros m. unfold magnitude. by destruct (z <? 0), (z =? - 2 ^ 63). Qed.
Lemma framed_need {T} f (o : option T) : mem_framed (fun _ => True) (need f o).
Proof. apply framed_reads. intros m. by destruct o. Qed.

Lemma framed_store_char p c : mine p -> mem_framed (fun _ => True) (store_char p c).
Proof.
  intros Hp m _. unfold store_char. destruct p as [|[t|n] o]; [done..|].
  destruct (m_objs m !! n) as [[l|l|fs]|] eqn:E; try done. destruct (zinsert l o c) as [l'|] eqn:Ei; [|done].
  split; [done|]. apply (stays_set n o); [done|]. intros (l0 & Hl & Hlen).
  destruct (decide (n = ltoa_buffer)) as [->|Hne]; [|apply buffer_set; [done|by exists l0]].
  rewrite Hl in E. injection E as ->. exists l'. split; [apply set_obj_eq|by rewrite (zinsert_length _ _ _ _ Ei)].
Qed.
Lemma framed_store_ptr p q : mine p -> mem_framed (fun _ => True) (store_ptr p q).
Proof.
  intros Hp m _. unfold store_ptr. destruct p as [|[t|n] o]; [done..|].
  destruct (m_objs m !! n) as [[l|l|fs]|] eqn:E; try done. destruct (zinsert l o (Some q)) as [l'|]; [|done].
  split; [done|]. apply (stays_set n o); [done|]. intros Hb. apply buffer_set; [|done].
  intros ->. destruct Hb as (l0 & Hl & _). congruence.
Qed.

(** A new object is beyond those that were there. *)
Lemma framed_alloc o : mem_framed handed (alloc o).
Proof.
  intros m Hm. cbn. split; [by right|]. split_and!; [cbn; lia| |].
  - intros n [Hn _]. cbn. apply lookup_insert_ne. lia.
  - apply buffer_ok_same. cbn. apply lookup_insert_ne. unfold ltoa_buffer. lia.
Qed.
Lemma framed_free p : handed p -> mem_framed (fun _ => True) (free p).
Proof.
  intros Hp m _. unfold free. destruct p as [|[t|n] o]; try done. split; [done|]. split_and!; [cbn; lia| |].
  - intros n' Hn'. cbn. apply lookup_delete_ne. intros ->. by apply (not_owned n' o); [apply handed_mine|].
  - apply buffer_ok_same. cbn. apply lookup_delete_ne. intros ->. destruct Hp as [Hp|Hp]; [|unfold ltoa_buffer in Hp; lia].
    assert (ltoa_buffer ∉ signal_sets) as H by (by apply (bool_decide_unpack _)). done.
Qed.

End framed.

Create HintDb frame discriminated.
#[export] Hint Resolve handed_mine mine_padd framed_load_char framed_load_ptr framed_load_field framed_magnitude framed_need
  framed_store_char framed_store_ptr framed_alloc framed_free framed_get : frame.
#[export] Hint Extern 0 (handed _ Null) => exact I : frame.
#[export] Hint Extern 0 (handed _ (lit_ptr _)) => exact I : frame.
#[export] Hint Extern 0 (handed _ (Ptr (BLit _) _)) => exact I : frame.
#[export] Hint Extern 1 (handed _ (Ptr (BVar _) _)) => left; apply (bool_decide_unpack _); exact I : frame.
#[export] Hint Extern 0 (mine _ Null) => exact I : frame.
#[export] Hint Extern 0 (mine _ (lit_ptr _)) => exact I : frame.
#[export] Hint Extern 0 (mine _ (Ptr (BLit _) _)) => exact I : frame.
#[export] Hint Extern 1 (mine _ (Ptr (BVar _) _)) => left; apply (bool_decide_unpack _); exact I : frame.

Notation mem_framed lim := (framed lim (fun m : mem => m)).
Notation no_more := (fun _ => True).

Lemma framed_any {S T} lim (view : S -> mem) (Q : T -> Prop) c : framed lim view Q c -> framed lim view no_more c.
Proof. intros H. by eapply framed_weaken. Qed.

(** A loop whose state holds no pointer to be stored through. *)
Lemma framed_loop {S X T} lim (view : S -> mem) (body : X -> stM S (X + T)) n x :
  (forall x, framed lim view no_more (body x)) -> framed lim view no_more (iter n body x).
Proof.
  intros Hb. apply framed_iter with (I := no_more); [|done]. intros y _.
  eapply framed_weaken; [apply Hb|by intros []].
Qed.

(** Break a goal on the structure of the code; what is bound to a pointer is
    tracked. *)
Ltac frame_tac :=
  repeat lazymatch goal with
  | |- framed _ _ _ (mbind (A := ptr) _ _) =>
      eapply framed_bind; [solve [eauto with frame nocore]|intros ? ?]
  | |- framed _ _ _ (mbind _ _) => apply framed_bind with (Mid := no_more); [|intros ? _]
  | |- framed _ _ _ (mret _) => apply framed_ret; cbn; first [exact I|solve [auto with frame nocore]|idtac]
  | |- framed _ _ _ (fail _) => apply framed_fail
  | |- framed _ _ _ (iter _ _ _) => apply framed_loop; intros ?
  | |- framed _ _ _ (match ?x with _ => _ end) => destruct x
  | |- framed _ _ _ (let '_ := ?x in _) => destruct x
  | |- framed _ _ _ _ => solve [eauto with frame nocore]
  end.

(** ** The functions over the memory *)

Section memory.
Context (lim : positive) (Hlim : (10 <= lim)%positive).

Lemma framed_strlen_loop p : mem_framed lim no_more (nolibc_strlen p).
Proof. unfold nolibc_strlen, strlen_body. frame_tac. Qed.

Lemma framed_find_arg p : mine lim p -> mem_framed lim (mine lim) (find_arg p).
Proof.
  intros Hp. unfold find_arg. frame_tac.
  apply framed_bind with (Mid := mine lim); [|intros q Hq; frame_tac].
  apply framed_iter with (I := mine lim); [|exact Hp]. intros x Hx. unfold find_arg_body. frame_tac.
Qed.

Lemma framed_terminate_arg p : mine lim p -> mem_framed lim (mine lim) (terminate_arg p).
Proof.
  intros Hp. unfold terminate_arg. frame_tac.
  apply framed_bind with (Mid := mine lim); [|intros q Hq; frame_tac].
  apply framed_iter with (I := mine lim); [|exact Hp]. intros x Hx. unfold terminate_arg_body. frame_tac.
Qed.
Hint Resolve framed_find_arg framed_terminate_arg : frame.

Lemma framed_streq p q : mem_framed lim no_more (streq p q).
Proof. unfold streq, streq_body. frame_tac. Qed.

Lemma framed_fill_args_loop n args next : mine lim args -> mine lim next ->
  mem_framed lim no_more (fill_args_loop n args next).
Proof.
  intros Ha Hn. unfold fill_args_loop. eapply framed_any, framed_iter with (I := fun '(_, q) => mine lim q); [|exact Hn].
  intros [i q] Hq. unfold fill_args_body. frame_tac.
Qed.

Lemma framed_print_long buf z : mine lim buf -> mem_framed lim no_more (print_long buf z).
Proof.
  intros Hb. unfold print_long. do 2 (apply framed_bind with (Mid := no_more); [frame_tac|intros ? _]).
  apply framed_bind with (Mid := fun r => mine lim r.2); [|intros [early q] Hq; cbn in Hq; frame_tac].
  apply framed_iter with (I := fun x => mine lim x.1); [|by apply mine_padd, mine_padd].
  intros [q n] Hq. cbn in Hq. unfold digits_body. frame_tac.
Qed.

Lemma framed_ltoa z : mem_framed lim no_more (ltoa z).
Proof. apply framed_print_long. auto with frame. Qed.
Hint Resolve framed_print_long framed_ltoa framed_streq framed_fill_args_loop framed_strlen_loop : frame.

Lemma framed_alloc_bytes n : mem_framed lim (handed lim) (alloc_bytes n).
Proof. unfold alloc_bytes. frame_tac. Qed.
Lemma framed_alloc_ptrs n : mem_framed lim (handed lim) (alloc_ptrs n).
Proof. by apply framed_alloc. Qed.
Hint Resolve framed_alloc_bytes framed_alloc_ptrs : frame.

Lemma framed_int_to_str z : mem_framed lim no_more (int_to_str z).
Proof. unfold int_to_str. frame_tac. Qed.
Lemma framed_load_u16 p : mem_framed lim no_more (load_u16 p).
Proof. unfold load_u16. frame_tac. Qed.
End memory.
#[export] Hint Resolve framed_find_arg framed_terminate_arg framed_ltoa framed_streq framed_fill_args_loop
  framed_strlen_loop framed_alloc_bytes framed_alloc_ptrs framed_int_to_str framed_load_u16 : frame.

(** ** The program *)

Section program.
Context {K : Kernel} {A : Abi} {HK : KernelOk K} (fuel : nat) (lim : positive).
Hypothesis Hlim : (10 <= lim)%positive.

Notation code_framed := (framed lim (@st_mem K)).

Lemma framed_on_mem {T} (Q : T -> Prop) (c : memM T) : mem_framed lim Q c -> code_framed Q (on_mem c).
Proof.
  intros H st Hst. specialize (H (st_mem st) Hst). unfold on_mem, zoom.
  by destruct (c (st_mem st)) as [v m|[m|f|]].
Qed.

Lemma framed_on_shm {T} (c : shmM T) : code_framed no_more (on_shm c).
Proof.
  intros st _. unfold on_shm, zoom. by destruct (c (st_shm st)) as [v m|[m|f|]].
Qed.

Lemma siginfo_scratch : siginfo_obj ∈ scratch.
Proof. unfold scratch. set_solver. Qed.

(** The kernel writes what it is asked to. *)
Lemma framed_syscall r : (writes_memory (rax r) = true -> Forall (handed_arg lim) [rdi r; rsi r; rdx r; r10 r; r8 r; r9 r]) ->
  code_framed no_more (syscall r).
Proof.
  intros Hr st _. unfold syscall. destruct (kcall r (st_mem st) (st_shm st) (st_k st)) as [v m sh ks|ks] eqn:E; [|done].
  split; [done|]. cbn. assert (exists ns, mem_upto ns (st_mem st) m /\
    forall n, n ∈ ns -> n ∈ line_obj :: signal_sets \/ (lim <= n)%positive) as (ns & (Hm & Hnext & _) & Hns).
  { destruct (writes_memory (rax r)) eqn:Ew.
    - exists (out_objs r). split; [by eapply kernel_frame|]. specialize (Hr eq_refl). rewrite List.Forall_forall in Hr.
      intros n [Hn|Hn]%elem_of_app.
      + unfold arg_objs in Hn. apply list_elem_of_bind in Hn as (a & Hn & Ha). specialize (Hr a (proj1 (list_elem_of_In _ _) Ha)).
        destruct a as [[|[|[|n'] o]]|]; try (by apply elem_of_nil in Hn). apply list_elem_of_singleton in Hn as ->.
        destruct Hr; [left; by right|by right].
      + case_decide; [|by apply elem_of_nil in Hn]. apply list_elem_of_singleton in Hn as ->. left. by left.
    - exists []. split; [by eapply kernel_mem|set_solver]. }
  split_and!; [cbn; lia| |].
  - intros n [H1 H2]. apply Hm; [intros ->; apply H2, siginfo_scratch|].
    intros [Hin|Hin]%Hns; [|lia]. apply H2. unfold scratch. set_solver.
  - apply buffer_ok_same, Hm; [done|]. intros [Hin|Hin]%Hns; [|unfold ltoa_buffer in Hin; lia].
    assert (ltoa_buffer ∉ line_obj :: signal_sets) as H by (by apply (bool_decide_unpack _)). done.
Qed.

Lemma framed_with_local {T} (Q : T -> Prop) o (body : ptr -> M T) :
  mem_framed lim (handed lim) o -> (forall p, handed lim p -> code_framed Q (body p)) -> code_framed Q (with_local o body).
Proof.
  intros Ho Hb. unfold with_local. eapply framed_bind; [by apply framed_on_mem|]. intros p Hp.
  eapply framed_bind; [by apply Hb|]. intros v Hv.
  eapply framed_bind; [by apply framed_on_mem, framed_free|]. intros _ _. by apply framed_ret.
Qed.

Hint Resolve framed_on_mem framed_on_shm : frame.
Hint Extern 1 (code_framed _ (syscall _)) =>
  apply framed_syscall; cbn; first [done|intros _; repeat constructor; cbn; auto with frame nocore] : frame.
Hint Extern 1 (code_framed _ (ret_int _)) => unfold ret_int; frame_tac : frame.

Ltac frame_prim := cbv delta [write read reboot_hard exit umask mkdir mount open close close_range
  close_all_files dup3 execveat getdents64 memfd_create clone3 clock_gettime openat2 waitid
  sysinfo fstatat copy_file_range sigprocmask signalfd socket io_uring_enter io_uring_setup mmap ret_int
  SYSCALL_0 SYSCALL_1 SYSCALL_2 SYSCALL_3 SYSCALL_4 SYSCALL_5 SYSCALL_6]; cbv beta; frame_tac.

Lemma framed_write fd p n : code_framed no_more (write fd p n).
Proof. frame_prim. Qed.
Lemma framed_exit {T} s : code_framed no_more (exit s : M T).
Proof. frame_prim. Qed.
Hint Resolve framed_write framed_exit : frame.
Lemma framed_strlen p : code_framed no_more (strlen p).
Proof. unfold strlen. frame_tac. Qed.
Hint Resolve framed_strlen : frame.
Lemma framed_WRITESTR p : code_framed no_more (WRITESTR p).
Proof. unfold WRITESTR. frame_tac. Qed.
Lemma framed_say s : code_framed no_more (say s).
Proof. apply framed_WRITESTR. Qed.
Lemma framed_write_int z : code_framed no_more (write_int z).
Proof. unfold write_int. frame_tac. Qed.
Hint Resolve framed_WRITESTR framed_say framed_write_int : frame.
Lemma framed_SYSCHECK loc c : code_framed no_more c -> code_framed no_more (SYSCHECK loc c).
Proof. intros Hc. unfold SYSCHECK. frame_tac. Qed.
Lemma framed_WRITE_ERR m e : code_framed no_more (WRITE_ERR m e).
Proof. unfold WRITE_ERR. frame_tac. Qed.
Lemma framed_ERREXIT {T} l m : code_framed no_more (ERREXIT l m : M T).
Proof. unfold ERREXIT. frame_prim. Qed.
Hint Resolve framed_WRITE_ERR framed_ERREXIT : frame.

(** *** The commands *)

Ltac frame_cmd :=
  repeat first
    [ progress frame_tac
    | lazymatch goal with
      | |- framed _ _ _ (with_local _ _) =>
          apply framed_with_local; [solve [auto with frame nocore]|intros ? ?]
      | |- framed _ _ _ (SYSCHECK _ _) => apply framed_SYSCHECK
      end
    | progress frame_prim ].

Lemma framed_dirlist p : code_framed no_more (dirlist fuel p).
Proof. unfold dirlist, dirlist_body, dirlist_entry. frame_cmd. Qed.
Lemma framed_cat_file fd : code_framed no_more (cat_file fuel fd).
Proof. unfold cat_file, cat_body. frame_cmd. Qed.
Lemma framed_fill_args n a x : mine lim a -> mine lim x -> code_framed no_more (fill_args n a x).
Proof. intros. unfold fill_args. frame_cmd. Qed.
Lemma framed_console_fds a b c : code_framed no_more (console_fds a b c).
Proof. unfold console_fds. frame_cmd. Qed.
Hint Resolve framed_dirlist framed_cat_file framed_fill_args framed_console_fds : frame.
Lemma framed_memrun_child p n : mine lim n -> code_framed no_more (memrun_child p n).
Proof. intros. unfold memrun_child, memrun_args. frame_cmd. Qed.
Lemma framed_busybox_child p n : mine lim n -> code_framed no_more (busybox_child p n).
Proof. intros. unfold busybox_child, busybox_args. frame_cmd. Qed.
Hint Resolve framed_memrun_child framed_busybox_child : frame.

(** A command may cut the rest of the line it is given. *)
Definition command_framed (f : Z -> ptr -> ptr -> ptr -> M unit) : Prop :=
  forall argc argv envp next, mine lim next -> code_framed no_more (f argc argv envp next).

Lemma framed_builtins : Forall (fun b => command_framed b.2) (builtins fuel).
Proof.
  repeat constructor; intros argc argv envp next Hn; cbn [snd];
    unfold cmd_time, cmd_ls, cmd_cat, cmd_env, env_body, cmd_exit, cmd_usage, cmd_memrun; frame_cmd.
Qed.

Lemma framed_busybox p n : mine lim n -> code_framed no_more (busybox p n).
Proof. intros Hn. unfold busybox. frame_cmd. Qed.

Lemma framed_dispatch table prog argc argv envp next none :
  Forall (fun b => command_framed b.2) table -> mine lim next -> code_framed no_more none ->
  code_framed no_more (dispatch table prog argc argv envp next none).
Proof. intros Ht Hn Hnone. induction Ht as [|[name f] t Hf _ IH]; [done|]. cbn [dispatch]. frame_tac. Qed.

Lemma framed_process_command args argc argv envp : mine lim args ->
  code_framed no_more (process_command fuel args argc argv envp).
Proof.
  intros Ha. unfold process_command. frame_tac.
  apply framed_dispatch; [apply framed_builtins|done|by apply framed_busybox].
Qed.

(** *** The event loop *)

Lemma framed_uring_wait u count : code_framed no_more (uring_wait u count).
Proof. unfold uring_wait. frame_cmd. Qed.
Hint Resolve framed_process_command framed_uring_wait : frame.

Lemma framed_prompt u : code_framed no_more (create_console_prompt u).
Proof. unfold create_console_prompt, set_entry. frame_tac. Qed.
Lemma framed_sig_listen u : code_framed no_more (submit_sig_listen u).
Proof. unfold submit_sig_listen, set_entry. frame_tac. Qed.
Hint Resolve framed_prompt framed_sig_listen : frame.
Lemma framed_process_input u cqe argc argv envp : code_framed no_more (process_input fuel u cqe argc argv envp).
Proof. unfold process_input. frame_cmd. Qed.
Hint Resolve framed_process_input : frame.
Lemma framed_handle u cqe argc argv envp : code_framed no_more (handle fuel u cqe argc argv envp).
Proof. unfold handle, process_signal. frame_cmd. Qed.
Hint Resolve framed_handle : frame.
Lemma framed_event_step u argc argv envp : code_framed no_more (event_step fuel u argc argv envp).
Proof. unfold event_step. frame_cmd. Qed.
Lemma framed_event_loop n u argc argv envp : code_framed no_more (event_loop fuel n u argc argv envp).
Proof.
  revert u. induction n as [|n IH]; intros u; cbn [event_loop]; [frame_tac|].
  apply framed_bind with (Mid := no_more); [apply framed_event_step|intros ? _; apply IH].
Qed.

(** *** The start-up, but for the descriptor of the signals *)

Lemma framed_start_system : code_framed no_more start_system.
Proof. unfold start_system. cbv zeta. frame_cmd. Qed.
Lemma framed_uring_init entries : code_framed no_more (uring_init entries).
Proof. unfold uring_init. cbv zeta. frame_cmd. Qed.
Lemma framed_mask_signals loc : code_framed no_more (SYSCHECK loc (sigprocmask SIG_SETMASK (Ptr (BVar allsignals_obj) 0) Null)).
Proof. frame_cmd. Qed.
Lemma framed_signalfd loc : code_framed no_more (SYSCHECK loc (signalfd (-1) (Ptr (BVar allsignals_obj) 0) 0)).
Proof. frame_cmd. Qed.
Lemma framed_socket loc d t p : code_framed no_more (SYSCHECK loc (socket d t p)).
Proof. frame_cmd. Qed.

(** Code that returns. *)
Lemma framed_ok {T} (Q : T -> Prop) (c : M T) st0 st v st' : c st = Ok v st' -> code_framed Q c ->
  (lim <= m_next (st_mem st0))%positive -> stays lim (st_mem st0) (st_mem st) -> stays lim (st_mem st0) (st_mem st').
Proof.
  intros E Hf Hst Hs. assert (lim <= m_next (st_mem st))%positive as Hn by (destruct Hs; lia).
  specialize (Hf st Hn). rewrite E in Hf. destruct Hf. by etrans.
Qed.
End program.

(** What is framed keeps the static objects in order. *)
Lemma stays_statics {K : Kernel} lim (st st' : mach) : stays lim (st_mem st) (st_mem st') -> statics_ok st -> statics_ok st'.
Proof. intros (Hn & _ & Hb) [Hl H10]. split; [by apply Hb|lia]. Qed.

(** C6: what the event loop leaves alone.  Whatever is typed, whichever commands
    run and whatever the kernel answers, any number of turns, whether they come
    to their end or a call stops the program, leave every object that was there
    before as it was: only the line, the buffer of [ltoa], what a signal is read
    into and the signal sets handed to the kernel may change, and that buffer
    keeps its size.  So the arguments and the environment of [init], and the
    descriptor of its signals, stay. *)
Theorem event_loop_frame {K : Kernel} {A : Abi} {HK : KernelOk K} fuel n u argc argv envp st :
  statics_ok st ->
  match event_loop fuel n u argc argv envp st with
  | Ok _ st' | Stop (Halted st') => statics_ok st' /\
      forall i, (i < m_next (st_mem st))%positive ->
        i ∉ [ltoa_buffer; line_obj; siginfo_obj; allsignals_obj; nosignals_memrun; nosignals_busybox] ->
        m_objs (st_mem st') !! i = m_objs (st_mem st) !! i
  | Stop _ => True
  end.
Proof.
  intros Hok. pose proof (framed_event_loop fuel (m_next (st_mem st)) (proj2 Hok) n u argc argv envp st ltac:(lia)) as H.
  destruct (event_loop _ _ _ _ _ _ st) as [v st'|[st'|f|]]; [destruct H as [_ H]| |done..];
    (split; [by eapply stays_statics|]; destruct H as (_ & H & _); intros i Hi Hs; by apply H).
Qed.
