(* ===== verification/Turn.v ===== *)
(** * The event loop goes on

    What a turn of the loop does, beyond its safety: when io_uring_enter comes
    back with a completion, the turn ends, having handled the oldest completion
    and that alone, and having handed out what is to happen next. *)

From S2P Require Import Prelude Headers Outcome CMem CString Parser Machine Syscall Console Uring Command CommandSpec Init InitSpec System.

Section turn.
Context {K : Kernel} {A : Abi} {HK : KernelOk K} (fuel : nat) (u0 : uring_queue) (k ck : Z).
Context {UK : UringKernel K A u0 k ck}.
Hypothesis L : layout u0 k ck.
Hypothesis Hk : 2 <= k.
Hypothesis Hlink : IOSQE_IO_LINK <> 0.

(** The call of [uring_wait]. *)
Definition enter_call (u : uring_queue) (to_submit count : Z) : regs :=
  Regs NR_io_uring_enter (of_int (ringfd u)) (of_int to_submit) (of_int count) (of_int IORING_ENTER_GETEVENTS)
    (of_ptr Null) (of_int 0).

(** io_uring_enter(2), asked to wait for a completion, comes back with one. *)
Definition comes_back (u : uring_queue) (R : ring) (st : mach) : Prop :=
  forall sh, ring_rep (with_list u (sq_list_tail u) (sq_list_tail u)) k ck sh (publish R) ->
  exists v m' sh' ks', kcall (enter_call u (Z.of_nat (length (queued R ++ pending R))) 1) (st_mem st) sh (st_k st) =
      KRet v m' sh' ks' /\ 0 <= to_int v /\ sh_words sh' !! cq_head u <> sh_words sh' !! cq_tail u.

(** The rings [R'] come from [R] by what the kernel does between two waits:
    completions are added. *)
Definition grown (R R' : ring) : Prop :=
  queued R' = queued R /\ pending R' = pending R /\ r_chead R' = r_chead R /\ completed R `prefix_of` completed R'.

Definition rings_grown (u : uring_queue) (R : ring) (sh : shm) (ks : kstate) : Prop :=
  exists R', rings_at u0 k ck u R' sh ks /\ grown R R'.

Lemma grown_quiet u R r m sh ks v m' sh' ks' : rax r <> NR_io_uring_enter ->
  kcall r m sh ks = KRet v m' sh' ks' -> rings_grown u R sh ks -> rings_grown u R sh' ks'.
Proof.
  intros Hr E (R1 & ((a & b & ->) & Hrep & Hok) & E1 & E2 & E3 & E4).
  destruct (uring_quiet _ _ _ _ _ _ _ _ _ _ _ E Hr Hrep) as (R2 & Hrep2 & Hsteps).
  destruct (kernel_steps_ok _ _ Hsteps Hok) as (Hok2 & F1 & F2 & F3 & cs & F4). cbn in *.
  exists R2. split; [by split_and!; [eexists _, _|..]|]. split_and!; [congruence..|].
  rewrite F4. by apply prefix_app_r.
Qed.

(** Waiting: the completion is there, and the memory but the line is the same. *)
Lemma wait_returns u R st : rings_at u0 k ck u R (st_shm st) (st_k st) -> comes_back u R st ->
  exists u1 st1 R1 c0 cs, uring_wait u 1 st = Ok u1 st1 /\ rings_at u0 k ck u1 R1 (st_shm st1) (st_k st1) /\
    pending R1 = [] /\ completed R1 = c0 :: cs /\ completed R `prefix_of` completed R1 /\ r_chead R1 = r_chead R /\
    mem_upto [line_obj] (st_mem st) (st_mem st1) /\ stdout_of st1 = stdout_of st /\
    calls st1 = calls st ++ [enter_call u (Z.of_nat (length (queued R ++ pending R))) 1].
Proof.
  intros (Hu & Hrep & Hok) Hback. pose proof (layout_handle u0 k ck L u Hu) as Lu.
  destruct (uring_flush_spec u k ck _ R Lu Hrep) as (sh1 & u1 & E1 & Eu & Hrep1).
  pose proof (k_bound u k ck Lu). pose proof (rr_room _ _ _ _ _ Hrep) as Hroom.
  assert (Hrep1' := Hrep1). rewrite Eu in Hrep1'.
  destruct (Hback sh1 Hrep1') as (v & m' & sh2 & ks & E2 & Hv & Hne). clear Hrep1'.
  assert (exists a b, u1 = with_list u0 a b) as (a & b & Eu1) by (destruct Hu as (a & b & ->); rewrite Eu; by eexists _, _).
  assert (ringfd u1 = ringfd u) as Efd by (by rewrite Eu).
  destruct (uring_enter _ _ _ _ _ _ _ _ a b (publish R) E2 eq_refl) as (R1 & Hrep2 & Hsteps).
  { cbn. by unfold of_int. }
  { lia. }
  { by rewrite <- Eu1. }
  assert (loop_ok (publish R) (flight (st_k st))) as Hok1.
  { destruct Hok as (c & t & Hc & Ht & Hok). exists c, t. split_and!; [done| |done]. cbn. by rewrite app_nil_r. }
  destruct (kernel_steps_ok _ _ Hsteps (consume_ok _ (publish R) _ eq_refl Hok1)) as (Hok2 & F1 & F2 & F3 & cs & F4).
  cbn in F1, F2, F3, F4, Hok2. rewrite <- Eu1 in Hrep2.
  destruct (completed R1) as [|c0 cs1] eqn:Ec.
  { destruct Hne. pose proof (rr_chead _ _ _ _ _ Hrep2) as H1. pose proof (rr_ctail _ _ _ _ _ Hrep2) as H2.
    rewrite Ec in H2. cbn in H2. rewrite Z.add_0_r in H2. rewrite Eu in H1, H2. cbn in H1, H2. congruence. }
  exists u1, (Mach _ m' sh2 ks (st_trace st ++ [Event (enter_call u (Z.of_nat (length (queued R ++ pending R))) 1) (st_mem st) (Some v)])).
  exists R1, c0, cs1. split_and!; [| |done|done| |done| | |].
  - unfold uring_wait. rewrite (bind_ok _ _ _ _ _ (on_shm_ok _ _ _ _ E1)).
    erewrite bind_ok; [|apply on_shm_ok, load_u32_ok, Hrep1]. cbn [r_head publish].
    rewrite counter_diff by lia. unfold io_uring_enter, SYSCALL_6, SYSCHECK. rewrite Efd.
    erewrite bind_ok; [reflexivity|]. erewrite bind_ok; [|unfold ret_int; erewrite bind_ok; [reflexivity|]].
    2: { unfold syscall. cbn [st_mem st_shm st_k upd_shm]. unfold enter_call in E2. rewrite E2. reflexivity. }
    rewrite (proj2 (Z.ltb_ge _ _)) by lia. reflexivity.
  - split_and!; [rewrite Eu1; by eexists _, _|done|done].
  - rewrite Ec, F4. by apply prefix_app_r.
  - by eapply (kernel_frame (enter_call u (Z.of_nat (length (queued R ++ pending R))) 1)).
  - unfold stdout_of. cbn [st_trace]. rewrite written_app. cbn. by rewrite app_nil_r.
  - unfold calls. cbn. by rewrite fmap_app.
Qed.

(** ** After the wait *)

Lemma pending_submits new R : pending (foldl submit R new) = pending R ++ new /\
  queued (foldl submit R new) = queued R /\ completed (foldl submit R new) = completed R /\
  r_chead (foldl submit R new) = r_chead R.
Proof.
  revert R. induction new as [|e new IH]; intros R; cbn; [by rewrite app_nil_r|].
  destruct (IH (submit R e)) as (-> & -> & -> & ->). cbn. by rewrite <- app_assoc.
Qed.

(** The handler left the rings [R], with new completions and the entries [new]. *)
Definition handed_out (u : uring_queue) (R : ring) (new : list io_uring_sqe) (st : mach) : Prop :=
  exists R', grown R R' /\ handle_of u0 u /\ ring_rep u k ck (st_shm st) (foldl submit R' new) /\
    loop_ok R' (flight (st_k st)).

(** The oldest completion is taken, and the loop is ready for the next turn. *)
Lemma advance_ok u R c0 cs k0 new st : handed_out u R new st -> pending R = [] -> completed R = c0 :: cs ->
  cqe_kind c0 = Some k0 -> Forall2 (fun e k => sqe_kind e = Some k) new (response k0) ->
  exists sh R' more, uring_advance u (st_shm st) = Ok tt sh /\ rings_at u0 k ck u R' sh (st_k st) /\
    pending R' = new /\ queued R' = queued R /\ completed R' = cs ++ more /\ r_chead R' = r_chead R + 1.
Proof.
  intros (R1 & (Eq & Ep & Eh & more & Ec) & Hu & Hrep & c & t & Hc & Ht & Hok) Hp Hcs Hk0 Hnew.
  destruct (pending_submits new R1) as (F1 & F2 & F3 & F4). rewrite Hcs in Ec.
  destruct (uring_advance_spec u k ck _ _ (layout_handle u0 k ck L u Hu) Hrep) as (sh & E & Hrep'); [by rewrite F3, Ec|].
  exists sh, (take_completion (foldl submit R1 new)), more. cbn [pending queued completed r_chead take_completion].
  rewrite F1, F2, F3, F4, Ep, Hp, Ec. cbn [app tail]. split_and!; [done| |done|done|done|by rewrite Eh].
  split_and!; [done|done|]. rewrite Ec in Hc. inversion Hc as [|? k1 ? c' Hk1 Hc']; subst.
  assert (k1 = k0) as -> by congruence. exists c', (t ++ response k0).
  split_and!; [by cbn [completed take_completion]; rewrite F3, Ec| |by apply tokens_handle].
  cbn [queued pending take_completion]. rewrite F1, F2, Ep, Hp. rewrite Ep, Hp, app_nil_r in Ht.
  rewrite app_assoc. by apply Forall2_app.
Qed.

(** A whole turn, once its handler returns: it printed [out]. *)
Definition served (u : uring_queue) argc argv envp (R : ring) cs new (out : list byte) (st : mach) : Prop :=
  exists u' st' R' more, event_step fuel u argc argv envp st = Ok u' st' /\ stdout_of st' = stdout_of st ++ out /\
    statics_ok st' /\ rings_at u0 k ck u' R' (st_shm st') (st_k st') /\
    pending R' = new /\ queued R' = queued R /\ completed R' = cs ++ more /\ r_chead R' = r_chead R + 1.

Lemma handler_served u st u1 st1 R1 c0 cs k0 new out argc argv envp u2 st2 :
  uring_wait u 1 st = Ok u1 st1 -> rings_at u0 k ck u1 R1 (st_shm st1) (st_k st1) -> pending R1 = [] ->
  completed R1 = c0 :: cs -> cqe_kind c0 = Some k0 -> Forall2 (fun e k => sqe_kind e = Some k) new (response k0) ->
  handle fuel u1 (cqe_at u1 ck (r_chead R1)) argc argv envp st1 = Ok u2 st2 -> handed_out u2 R1 new st2 ->
  stdout_of st1 = stdout_of st -> stdout_of st2 = stdout_of st1 ++ out -> statics_ok st2 ->
  served u argc argv envp R1 cs new out st.
Proof.
  intros Ew (Hu & Hrep & Hok) Hp Hc Hk0 Hnew Eh Ho Hs1 Hs2 Hst2.
  destruct (advance_ok u2 R1 c0 cs k0 new st2 Ho Hp Hc Hk0 Hnew) as (sh & R' & more & Ea & Hr & Hrest).
  exists u2, (upd_shm sh st2), R', more. split_and!; [|by rewrite <- Hs1|exact Hst2|exact Hr|apply Hrest..].
  pose proof (layout_handle u0 k ck L u1 Hu) as L1.
  destruct (uring_result_spec u1 k ck _ R1 L1 Hrep) as [Er _]. rewrite Hc in Er.
  unfold event_step. rewrite (bind_ok _ _ _ _ _ Ew).
  erewrite bind_ok; [|by apply on_shm_ok]. pose proof (cqe_at_pos u1 k ck L1 (r_chead R1)).
  rewrite (proj2 (Z.eqb_neq _ _)) by lia.
  replace (upd_shm (st_shm st1) st1) with st1 by (by destruct st1).
  rewrite (bind_ok _ _ _ _ _ Eh). erewrite bind_ok; [|by apply on_shm_ok]. done.
Qed.

(** Reading the completion that is handled. *)
Lemma load_head {T} u R c0 cs st (f : io_uring_cqe -> M T) : rings_at u0 k ck u R (st_shm st) (st_k st) ->
  completed R = c0 :: cs -> (on_shm (load_cqe (cqe_at u ck (r_chead R))) ≫= f) st = f c0 st.
Proof.
  intros (Hu & Hrep & _) Hc.
  destruct (uring_result_spec u k ck _ R (layout_handle u0 k ck L u Hu) Hrep) as [_ Hl].
  erewrite bind_ok; [|apply on_shm_ok; by eapply Hl]. by destruct st.
Qed.

(** There is room for what a handler hands out. *)
Lemma room_after u R c0 cs sh ks : rings_at u0 k ck u R sh ks -> pending R = [] -> completed R = c0 :: cs ->
  Z.of_nat (length (queued R ++ pending R)) + 2 <= 2 ^ k.
Proof.
  intros (_ & _ & c & t & Hc & Ht & Hok) Hp Hcs. pose proof (tokens_ok_length _ _ Hok) as Hl.
  pose proof (Forall2_length Hc) as H1. pose proof (Forall2_length Ht) as H2. rewrite Hcs in H1.
  rewrite length_app in H2. cbn in H1. pose proof (four_entries k Hk). lia.
Qed.

Lemma grown_refl R : grown R R.
Proof. by split_and!. Qed.

(** The prompt that follows a line. *)
Lemma prompt_handed_out u R c0 cs st : rings_grown u R (st_shm st) (st_k st) -> pending R = [] -> completed R = c0 :: cs ->
  exists u' st', create_console_prompt u st = Ok u' st' /\ handed_out u' R [prompt_entry; line_entry] st' /\
    st_trace st' = st_trace st /\ st_mem st' = st_mem st.
Proof.
  intros (R1 & Hr & Hg) Hp Hc. pose proof Hg as (Eq & Ep & Eh & more & Ec). rewrite Hc in Ec.
  assert (pending R1 = []) as Hp1 by congruence. cbn in Ec.
  pose proof (room_after _ _ _ _ _ _ Hr Hp1 Ec) as Hroom. destruct Hr as (Hu & Hrep & Hok).
  destruct (console_prompt_entries u k ck st R1 (layout_handle u0 k ck L u Hu) Hrep Hroom) as (u' & sh' & E & (x & y & ->) & Hrep').
  eexists _, _. split; [exact E|]. split; [|by split]. exists R1. split_and!; [done| |done|done].
  destruct Hu as (a & b & ->). by eexists _, _.
Qed.

Lemma signal_handed_out u R c0 cs st sigfd fs : rings_at u0 k ck u R (st_shm st) (st_k st) ->
  pending R = [] -> completed R = c0 :: cs ->
  m_objs (st_mem st) !! sigfd_obj = Some (OStruct fs) -> fs !! "int" = Some sigfd ->
  exists u' st', submit_sig_listen u st = Ok u' st' /\ handed_out u' R [signal_entry sigfd] st' /\
    st_trace st' = st_trace st /\ st_mem st' = st_mem st.
Proof.
  intros Hr Hp Hc Hfd Hfs. pose proof (room_after _ _ _ _ _ _ Hr Hp Hc) as Hroom. destruct Hr as (Hu & Hrep & Hok).
  destruct (submit_sig_listen_submits u k ck st R sigfd fs (layout_handle u0 k ck L u Hu) Hrep ltac:(lia) Hfd Hfs)
    as (u' & sh' & E & (x & y & ->) & Hrep').
  eexists _, _. split; [exact E|]. split; [|by split].
  exists R. split_and!; [apply grown_refl| |done|done]. destruct Hu as (a & b & ->). by eexists _, _.
Qed.

(** ** The handlers *)

Section handlers.
Context (u : uring_queue) (R : ring) (c0 : io_uring_cqe) (cs : list io_uring_cqe) (st : mach).
Context (argc : Z) (argv envp : ptr).
Hypothesis Hr : rings_at u0 k ck u R (st_shm st) (st_k st).
Hypothesis Hp : pending R = [].
Hypothesis Hc : completed R = c0 :: cs.

Let cqe := cqe_at u ck (r_chead R).

Lemma handle_signal sigfd fs : cqe_kind c0 = Some KSignal ->
  m_objs (st_mem st) !! sigfd_obj = Some (OStruct fs) -> fs !! "int" = Some sigfd ->
  exists u' st', handle fuel u cqe argc argv envp st = Ok u' st' /\ handed_out u' R [signal_entry sigfd] st' /\
    st_trace st' = st_trace st /\ st_mem st' = st_mem st.
Proof.
  intros Hkind Hfd Hfs. unfold handle, cqe. rewrite (load_head _ _ _ _ _ _ Hr Hc).
  unfold cqe_kind in Hkind. destruct (cqe_user_data c0 =? EVENT_CONSOLE_READ); [done|].
  destruct (cqe_user_data c0 =? EVENT_SIGNAL); [|by destruct (cqe_user_data c0 =? EVENT_OTHER)].
  unfold process_signal. rewrite bind_ret. by eapply signal_handed_out.
Qed.

Lemma handle_prompt : cqe_kind c0 = Some KPrompt -> 0 <= cqe_res c0 ->
  handle fuel u cqe argc argv envp st = Ok u st /\ handed_out u R [] st.
Proof.
  intros Hkind Hres. unfold handle, cqe. rewrite (load_head _ _ _ _ _ _ Hr Hc).
  unfold cqe_kind in Hkind. destruct (cqe_user_data c0 =? EVENT_CONSOLE_READ); [done|].
  destruct (cqe_user_data c0 =? EVENT_SIGNAL); [done|]. destruct (cqe_user_data c0 =? EVENT_OTHER); [|done].
  split.
  - erewrite bind_ok; [reflexivity|]. unfold SYSCHECK.
    erewrite bind_ok; [|by rewrite (load_head _ _ _ _ _ _ Hr Hc)].
    by rewrite (proj2 (Z.ltb_ge _ _)) by lia.
  - destruct Hr as (Hu & Hrep & Hok). exists R. split_and!; [apply grown_refl|done..].
Qed.

Lemma handle_line : cqe_kind c0 = Some KLine ->
  handle fuel u cqe argc argv envp st = process_input fuel u cqe argc argv envp st.
Proof.
  intros Hkind. unfold handle. unfold cqe at 1. rewrite (load_head _ _ _ _ _ _ Hr Hc).
  unfold cqe_kind in Hkind. destruct (cqe_user_data c0 =? EVENT_CONSOLE_READ); [done|].
  destruct (cqe_user_data c0 =? EVENT_SIGNAL); [done|]. by destruct (cqe_user_data c0 =? EVENT_OTHER).
Qed.

(** The completion is in the mapping. *)
Lemma head_cqe : sh_cqes (st_shm st) !! cqe = Some c0.
Proof.
  destruct Hr as (_ & Hrep & _). pose proof (rr_cqe _ _ _ _ _ Hrep 0%nat c0) as H.
  rewrite Hc, Z.add_0_r in H. by apply H.
Qed.

(** Code of a command that returned, and the prompt after it. *)
Lemma command_handed_out {T} (c : M T) v st1 st2 : safe (rings_grown u R) c ->
  st_shm st1 = st_shm st -> st_k st1 = st_k st -> c st1 = Ok v st2 ->
  exists u' st', (c ≫= fun _ => create_console_prompt u) st1 = Ok u' st' /\
    handed_out u' R [prompt_entry; line_entry] st' /\ st_trace st' = st_trace st2 /\ st_mem st' = st_mem st2.
Proof.
  intros Hsafe Eshm Ek E. assert (ring_inv (rings_grown u R) st1) as H1.
  { unfold ring_inv. rewrite Eshm, Ek. exists R. split; [done|apply grown_refl]. }
  specialize (Hsafe st1 H1). rewrite E in Hsafe.
  destruct (prompt_handed_out u R c0 cs st2 Hsafe Hp Hc) as (u' & st' & E' & Ho).
  exists u', st'. by rewrite (bind_ok _ _ _ _ _ E).
Qed.
End handlers.

(** The console line is answered with [out]: it is text without a newline, and
    refused, or a command that prints [out] and returns. *)
Definition line_answered (c0 : io_uring_cqe) argc argv envp (out : list byte) (st : mach) : Prop :=
  exists l, m_objs (st_mem st) !! line_obj = Some (OBytes l) /\ 0 < cqe_res c0 /\
    ((exists b, l !! Z.to_nat (cqe_res c0 - 1) = Some b /\ b <> x0a /\ out = lit ("No end of line." +:+ nl)) \/
     (exists s, cqe_res c0 = Z.of_nat (length s) + 1 /\ take (length s + 1) l = s ++ [x0a] /\ (x00 ∉ s) /\
        forall m, cstr m (BVar line_obj) 0 s ->
          (forall n, n <> line_obj -> m_objs m !! n = m_objs (st_mem st) !! n) ->
          m_next m = m_next (st_mem st) ->
          outputs (process_command fuel (Ptr (BVar line_obj) 0) argc argv envp) out (upd_mem m st))).

Lemma line_handled u R c0 cs st argc argv envp out : rings_at u0 k ck u R (st_shm st) (st_k st) ->
  pending R = [] -> completed R = c0 :: cs -> cqe_kind c0 = Some KLine -> statics_ok st ->
  line_answered c0 argc argv envp out st ->
  exists u' st', handle fuel u (cqe_at u ck (r_chead R)) argc argv envp st = Ok u' st' /\
    handed_out u' R [prompt_entry; line_entry] st' /\ stdout_of st' = stdout_of st ++ out /\ statics_ok st'.
Proof.
  intros Hr Hp Hc Hkind Hok (l & Hl & Hres & Hline). rewrite (handle_line _ _ _ _ _ _ _ _ Hr Hc Hkind).
  pose proof (grown_quiet u R) as HP.
  destruct (process_input_spec fuel u _ argc argv envp st c0 l (head_cqe _ _ _ _ _ Hr Hc) Hl) as (Hcmd & Hbad & _).
  destruct Hline as [(b & Hb & Hne & ->)|(s & Es & Htake & H0 & Hret)].
  - rewrite (Hbad b Hres Hb Hne).
    destruct (say_prints ("No end of line." +:+ nl) st Hok ltac:(by apply (bool_decide_unpack _)) ltac:(done))
      as (v & st1 & E & Hok1 & _ & Ho).
    destruct (command_handed_out u R c0 cs st Hr Hp Hc (say ("No end of line." +:+ nl)) v st st1)
      as (u' & st' & E' & Hh & Et & Em); [by apply safe_say|done..|].
    exists u', st'. unfold stdout_of in *. split_and!; [done|done|by rewrite Et|]. unfold statics_ok. by rewrite Em.
  - destruct (Hcmd s Hres Es Htake H0) as (m & Hm & Hother & Hnext & ->).
    destruct (Hret m Hm Hother Hnext) as ([] & st1 & E & Hok1 & Ho).
    destruct (command_handed_out u R c0 cs st Hr Hp Hc (process_command fuel (Ptr (BVar line_obj) 0) argc argv envp)
      tt (upd_mem m st) st1) as (u' & st' & E' & Hh & Et & Em); [by apply safe_process_command|done..|].
    exists u', st'. unfold stdout_of in *. split_and!; [done|done|by rewrite Et|]. unfold statics_ok. by rewrite Em.
Qed.
End turn.

Section theorems.
Context {K : Kernel} {A : Abi} {HK : KernelOk K} (fuel : nat) (u0 : uring_queue) (k ck : Z).
Context {UK : UringKernel K A u0 k ck}.

(** A turn from the state [st], when the kernel comes back with a completion. *)
Lemma turn_spec u R st sigfd fs argc argv envp :
  layout u0 k ck -> 2 <= k -> IOSQE_IO_LINK <> 0 ->
  rings_at u0 k ck u R (st_shm st) (st_k st) -> statics_ok st ->
  m_objs (st_mem st) !! sigfd_obj = Some (OStruct fs) -> fs !! "int" = Some sigfd ->
  comes_back k ck u R st ->
  exists u1 st1 R1 c0 cs, uring_wait u 1 st = Ok u1 st1 /\ rings_at u0 k ck u1 R1 (st_shm st1) (st_k st1) /\
    completed R1 = c0 :: cs /\ completed R `prefix_of` completed R1 /\ r_chead R1 = r_chead R /\
    mem_upto [line_obj] (st_mem st) (st_mem st1) /\ stdout_of st1 = stdout_of st /\
    calls st1 = calls st ++ [enter_call u (Z.of_nat (length (queued R ++ pending R))) 1] /\
    (cqe_kind c0 = Some KSignal -> served fuel u0 k ck u argc argv envp R1 cs [signal_entry sigfd] [] st) /\
    (cqe_kind c0 = Some KPrompt -> 0 <= cqe_res c0 -> served fuel u0 k ck u argc argv envp R1 cs [] [] st) /\
    (forall out, cqe_kind c0 = Some KLine -> line_answered fuel c0 argc argv envp out st1 ->
       served fuel u0 k ck u argc argv envp R1 cs [prompt_entry; line_entry] out st).
Proof.
  intros L Hk Hlink Hr Hok Hfd Hfs Hback.
  destruct (wait_returns u0 k ck L Hk u R st Hr Hback)
    as (u1 & st1 & R1 & c0 & cs & Ew & Hr1 & Hp & Hc & Hpre & Hh & Hm & Hs1 & Hcalls).
  assert (statics_ok st1) as Hok1 by (by eapply statics_upto; [exact Hm|set_solver|]).
  exists u1, st1, R1, c0, cs. split_and!; [done..| | |].
  - intros Hkind. destruct Hm as (Hm & _).
    destruct (handle_signal fuel u0 k ck L Hk u1 R1 c0 cs st1 argc argv envp Hr1 Hp Hc sigfd fs) as (u2 & st2 & E & Ho & Et & Em);
      [done|rewrite Hm; [done|done|by apply (bool_decide_unpack _)]|done|].
    eapply (handler_served fuel u0 k ck L u st u1 st1); [done..| |exact E|exact Ho|done| |].
    + by repeat constructor.
    + unfold stdout_of. by rewrite Et, app_nil_r.
    + unfold statics_ok. by rewrite Em.
  - intros Hkind Hres.
    destruct (handle_prompt fuel u0 k ck L u1 R1 c0 cs st1 argc argv envp Hr1 Hc Hkind Hres) as [E Ho].
    eapply (handler_served fuel u0 k ck L u st u1 st1); [done..| |exact E|exact Ho|done|by rewrite app_nil_r|done]. constructor.
  - intros out Hkind Hline.
    destruct (line_handled fuel u0 k ck L Hk u1 R1 c0 cs st1 argc argv envp out Hr1 Hp Hc Hkind Hok1 Hline)
      as (u2 & st2 & E & Ho & Hs2 & Hok2).
    eapply (handler_served fuel u0 k ck L u st u1 st1); [done..| |exact E|exact Ho|done|done|done].
    repeat constructor. by apply prompt_kind.
Qed.

(** C3: the event loop goes on.  From a consistent state, when io_uring_enter
    comes back with a completion, the turn serves the oldest one: with a signal,
    a written prompt, or a line that is refused or whose command returns, the
    turn ends, having printed what the line is answered with; that completion
    and no other is taken, the ones behind it keep their order, and the
    follow-up is handed out: the next read of a signal after a signal, a prompt
    and the read of a line after a line, nothing after a prompt.  The rings
    and the static objects are again consistent. *)
Theorem turn_serves u R st sigfd fs argc argv envp :
  layout u0 k ck -> 2 <= k -> IOSQE_IO_LINK <> 0 ->
  rings_at u0 k ck u R (st_shm st) (st_k st) -> statics_ok st ->
  m_objs (st_mem st) !! sigfd_obj = Some (OStruct fs) -> fs !! "int" = Some sigfd ->
  comes_back k ck u R st ->
  exists u1 st1 R1 c0 cs, uring_wait u 1 st = Ok u1 st1 /\ rings_at u0 k ck u1 R1 (st_shm st1) (st_k st1) /\
    completed R1 = c0 :: cs /\ completed R `prefix_of` completed R1 /\ r_chead R1 = r_chead R /\
    mem_upto [line_obj] (st_mem st) (st_mem st1) /\ stdout_of st1 = stdout_of st /\
    calls st1 = calls st ++ [enter_call u (Z.of_nat (length (queued R ++ pending R))) 1] /\
    (cqe_kind c0 = Some KSignal -> served fuel u0 k ck u argc argv envp R1 cs [signal_entry sigfd] [] st) /\
    (cqe_kind c0 = Some KPrompt -> 0 <= cqe_res c0 -> served fuel u0 k ck u argc argv envp R1 cs [] [] st) /\
    (forall out, cqe_kind c0 = Some KLine -> line_answered fuel c0 argc argv envp out st1 ->
       served fuel u0 k ck u argc argv envp R1 cs [prompt_entry; line_entry] out st).
Proof. apply turn_spec. Qed.
End theorems.
