(* ===== verification/Session.v ===== *)
(** * Sessions

    The event loop and the command interpreter together.  A line read from the
    console is answered, within one turn of the loop, with the text its
    specification gives; so is a whole session, signals, prompts and lines in
    any order, turn after turn until it ends or a line switches the machine
    off. *)

From S2P Require Import Prelude Headers Outcome CMem CString Parser Machine Syscall Console Uring Command CommandSpec Init InitSpec Listing Process Memrun Shell System Frame Turn.

Section session.
Context {K : Kernel} {A : Abi} {HK : KernelOk K} {HF : FileKernel K} {HD : DirKernel K} {HC : ChildKernel K A}.
Context (fuel : nat) (u0 : uring_queue) (k ck : Z) {UK : UringKernel K A u0 k ck}.

(** The line [s] was read: it and its newline are in the buffer. *)
Definition line_read (c0 : io_uring_cqe) (s : list byte) (st : mach) : Prop :=
  exists l, m_objs (st_mem st) !! line_obj = Some (OBytes l) /\ cqe_res c0 = Z.of_nat (length s) + 1 /\
    take (length s + 1) l = s ++ [x0a] /\ (x00 ∉ s) /\ Z.of_nat (length s) < 2 ^ 63.

(** The state in which [process_command] is called. *)
Lemma line_command w c0 s st m argc argv envp vars : statics_ok st -> env_at (st_mem st) line_obj envp vars ->
  line_read c0 s st -> answers fuel w (st_k st) ->
  cstr m (BVar line_obj) 0 s -> (forall n, n <> line_obj -> m_objs m !! n = m_objs (st_mem st) !! n) ->
  m_next m = m_next (st_mem st) ->
  match shell_output w vars s with
  | Some out => outputs (process_command fuel (Ptr (BVar line_obj) 0) argc argv envp) out (upd_mem m st)
  | None => powers_off (process_command fuel (Ptr (BVar line_obj) 0) argc argv envp) (upd_mem m st)
  end.
Proof.
  intros Hok Henv (l & _ & _ & _ & _ & Hlen) Ha Hm Hother Hnext. change 0 with (Z.of_nat 0).
  destruct Hok as [(lb & Hlb & Hlenb) H10].
  apply process_command_answers; [done| |by split| |done|done|].
  - split; [|by cbn; rewrite Hnext]. exists lb. cbn. by rewrite Hother.
  - cbn. rewrite Hnext. unfold line_obj. lia.
  - eapply env_same; [|exact Henv]. intros n Hn _. by apply Hother.
Qed.

(** When io_uring_enter comes back and the oldest completion is the read of a
    line, the turn prints what the specification of the shell gives for it. *)
Lemma turn_answers_line u R st sigfd fs argc argv envp vars :
  layout u0 k ck -> 2 <= k -> IOSQE_IO_LINK <> 0 ->
  rings_at u0 k ck u R (st_shm st) (st_k st) -> statics_ok st ->
  m_objs (st_mem st) !! sigfd_obj = Some (OStruct fs) -> fs !! "int" = Some sigfd ->
  env_at (st_mem st) line_obj envp vars ->
  comes_back k ck u R st ->
  exists u1 st1 R1 c0 cs, uring_wait u 1 st = Ok u1 st1 /\ rings_at u0 k ck u1 R1 (st_shm st1) (st_k st1) /\
    completed R1 = c0 :: cs /\ stdout_of st1 = stdout_of st /\
    forall w s, cqe_kind c0 = Some KLine -> line_read c0 s st1 -> answers fuel w (st_k st1) ->
      match shell_output w vars s with
      | Some out => served fuel u0 k ck u argc argv envp R1 cs [prompt_entry; line_entry] out st
      | None => exists st' e, event_step fuel u argc argv envp st = Stop (Halted st') /\
          st_trace st' = st_trace st1 ++ [e] /\ ev_regs e = power_off
      end.
Proof.
  intros L Hk Hlink Hr Hok Hfd Hfs Henv Hback.
  destruct (turn_spec fuel u0 k ck u R st sigfd fs argc argv envp L Hk Hlink Hr Hok Hfd Hfs Hback)
    as (u1 & st1 & R1 & c0 & cs & Ew & Hr1 & Hc & Hpre & _ & Hm & Hs1 & _ & _ & _ & Hserve).
  exists u1, st1, R1, c0, cs. split_and!; [done..|]. intros w s Hkind Hline Ha.
  assert (statics_ok st1) as Hok1 by (by eapply statics_upto; [exact Hm|set_solver|]).
  assert (env_at (st_mem st1) line_obj envp vars) as Henv1.
  { eapply env_same; [|exact Henv]. intros n Hn Hn'. destruct Hm as (Hm & _). apply Hm; [done|].
    by rewrite list_elem_of_singleton. }
  pose proof (fun m => line_command w c0 s st1 m argc argv envp vars Hok1 Henv1 Hline Ha) as Hcmd.
  destruct Hline as (l & Hl & Hres & Htake & H0 & Hlen).
  destruct (shell_output w vars s) as [out|].
  - apply (Hserve out Hkind). exists l. split_and!; [done|lia|]. right. exists s. by split_and!.
  - destruct (process_input_spec fuel u1 _ argc argv envp st1 c0 l (head_cqe _ _ _ _ _ _ _ _ Hr1 Hc) Hl) as (Hin & _).
    destruct (Hin s ltac:(lia) Hres Htake H0) as (m & Hcm & Hother & Hnext & Ein).
    destruct (Hcmd m Hcm Hother Hnext) as (st' & e & Ep & Et & Ee). exists st', e. split_and!; [|exact Et|exact Ee].
    pose proof Hr1 as (Hu1 & Hrep1 & _). pose proof (layout_handle u0 k ck L u1 Hu1) as L1.
    destruct (uring_result_spec u1 k ck _ R1 L1 Hrep1) as [Er _]. rewrite Hc in Er.
    unfold event_step. rewrite (bind_ok _ _ _ _ _ Ew). erewrite bind_ok; [|by apply on_shm_ok].
    pose proof (cqe_at_pos u1 k ck L1 (r_chead R1)). rewrite (proj2 (Z.eqb_neq _ _)) by lia.
    replace (upd_shm (st_shm st1) st1) with st1 by (by destruct st1).
    apply bind_stop. rewrite (handle_line fuel u0 k ck L u1 R1 c0 cs st1 argc argv envp Hr1 Hc Hkind), Ein.
    by apply bind_stop.
Qed.

(** ** What happens, turn by turn *)

Inductive happening : Type :=
| Signalled                          (* a signal was read *)
| Prompted                           (* a prompt was written *)
| Garbled                            (* text was read that no newline ends *)
| Typed (w : world) (s : list byte). (* the line [s] was read, in the world [w] *)

(** The answer, [None] when the machine is switched off. *)
Definition reply (vars : list (list byte)) (h : happening) : option (list byte) :=
  match h with
  | Signalled | Prompted => Some []
  | Garbled => Some (lit ("No end of line." +:+ nl))
  | Typed w s => shell_output w vars s
  end.

(** The text of a session, and whether the machine is still on. *)
Fixpoint replies (vars : list (list byte)) (hs : list happening) : list byte * bool :=
  match hs with
  | [] => ([], true)
  | h :: hs =>
      match reply vars h with
      | Some out => let '(text, on) := replies vars hs in (out ++ text, on)
      | None => ([], false)
      end
  end.

(** The completion [c0], seen in the state [st], tells of [h]. *)
Definition happens (h : happening) (c0 : io_uring_cqe) (st : mach) : Prop :=
  match h with
  | Signalled => cqe_kind c0 = Some KSignal
  | Prompted => cqe_kind c0 = Some KPrompt /\ 0 <= cqe_res c0
  | Garbled => cqe_kind c0 = Some KLine /\ 0 < cqe_res c0 /\ exists l b,
      m_objs (st_mem st) !! line_obj = Some (OBytes l) /\ l !! Z.to_nat (cqe_res c0 - 1) = Some b /\ b <> x0a
  | Typed w s => cqe_kind c0 = Some KLine /\ line_read c0 s st /\ answers fuel w (st_k st)
  end.

Context (argc : Z) (argv envp : ptr).

(** The kernel attends the program: at each turn io_uring_enter comes back, and
    the oldest completion is what [hs] says. *)
Fixpoint attended (hs : list happening) (u : uring_queue) (st : mach) : Prop :=
  match hs with
  | [] => True
  | h :: hs =>
      (forall R, rings_at u0 k ck u R (st_shm st) (st_k st) -> comes_back k ck u R st) /\
      (forall u1 st1 R1 c0 cs, uring_wait u 1 st = Ok u1 st1 ->
         rings_at u0 k ck u1 R1 (st_shm st1) (st_k st1) -> completed R1 = c0 :: cs -> happens h c0 st1) /\
      (forall u' st', event_step fuel u argc argv envp st = Ok u' st' -> attended hs u' st')
  end.

(** ** The state between two turns *)

Context (lim : positive).

(** Objects that were there before, and are not the program's. *)
Definition foreign (n : positive) : Prop := owned lim n /\ n <> sigfd_obj.

(** The environment is in such objects. *)
Definition env_own (m : mem) (ss : list (list byte)) : Prop :=
  exists ne vars rest, envp = Ptr (BVar ne) 0 /\ foreign ne /\
    m_objs m !! ne = Some (OPtrs ((Some <$> vars ++ [Null]) ++ rest)) /\ Z.of_nat (length vars) < 2 ^ 63 /\
    Forall2 (fun q s => exists b j, q = Ptr b (Z.of_nat j) /\ match b with BVar n => foreign n | BLit _ => True end /\
      cstr m b j s /\ Z.of_nat (length s) < 2 ^ 63) vars ss.

Lemma foreign_kept n : foreign n -> kept (BVar n) /\ n <> line_obj.
Proof.
  intros [[_ Hn] _]. unfold scratch in Hn. split; [split; intros [= ->]|intros ->]; apply Hn; set_solver.
Qed.

Lemma env_own_at m ss : env_own m ss -> env_at m line_obj envp ss.
Proof.
  intros (ne & vars & rest & He & Hne & Ho & Hlen & Hv). destruct (foreign_kept ne Hne) as [Hk Hl].
  exists ne, vars, rest. split_and!; [done..|]. eapply Forall2_impl; [|exact Hv].
  intros q s (b & j & -> & Hb & Hc & Hs). split.
  - exists b, j. split_and!; [done| |done..]. destruct b as [t|n]; [by split|by apply foreign_kept].
  - intros b' i [= <- _]. destruct b as [t|n]; [done|]. destruct (foreign_kept n Hb) as [_ Hn]. congruence.
Qed.

Lemma env_own_same m m' ss : (forall n, foreign n -> m_objs m' !! n = m_objs m !! n) -> env_own m ss -> env_own m' ss.
Proof.
  intros Hm (ne & vars & rest & He & Hne & Ho & Hlen & Hv). exists ne, vars, rest.
  split_and!; [done..|by rewrite Hm|done|]. eapply Forall2_impl; [|exact Hv].
  intros q s (b & j & -> & Hb & Hc & Hs). exists b, j. split_and!; [done..| |done].
  destruct b as [t|n]; [exact Hc|]. eapply cstr_other; [|exact Hc]. by apply Hm.
Qed.

Record between (vars : list (list byte)) (sigfd : Z) (u : uring_queue) (R : ring) (st : mach) : Prop := {
  bt_rings : rings_at u0 k ck u R (st_shm st) (st_k st);
  bt_statics : statics_ok st;
  bt_lim : (10 <= lim <= m_next (st_mem st))%positive;
  bt_sigfd : exists fs, m_objs (st_mem st) !! sigfd_obj = Some (OStruct fs) /\ fs !! "int" = Some sigfd;
  bt_env : env_own (st_mem st) vars
}.

Lemma sigfd_owned : (10 <= lim)%positive -> owned lim sigfd_obj.
Proof. intros. split; [unfold sigfd_obj; lia|]. by apply (bool_decide_unpack _). Qed.

(** What a turn leaves is the state before the next one. *)
Lemma served_between vars sigfd u R st R1 cs new out u' st' : between vars sigfd u R st ->
  served fuel u0 k ck u argc argv envp R1 cs new out st -> event_step fuel u argc argv envp st = Ok u' st' ->
  stdout_of st' = stdout_of st ++ out /\ exists R', between vars sigfd u' R' st'.
Proof.
  intros [Hr Hok Hlim (fs & Hfd & Hfs) Henv] (u2 & st2 & R' & more & E & Ho & Hok' & Hr' & _) E'.
  rewrite E in E'. injection E' as <- <-. split; [done|]. exists R'.
  pose proof (framed_event_step fuel lim ltac:(lia) u argc argv envp st ltac:(lia)) as Hf. rewrite E in Hf. destruct Hf as [_ Hf].
  split; [done|done| | |].
  - destruct Hf as [Hn _]. lia.
  - exists fs. split; [|done]. destruct Hf as (_ & Hf & _). rewrite Hf; [done|]. apply sigfd_owned. lia.
  - eapply env_own_same; [|exact Henv]. intros n [Hn _]. by apply Hf.
Qed.

(** ** Sessions *)

Definition switches_off {T} (c : M T) (out : list byte) (st : mach) : Prop :=
  exists st' tr e, c st = Stop (Halted st') /\ stdout_of st' = stdout_of st ++ out /\
    st_trace st' = tr ++ [e] /\ ev_regs e = power_off.

Section loop.
Hypothesis L : layout u0 k ck.
Hypothesis Hk : 2 <= k.
Hypothesis Hlink : IOSQE_IO_LINK <> 0.

(** One turn. *)
Lemma turn_replies vars sigfd h hs u R st : between vars sigfd u R st -> attended (h :: hs) u st ->
  match reply vars h with
  | Some out => exists u' st' R', event_step fuel u argc argv envp st = Ok u' st' /\
      stdout_of st' = stdout_of st ++ out /\ between vars sigfd u' R' st'
  | None => switches_off (event_step fuel u argc argv envp) [] st
  end.
Proof.
  intros Hb (Hback & Hhap & _). pose proof Hb as [Hr Hok _ (fs & Hfd & Hfs) Henv]. specialize (Hback R Hr).
  assert (forall out, (exists R1 cs new, served fuel u0 k ck u argc argv envp R1 cs new out st) ->
    exists u' st' R', event_step fuel u argc argv envp st = Ok u' st' /\
      stdout_of st' = stdout_of st ++ out /\ between vars sigfd u' R' st') as Hserved.
  { intros out (R1 & cs & new & Hs). pose proof Hs as (u' & st' & _ & _ & E & _).
    destruct (served_between _ _ _ _ _ _ _ _ _ _ _ Hb Hs E) as (Ho & R' & Hb'). by exists u', st', R'. }
  destruct h as [| | |w s]; cbn [reply].
  1-3: destruct (turn_spec fuel u0 k ck u R st sigfd fs argc argv envp L Hk Hlink Hr Hok Hfd Hfs Hback)
    as (u1 & st1 & R1 & c0 & cs & Ew & Hr1 & Hc & _ & _ & _ & _ & _ & Hsig & Hprompt & Hline);
    specialize (Hhap _ _ _ _ _ Ew Hr1 Hc); apply Hserved; eexists R1, cs, _.
  - by apply Hsig.
  - by apply Hprompt; apply Hhap.
  - destruct Hhap as (Hkind & Hres & l & b & Hl & Hlast & Hne). apply Hline; [done|].
    exists l. split_and!; [done..|]. left. by exists b.
  - destruct (turn_answers_line u R st sigfd fs argc argv envp vars L Hk Hlink Hr Hok Hfd Hfs
      (env_own_at _ _ Henv) Hback) as (u1 & st1 & R1 & c0 & cs & Ew & Hr1 & Hc & Hs1 & Hline).
    destruct (Hhap _ _ _ _ _ Ew Hr1 Hc) as (Hkind & Hread & Hans). specialize (Hline w s Hkind Hread Hans).
    destruct (shell_output w vars s) as [out|].
    + apply Hserved. by eexists R1, cs, _.
    + destruct Hline as (st' & e & E & Et & Ee). exists st', (st_trace st1), e. split_and!; [done| |done..].
      rewrite app_nil_r, <- Hs1. unfold stdout_of. rewrite Et, written_app. cbn [written mbind list_bind].
      unfold written at 2. cbn. unfold ev_write. rewrite Ee. cbn. by rewrite app_nil_r.
Qed.

Lemma session_spec vars sigfd hs : forall u R st, between vars sigfd u R st -> attended hs u st ->
  let loop := event_loop fuel (length hs) u argc argv envp in
  match replies vars hs with
  | (out, true) => exists u' st' R', loop st = Ok u' st' /\ stdout_of st' = stdout_of st ++ out /\
      between vars sigfd u' R' st'
  | (out, false) => switches_off loop out st
  end.
Proof.
  induction hs as [|h hs IH]; intros u R st Hb Hatt; cbn [replies length event_loop].
  { exists u, st, R. by rewrite app_nil_r. }
  pose proof (turn_replies _ _ _ _ _ _ _ Hb Hatt) as Hturn. destruct Hatt as (_ & _ & Hnext). cbv zeta in *.
  destruct (reply vars h) as [out|].
  - destruct Hturn as (u1 & st1 & R1 & E & Ho & Hb1). specialize (IH u1 R1 st1 Hb1 (Hnext _ _ E)).
    destruct (replies vars hs) as [text []].
    + destruct IH as (u' & st' & R' & E' & Ho' & Hb'). exists u', st', R'.
      rewrite (bind_ok _ _ _ _ _ E), Ho', Ho, app_assoc. done.
    + destruct IH as (st' & tr & e & E' & Ho' & Htr & Ee). exists st', tr, e.
      rewrite (bind_ok _ _ _ _ _ E), Ho', Ho, app_assoc. done.
  - destruct Hturn as (st' & tr & e & E & Hrest). exists st', tr, e. split; [by apply bind_stop|exact Hrest].
Qed.
End loop.

End session.
