(* ===== verification/Boot.v ===== *)
(** * From power-on to the event loop

    [uring_init] builds the handle of the rings from what io_uring_setup(2)
    and mmap(2) return; the class [SetupKernel] says what these calls promise.
    With it the safety of the event loop becomes that of the whole program:
    [start], from any machine, with any number of turns. *)

From S2P Require Import Prelude Headers Outcome CMem CString Decimal Parser Machine Syscall Console Uring Command Init System.

(** ** What the kernel gives *)

Section setup.
Context {A : Abi} (u0 : uring_queue) (k ck : Z).

(** The fields of [struct io_uring_params] for the rings of [u0]: offsets from
    the start of the mapping, and the numbers of entries. *)
Record setup_params (fs : gmap string Z) : Prop := {
  sp_features : is_Some (fs !! "features");
  sp_sq_entries : fs !! "sq_entries" = Some (2 ^ k);
  sp_cq_entries : fs !! "cq_entries" = Some (2 ^ ck);
  sp_sq_head : fs !! "sq_off.head" = Some (sq_head u0 - mmap_ring u0);
  sp_sq_tail : fs !! "sq_off.tail" = Some (sq_tail u0 - mmap_ring u0);
  sp_sq_mask : fs !! "sq_off.ring_mask" = Some (sq_mask u0 - mmap_ring u0);
  sp_sq_array : fs !! "sq_off.array" = Some (sq_array u0 - mmap_ring u0);
  sp_sq_ring : fs !! "sq_off.ring_entries" = Some (sq_entries u0 - mmap_ring u0);
  sp_cq_head : fs !! "cq_off.head" = Some (cq_head u0 - mmap_ring u0);
  sp_cq_tail : fs !! "cq_off.tail" = Some (cq_tail u0 - mmap_ring u0);
  sp_cq_mask : fs !! "cq_off.ring_mask" = Some (cq_mask u0 - mmap_ring u0);
  sp_cqes : fs !! "cq_off.cqes" = Some (cqes u0 - mmap_ring u0);
  sp_cq_ring : fs !! "cq_off.ring_entries" = Some (cq_entries u0 - mmap_ring u0)
}.

(** The mappings of [u0] are as long as the rings need, and no longer than an
    [int] can say. *)
Record mapping_sizes : Prop := {
  ms_array : 0 <= sq_array u0 - mmap_ring u0;
  ms_cqes : 0 <= cqes u0 - mmap_ring u0;
  ms_sq_fits : sq_array u0 - mmap_ring u0 + 2 ^ k * 4 < 2 ^ 31;
  ms_cq_fits : cqes u0 - mmap_ring u0 + 2 ^ ck * sizeof_io_uring_cqe < 2 ^ 31;
  ms_sqe_fits : 2 ^ k * sizeof_io_uring_sqe < 2 ^ 31;
  ms_ring : mmap_ring_size u0 = Z.max (sq_array u0 - mmap_ring u0 + 2 ^ k * 4)
                                      (cqes u0 - mmap_ring u0 + 2 ^ ck * sizeof_io_uring_cqe);
  ms_sqes : mmap_sqes_size u0 = 2 ^ k * sizeof_io_uring_sqe;
  ms_sqes_at : sqes u0 = mmap_sqes u0
}.

(** A ring nothing was done with yet, in the first mapping, *)
Record ring_words (sh : shm) : Prop := {
  rw_sq_head : sh_words sh !! sq_head u0 = Some 0;
  rw_sq_tail : sh_words sh !! sq_tail u0 = Some 0;
  rw_sq_mask : sh_words sh !! sq_mask u0 = Some (2 ^ k - 1);
  rw_sq_entries : sh_words sh !! sq_entries u0 = Some (2 ^ k);
  rw_cq_head : sh_words sh !! cq_head u0 = Some 0;
  rw_cq_tail : sh_words sh !! cq_tail u0 = Some 0;
  rw_cq_mask : sh_words sh !! cq_mask u0 = Some (2 ^ ck - 1);
  rw_array i : 0 <= i < 2 ^ k -> is_Some (sh_words sh !! (sq_array u0 + 4 * i))
}.

(** and its entries, in the second. *)
Definition ring_sqes (sh : shm) : Prop :=
  forall i, 0 <= i < 2 ^ k -> is_Some (sh_sqes sh !! (mmap_sqes u0 + i * sizeof_io_uring_sqe)).

(** The two calls that map them. *)
Definition ring_call (len fd off : Z) : regs :=
  Regs NR_mmap (of_ptr Null) (of_ulong len) (of_int (Z.lor PROT_READ PROT_WRITE))
    (of_int (Z.lor MAP_SHARED MAP_POPULATE)) (of_int fd) (of_int off).
End setup.

(** io_uring_setup(2), when it does not fail, makes an unused ring ([ring_new])
    and fills in the parameters; mmap(2) at the two offsets maps it.  [u0]
    holds the addresses the kernel chooses. *)
Class SetupKernel (K : Kernel) (A : Abi) (u0 : uring_queue) (k ck : Z)
    {UK : UringKernel K A u0 k ck} : Type := {
  ring_new : kstate -> Prop;
  ring_new_idle ks : ring_new ks -> flight ks = [];
  setup_makes entries n m sh ks v m' sh' ks' :
    kcall (Regs NR_io_uring_setup (of_int entries) (of_ptr (Ptr (BVar n) 0)) None None None None) m sh ks =
      KRet v m' sh' ks' ->
    0 < entries <= 2 ^ k -> is_Some (m_objs m !! n) -> 0 <= to_int v ->
    to_int v = ringfd u0 /\ ring_new ks' /\
    exists fs, m_objs m' !! n = Some (OStruct fs) /\ setup_params u0 k ck fs;
  mmap_ring_maps m sh ks v m' sh' ks' :
    kcall (ring_call (mmap_ring_size u0) (ringfd u0) IORING_OFF_SQ_RING) m sh ks = KRet v m' sh' ks' ->
    ring_new ks -> 0 <= v -> v = mmap_ring u0 /\ ring_new ks' /\ ring_words u0 k ck sh';
  mmap_sqes_maps m sh ks v m' sh' ks' :
    kcall (ring_call (mmap_sqes_size u0) (ringfd u0) IORING_OFF_SQES) m sh ks = KRet v m' sh' ks' ->
    ring_new ks -> ring_words u0 k ck sh -> 0 <= v ->
    v = mmap_sqes u0 /\ ring_new ks' /\ ring_words u0 k ck sh' /\ ring_sqes u0 k sh'
}.

(** ** What [uring_init] makes of it *)

Section boot.
Context {K : Kernel} {A : Abi} {HK : KernelOk K} (fuel : nat) (u0 : uring_queue) (k ck : Z).
Context {UK : UringKernel K A u0 k ck} {SK : SetupKernel K A u0 k ck}.
Hypothesis L : layout u0 k ck.
Hypothesis Hsizes : mapping_sizes u0 k ck.

(** An unused ring that is mapped represents the empty queues. *)
Lemma mapped_fresh sh ks : ring_new ks -> ring_words u0 k ck sh -> ring_sqes u0 k sh ->
  fresh u0 k ck (with_list u0 0 0) sh ks.
Proof.
  intros Hn [] Hs. pose proof (pow2_32 k (lay_k _ _ _ L)). pose proof (pow2_32 ck (lay_ck _ _ _ L)).
  exists (Ring 0 [] [] 0 []). split_and!; [by exists 0, 0| |done..|by apply ring_new_idle].
  split; cbn; try done; try lia; intros i.
  - apply rw_array0, Z.mod_pos_bound. lia.
  - unfold sqe_at. cbn. rewrite (ms_sqes_at _ _ _ Hsizes). apply Hs, Z.mod_pos_bound. lia.
Qed.

(** Objects made from now on are none of the static ones. *)
Definition past_statics (st : mach) : Prop := (10 <= m_next (st_mem st))%positive.

(** The object [n] holds the parameters. *)
Definition holds_params (n : positive) (fs : gmap string Z) (st : mach) : Prop :=
  (10 <= n)%positive /\ m_objs (st_mem st) !! n = Some (OStruct fs) /\ setup_params u0 k ck fs.

Lemma upto_params n fs st ns m' sh' ks' tr :
  mem_upto ns (st_mem st) m' -> n ∉ ns -> holds_params n fs st ->
  holds_params n fs {| st_mem := m'; st_shm := sh'; st_k := ks'; st_trace := tr |}.
Proof.
  intros (H & _) Hns (Hn & Ho & Hp). split_and!; [done| |done]. cbn.
  rewrite H; [done|unfold siginfo_obj; lia|done].
Qed.

Lemma read_param {T} n fs f z (c : Z -> M T) st :
  holds_params n fs st -> fs !! f = Some z ->
  (on_mem (load_field (Ptr (BVar n) 0) f) ≫= c) st = c z st.
Proof.
  intros (_ & Hn & _) Hf. erewrite bind_ok; [reflexivity|].
  erewrite on_mem_ok; [by rewrite upd_mem_id|]. cbn. by rewrite Hn, Hf.
Qed.

Lemma keeps_exit {T} s Pre (Post : T -> mach -> Prop) : keeps Pre (exit s) Post.
Proof.
  apply safe_anything_keeps; [by apply safe_exit|]. intros st v st' E.
  destruct (exit_stops (T := T) s st) as [e E']. congruence.
Qed.

Lemma keeps_at {T} (Pre : mach -> Prop) (c : M T) (Post : T -> mach -> Prop) st :
  keeps Pre c Post -> Pre st ->
  match c st with Ok v st' => Post v st' | Stop e => ~ unmapped (Stop e : outcome mach T) end.
Proof. intros H. apply H. Qed.

(** A call, by what its returns establish. *)
Lemma keeps_call Pre (Post : Z -> mach -> Prop) r :
  (forall st v m sh ks, Pre st -> kcall r (st_mem st) (st_shm st) (st_k st) = KRet v m sh ks ->
     Post v {| st_mem := m; st_shm := sh; st_k := ks;
               st_trace := st_trace st ++ [{| ev_regs := r; ev_mem := st_mem st; ev_ret := Some v |}] |}) ->
  keeps Pre (syscall r) Post.
Proof.
  intros H st Hst. unfold syscall. destruct (kcall _ _ _ _) eqn:E; [by eapply H|by intros []].
Qed.

Lemma keeps_ret_int Pre (Post : Z -> mach -> Prop) c :
  keeps Pre c (fun v => Post (to_int v)) -> keeps Pre (ret_int c) Post.
Proof. intros H. unfold ret_int. eapply keeps_bind; [exact H|]. intros v. by apply keeps_ret. Qed.

(** [mmap] of one of the two mappings, after the parameters were read. *)
Lemma keeps_map n fs loc len off Pre (Post : Z -> mach -> Prop) :
  (forall st v m sh ks, Pre st ->
     kcall (ring_call len (ringfd u0) off) (st_mem st) (st_shm st) (st_k st) = KRet v m sh ks -> 0 <= v ->
     forall tr, Post v {| st_mem := m; st_shm := sh; st_k := ks; st_trace := tr |}) ->
  keeps (fun st => holds_params n fs st /\ Pre st)
    (SYSCHECK loc (mmap Null len (Z.lor PROT_READ PROT_WRITE) (Z.lor MAP_SHARED MAP_POPULATE) (ringfd u0) off))
    (fun v st => holds_params n fs st /\ Post v st).
Proof.
  intros H. eapply keeps_weaken; [apply keeps_SYSCHECK with (Post := fun v st =>
    0 <= v -> holds_params n fs st /\ Post v st)|intros st Hst; exact Hst|by intros v st [Hv Hp]; apply Hp].
  apply keeps_call. intros st v m sh ks [Hn Hp] E Hv. split.
  - eapply (upto_params n fs st []); [by eapply kernel_mem|apply not_elem_of_nil|done].
  - by eapply H.
Qed.

(** The ring is set up, and its parameters are in the object [n]. *)
Definition set_up (n : positive) (st : mach) : Prop :=
  exists fs, holds_params n fs st /\ ring_new (st_k st).

Lemma keeps_setup entries n : 0 < entries <= 2 ^ k -> (10 <= n)%positive ->
  keeps (fun st => is_Some (m_objs (st_mem st) !! n)) (io_uring_setup entries (Ptr (BVar n) 0))
    (fun fd st => 0 <= fd -> fd = ringfd u0 /\ set_up n st).
Proof.
  intros He Hn. apply keeps_ret_int, keeps_call. intros st v m sh ks Ho E Hfd.
  destruct (setup_makes _ _ _ _ _ _ _ _ _ E He Ho Hfd) as (Ev & Hnew & fs & Hfs & Hp).
  split; [done|]. exists fs. by split_and!.
Qed.

(** [uring_init] either ends the program or returns the handle, every address
    in it where the kernel put that part of the rings. *)
Lemma keeps_uring_init entries : 0 < entries <= 2 ^ k ->
  keeps past_statics (uring_init entries) (fun u st => u = with_list u0 0 0 /\ ring_inv (fresh u0 k ck u) st).
Proof.
  intros He. unfold uring_init.
  apply keeps_bind with (Mid := fun p st => exists n, p = Ptr (BVar n) 0 /\ (10 <= n)%positive /\
    is_Some (m_objs (st_mem st) !! n)).
  { intros st Hst. cbn. eexists. split_and!; [done|exact Hst|]. rewrite lookup_insert_eq. by eexists. }
  intros p st0 (n & -> & Hn & Ho). revert st0 Ho. cbv zeta.
  eapply keeps_bind; [by apply keeps_setup|]. intros fd.
  destruct (Z.ltb_spec fd 0); [apply keeps_exit|].
  intros st0 Hst0. destruct (Hst0 ltac:(lia)) as (-> & fs & Hp & Hnew). clear Hst0.
  pose proof Hp as (_ & _ & [[feat Hfeat] ? ? ? ? ? ? ? ? ? ? ? ?]).
  rewrite (read_param n fs _ _ _ _ Hp Hfeat). destruct (_ =? 0); [by apply (keeps_exit 1 (fun _ => True))|].
  do 4 (erewrite (read_param n fs) by done).
  pose proof (pow2_32 k (lay_k _ _ _ L)). pose proof (pow2_32 ck (lay_ck _ _ _ L)).
  pose proof (lay_cqe _ _ _ L). pose proof (lay_sqe _ _ _ L). destruct Hsizes.
  rewrite ring_size_max, <- ms_ring0 by lia.
  rewrite (uwrap_small 64 (2 ^ k * _)), <- ms_sqes0 by nia.
  apply (keeps_at (fun st => holds_params n fs st /\ ring_new (st_k st))); [|done]. clear st0 Hp Hnew.
  eapply keeps_bind.
  { apply (keeps_map _ _ _ _ _ _ (fun v st => v = mmap_ring u0 /\ ring_new (st_k st) /\ ring_words u0 k ck (st_shm st))).
    intros st v m sh ks Hnew E Hv tr. by eapply mmap_ring_maps. }
  intros ring st0 (Hp & -> & Hnew & Hw).
  do 8 (erewrite (read_param n fs) by done).
  apply (keeps_at (fun st => holds_params n fs st /\ ring_new (st_k st) /\ ring_words u0 k ck (st_shm st))); [|done].
  clear st0 Hp Hnew Hw. eapply keeps_bind.
  { apply (keeps_map _ _ _ _ _ _ (fun v st => v = mmap_sqes u0 /\ ring_new (st_k st) /\
      ring_words u0 k ck (st_shm st) /\ ring_sqes u0 k (st_shm st))).
    intros st v m sh ks [Hnew Hw] E Hv tr. by eapply mmap_sqes_maps. }
  intros a st0 (_ & -> & Hnew & Hw & Hs).
  erewrite bind_ok; [|apply on_mem_ok; reflexivity]. cbn.
  match goal with |- ?u = _ /\ _ => assert (u = with_list u0 0 0) as -> end.
  { destruct u0. unfold with_list. cbn in *. f_equal; lia. }
  split; [done|]. by apply mapped_fresh.
Qed.

(** ** The start-up *)

(** A call makes no object of the program. *)
Lemma keeps_past r : keeps past_statics (syscall r) (fun _ => past_statics).
Proof.
  apply keeps_call. intros st v m sh ks Hst E. unfold past_statics in *. cbn.
  assert (exists ns, mem_upto ns (st_mem st) m) as (ns & _ & -> & _); [|done].
  destruct (writes_memory (rax r)) eqn:Ew; eexists; [by eapply kernel_frame|by eapply kernel_mem].
Qed.

Lemma keeps_checked (Pre : mach -> Prop) loc c :
  keeps Pre c (fun _ => Pre) -> keeps Pre (SYSCHECK loc c) (fun _ => Pre).
Proof. intros H. by eapply keeps_weaken; [apply keeps_SYSCHECK, H|intros st Hst; exact Hst|intros v st [_ ?]]. Qed.

Lemma keeps_start_system : keeps past_statics start_system (fun _ => past_statics).
Proof.
  unfold start_system, umask, mkdir, mount, open, dup3, write, close. cbv zeta.
  repeat (apply keeps_bind with (Mid := fun _ => past_statics);
    [first [apply keeps_checked|idtac]; first [apply keeps_ret_int|idtac]; apply keeps_past|intros ?]).
  by apply keeps_ret.
Qed.

Hypothesis Hk : 4 <= k.
Hypothesis Hlink : IOSQE_IO_LINK <> 0.

Lemma idle_quiet u r m sh ks v m' sh' ks' :
  rax r <> NR_io_uring_enter -> kcall r m sh ks = KRet v m' sh' ks' ->
  idle u0 k ck u sh ks -> idle u0 k ck u sh' ks'.
Proof.
  intros Hr E (R & (a & b & ->) & Hrep & Hok).
  destruct (uring_quiet _ _ _ _ _ _ _ _ _ _ _ E Hr Hrep) as (R' & Hrep' & Hsteps).
  destruct (kernel_steps_ok _ _ Hsteps Hok) as [Hok' _].
  exists R'. split_and!; [by eexists _, _|done|done].
Qed.

(** A checked call that is not io_uring_enter keeps what such calls keep. *)
Lemma keeps_quiet (P : shm -> kstate -> Prop) loc r :
  (forall r m sh ks v m' sh' ks', rax r <> NR_io_uring_enter ->
     kcall r m sh ks = KRet v m' sh' ks' -> P sh ks -> P sh' ks') ->
  rax r <> NR_io_uring_enter ->
  keeps (ring_inv P) (SYSCHECK loc (ret_int (syscall r))) (fun _ => ring_inv P).
Proof.
  intros HP Hr. apply keeps_checked, keeps_ret_int, keeps_call.
  intros st v m sh ks Hst E. by eapply (HP r).
Qed.

Lemma keeps_boot : keeps past_statics boot (fun u => ring_inv (idle u0 k ck u)).
Proof.
  pose proof (Z.pow_le_mono_r 2 4 k ltac:(lia) Hk) as H16. change (2 ^ 4) with 16 in H16.
  unfold boot. eapply keeps_bind; [apply keeps_start_system|]. intros ?.
  apply keeps_bind with (Mid := fun u => ring_inv (fresh u0 k ck u)).
  { eapply keeps_weaken; [apply (keeps_uring_init 16); lia|done|by intros u st [_ ?]]. }
  intros u.
  eapply keeps_bind; [apply keeps_quiet; [apply fresh_quiet|done]|]. intros ?.
  eapply keeps_bind; [apply keeps_init; [done|lia|done]|]. intros u1.
  eapply keeps_bind; [apply keeps_quiet; [apply idle_quiet|done]|]. intros ?.
  by apply keeps_ret.
Qed.
End boot.

(** ** The theorems *)

Section theorems.
Context {K : Kernel} {A : Abi} {HK : KernelOk K} (u0 : uring_queue) (k ck : Z).
Context {UK : UringKernel K A u0 k ck} {SK : SetupKernel K A u0 k ck}.

(** C23: [uring_init] either stops (a call failed, or the kernel cannot map both
    rings at once), and not at an unmapped address, or returns the handle of
    the rings the kernel made: the sizes of its two mappings are those the calls
    need, each of its ten addresses is that of the part it is named after, no
    entry is handed out, and the memory behind it holds the empty queues. *)
Theorem uring_init_builds entries st :
  layout u0 k ck -> mapping_sizes u0 k ck -> 0 < entries <= 2 ^ k -> (10 <= m_next (st_mem st))%positive ->
  match uring_init entries st with
  | Ok u st' => u = with_list u0 0 0 /\ fresh u0 k ck u (st_shm st') (st_k st')
  | Stop e => ~ unmapped (Stop e : outcome mach uring_queue)
  end.
Proof. intros L Hs He Hst. exact (keeps_uring_init u0 k ck L Hs entries He st Hst). Qed.

(** C2: the safety of the whole program.  From any machine, [start] with any
    command line and environment and any number of turns never leaves the
    shared mappings, whatever is typed, whichever calls fail and in whatever
    order the kernel completes operations; after every turn one read of a
    signal and one console exchange are outstanding.  A run may end before its
    last turn: the machine is powered off, a checked call fails, or a command
    does what C leaves undefined elsewhere, as other theorems tell. *)
Theorem start_safe fuel n argc argv envp st :
  layout u0 k ck -> mapping_sizes u0 k ck -> 4 <= k -> IOSQE_IO_LINK <> 0 ->
  (10 <= m_next (st_mem st))%positive ->
  match start fuel n argc argv envp st with
  | Ok u st' => exists R, ring_rep u k ck (st_shm st') R /\
      (outstanding R (flight (st_k st')) ≡ₚ [EVENT_SIGNAL; EVENT_CONSOLE_READ] \/
       outstanding R (flight (st_k st')) ≡ₚ [EVENT_SIGNAL; EVENT_OTHER; EVENT_CONSOLE_READ])
  | Stop e => ~ unmapped (Stop e : outcome mach uring_queue)
  end.
Proof.
  intros L Hs Hk Hlink Hst.
  assert (keeps past_statics (start fuel n argc argv envp) (fun u => ring_inv (idle u0 k ck u))) as Hkeep.
  { unfold start. eapply keeps_bind; [by apply keeps_boot|]. intros u. apply keeps_event_loop; [done|lia|done]. }
  specialize (Hkeep st Hst). destruct (start _ _ _ _ _ st) as [u st'|e]; [|done].
  destruct Hkeep as (R & _ & Hrep & Hok). exists R. split; [done|]. by apply loop_ok_outstanding.
Qed.
End theorems.
