(* ===== verification/Run.v ===== *)
(** * The program, from its start

    [start] as a whole: once the start-up returns, the event loop answers
    whatever happens.  The start-up leaves the state the first turn needs: the
    rings (Boot.v), the static objects, the descriptor of the signals and the
    environment. *)

From S2P Require Import Prelude Headers Outcome CMem CString Parser Machine Syscall Console Uring Command CommandSpec Init InitSpec Listing Process Memrun Shell System Frame Turn Session Boot.

Section run.
Context {K : Kernel} {A : Abi} {HK : KernelOk K} {HF : FileKernel K} {HD : DirKernel K} {HC : ChildKernel K A}.
Context (fuel : nat) (u0 : uring_queue) (k ck : Z) {UK : UringKernel K A u0 k ck} {SK : SetupKernel K A u0 k ck}.
Context (lim : positive).

(** What the start-up does to the memory: objects of others stay, and the
    descriptor of the signals is stored. *)
Lemma boot_memory st u st' : statics_ok st -> (10 <= lim <= m_next (st_mem st))%positive ->
  boot st = Ok u st' ->
  statics_ok st' /\ (lim <= m_next (st_mem st'))%positive /\
  (forall n, foreign lim n -> m_objs (st_mem st') !! n = m_objs (st_mem st) !! n) /\
  exists fs sigfd, m_objs (st_mem st') !! sigfd_obj = Some (OStruct fs) /\ fs !! "int" = Some sigfd.
Proof.
  intros Hok [H10 Hlim]. unfold boot, init.
  intros ([] & st1 & E1 & (u1 & st2 & E2 & (v3 & st3 & E3 & (u2 & st7 & E & H)%bind_inv)%bind_inv)%bind_inv)%bind_inv.
  destruct (bind_inv _ _ _ _ _ E) as (fd & st4 & E4 & (v5 & st5 & E5 & (u6 & st6 & E6 & E7)%bind_inv)%bind_inv).
  apply bind_inv in H as (v8 & st8 & E8 & [= <- <-]). clear E.
  assert (stays lim (st_mem st) (st_mem st4)) as S4.
  { eapply framed_ok; [exact E4|by apply framed_signalfd|done|].
    eapply framed_ok; [exact E3|by apply framed_mask_signals|done|].
    eapply framed_ok; [exact E2|by apply framed_uring_init|done|].
    by eapply framed_ok; [exact E1|apply framed_start_system|..]. }
  assert (exists fs, st5 = upd_mem (set_obj (st_mem st4) sigfd_obj (OStruct (<["int" := to_int fd]> fs))) st4) as (fs & ->).
  { unfold on_mem, zoom, store_field in E5. repeat case_match; simplify_eq. by eexists. }
  set (st5 := upd_mem _ st4) in *.
  assert (stays lim (st_mem st5) (st_mem st8)) as S8.
  { assert (lim <= m_next (st_mem st5))%positive as H5 by (destruct S4; cbn; lia).
    eapply framed_ok; [exact E8|by apply framed_socket|done|].
    eapply framed_ok; [exact E7|by apply framed_sig_listen|done|].
    by eapply framed_ok; [exact E6|apply framed_prompt|..]. }
  assert (buffer_ok (st_mem st5)) as Hb5.
  { apply buffer_set; [done|]. apply S4, Hok. }
  assert (m_next (st_mem st) <= m_next (st_mem st8))%positive as Hn.
  { destruct S4 as [N4 _], S8 as [N8 _]. cbn in N8. lia. }
  destruct S4 as (_ & S4 & _), S8 as (_ & S8 & B8). split_and!.
  - split; [by apply B8|]. lia.
  - lia.
  - intros n [Hown Hne]. rewrite S8 by done. cbn. rewrite lookup_insert_ne by done. by apply S4.
  - eexists _, (to_int fd). split; [rewrite S8; [apply lookup_insert_eq|]|apply lookup_insert_eq]. by apply sigfd_owned.
Qed.

Context (argc : Z) (argv envp : ptr).

(** The event loop starts in the state of [between]. *)
Lemma boot_between vars st u st' : layout u0 k ck -> mapping_sizes u0 k ck -> 4 <= k -> IOSQE_IO_LINK <> 0 ->
  statics_ok st -> (10 <= lim <= m_next (st_mem st))%positive -> env_own envp lim (st_mem st) vars ->
  boot st = Ok u st' -> exists sigfd R, between u0 k ck envp lim vars sigfd u R st'.
Proof.
  intros L Hs Hk Hlink Hok Hlim Henv E.
  pose proof (keeps_boot u0 k ck L Hs Hk Hlink st (proj2 Hok)) as Hrings. rewrite E in Hrings. destruct Hrings as [R HR].
  destruct (boot_memory st u st' Hok Hlim E) as (Hok' & Hlim' & Hother & fs & sigfd & Hfd & Hfs).
  exists sigfd, R. split; [done|done|lia|by exists fs|]. by eapply env_own_same.
Qed.

(** C1: the program answers.  From power-on, once the start-up has returned,
    whatever happens at the turns of the event loop, as long as
    io_uring_enter comes back: signals, written prompts, text without a newline,
    and lines, each in a world the kernel then answers as; [start] runs through
    all of it, and prints exactly the replies, in order, each the text the
    specification of the shell gives for its line.  The first line that is
    [exit] ends it, with the call that switches the machine off and nothing
    printed after the replies before it. *)
Theorem start_answers vars hs st u st1 :
  layout u0 k ck -> mapping_sizes u0 k ck -> 4 <= k -> IOSQE_IO_LINK <> 0 ->
  statics_ok st -> (10 <= lim <= m_next (st_mem st))%positive -> env_own envp lim (st_mem st) vars ->
  boot st = Ok u st1 -> attended fuel u0 k ck argc argv envp hs u st1 ->
  match replies vars hs with
  | (out, true) => exists u' st', start fuel (length hs) argc argv envp st = Ok u' st' /\
      stdout_of st' = stdout_of st1 ++ out
  | (out, false) => exists st' before e, start fuel (length hs) argc argv envp st = Stop (Halted st') /\
      stdout_of st' = stdout_of st1 ++ out /\ st_trace st' = before ++ [e] /\ ev_regs e = power_off
  end.
Proof.
  intros L Hs Hk Hlink Hok Hlim Henv E Hatt.
  destruct (boot_between vars st u st1 L Hs Hk Hlink Hok Hlim Henv E) as (sigfd & R & Hb).
  pose proof (session_spec fuel u0 k ck argc argv envp lim L ltac:(lia) Hlink vars sigfd hs u R st1 Hb Hatt) as H.
  cbv zeta in H. unfold start. rewrite (bind_ok _ _ _ _ _ E). destruct (replies vars hs) as [out []].
  - destruct H as (u' & st' & _ & E' & Ho & _). by exists u', st'.
  - exact H.
Qed.
End run.
