(* ===== verification/PowerOn.v ===== *)
(** * The start-up succeeds

    Total correctness of [boot]: when the kernel grants the calls of its script,
    one after the other from the state at power-on, it makes exactly these and
    returns the handle of the rings; the program then serves (Run.v). *)

From S2P Require Import Prelude Headers Outcome CMem CString Parser Machine Syscall Console Script Uring Command CommandSpec Init InitSpec Listing Process Memrun Shell System Frame Turn Session Boot Run.

Section power_on.
Context {K : Kernel} {A : Abi} {HK : KernelOk K}.
Context (u0 : uring_queue) (k ck : Z) {UK : UringKernel K A u0 k ck} {SK : SetupKernel K A u0 k ck}.

Definition mask_call : regs :=
  Regs NR_rt_sigprocmask (of_int SIG_SETMASK) (of_ptr (Ptr (BVar allsignals_obj) 0)) (of_ptr Null)
    (of_ulong sizeof_sigset_t) None None.
Definition signalfd_call : regs :=
  Regs NR_signalfd4 (of_int (-1)) (of_ptr (Ptr (BVar allsignals_obj) 0)) (of_ulong sizeof_sigset_t) (of_int 0) None None.
Definition socket_call : regs :=
  Regs NR_socket (of_int AF_PACKET) (of_int SOCK_DGRAM) (of_int (bswap_16 ETH_P_ALL)) None None None.
Definition setup_call (n : positive) : regs :=
  Regs NR_io_uring_setup (of_int 16) (of_ptr (Ptr (BVar n) 0)) None None None None.

(** The kernel maps both rings at once. *)
Definition single_mmap : regs -> mem -> Prop := fun r m => forall n fs f,
  r = setup_call n -> m_objs m !! n = Some (OStruct fs) -> fs !! "features" = Some f -> Z.land f IORING_FEAT_SINGLE_MMAP <> 0.

(** The rings are made, and mapped by the descriptor that gave. *)
Definition setup_script (next : script) : script :=
  Ask (fun r m => exists n, r = setup_call n /\ is_Some (m_objs m !! n)) int_ok single_mmap (fun fd =>
  long_call (ring_call (mmap_ring_size u0) (to_int fd) IORING_OFF_SQ_RING) (fun _ =>
  long_call (ring_call (mmap_sqes_size u0) (to_int fd) IORING_OFF_SQES) (fun _ => next))).

(** The signals are blocked, their descriptor is opened, the first entries are
    written, the socket is opened. *)
Definition boot_script : script :=
  startup_script (setup_script (
    int_call mask_call (fun _ =>
    int_call signalfd_call (fun _ =>
    Touch (int_call socket_call (fun _ => Fin)))))).

Lemma start_system_leads next st : leads start_system (startup_script next) st (fun _ s' _ => s' = next).
Proof.
  unfold start_system, startup_script, umask, mkdir, mount, open, dup3, write, close. cbv zeta.
  apply leads_bind, leads_int; [done|]. intros v0 st0 _ _ _.
  do 8 (apply leads_bind, leads_checked; [done|]; intros ? ? _ _ _).
  apply leads_bind, leads_checked; [by rewrite to_int_idem|]. intros ? ? _ _ _.
  apply leads_bind, leads_checked; [done|]. intros ? ? _ _ _. rewrite to_int_idem.
  apply leads_bind, leads_checked_long; [done|]. intros ? ? _ _ _.
  apply leads_bind, leads_checked; [done|]. intros ? ? _ _ _. by apply leads_ret.
Qed.

(** *** The rings *)

Lemma syscall_kcall r st v st' : syscall r st = Ok v st' ->
  kcall r (st_mem st) (st_shm st) (st_k st) = KRet v (st_mem st') (st_shm st') (st_k st').
Proof. unfold syscall. destruct (kcall _ _ _ _); [|done]. by intros [= <- <-]. Qed.

(** Reading a parameter. *)
Lemma leads_param {T} n fs f z (c : Z -> M T) s st Q : holds_params u0 k ck n fs st -> fs !! f = Some z ->
  leads (c z) s st Q -> leads (on_mem (load_field (Ptr (BVar n) 0) f) ≫= c) s st Q.
Proof. intros Hh Hf H. unfold leads. by rewrite (read_param u0 k ck n fs f z c st Hh Hf). Qed.

(** One of the two mappings, which leaves the parameters in place. *)
Lemma leads_map {T} n fs loc len fd off (f : Z -> M T) next st Q : holds_params u0 k ck n fs st ->
  (forall v st', holds_params u0 k ck n fs st' -> leads (f v) (next v) st' Q) ->
  leads (SYSCHECK loc (mmap Null len (Z.lor PROT_READ PROT_WRITE) (Z.lor MAP_SHARED MAP_POPULATE) fd off) ≫= f)
    (long_call (ring_call len fd off) next) st Q.
Proof.
  intros Hh Hf. apply leads_bind, leads_checked_long; [done|]. intros v st' E _ _. apply Hf.
  apply syscall_kcall in E. destruct st'. eapply (upto_params u0 k ck n fs st []); [by eapply kernel_mem|apply not_elem_of_nil|done].
Qed.

Hypothesis L : layout u0 k ck.
Hypothesis Hs : mapping_sizes u0 k ck.
Hypothesis Hk : 4 <= k.

Lemma uring_init_leads next st : (10 <= m_next (st_mem st))%positive ->
  leads (uring_init 16) (setup_script next) st (fun _ s' _ => s' = next).
Proof.
  intros Hn. set (n := m_next (st_mem st)) in *. unfold uring_init. apply leads_bind.
  eapply leads_mem; [reflexivity|]. fold n. set (st1 := upd_mem _ st).
  assert (is_Some (m_objs (st_mem st1) !! n)) as Ho by (cbn; rewrite lookup_insert_eq; by eexists).
  apply leads_bind. unfold io_uring_setup, SYSCALL_2. apply leads_int; [by exists n|].
  intros v st2 E%syscall_kcall Hv Hfeat.
  destruct (setup_makes 16 n _ _ _ _ _ _ _ E) as (Efd & _ & fs & Hfs & Hp); [|done|done|].
  { pose proof (Z.pow_le_mono_r 2 4 k ltac:(lia) Hk). change (2 ^ 4) with 16 in *. lia. }
  pose proof (fun f => Hfeat n fs f eq_refl Hfs) as Hf1. clear Hfeat. unfold int_ok in Hv.
  rewrite Efd in *. rewrite (proj2 (Z.ltb_ge _ _)) by lia.
  assert (holds_params u0 k ck n fs st2) as Hh by done. clear E Ho.
  pose proof Hp as [[feat Hf] ? ? ? ? ? ? ? ? ? ? ? ?].
  eapply leads_param; [exact Hh|exact Hf|]. rewrite (proj2 (Z.eqb_neq _ _)) by (by eapply Hf1).
  do 4 (eapply leads_param; [exact Hh|eassumption|]).
  pose proof (pow2_32 k (lay_k _ _ _ L)). pose proof (pow2_32 ck (lay_ck _ _ _ L)).
  pose proof (lay_cqe _ _ _ L). pose proof (lay_sqe _ _ _ L). destruct Hs.
  rewrite ring_size_max, <- ms_ring by lia. rewrite (uwrap_small 64 (2 ^ k * _)), <- ms_sqes by nia.
  eapply leads_map; [exact Hh|]. intros ring st3 Hh3.
  do 8 (eapply leads_param; [exact Hh3|eassumption|]).
  eapply leads_map; [exact Hh3|]. intros sqes st4 Hh4.
  apply leads_bind. eapply leads_mem; [reflexivity|]. by apply leads_ret.
Qed.

(** *** The signals and the first submissions *)

(** A call that is no io_uring_enter keeps an unused ring. *)
Lemma fresh_after u loc r st v st' : rax r <> NR_io_uring_enter ->
  SYSCHECK loc (ret_int (syscall r)) st = Ok v st' ->
  fresh u0 k ck u (st_shm st) (st_k st) -> fresh u0 k ck u (st_shm st') (st_k st').
Proof.
  intros Hr E Hf. pose proof (keeps_quiet (fresh u0 k ck u) loc r (fresh_quiet u0 k ck u) Hr st Hf) as H.
  by rewrite E in H.
Qed.

Lemma init_leads u next st fs : fresh u0 k ck u (st_shm st) (st_k st) ->
  m_objs (st_mem st) !! sigfd_obj = Some (OStruct fs) -> (10 <= m_next (st_mem st))%positive ->
  leads (init u) (int_call signalfd_call (fun _ => Touch next)) st (fun _ s' _ => s' = Touch next).
Proof.
  intros Hf Hfd Hn. unfold init. apply leads_bind. eapply leads_mono.
  { apply leads_checked with (Q := fun _ s' _ => s' = Touch next); done. }
  cbv beta. intros fd s1 st1 E1 ->.
  apply (fresh_after u) in E1 as Hf1; [|done|exact Hf].
  assert (m_objs (st_mem st1) !! sigfd_obj = m_objs (st_mem st) !! sigfd_obj) as Eo.
  { assert (stays 10 (st_mem st) (st_mem st1)) as (_ & H & _); [|by apply H, sigfd_owned].
    by eapply framed_ok; [exact E1|apply framed_signalfd|..]. }
  rewrite Hfd in Eo. apply leads_bind. eapply leads_mem; [cbn; by rewrite Eo|].
  set (st2 := upd_mem _ st1). destruct Hf1 as (R & Hu & Hrep & Hq & Hp & _).
  pose proof (Z.pow_le_mono_r 2 4 k ltac:(lia) Hk) as H16. change (2 ^ 4) with 16 in H16.
  pose proof (layout_handle u0 k ck L u Hu) as Lu.
  destruct (console_prompt_entries u k ck st2 R Lu Hrep) as (u1 & sh1 & E & (x & y & ->) & Hrep1);
    [rewrite Hq, Hp; cbn; lia|].
  apply leads_bind. eapply leads_touch; [exact E|].
  destruct (submit_sig_listen_submits (with_list u x y) k ck (upd_shm sh1 st2) _ (to_int fd) (<["int" := to_int fd]> fs)
    (layout_with_list _ _ _ Lu x y) Hrep1) as (u2 & sh2 & E2 & _ & _);
    [cbn; rewrite Hq, Hp; cbn; lia|apply lookup_insert_eq|apply lookup_insert_eq|].
  by eapply leads_touch; [exact E2|].
Qed.

(** *** The whole *)

Lemma boot_leads st fs : statics_ok st -> m_objs (st_mem st) !! sigfd_obj = Some (OStruct fs) ->
  leads boot boot_script st (fun _ s' _ => s' = Fin).
Proof.
  intros Hok Hfd. unfold boot, boot_script. apply leads_bind.
  eapply leads_mono; [by apply start_system_leads|]. intros [] s1 st1 E1 ->.
  assert (stays 10 (st_mem st) (st_mem st1)) as S1.
  { eapply framed_ok; [exact E1|by apply framed_start_system|apply Hok|done]. }
  apply leads_bind. eapply leads_mono; [apply uring_init_leads; destruct S1, Hok; lia|].
  intros u s2 st2 E2 ->. assert (stays 10 (st_mem st) (st_mem st2)) as S2.
  { eapply framed_ok; [exact E2|by apply framed_uring_init|apply Hok|exact S1]. }
  pose proof (Z.pow_le_mono_r 2 4 k ltac:(lia) Hk) as H16. change (2 ^ 4) with 16 in H16.
  pose proof (keeps_uring_init u0 k ck L Hs 16 ltac:(lia) st1 ltac:(unfold past_statics; destruct S1, Hok; lia)) as Hf.
  rewrite E2 in Hf. destruct Hf as [_ Hf]. apply leads_bind. eapply leads_mono.
  { eapply leads_checked with (call := exactly mask_call) (Q := fun _ s' _ => s' = int_call signalfd_call _); done. }
  intros v s3 st3 E3 ->. apply (fresh_after u) in E3 as Hf3; [|done|exact Hf].
  assert (stays 10 (st_mem st) (st_mem st3)) as S3.
  { eapply framed_ok; [exact E3|by apply framed_mask_signals|apply Hok|exact S2]. }
  apply leads_bind. eapply leads_mono.
  { apply init_leads with (fs := fs); [exact Hf3| |destruct S3, Hok; lia].
    destruct S3 as (_ & S3 & _). by rewrite S3, Hfd by (by apply sigfd_owned). }
  intros u4 s4 st4 _ ->. apply leads_bind, leads_untouched, leads_checked; [done|].
  intros w st5 _ _ _. by apply leads_ret.
Qed.
End power_on.

(** C4: the program starts.  When the kernel grants the calls of the start-up,
    one after the other from the state at power-on, [boot] runs to its end from
    any machine with the static objects in place.  It makes exactly the calls of
    its script, in order: the file systems, the console (whose second descriptor
    becomes standard error), printk, the rings (mapped by the descriptor
    io_uring_setup gave, with the lengths and offsets of both mappings), the
    signals and the socket; and it leaves the first submissions in the rings. *)
Theorem boot_returns {K : Kernel} {A : Abi} {HK : KernelOk K} u0 k ck {UK : UringKernel K A u0 k ck}
    {SK : SetupKernel K A u0 k ck} st fs :
  layout u0 k ck -> mapping_sizes u0 k ck -> 4 <= k -> IOSQE_IO_LINK <> 0 ->
  grants (boot_script u0) (st_shm st) (st_k st) -> statics_ok st ->
  m_objs (st_mem st) !! sigfd_obj = Some (OStruct fs) ->
  exists u st' es, boot st = Ok u st' /\ st_trace st' = st_trace st ++ es /\ follows (boot_script u0) es /\
    exists R, rings_at u0 k ck u R (st_shm st') (st_k st').
Proof.
  intros L Hs Hk Hlink Hg Hok Hfd.
  destruct (boot_leads u0 k ck L Hs Hk st fs Hok Hfd Hg) as (u & s' & st' & es & E & Ht & Hp & _ & ->).
  exists u, st', es. split_and!; [done..|].
  pose proof (keeps_boot u0 k ck L Hs Hk Hlink st (proj2 Hok)) as H. by rewrite E in H.
Qed.
