(* ===== verification/Instance.v ===== *)
(** * A concrete machine

    The constants of x86-64 Linux and a small kernel: an instance of the
    interfaces [Abi], [Kernel], [KernelOk] and [UringKernel] the theorems are
    proved against.  It runs the program: at each io_uring_enter its io_uring
    takes one entry, or two, to complete one operation, console reads return
    the lines of a script, [read] returns the pieces of a file, a started child
    ends at once, and the clock goes on while the program waits.  Last, the static objects of the program and the machine at
    [start]. *)

From S2P Require Import Prelude Headers Outcome CMem CString Decimal Parser Machine Syscall Console Uring Command CommandSpec Init InitSpec Listing Process System Boot.

#[export] Instance x86_64 : Abi := {
  AT_FDCWD := -100; AT_EMPTY_PATH := 4096;
  O_RDONLY := 0; O_WRONLY := 1; O_APPEND := 1024; O_NOATIME := 262144;
  O_CLOEXEC := 524288; O_PATH := 2097152; O_DIRECTORY := 65536;
  MS_NOEXEC := 8; MS_RDONLY := 1; S_IRWXU := 448; S_IRWXG := 56; S_IRWXO := 7;
  LINUX_REBOOT_MAGIC1 := 4276215469; LINUX_REBOOT_MAGIC2 := 672274793;
  LINUX_REBOOT_CMD_POWER_OFF := 1126301404;
  CLOCK_REALTIME := 0; SIGCHLD := 17; SIG_SETMASK := 2; P_PID := 1; WEXITED := 4;
  PROT_READ := 1; PROT_WRITE := 2; MAP_SHARED := 1; MAP_POPULATE := 32768;
  IORING_FEAT_SINGLE_MMAP := 1; IORING_OFF_SQ_RING := 0; IORING_OFF_SQES := 268435456;
  IORING_ENTER_GETEVENTS := 1; IORING_OP_READ := 22; IORING_OP_WRITE := 23; IOSQE_IO_LINK := 4;
  ETH_P_ALL := 3; ARG_MAX := 131072; LINUX_CAPABILITY_VERSION_3 := 537396514;
  sizeof_io_uring_cqe := 16; sizeof_io_uring_sqe := 64; sizeof_open_how := 24;
  sizeof_clone_args := 88; sizeof_signalfd_siginfo := 128; sizeof_sigset_t := 8;
  src_root := "/src"
}.

(** ** The rings: 16 submissions, 32 completions *)

Definition ring_base : Z := 4096.
Definition sqes_base : Z := 65536.

Definition the_uring : uring_queue :=
  {| ringfd := 5; mmap_ring := ring_base; mmap_ring_size := 640;
     mmap_sqes := sqes_base; mmap_sqes_size := 1024;
     cqes := ring_base + 128; sqes := sqes_base;
     sq_entries := ring_base + 12; sq_mask := ring_base + 8; sq_head := ring_base;
     sq_tail := ring_base + 4; sq_array := ring_base + 64;
     sq_list_head := 0; sq_list_tail := 0;
     cq_head := ring_base + 16; cq_tail := ring_base + 20; cq_mask := ring_base + 24;
     cq_entries := ring_base + 28 |}.

Definition blank_sqe : io_uring_sqe := Sqe 0 0 0 0 Null 0 0.

(** The mappings as io_uring_setup leaves them. *)
Definition fresh_shm : shm :=
  {| sh_words := list_to_map ([(ring_base, 0); (ring_base + 4, 0); (ring_base + 8, 15);
       (ring_base + 12, 16); (ring_base + 16, 0); (ring_base + 20, 0); (ring_base + 24, 31);
       (ring_base + 28, 32)] ++
       ((fun i => (ring_base + 64 + 4 * Z.of_nat i, 0)) <$> seq 0 16));
     sh_cqes := list_to_map ((fun i => (ring_base + 128 + Z.of_nat i * 16, Cqe 0 0)) <$> seq 0 32);
     sh_sqes := list_to_map ((fun i => (sqes_base + Z.of_nat i * 64, blank_sqe)) <$> seq 0 16) |}.

(** ** The kernel *)

Record kst : Type := Kst {
  ks_flight : list io_uring_sqe;
  ks_lines : list (list byte);      (* what is typed at the console *)
  ks_file : list (list byte);       (* what [read] is still to return *)
  ks_clone : Z;                     (* what clone3 returns *)
  ks_dir : list (list entry);       (* what getdents64 is still to list *)
  ks_time : Z                       (* the seconds of the clock *)
}.

Definition with_flight (ks : kst) (F : list io_uring_sqe) : kst :=
  {| ks_flight := F; ks_lines := ks_lines ks; ks_file := ks_file ks; ks_clone := ks_clone ks;
     ks_dir := ks_dir ks; ks_time := ks_time ks |}.

Definition tick (ks : kst) : kst :=
  {| ks_flight := ks_flight ks; ks_lines := ks_lines ks; ks_file := ks_file ks; ks_clone := ks_clone ks;
     ks_dir := ks_dir ks; ks_time := ks_time ks + 1 |}.

(** Fill the bytes of an object from its start. *)
Definition fill_bytes (m : mem) (n : positive) (s : list byte) : mem :=
  match m_objs m !! n with
  | Some (OBytes l) => set_obj m n (OBytes (list_inserts 0 s l))
  | _ => m
  end.

(** The object an argument points to. *)
Definition arg_obj (a : option rval) : option positive :=
  match a with Some (VPtr (Ptr (BVar n) _)) => Some n | _ => None end.

Definition fill_arg (m : mem) (a : option rval) (f : mem -> positive -> mem) : mem :=
  match arg_obj a with Some n => f m n | None => m end.

Definition fill_struct (fs : list (string * Z)) (m : mem) (n : positive) : mem :=
  set_obj m n (OStruct (list_to_map fs)).

Definition uring_params : list (string * Z) :=
  [("features", 1); ("sq_entries", 16); ("cq_entries", 32);
   ("sq_off.head", 0); ("sq_off.tail", 4); ("sq_off.ring_mask", 8); ("sq_off.array", 64);
   ("sq_off.ring_entries", 12); ("cq_off.head", 16); ("cq_off.tail", 20);
   ("cq_off.ring_mask", 24); ("cq_off.cqes", 128); ("cq_off.ring_entries", 28)].

(** Take the oldest queued entry. *)
Definition kernel_take (sh : shm) (F : list io_uring_sqe) : Z * shm * list io_uring_sqe :=
  match sh_words sh !! sq_head the_uring, sh_words sh !! sq_tail the_uring with
  | Some h, Some t =>
      if h =? t then (0, sh, F)
      else
        match sh_words sh !! (sq_array the_uring + 4 * Z.land h 15) with
        | Some i =>
            match sh_sqes sh !! (sqes the_uring + i * 64) with
            | Some e => (1, set_word sh (sq_head the_uring) (uwrap 32 (h + 1)), F ++ [e])
            | None => (0, sh, F)
            end
        | None => (0, sh, F)
        end
  | _, _ => (0, sh, F)
  end.

(** The operation to complete: the oldest that is not the read of a signal,
    if it waits for no other. *)
Definition kernel_choice (F : list io_uring_sqe) : option (nat * io_uring_sqe) :=
  match F with
  | [] => None
  | e :: F' =>
      if sqe_user_data e =? EVENT_SIGNAL then
        match F' with
        | e' :: _ => if is_link e then None else Some (1%nat, e')
        | [] => None
        end
      else Some (0%nat, e)
  end.

Definition kernel_post (c : io_uring_cqe) (i : nat) (sh : shm) (F : list io_uring_sqe) :
    shm * list io_uring_sqe :=
  match sh_words sh !! cq_head the_uring, sh_words sh !! cq_tail the_uring with
  | Some h, Some t =>
      if uwrap 32 (t - h) <? 32 then
        (set_word (set_cqe sh (cqes the_uring + Z.land t 31 * 16) c) (cq_tail the_uring) (uwrap 32 (t + 1)),
         delete i F)
      else (sh, F)
  | _, _ => (sh, F)
  end.

(** Take another one when none can be completed. *)
Definition kernel_takes (sh : shm) (F : list io_uring_sqe) : Z * shm * list io_uring_sqe :=
  let '(n, sh1, F1) := kernel_take sh F in
  match kernel_choice F1 with
  | Some _ => (n, sh1, F1)
  | None => let '(n', sh2, F2) := kernel_take sh1 F1 in (n + n', sh2, F2)
  end.

Definition kernel_enter (m : mem) (sh : shm) (ks : kst) : kres kst :=
  let '(v, sh, F) := kernel_takes sh (ks_flight ks) in
  match kernel_choice F with
  | None => KRet v m sh (with_flight ks F)
  | Some (i, e) =>
      if sqe_opcode e =? IORING_OP_WRITE then
        let '(sh, F) := kernel_post (Cqe (sqe_user_data e) (sqe_len e)) i sh F in
        KRet v m sh (with_flight ks F)
      else
        let s := default [] (head (ks_lines ks)) in
        let '(sh, F) := kernel_post (Cqe (sqe_user_data e) (Z.of_nat (length s))) i sh F in
        KRet v (fill_bytes m line_obj s) sh
          {| ks_flight := F; ks_lines := tail (ks_lines ks); ks_file := ks_file ks; ks_clone := ks_clone ks;
             ks_dir := ks_dir ks; ks_time := ks_time ks |}
  end.

(** The file that is opened, and the pieces of it that are to be read: a piece
    is neither empty nor longer than a read. *)
Definition the_file : list (list byte) := [lit "hello, "; lit ("world" +:+ nl)].

Definition is_piece (c : list byte) : bool :=
  (0 <? Z.of_nat (length c)) && (Z.of_nat (length c) <=? 1024).

Definition pieces (ks : kst) : list (list byte) := List.filter is_piece (ks_file ks).

Definition with_file (ks : kst) (file : list (list byte)) : kst :=
  {| ks_flight := ks_flight ks; ks_lines := ks_lines ks; ks_file := file; ks_clone := ks_clone ks;
     ks_dir := ks_dir ks; ks_time := ks_time ks |}.

(** The directory that is opened, by batches; a batch fits the buffer, names
    have no zero byte, types are bytes.  A record is as long as it must be. *)
Definition the_dir : list (list entry) :=
  [[(lit ".", DT_DIR); (lit "..", DT_DIR)]; [(lit "motd", DT_REG); (lit "console", DT_CHR)]].

Definition dirent_bytes (e : entry) : list byte :=
  let len := 20 + Z.of_nat (length e.1) in
  replicate 16 x00 ++ [byte_of_Z len; byte_of_Z (len / 256); byte_of_Z e.2] ++ e.1 ++ [x00].

Definition batch_bytes (es : list entry) : list byte := (es ≫= dirent_bytes).

Definition is_entry (e : entry) : bool := bool_decide (x00 ∉ e.1) && (0 <=? e.2) && (e.2 <? 256).

Definition is_batch (es : list entry) : bool :=
  (0 <? Z.of_nat (length (batch_bytes es))) && (Z.of_nat (length (batch_bytes es)) <=? 1024) &&
  forallb is_entry es.

Definition dir_batches (ks : kst) : list (list entry) := List.filter is_batch (ks_dir ks).

Definition with_dir (ks : kst) (dir : list (list entry)) : kst :=
  {| ks_flight := ks_flight ks; ks_lines := ks_lines ks; ks_file := ks_file ks;
     ks_clone := ks_clone ks; ks_dir := dir; ks_time := ks_time ks |}.

(** What a write is said to have written. *)
Definition write_count (a : option rval) : Z :=
  match a with Some (VInt n) => if (0 <=? n) && (n <? 2 ^ 31) then n else 0 | _ => 0 end.

#[export] Instance sqe_eq_dec : EqDecision io_uring_sqe.
Proof. solve_decision. Defined.

(** The rings are mapped once; the entries come with them, and have an address
    as long as none was written. *)
Definition kernel_mmap (off : option rval) (sh : shm) : Z * shm :=
  match off with
  | Some (VInt 0) => if decide (sh_words sh = ∅) then (ring_base, fresh_shm) else (-12, sh)
  | _ => if decide (sh_sqes sh = sh_sqes fresh_shm) then (sqes_base, sh) else (-12, sh)
  end.

(** The descriptors of the file, of the directory and of the rest. *)
Definition file_fd : Z := 7.
Definition dir_fd : Z := 6.

Definition is_fd (a : option rval) (fd : Z) : bool :=
  match a with Some (VInt v) => v =? fd | _ => false end.

Definition kernel_call (r : regs) (m : mem) (sh : shm) (ks : kst) : kres kst :=
  match rax r with
  | NR_write => KRet (write_count (rdx r)) m sh ks
  | NR_reboot | NR_exit | NR_execveat => KNoret ks
  | NR_io_uring_setup =>
      match ks_flight ks with
      | [] => KRet 5 (fill_arg m (rsi r) (fill_struct uring_params)) sh ks
      | _ => KRet (-12) m sh ks
      end
  | NR_mmap => let '(v, sh) := kernel_mmap (r9 r) sh in KRet v m sh ks
  | NR_io_uring_enter => kernel_enter m sh (tick ks)
  | NR_read =>
      if is_fd (rdi r) file_fd then
        KRet (Z.of_nat (length (default [] (head (pieces ks)))))
          (fill_arg m (rsi r) (fun m n => fill_bytes m n (default [] (head (pieces ks))))) sh
          (with_file ks (tail (pieces ks)))
      else KRet (-9) m sh ks
  | NR_clone3 => KRet (ks_clone ks) m sh ks
  | NR_waitid =>
      if is_fd (rsi r) (ks_clone ks) then
        KRet 0 (fill_arg m (rdx r) (fill_struct [("si_pid", ks_clone ks); ("si_status", 0)])) sh ks
      else KRet (-10) m sh ks
  | NR_clock_gettime => KRet 0 (fill_arg m (rsi r) (fill_struct [("tv_sec", ks_time ks); ("tv_nsec", 5)])) sh ks
  | NR_newfstatat => KRet 0 (fill_arg m (rdx r) (fill_struct [("st_size", 4096)])) sh ks
  | NR_copy_file_range => KRet (write_count (r8 r)) m sh ks
  | NR_sysinfo =>
      KRet 0 (fill_arg m (rdi r) (fill_struct [("totalram", 1000); ("freeram", 400); ("mem_unit", 1)])) sh ks
  | NR_openat2 => KRet file_fd m sh (with_file ks the_file)
  | NR_getdents64 =>
      let bytes := batch_bytes (default [] (head (dir_batches ks))) in
      if is_fd (rdi r) dir_fd then
        KRet (Z.of_nat (length bytes)) (fill_arg m (rsi r) (fun m n => fill_bytes m n bytes)) sh
          (with_dir ks (tail (dir_batches ks)))
      else KRet (-9) m sh ks
  | NR_openat => KRet dir_fd m sh (with_dir ks the_dir)
  | NR_signalfd4 | NR_memfd_create | NR_socket => KRet 7 m sh ks
  | _ => KRet 0 m sh ks
  end.

#[export] Instance little_kernel : Kernel := { kstate := kst; kcall := kernel_call }.

(** ** It keeps its promises *)

Lemma all_below (n : nat) (P : Z -> bool) :
  forallb (fun i => P (Z.of_nat i)) (seq 0 n) = true -> forall i, 0 <= i < Z.of_nat n -> P i = true.
Proof.
  intros H i Hi. rewrite forallb_forall in H. specialize (H (Z.to_nat i)).
  rewrite in_seq, Z2Nat.id in H by lia. apply H. lia.
Qed.

Lemma fill_bytes_upto ns m n s : n ∈ ns -> mem_upto ns m (fill_bytes m n s).
Proof.
  intros Hn. unfold fill_bytes. destruct (m_objs m !! n) as [[]|]; [|done..].
  split; [|done]. intros n' _ Hn'. apply set_obj_ne. by intros ->.
Qed.

Lemma fill_struct_upto ns fs m n : n ∈ ns -> mem_upto ns m (fill_struct fs m n).
Proof. intros Hn. split; [|done]. intros n' _ Hn'. apply set_obj_ne. by intros ->. Qed.

Lemma fill_arg_upto r m a f :
  (forall m n ns, n ∈ ns -> mem_upto ns m (f m n)) -> a ∈ [rdi r; rsi r; rdx r; r10 r; r8 r; r9 r] ->
  mem_upto (out_objs r) m (fill_arg m a f).
Proof.
  intros Hf Ha. unfold fill_arg, arg_obj. destruct a as [[|[|[|n] o]]|] eqn:E; try done.
  apply Hf. unfold out_objs, arg_objs. apply elem_of_app. left.
  apply list_elem_of_bind. eexists. split; [|exact Ha]. by left.
Qed.

Lemma kernel_enter_upto m sh ks v m' sh' ks' r : rax r = NR_io_uring_enter ->
  kernel_enter m sh ks = KRet v m' sh' ks' -> mem_upto (out_objs r) m m'.
Proof.
  intros Hr. unfold kernel_enter. repeat case_match; intros [= <- <- <- <-]; try done.
  apply fill_bytes_upto. unfold out_objs. rewrite decide_True by done. set_solver.
Qed.

#[export] Instance little_kernel_ok : KernelOk little_kernel.
Proof.
  split.
  - intros r m sh k v m' sh' k' E Hw. cbn in E. unfold kernel_call in E.
    destruct (rax r) eqn:Er; try discriminate Hw; repeat case_match; by simplify_eq.
  - intros r m sh k v m' sh' k' E Hw. cbn in E. unfold kernel_call in E.
    destruct (rax r) eqn:Er; try discriminate Hw; try (by eapply kernel_enter_upto);
      repeat case_match; simplify_eq; try done;
      apply fill_arg_upto; try set_solver; intros;
      first [by apply fill_struct_upto|by apply fill_bytes_upto].
  - intros r m sh k Hr. cbn. unfold kernel_call. rewrite Hr. by eexists _, _, _, _.
Qed.

Lemma the_layout : layout the_uring 4 5.
Proof.
  split; try (vm_compute; done).
  - by apply (bool_decide_unpack _).
  - intros w i Hw. unfold idx_at. pose proof (Z.mod_pos_bound i (2 ^ 4) ltac:(lia)).
    unfold the_uring, sq_array, ring_base. unfold the_uring, ring_base in Hw. cbn in *.
    repeat (apply elem_of_cons in Hw as [->|Hw]; [lia|]). by apply elem_of_nil in Hw.
Qed.

Lemma consume_min n R F : consume (Nat.min n (length (queued R))) (R, F) = consume n (R, F).
Proof.
  destruct (decide (n <= length (queued R))%nat); [by rewrite Nat.min_l by done|].
  rewrite Nat.min_r by lia. unfold consume. rewrite !take_ge, !drop_ge by lia. done.
Qed.

Lemma consume_add n n' R F : consume n' (consume n (R, F)) = consume (n + n') (R, F).
Proof.
  unfold consume. cbn [queued pending r_chead completed r_head]. rewrite drop_drop, <- app_assoc, take_take_drop.
  do 2 f_equal. rewrite <- take_take_drop, length_app. lia.
Qed.

Lemma kernel_take_ok a b sh R F :
  ring_rep (with_list the_uring a b) 4 5 sh R ->
  exists sh', kernel_take sh F = (Z.of_nat (Nat.min 1 (length (queued R))), sh', (consume 1 (R, F)).2) /\
    ring_rep (with_list the_uring a b) 4 5 sh' (consume 1 (R, F)).1.
Proof.
  intros H. pose proof (layout_with_list _ _ _ the_layout a b) as L. unfold kernel_take.
  pose proof (rr_head _ _ _ _ _ H) as Eh. pose proof (rr_tail _ _ _ _ _ H) as Et.
  cbn in Eh, Et. cbn [sq_head sq_tail sq_array sqes the_uring]. rewrite Eh, Et.
  destruct (queued R) as [|e q] eqn:Eq.
  - cbn [length]. rewrite Z.add_0_r, Z.eqb_refl. exists sh. unfold consume. rewrite Eq. cbn. rewrite app_nil_r.
    split; [done|]. destruct R; cbn in *. subst. by rewrite Z.add_0_r.
  - destruct (kernel_finds _ _ _ _ _ L H e q Eq) as (Hne & Hi & He). rewrite Eq in Hne.
    rewrite (proj2 (Z.eqb_neq _ _) Hne). change 15 with (2 ^ 4 - 1).
    rewrite mask_index by lia. unfold idx_at in Hi. cbn in Hi. cbn [Z.pow Z.pow_pos Pos.iter] in *.
    unfold sqe_at in He. cbn in He.
    eexists. split; [|apply take_rep; [done|done|by rewrite Eq]].
    cbn. rewrite Eq. cbn. rewrite take_0.
    rewrite Hi, He. rewrite uwrap_add_l. done.
Qed.

Lemma kernel_takes_ok a b sh R F :
  ring_rep (with_list the_uring a b) 4 5 sh R ->
  exists n sh', (n <= 2)%nat /\
    kernel_takes sh F = (Z.of_nat (Nat.min n (length (queued R))), sh', (consume n (R, F)).2) /\
    ring_rep (with_list the_uring a b) 4 5 sh' (consume n (R, F)).1 /\
    (n = 2%nat /\ kernel_choice (consume 1 (R, F)).2 = None \/ n = 1%nat /\ kernel_choice (consume 1 (R, F)).2 <> None).
Proof.
  intros H. destruct (kernel_take_ok a b sh R F H) as (sh1 & E1 & H1). unfold kernel_takes. rewrite E1.
  destruct (kernel_choice _) eqn:Ec; [exists 1%nat, sh1; split_and!; [lia|done|done|by right]|].
  destruct (consume 1 (R, F)) as [R1 F1] eqn:Ev. cbn [fst snd] in *.
  destruct (kernel_take_ok a b sh1 R1 F1 H1) as (sh2 & E2 & H2). rewrite E2. exists 2%nat, sh2.
  rewrite <- Ev, consume_add in H2. rewrite <- Ev, consume_add. split_and!; [lia| |done|by left].
  assert (queued R1 = drop 1 (queued R)) as -> by (by injection Ev as <- _). rewrite length_drop.
  do 2 f_equal. lia.
Qed.

(** *** One operation can be completed *)

Definition chosen (t : list kind) : bool :=
  match t with [] | [KSignal] => false | _ => true end.

Lemma kernel_choice_chosen F t : Forall2 (fun e k => sqe_kind e = Some k) F t -> chosen t = true ->
  kernel_choice F <> None.
Proof.
  intros Ht Hc. destruct Ht as [|e k F' t' He Ht]; [done|]. unfold kernel_choice.
  destruct (Z.eqb_spec (sqe_user_data e) EVENT_SIGNAL) as [E|]; [|done].
  assert (k = KSignal /\ is_link e = false) as [-> Hl].
  { unfold sqe_kind in He. rewrite E in He. cbn in He. destruct (is_link e); [done|]. by injection He as <-. }
  destruct Ht as [|e' k' F'' t'' _ _]; [done|]. by rewrite Hl.
Qed.

Lemma one_chosen t f : tokens_ok [] t = true -> chosen (take (f + 1) t) || chosen (take (f + 2) t) = true.
Proof.
  intros Hok. pose proof (tokens_ok_length _ _ Hok) as Hl. cbn in Hl.
  destruct (decide (3 <= f)%nat).
  - rewrite !take_ge by lia. rewrite orb_diag.
    exact (tokens_check (fun c t => match c with [] => chosen t | _ => true end) ltac:(by vm_compute) [] t Hok).
  - pose proof (tokens_check (fun c t => match c with
      | [] => forallb (fun f => chosen (take (f + 1) t) || chosen (take (f + 2) t)) (seq 0 3) | _ => true end)
      ltac:(by vm_compute) [] t Hok) as H. cbv beta iota in H. rewrite forallb_forall in H. apply H. apply in_seq. lia.
Qed.

Lemma takes_chosen R F : loop_ok R F -> pending R = [] -> completed R = [] ->
  kernel_choice (consume 1 (R, F)).2 <> None \/ kernel_choice (consume 2 (R, F)).2 <> None.
Proof.
  intros (c & t & Hc & Ht & Hok) Hp Hnil. rewrite Hnil in Hc. inversion Hc. subst c. rewrite Hp, app_nil_r in Ht.
  assert (forall n, Forall2 (fun e k => sqe_kind e = Some k) (consume n (R, F)).2 (take (length F + n) t)) as Hn.
  { intros n. apply (Forall2_take _ _ _ (length F + n)) in Ht. by rewrite take_app_add in Ht. }
  destruct (orb_prop _ _ (one_chosen t (length F) Hok)); [left|right]; by eapply kernel_choice_chosen.
Qed.

Lemma kernel_choice_ok F i e : kernel_choice F = Some (i, e) ->
  F !! i = Some e /\ forall j p, i = S j -> F !! j = Some p -> is_link p = false.
Proof.
  unfold kernel_choice. repeat case_match; intros [= <- <-]; subst.
  - split; [done|]. intros j p [= <-] [= <-]. done.
  - done.
Qed.

Lemma kernel_post_ok a b sh R F i e res :
  ring_rep (with_list the_uring a b) 4 5 sh R -> kernel_choice F = Some (i, e) ->
  exists R' , ring_rep (with_list the_uring a b) 4 5 (kernel_post (Cqe (sqe_user_data e) res) i sh F).1 R' /\
    rtc kernel_step (R, F) (R', (kernel_post (Cqe (sqe_user_data e) res) i sh F).2) /\ completed R' <> [].
Proof.
  intros H [Hi Hl]%kernel_choice_ok. pose proof (layout_with_list _ _ _ the_layout a b) as L.
  unfold kernel_post.
  pose proof (rr_chead _ _ _ _ _ H) as Eh. pose proof (rr_ctail _ _ _ _ _ H) as Et.
  pose proof (rr_croom _ _ _ _ _ H) as Hroom. cbn in Eh, Et, Hroom.
  cbn [cq_head cq_tail cqes the_uring]. rewrite Eh, Et, counter_diff by lia.
  destruct (Z.ltb_spec (Z.of_nat (length (completed R))) 32) as [Hlt|Hge]; 
    [|exists R; split_and!; [done..|]; intros E; rewrite E in Hge; cbn in Hge; lia].
  change 31 with (2 ^ 5 - 1). rewrite mask_index, uwrap_add_l by lia.
  exists (post R (Cqe (sqe_user_data e) res)). split_and!.
  - cbn [fst]. apply (post_rep _ _ _ _ _ L H). cbn. lia.
  - cbn [snd]. by apply rtc_once, complete.
  - cbn. by destruct (completed R).
Qed.

Lemma kernel_enter_ok a b m sh ks v m' sh' ks' R :
  kernel_enter m sh ks = KRet v m' sh' ks' -> ring_rep (with_list the_uring a b) 4 5 sh R ->
  0 <= to_int v /\ exists R', ring_rep (with_list the_uring a b) 4 5 sh' R' /\
    rtc kernel_step (consume (Z.to_nat (to_int v)) (R, ks_flight ks)) (R', ks_flight ks') /\
    (loop_ok R (ks_flight ks) -> pending R = [] -> completed R' <> []).
Proof.
  intros E H. destruct (kernel_takes_ok a b sh R (ks_flight ks) H) as (n & sh1 & Hn & Et & H1 & Hwhich).
  assert (to_int (Z.of_nat (Nat.min n (length (queued R)))) = Z.of_nat (Nat.min n (length (queued R)))) as Ev
    by (apply swrap_small; lia).
  unfold kernel_enter in E. rewrite Et in E. pose proof (takes_chosen R (ks_flight ks)) as Hchosen.
  assert (forall R' F', rtc kernel_step (consume n (R, ks_flight ks)) (R', F') ->
    loop_ok R (ks_flight ks) -> pending R = [] -> completed R <> [] -> completed R' <> []) as Hmore.
  { intros R' F' Hs Hok Hp Hc. destruct (kernel_steps_ok _ _ Hs (consume_ok _ R _ Hp Hok)) as (_ & _ & _ & _ & cs & Ec).
    cbn in Ec. rewrite Ec. by destruct (completed R). }
  pose proof (consume_min n R (ks_flight ks)) as Emin.
  destruct (kernel_choice (consume n (R, ks_flight ks)).2) as [[i e]|] eqn:Echoice.
  - assert (exists res F ls f c d t, ks' = Kst F ls f c d t /\ v = Z.of_nat (Nat.min n (length (queued R))) /\
      kernel_post (Cqe (sqe_user_data e) res) i sh1 (consume n (R, ks_flight ks)).2 = (sh', F)) as (res & F & ls & f & c & d & t & -> & -> & Ep).
    { destruct (_ =? _), (kernel_post _ _ _ _) eqn:Ep; injection E as <- <- <- <-; by eexists _, _, _, _, _, _, _. }
    rewrite Ev, Nat2Z.id, Emin. split; [lia|].
    destruct (kernel_post_ok a b sh1 _ _ i e res H1 Echoice) as (R' & H' & Hs & Hne).
    rewrite Ep in H', Hs. exists R'. by split_and!.
  - injection E as <- <- <- <-. rewrite Ev, Nat2Z.id, Emin. split; [lia|]. eexists. split_and!; [exact H1|done|].
    intros Hok Hp. assert (completed R = [] \/ completed R <> []) as [Hc|Hc] by (destruct (completed R); auto);
      [|by apply (Hmore _ (consume n (R, ks_flight ks)).2 (rtc_refl _ _))].
    by destruct (Hchosen Hok Hp Hc), Hwhich as [[-> ?]|[-> ?]].
Qed.

Lemma kernel_quiet r m sh ks v m' sh' ks' a b R :
  kernel_call r m sh ks = KRet v m' sh' ks' -> rax r <> NR_io_uring_enter ->
  ring_rep (with_list the_uring a b) 4 5 sh R ->
  exists R', ring_rep (with_list the_uring a b) 4 5 sh' R' /\
    rtc kernel_step (R, ks_flight ks) (R', ks_flight ks').
Proof.
  intros E Hr H. assert (sh' = sh /\ ks_flight ks' = ks_flight ks) as [-> ->]; [|by exists R].
  unfold kernel_call in E. destruct (rax r) eqn:Er; try done; try (simplify_eq; done);
    try (by repeat case_match; simplify_eq).
  - unfold kernel_mmap in E. repeat case_match; simplify_eq; try done.
    pose proof (rr_mask _ _ _ _ _ H) as Hm. by rewrite e, lookup_empty in Hm.
Qed.

Lemma kernel_enters r m sh ks v m' sh' ks' a b R :
  kernel_call r m sh ks = KRet v m' sh' ks' -> rax r = NR_io_uring_enter ->
  ring_rep (with_list the_uring a b) 4 5 sh R ->
  exists R', ring_rep (with_list the_uring a b) 4 5 sh' R' /\
    rtc kernel_step (consume (Z.to_nat (to_int v)) (R, ks_flight ks)) (R', ks_flight ks').
Proof.
  unfold kernel_call. intros E Hr H. rewrite Hr in E.
  destruct (kernel_enter_ok _ _ _ _ _ _ _ _ _ _ E H) as (_ & R' & H' & Hs & _). by exists R'.
Qed.

#[export] Instance little_uring : UringKernel little_kernel x86_64 the_uring 4 5 := {
  flight := ks_flight : @kstate little_kernel -> _;
  uring_quiet := kernel_quiet;
  uring_enter r m sh ks v m' sh' ks' a b R E Hr _ _ := kernel_enters r m sh ks v m' sh' ks' a b R E Hr
}.

(** *** The rings it makes *)

Lemma the_sizes : mapping_sizes the_uring 4 5.
Proof. by split; vm_compute. Qed.

Lemma the_params : setup_params the_uring 4 5 (list_to_map uring_params).
Proof. split; try (by vm_compute). by eexists. Qed.

Lemma fresh_words : ring_words the_uring 4 5 fresh_shm.
Proof.
  split; try (by vm_compute). intros i Hi. apply (bool_decide_unpack _), Is_true_true.
  refine (all_below 16 (fun i => bool_decide (is_Some (sh_words fresh_shm !! (sq_array the_uring + 4 * i)))) _ i Hi).
  by vm_compute.
Qed.

Lemma fresh_sqes sh : sh_sqes sh = sh_sqes fresh_shm -> ring_sqes the_uring 4 sh.
Proof.
  intros E i Hi. rewrite E. apply (bool_decide_unpack _), Is_true_true.
  refine (all_below 16 (fun i => bool_decide (is_Some
    (sh_sqes fresh_shm !! (mmap_sqes the_uring + i * sizeof_io_uring_sqe)))) _ i Hi).
  by vm_compute.
Qed.

#[export] Instance little_setup : SetupKernel little_kernel x86_64 the_uring 4 5.
Proof.
  refine {| ring_new := (fun ks => ks_flight ks = []) : @kstate little_kernel -> Prop |}.
  - done.
  - intros entries n m sh ks v m' sh' ks' E _ _ Hv. cbn in E. unfold kernel_call in E. cbn [rax] in E.
    destruct (ks_flight ks) eqn:Ef; injection E as <- <- <- <-; [|by vm_compute in Hv].
    split_and!; [done|done|]. eexists. split; [apply lookup_insert_eq|apply the_params].
  - intros m sh ks v m' sh' ks' E Hn Hv. cbn in E. unfold kernel_call in E. cbn [rax ring_call r9 kernel_mmap] in E.
    cbn in E. case_decide; injection E as <- <- <- <-; [|lia].
    split_and!; [done|done|apply fresh_words].
  - intros m sh ks v m' sh' ks' E Hn Hw Hv. cbn in E. unfold kernel_call in E. cbn in E.
    case_decide; injection E as <- <- <- <-; [|lia].
    split_and!; [done|done|done|by apply fresh_sqes].
Defined.

Lemma filter_tail {T} (P : T -> bool) (l : list T) :
  List.filter P (tail (List.filter P l)) = tail (List.filter P l).
Proof.
  assert (forall l, Forall (fun c => P c = true) l -> List.filter P l = l) as Hf.
  { induction 1 as [|c l' Hc _ IH]; [done|]. cbn. by rewrite Hc, IH. }
  apply Hf. assert (Forall (fun c => P c = true) (List.filter P l)) as H.
  { apply Forall_forall. intros c Hc. by apply List.filter_In in Hc as [_ ?]. }
  destruct H; [constructor|done].
Qed.

Lemma pieces_tail ks : List.filter is_piece (tail (pieces ks)) = tail (pieces ks).
Proof. apply filter_tail. Qed.

(** What is written to it is taken. *)
Lemma write_count_ok a : 0 <= to_int (write_count a).
Proof.
  unfold write_count. destruct a as [[n|]|]; [|done..]. destruct (_ && _) eqn:En; [|done].
  apply andb_true_iff in En as [H1 H2]. unfold to_int. rewrite swrap_small; lia.
Qed.

Definition little_reading (ks : kst) (fd : Z) : option (list (list byte) * Z) :=
  if decide (fd = file_fd) then Some (pieces ks, 0) else None.

#[export] Instance little_file : FileKernel little_kernel.
Proof.
  refine {| reading := little_reading : @kstate little_kernel -> _; takes_output _ := True |}; unfold little_reading.
  - intros k fd cs last c E Hc. case_decide; [|done]. injection E as <- <-. apply list_elem_of_In, List.filter_In in Hc as [_ Hc].
    unfold is_piece in Hc. apply andb_true_iff in Hc as [H1 H2]. lia.
  - intros k fd cs last E. case_decide; [|done]. injection E as _ <-. lia.
  - intros n fd m sh k l cs last E Hn Hl. case_decide as Hfd; [|done]. subst. injection E as <- <-.
    replace (match pieces k with c :: _ => Z.of_nat (length c) | [] => 0 end)
      with (Z.of_nat (length (default [] (head (pieces k))))) by (by destruct (pieces k)).
    eexists _, _, _. split; [reflexivity|]. split_and!; [| |done].
    + unfold fill_arg, fill_bytes. cbn. rewrite Hn. apply lookup_insert_eq.
    + unfold pieces at 1. cbn. by rewrite pieces_tail.
  - intros r m sh k v m' sh' k' E Hr _. cbn in E. unfold kernel_call in E. rewrite Hr in E.
    injection E as <- <- <- <-. by split.
  - intros n count m sh k v m' sh' k' l _ _ _ E. cbn in E. unfold kernel_call in E. cbn in E.
    injection E as <- _ _ _. apply (write_count_ok (of_ulong count)).
Defined.

(** *** Its children *)

Definition little_ending (ks : kst) (tid : Z) : option (Z * Z) :=
  if decide (tid = ks_clone ks /\ 0 < tid < 2 ^ 31) then Some (tid, 0) else None.

#[export] Instance little_child : ChildKernel little_kernel x86_64.
Proof.
  refine {| ending := little_ending : @kstate little_kernel -> _ |}; unfold little_ending.
  - intros k tid pid status E. case_decide as H; [|done]. injection E as <- <-. lia.
  - intros k tid pid status E. case_decide as H; [|done]. injection E as <- <-. destruct H as [-> H].
    exists (list_to_map [("si_pid", ks_clone k); ("si_status", 0)]). split_and!; [reflexivity..|].
    intros n m sh _. eexists _, _, _. split.
    + cbn. unfold kernel_call. cbn. rewrite Z.eqb_refl. reflexivity.
    + apply lookup_insert_eq.
  - intros r m sh k v m' sh' k' E Hr _ tid. cbn in E. unfold kernel_call in E. rewrite Hr in E. by injection E as <- <- <- <-.
Defined.

(** *** Its directories *)

Lemma dirent_at pre e post : is_entry e = true -> Z.of_nat (length e.1) < 1024 ->
  record_at (pre ++ dirent_bytes e ++ post) (length pre) e (length (dirent_bytes e)).
Proof.
  unfold is_entry. rewrite !andb_true_iff, bool_decide_eq_true. intros [[H0 Ht1] Ht2] Hlen.
  assert (length (dirent_bytes e) = 20 + length e.1)%nat as El.
  { unfold dirent_bytes. rewrite !length_app. cbn. lia. }
  assert (forall j c, dirent_bytes e !! j = Some c -> (pre ++ dirent_bytes e ++ post) !! (length pre + j)%nat = Some c) as Hat.
  { intros j c Hj. rewrite lookup_app_r, lookup_app_l by (apply lookup_lt_Some in Hj; lia).
    by replace (length pre + j - length pre)%nat with j by lia. }
  set (len := 20 + Z.of_nat (length e.1)).
  exists (byte_of_Z len), (byte_of_Z (len / 256)), (byte_of_Z e.2), post. split_and!.
  - lia.
  - by apply Hat.
  - by apply Hat.
  - rewrite !uchar_byte_of_Z, El. pose proof (Z.div_mod len 256 ltac:(lia)).
    rewrite (Z.mod_small (len / 256)); [lia|]. split; [apply Z.div_pos; lia|]. apply Z.div_lt_upper_bound; lia.
  - by apply Hat.
  - rewrite uchar_byte_of_Z, Z.mod_small by lia. done.
  - rewrite <- drop_drop, drop_app_length. unfold dirent_bytes. cbn. by rewrite <- app_assoc.
  - done.
Qed.

Lemma batch_records es : forall pre post, forallb is_entry es = true -> Z.of_nat (length (batch_bytes es)) <= 1024 ->
  records (pre ++ batch_bytes es ++ post) (length pre) es (length pre + length (batch_bytes es)).
Proof.
  induction es as [|e es IH]; intros pre post; [cbn; lia|].
  change (batch_bytes (e :: es)) with (dirent_bytes e ++ batch_bytes es).
  rewrite length_app. intros [He Hes]%andb_true_iff Hlen.
  assert (length (dirent_bytes e) = 20 + length e.1)%nat as El.
  { unfold dirent_bytes. rewrite !length_app. cbn. lia. }
  exists (length (dirent_bytes e)). split.
  - rewrite <- app_assoc. apply dirent_at; [done|lia].
  - specialize (IH (pre ++ dirent_bytes e) post Hes ltac:(lia)).
    rewrite length_app, <- !app_assoc in IH. by rewrite <- app_assoc, Nat.add_assoc.
Qed.

Lemma batches_tail ks : List.filter is_batch (tail (dir_batches ks)) = tail (dir_batches ks).
Proof. apply filter_tail. Qed.

Definition little_listing (ks : kst) (fd : Z) : option (list (list entry)) :=
  if decide (fd = dir_fd) then Some (dir_batches ks) else None.

#[export] Instance little_dir : DirKernel little_kernel.
Proof.
  refine {| listing := little_listing : @kstate little_kernel -> _ |}; unfold little_listing.
  - intros n fd m sh k l ess E Hn Hl. case_decide as Hfd; [|done]. subst. injection E as <-.
    assert (Z.of_nat (length (batch_bytes (default [] (head (dir_batches k))))) <= 1024 /\
      match dir_batches k with [] => True | es :: _ => is_batch es = true end) as [Hlen Hok].
    { destruct (dir_batches k) as [|es ess] eqn:E; [by vm_compute|]. cbn [head default from_option].
      assert (is_batch es = true) as Hb.
      { assert (In es (dir_batches k)) as Hin by (rewrite E; by left). by apply List.filter_In in Hin as [_ ?]. }
      split; [|done]. unfold is_batch in Hb. rewrite !andb_true_iff in Hb.
      change (Z.of_nat (length (batch_bytes es)) <= 1024). lia. }
    set (bytes := batch_bytes _) in *.
    eexists _, _, _, (list_inserts 0 bytes l), (length bytes). split_and!.
    + reflexivity.
    + unfold fill_arg, fill_bytes. cbn. rewrite Hn. apply lookup_insert_eq.
    + by rewrite length_inserts.
    + unfold dir_batches at 1. cbn. by rewrite batches_tail.
    + done.
    + destruct (dir_batches k) as [|es ess]; [done|]. cbn [head default from_option] in bytes.
      unfold is_batch in Hok. rewrite !andb_true_iff in Hok. destruct Hok as [[H1 _] H2].
      change bytes with (batch_bytes es) in *. split; [lia|]. rewrite inserts_split by lia. rewrite take_0. cbn [app].
      apply (batch_records es []); [done|exact Hlen].
  - intros r m sh k v m' sh' k' E Hr _ fd. cbn in E. unfold kernel_call in E. rewrite Hr in E.
    by injection E as _ _ _ <-.
Defined.

(** ** The program's static objects *)

Definition the_mem : mem :=
  {| m_objs := list_to_map [(ltoa_buffer, OBytes (replicate 21 x00));
       (line_obj, OBytes (replicate line_size x00));
       (siginfo_obj, OStruct ∅);
       (allsignals_obj, OStruct {["sigset_t" := 2 ^ 64 - 1]});
       (nosignals_memrun, OStruct {["sigset_t" := 0]});
       (nosignals_busybox, OStruct {["sigset_t" := 0]});
       (sigfd_obj, OStruct {["int" := 0]});
       (8%positive, OPtrs [Some (Ptr (BLit "HOME=/") 0); Some (Ptr (BLit "TERM=linux") 0); Some Null])];
     m_next := 10;
     m_base := fun b => match b with BVar n => 1000000 * Zpos n | BLit _ => 0 end;
     m_junk := fun _ _ => x2a |}.

Definition the_env : ptr := Ptr (BVar 8) 0.

(** The machine at [start]. *)
Definition the_machine (lines : list (list byte)) (clone : Z) : mach :=
  {| st_mem := the_mem; st_shm := Shm ∅ ∅ ∅; st_k := Kst [] lines [] clone [] 1700000000 : @kstate little_kernel;
     st_trace := [] |}.

Lemma the_statics lines clone : statics_ok (the_machine lines clone).
Proof. split; [by eexists|done]. Qed.

(** What was written to the console when the program stopped or came to the
    end of its turns, and whether it stopped by a system call. *)
Definition console_of {T} (o : outcome mach T) : option (bool * list byte) :=
  match o with
  | Ok _ st => Some (false, written STDOUT (st_trace st))
  | Stop (Halted st) => Some (true, written STDOUT (st_trace st))
  | Stop _ => None
  end.
