(* ===== verification/Examples.v ===== *)
(** * The theorems at work

    The theorems that have the machine in their hypotheses, applied on the
    machine of Instance.v, and a whole session of the program run on it. *)

From S2P Require Import Prelude Headers Outcome CMem CString Decimal Parser Machine Syscall Console Script Hello Uring Access Interleave Order Atomic Delivery Command CommandSpec Init InitSpec Listing Process Memrun System Turn Boot Instance.

(** ** A session

    The machine starts; env, cat, the name of an applet and exit are typed; the
    machine is powered off in the 19th turn of the loop. *)

Definition typed : list (list byte) :=
  [lit ("env" +:+ nl); lit ("  cat  /motd" +:+ nl); lit ("vi a b" +:+ nl); lit ("exit" +:+ nl)].

Definition session (n : nat) : option (bool * list byte) :=
  console_of (start 50 n 0 Null the_env (the_machine typed 42)).

Example session_output :
  session 30 = Some (true, lit ("HOME=/" +:+ nl +:+ "TERM=linux" +:+ nl +:+ "hello, world" +:+ nl +:+
    "Busybox exited with status 0" +:+ nl)).
Proof. vm_compute. reflexivity. Qed.

(** The rings the first two turns of the loop leave are those of [the_uring]. *)
Definition booted : option (uring_queue * mach) :=
  match start 50 2 0 Null the_env (the_machine typed 42) with Ok u st => Some (u, st) | Stop _ => None end.

Example booted_handle :
  (fun p => with_list (fst p) 0 0) <$> booted = Some the_uring.
Proof. vm_compute. reflexivity. Qed.

(** ** Messages *)

Definition m0 : mach := the_machine typed 42.

Lemma m0_statics : statics_ok m0.
Proof. apply the_statics. Qed.

(** 2^64 - 5 is printed as -5; 2^63 is not printed. *)
Lemma write_int_output_witness :
  prints (write_int (2 ^ 64 - 5)) (lit "-5") m0 /\ write_int (2 ^ 63) m0 = Stop (Fault FOverflow) /\
  prints (write_int 42) (lit "42") m0.
Proof.
  split; [|split].
  - destruct (write_int_output (2 ^ 64 - 5) m0 m0_statics ltac:(lia)) as (_ & _ & H). by apply H.
  - destruct (write_int_output (2 ^ 63) m0 m0_statics ltac:(lia)) as (_ & H & _). by apply H.
  - destruct (write_int_output 42 m0 m0_statics ltac:(lia)) as (H & _). by apply H.
Defined.

Lemma SYSCHECK_outcome_witness :
  (0 <= -2 -> SYSCHECK "init.c:9" (mret (-2)) m0 = Ok (-2) m0) /\
  (- 2 ^ 63 < -2 < 0 -> SYSCHECK "init.c:9" (mret (-2)) m0 = Stop (Fault FDead)).
Proof.
  exact (SYSCHECK_outcome "init.c:9" (mret (-2)) m0 (-2) m0 eq_refl m0_statics
    ltac:(by apply (bool_decide_unpack _)) ltac:(vm_compute; reflexivity)).
Defined.

Lemma WRITE_ERR_output_witness :
  prints (WRITE_ERR "Couldn't open file" (-2)) (lit "Couldn't open file" ++ lit ": " ++ lit "-2" ++ lit nl) m0.
Proof.
  exact (WRITE_ERR_output "Couldn't open file" (-2) m0 m0_statics
    ltac:(by apply (bool_decide_unpack _)) ltac:(vm_compute; reflexivity) ltac:(lia)).
Defined.

Lemma reboot_noret r (m : mem) (sh : shm) (k : @kstate little_kernel) :
  rax r = NR_reboot -> exists k', kcall r m sh k = KNoret k'.
Proof. intros E. cbn. unfold kernel_call. rewrite E. by eexists. Qed.

Lemma ERREXIT_powers_off_witness :
  exists st' tr e, (ERREXIT "a.c:1" "bye" : M unit) m0 = Stop (Halted st') /\
    stdout_of st' = stdout_of m0 ++ lit "a.c:1 bye" /\ st_trace st' = tr ++ [e] /\
    ev_regs e = Regs NR_reboot (of_int 4276215469) (of_int 672274793) (of_int 1126301404) (of_ptr Null) None None.
Proof.
  exact (ERREXIT_powers_off "a.c:1" "bye" m0 reboot_noret m0_statics
    ltac:(by apply (bool_decide_unpack _)) ltac:(vm_compute; reflexivity)).
Defined.

Lemma exit_noret r (m : mem) (sh : shm) (k : @kstate little_kernel) :
  rax r = NR_exit -> exists k', kcall r m sh k = KNoret k'.
Proof. intros E. cbn. unfold kernel_call. rewrite E. by eexists. Qed.

Lemma main_greets_witness :
  exists st' e1 e2, (main 0 Null Null : M unit) m0 = Stop (Halted st') /\
    st_trace st' = st_trace m0 ++ [e1; e2] /\ ev_write e1 = Some (1, lit ("hello world!" +:+ nl)) /\
    ev_regs e1 = Regs NR_write (of_int 1) (of_ptr (Ptr (BLit greeting) 0)) (of_ulong 13) None None None /\
    ev_regs e2 = Regs NR_exit (of_int 0) None None None None None.
Proof. exact (main_greets 0 Null Null m0 exit_noret). Defined.

(** ** The rings *)

Definition empty_ring : ring := Ring 0 [] [] 0 [].

Lemma fresh_rep : ring_rep the_uring 4 5 fresh_shm empty_ring.
Proof.
  split.
  1-9, 15-16: by vm_compute.
  - intros i. unfold idx_at. pose proof (Z.mod_pos_bound i (2 ^ 4) ltac:(lia)) as Hi.
    apply (bool_decide_unpack _), Is_true_true.
    refine (all_below 16 (fun x => bool_decide (is_Some (sh_words fresh_shm !! (sq_array the_uring + 4 * x)))) _ _ Hi).
    by vm_compute.
  - intros i. unfold sqe_at. pose proof (Z.mod_pos_bound i (2 ^ 4) ltac:(lia)) as Hi.
    apply (bool_decide_unpack _), Is_true_true.
    refine (all_below 16 (fun x => bool_decide (is_Some (sh_sqes fresh_shm !! (sqes the_uring + x * sizeof_io_uring_sqe)))) _ _ Hi).
    by vm_compute.
  - intros j Hj. cbn in Hj. lia.
  - done.
  - done.
Qed.

(** One entry handed out, and one completion posted. *)
Definition one_pending : shm := set_sqe fresh_shm sqes_base line_entry.
Definition one_completed : shm :=
  set_word (set_cqe fresh_shm (ring_base + 128) (Cqe 0 5)) (cq_tail the_uring) 1.

Lemma one_pending_rep : ring_rep (with_list the_uring 0 1) 4 5 one_pending (submit empty_ring line_entry).
Proof. exact (submit_rep the_uring 4 5 fresh_shm empty_ring the_layout fresh_rep line_entry ltac:(done)). Qed.

Lemma one_completed_rep : ring_rep the_uring 4 5 one_completed (post empty_ring (Cqe 0 5)).
Proof. exact (post_rep the_uring 4 5 fresh_shm empty_ring the_layout fresh_rep (Cqe 0 5) ltac:(done)). Qed.

Definition pending_uring : uring_queue := with_list the_uring 0 1.

Lemma pending_layout : layout pending_uring 4 5.
Proof. apply layout_with_list, the_layout. Qed.

Lemma new_submission_refines_witness :
  (1 = 2 ^ 4 /\ uring_new_submission pending_uring one_pending = Ok (0, pending_uring) one_pending) \/
  (1 < 2 ^ 4 /\ exists a u', uring_new_submission pending_uring one_pending = Ok (a, u') one_pending /\ a <> 0 /\
     forall e, exists sh', update_sqe a (fun _ => e) one_pending = Ok tt sh' /\
       ring_rep u' 4 5 sh' (submit (submit empty_ring line_entry) e)).
Proof. exact (new_submission_refines pending_uring 4 5 one_pending _ pending_layout one_pending_rep). Defined.

Lemma flush_publishes_witness :
  kernel_view pending_uring one_pending = Some [] /\
  exists sh' u' tail, uring_flush pending_uring one_pending = Ok (tail, u') sh' /\
    ring_rep u' 4 5 sh' (publish (submit empty_ring line_entry)) /\
    kernel_view u' sh' = Some [line_entry] /\
    sh_words sh' !! sq_tail u' = Some tail /\ sq_list_head u' = sq_list_tail u'.
Proof. exact (flush_publishes pending_uring 4 5 one_pending _ pending_layout one_pending_rep). Defined.

Lemma completions_in_order_witness :
  exists a sh', uring_result the_uring one_completed = Ok a one_completed /\ a <> 0 /\
    load_cqe a one_completed = Ok (Cqe 0 5) one_completed /\
    uring_advance the_uring one_completed = Ok tt sh' /\
    ring_rep the_uring 4 5 sh' (take_completion (post empty_ring (Cqe 0 5))) /\
    completed (take_completion (post empty_ring (Cqe 0 5))) = [].
Proof. exact (completions_in_order the_uring 4 5 one_completed _ the_layout one_completed_rep). Defined.

(** The operations on these rings while the kernel goes on, and the orders of
    their accesses. *)

Lemma completions_interleaved_witness :
  always (kernel_acts the_uring 5) (advance_accesses the_uring) (fun _ sh' => exists R1 R',
    rtc moves (post empty_ring (Cqe 0 5)) R1 /\ rtc moves (take_completion R1) R' /\ ring_rep the_uring 4 5 sh' R') one_completed.
Proof.
  exact (proj2 (completions_interleaved the_uring 4 5 one_completed _ the_layout one_completed_rep) ltac:(done)).
Defined.

Lemma new_submission_interleaved_witness :
  always (kernel_acts pending_uring 5) (new_submission_accesses pending_uring) (fun v sh' => exists R1 R',
    rtc moves (submit empty_ring line_entry) R1 /\ rtc moves R1 R' /\ ring_rep pending_uring 4 5 sh' R' /\
    ((in_use R1 = 16 /\ v = (0, pending_uring)) \/
     (in_use R1 < 16 /\ v.1 <> 0 /\ forall e, exists sh'', update_sqe v.1 (fun _ => e) sh' = Ok tt sh'' /\
        ring_rep v.2 4 5 sh'' (submit R' e)))) one_pending.
Proof. exact (new_submission_interleaved pending_uring 4 5 one_pending _ pending_layout one_pending_rep). Defined.

Lemma wait_interleaved_witness :
  always (kernel_acts pending_uring 5) (wait_accesses pending_uring) (fun v sh' => exists R1 R2 R',
    rtc moves (submit empty_ring line_entry) R1 /\ rtc moves (publish R1) R2 /\ rtc moves R2 R' /\
    ring_rep v.2 4 5 sh' R' /\ v.2 = with_list pending_uring 1 1 /\
    v.1 = Z.of_nat (length (queued R2)) /\ Z.of_nat (length (queued R')) <= v.1) one_pending.
Proof. exact (wait_interleaved pending_uring 4 5 one_pending _ pending_layout one_pending_rep). Defined.

Lemma turns_deliver_witness :
  tracked the_uring 5 (turns 3 the_uring) (fun cs sh' posted => exists R', ring_rep the_uring 4 5 sh' R' /\
    [Cqe 0 5] ++ posted = cs ++ completed R' /\ r_chead R' = Z.of_nat (length cs) /\ pending R' = [] /\
    (length cs <= 3)%nat /\ ((3 <= 1)%nat -> length cs = 3%nat)) one_completed.
Proof. exact (turns_deliver the_uring 4 5 3 one_completed _ the_layout one_completed_rep). Defined.

Lemma operations_atomic_witness :
  atomic pending_uring 5 (result_accesses pending_uring) one_pending /\ atomic pending_uring 5 (advance_accesses pending_uring) one_pending /\
  atomic pending_uring 5 (new_submission_accesses pending_uring) one_pending /\
  atomic pending_uring 5 (flush_accesses pending_uring) one_pending.
Proof. exact (operations_atomic pending_uring 4 5 one_pending _ pending_layout one_pending_rep). Defined.

Lemma completion_visible_witness :
  weak (posting the_uring 5 (post empty_ring (Cqe 0 5)) [Cqe 1 0; Cqe 2 0]) (result_accesses the_uring ≫= read_entry)
    (fun v _ => v = Some (Cqe 0 5) /\ v <> None) 0 one_completed.
Proof.
  exact (completion_visible the_uring 4 5 one_completed _ [Cqe 1 0; Cqe 2 0] 0 the_layout one_completed_rep
    ltac:(cbn; lia) ltac:(done)).
Defined.

Lemma tail_order_decides_witness :
  weak (posting the_uring 5 empty_ring [Cqe 0 5]) (result_with Plain the_uring ≫= read_entry)
    (fun v _ => v = None \/ v = Some (Cqe 0 5)) 0 fresh_shm <-> Plain = Acquire.
Proof.
  exact (tail_order_decides the_uring 4 5 fresh_shm empty_ring (Cqe 0 5) (Cqe 0 0) Plain the_layout fresh_rep
    eq_refl ltac:(by vm_compute) ltac:(done)).
Defined.

Lemma flush_released_witness :
  (forall n, (n < 2)%nat -> kernel_view pending_uring (after one_pending (take n (stores (flush_accesses pending_uring) one_pending))) = Some []) /\
  kernel_view pending_uring (after one_pending (stores (flush_accesses pending_uring) one_pending)) = Some [line_entry] /\
  released (sq_tail pending_uring) (stores (flush_accesses pending_uring) one_pending) = 2%nat.
Proof. exact (flush_released pending_uring 4 5 one_pending _ pending_layout one_pending_rep ltac:(done)). Defined.

Lemma ring_size_covers_witness :
  ring_size (sring_size 64 16) (cring_size 128 32) = Z.max (64 + 16 * 4) (128 + 32 * 16).
Proof.
  exact (ring_size_covers 64 16 128 32 ltac:(done) ltac:(lia) ltac:(lia) ltac:(lia) ltac:(lia)
    ltac:(cbn; lia) ltac:(cbn; lia)).
Defined.

(** ** Commands *)

(** The machine with the line [s] in the buffer, and an array of 32 pointers
    as object 10. *)
Definition with_line (s : string) : mach :=
  upd_mem (set_obj (fill_bytes the_mem line_obj (lit s ++ [x00])) 10 (OPtrs (replicate 32 None))) m0.

Lemma line_cstr s t i : read_cstr (st_mem (with_line s)) (Ptr (BVar line_obj) (Z.of_nat i)) = Some t ->
  cstr (st_mem (with_line s)) (BVar line_obj) i t.
Proof. apply read_cstr_spec. Qed.

Lemma line_statics s : statics_ok (with_line s).
Proof. split; [by eexists|done]. Qed.

Lemma process_command_dispatches_witness :
  exists m' j i' s',
    process_command 9 (Ptr (BVar line_obj) 0) 0 Null the_env (with_line " ls  /dev ") =
      cmd_ls 9 0 Null the_env (Ptr (BVar line_obj) (Z.of_nat i')) (upd_mem m' (with_line " ls  /dev ")) /\
    cstr m' (BVar line_obj) j (lit "ls") /\ cstr m' (BVar line_obj) i' s' /\ tokens s' = [lit "/dev"] /\
    (0 <= j)%nat /\ same_but line_obj j (st_mem (with_line " ls  /dev ")) m'.
Proof.
  exact (process_command_dispatches 9 (with_line " ls  /dev ") line_obj 0 (lit " ls  /dev ") 0 Null the_env
    (line_cstr " ls  /dev " _ 0 ltac:(vm_compute; reflexivity))).
Defined.

Lemma line_obj_bytes s : exists l, m_objs (st_mem (with_line s)) !! line_obj = Some (OBytes l).
Proof. by eexists. Qed.

Definition a_busy_line : list byte := list_inserts 0 (lit "a bb" ++ [x00]) (replicate line_size x00).

Lemma busybox_argv_witness :
  ((2 <= 29)%nat -> exists m' qs,
    busybox_args (Ptr (BVar 10) 0) Null (Ptr (BVar line_obj) 0) (with_line "a bb") =
      Ok tt (upd_mem m' (with_line "a bb")) /\
    m_objs m' !! 10%positive = Some (OPtrs ((Some <$> lit_ptr "/busybox" :: Null :: qs ++ [Null]) ++
                                            replicate 27 None)) /\
    points_to m' line_obj qs [lit "a"; lit "bb"] /\
    (forall n, n <> 10%positive -> n <> line_obj -> m_objs m' !! n = m_objs (st_mem (with_line "a bb")) !! n) /\
    m_next m' = 10%positive) /\
  ((30 <= 2)%nat ->
    busybox_args (Ptr (BVar 10) 0) Null (Ptr (BVar line_obj) 0) (with_line "a bb") = Stop (Fault FBounds)).
Proof.
  exact (busybox_argv (A := x86_64) ltac:(vm_compute; discriminate) (with_line "a bb") line_obj 10 0 Null (Ptr (BVar line_obj) 0)
    [lit "a"; lit "bb"] a_busy_line ltac:(done) eq_refl ltac:(vm_compute; reflexivity)
    (or_intror (ex_intro _ 0%nat (ex_intro _ (lit "a bb") (conj eq_refl (conj (le_n 0)
      (conj (line_cstr "a bb" _ 0 ltac:(vm_compute; reflexivity)) eq_refl))))))).
Defined.

(** A program run without arguments gets an empty one. *)
Lemma memrun_argv_witness :
  ((1 <= 30)%nat -> exists m' qs,
    memrun_args (Ptr (BVar 10) 0) Null (Ptr (BVar line_obj) 0) (with_line "") =
      Ok tt (upd_mem m' (with_line "")) /\
    m_objs m' !! 10%positive = Some (OPtrs ((Some <$> Null :: qs ++ [Null]) ++ replicate 29 None)) /\
    points_to m' line_obj qs [[]] /\ [[]] = [] :: tokens []) /\
  ((31 <= 1)%nat ->
    memrun_args (Ptr (BVar 10) 0) Null (Ptr (BVar line_obj) 0) (with_line "") = Stop (Fault FBounds)).
Proof.
  exact (memrun_argv (A := x86_64) ltac:(vm_compute; discriminate) (with_line "") line_obj 10 0 [] Null ltac:(done) eq_refl
    (line_cstr "" _ 0 ltac:(vm_compute; reflexivity))).
Defined.

Definition clock_fields (sec : Z) : gmap string Z := list_to_map [("tv_sec", sec); ("tv_nsec", 5)].

Lemma clock_fills (ks : @kstate little_kernel) n :
  fills ks (Regs NR_clock_gettime (of_int 0) (of_ptr (Ptr (BVar n) 0)) None None None None) n (clock_fields (ks_time ks)).
Proof. intros m sh _. eexists _, _, _. split; [reflexivity|apply lookup_insert_eq]. Qed.

Lemma sysinfo_fills (ks : @kstate little_kernel) n :
  fills ks (Regs NR_sysinfo (of_ptr (Ptr (BVar n) 0)) None None None None None) n
    (list_to_map [("totalram", 1000); ("freeram", 400); ("mem_unit", 1)]).
Proof. intros m sh _. eexists _, _, _. split; [reflexivity|apply lookup_insert_eq]. Qed.

Lemma cmd_time_prints_witness :
  outputs (cmd_time 0 Null the_env Null)
    (lit "Current Time: " ++ lit "1700000000" ++ lit " sec " ++ lit "5" ++ lit (" nsec" +:+ nl)) m0.
Proof.
  exact (cmd_time_prints 1700000000 5 (clock_fields 1700000000) m0 0 Null the_env Null
    m0_statics (clock_fills (st_k m0)) eq_refl eq_refl ltac:(lia) ltac:(lia)).
Defined.

Lemma cmd_usage_prints_witness :
  outputs (cmd_usage 0 Null the_env Null)
    (lit "Memory Used/Total: " ++ lit "600" ++ lit "/" ++ lit "1000" ++ lit (" bytes" +:+ nl)) m0.
Proof.
  exact (cmd_usage_prints 1000 400 1 (list_to_map [("totalram", 1000); ("freeram", 400); ("mem_unit", 1)]) m0
    0 Null the_env Null m0_statics (sysinfo_fills (st_k m0))
    eq_refl eq_refl eq_refl ltac:(lia) ltac:(lia) ltac:(lia)).
Defined.

Lemma var_lit m s : x00 ∉ lit s -> Z.of_nat (length (lit s)) < 2 ^ 63 -> var_at m (Ptr (BLit s) 0) (lit s).
Proof. intros H0 Hl. exists (BLit s), 0%nat. split_and!; [done|done|by apply cstr_lit|done]. Qed.

Definition the_vars : list ptr := [Ptr (BLit "HOME=/") 0; Ptr (BLit "TERM=linux") 0].
Definition the_var_strings : list (list byte) := [lit "HOME=/"; lit "TERM=linux"].

Lemma the_variables : Forall2 (var_at (st_mem m0)) the_vars the_var_strings.
Proof.
  repeat constructor; apply var_lit; try (by apply (bool_decide_unpack _)); by vm_compute.
Qed.

Lemma the_env_object :
  m_objs (st_mem m0) !! 8%positive = Some (OPtrs ((Some <$> the_vars ++ [Null]) ++ [])).
Proof. by vm_compute. Qed.

Lemma cmd_env_prints_witness : prints (cmd_env 0 Null the_env Null) (env_lines the_var_strings) m0.
Proof.
  apply (cmd_env_prints 8 the_vars the_var_strings [] m0 0 Null Null).
  - exact m0_statics.
  - split; discriminate.
  - exact the_env_object.
  - exact the_variables.
  - vm_compute. reflexivity.
Defined.

Lemma the_pieces ks : pieces (with_file ks the_file) = the_file.
Proof. by vm_compute. Qed.

Lemma open_the_file (ks : @kstate little_kernel) path : opens_file (A := x86_64) ks path file_fd the_file 0.
Proof.
  intros b i nh m sh _ _. exists file_fd, m, sh, (with_file ks the_file).
  split_and!; [reflexivity|by vm_compute| |done]. intros _. cbn. unfold little_reading. by rewrite the_pieces.
Qed.

Lemma cmd_cat_prints_witness :
  outputs (cmd_cat 3 0 Null the_env (Ptr (BVar line_obj) 3)) (lit ("hello, world" +:+ nl)) (with_line "cat /motd").
Proof.
  destruct (cmd_cat_prints 3 (with_line "cat /motd") line_obj 3 (lit " /motd") (lit "/motd") file_fd the_file 0 0 Null the_env)
    as (rs & Hrs & H).
  - apply line_statics.
  - discriminate.
  - reflexivity.
  - apply line_cstr. vm_compute. reflexivity.
  - vm_compute. reflexivity.
  - apply open_the_file.
  - done.
  - cbn. lia.
  - destruct (Hrs ltac:(done)) as [Hl HQ]. change (file_fd <? 0) with false in H. unfold cat_output in H.
    rewrite (cat_pieces _ _ Hl (HQ Logic.I)) in H. exact H.
Defined.

Lemma the_batches ks : dir_batches (with_dir ks the_dir) = the_dir.
Proof. by vm_compute. Qed.

Lemma open_the_dir (ks : @kstate little_kernel) path : opens_dir (A := x86_64) ks path dir_fd the_dir.
Proof.
  intros b i m sh _. exists dir_fd, m, sh, (with_dir ks the_dir).
  split_and!; [reflexivity|by vm_compute|]. intros _. cbn. unfold little_listing. by rewrite the_batches.
Qed.

Lemma cmd_ls_prints_witness :
  outputs (cmd_ls 3 0 Null the_env (Ptr (BVar line_obj) 2)) (entry_lines (concat the_dir)) (with_line "ls  /dev ").
Proof.
  apply (cmd_ls_prints 3 (with_line "ls  /dev ") line_obj 2 (lit "  /dev ") (lit "/dev") dir_fd the_dir 0 Null the_env).
  - apply line_statics.
  - split; discriminate.
  - apply line_cstr. vm_compute. reflexivity.
  - vm_compute. reflexivity.
  - vm_compute. reflexivity.
  - apply open_the_dir.
  - done.
  - cbn. lia.
Defined.

Example the_listing :
  entry_lines (concat the_dir) = lit ("./" +:+ nl +:+ "../" +:+ nl +:+ "motd" +:+ nl +:+ "console (character)" +:+ nl).
Proof. vm_compute. reflexivity. Qed.

(** The line "a bb", where clone3 returns [tid]. *)
Definition forking (tid : Z) : mach :=
  let st := with_line "a bb" in
  {| st_mem := st_mem st; st_shm := st_shm st; st_trace := st_trace st;
     st_k := Kst [] [] [] tid [] 0 : @kstate little_kernel |}.

Lemma forking_statics tid : statics_ok (forking tid).
Proof. split; [by eexists|done]. Qed.

Lemma forking_line tid : line_of line_obj (forking tid).
Proof. split; [by apply (bool_decide_unpack _)|done]. Qed.

Lemma little_clones (ks : @kstate little_kernel) : to_int (ks_clone ks) = ks_clone ks -> ks_clone ks < 2 ^ 31 ->
  clones (A := x86_64) ks (ks_clone ks) (ks_clone ks) 0.
Proof.
  intros E Hmax n m sh _. exists (ks_clone ks), m, sh, ks. split_and!; [reflexivity|done|].
  intros Hpos. cbn. unfold little_ending. by rewrite decide_True.
Qed.

(** The call [r], which the small kernel answers. *)
Ltac grant := let r := fresh "r" in let m := fresh "m" in let H := fresh "H" in
  intros r m H; cbv beta delta [exactly] in H; subst r; eexists _, _, _, _; split_and!; [reflexivity|by vm_compute|done|].

Lemma busybox_granted nb command ts sh (ks : @kstate little_kernel) : ks_clone ks = 0 ->
  grants (forked (child_script nb command ts)) sh ks.
Proof.
  intros H0. unfold forked, child_script, console_script, any_call, int_call. cbn [grants].
  intros r m (n & -> & _). exists 0, m, sh, ks. split_and!; [cbn; unfold kernel_call; cbn; by rewrite H0|done|done|].
  do 5 grant. intros r' m' (na & ne & -> & _). by eexists.
Qed.

Lemma memrun_granted nb j file ts sh (ks : @kstate little_kernel) : ks_clone ks = 0 ->
  grants (forked (memrun_script 4096 nb j file ts)) sh ks.
Proof.
  intros H0. unfold forked, memrun_script, console_script, copy_script, any_call, int_call. cbn [grants].
  intros r m (n & -> & _). exists 0, m, sh, ks. split_and!; [cbn; unfold kernel_call; cbn; by rewrite H0|done|done|].
  do 5 grant.
  intros ra ma (how & -> & _). eexists _, _, _, _. split_and!; [reflexivity|by vm_compute|done|].
  intros rb mb (stats & -> & _). eexists _, _, _, _. split_and!; [reflexivity|by vm_compute| |].
  { intros fd k [= _ <-]. eexists. split; [apply lookup_insert_eq|reflexivity]. }
  intros rc mc (inp & out & -> & _). eexists _, _, _, _. split_and!; [reflexivity|by vm_compute|done|].
  grant. intros rd md (na & ne & -> & _). by eexists.
Qed.

(** In the parent, in the child, and without a child. *)
Lemma busybox_runs_witness :
  outputs (busybox Null (Ptr (BVar line_obj) 0)) (lit ("Busybox exited with status 0" +:+ nl)) (forking 42) /\
  (let child := forked (child_script line_obj Null [lit "a"; lit "bb"]) in
   exists st' es, busybox Null (Ptr (BVar line_obj) 0) (forking 0) = Stop (Halted st') /\
     st_trace st' = st_trace (forking 0) ++ es /\ follows child es) /\
  outputs (busybox Null (Ptr (BVar line_obj) 0)) (lit ("clone3 error: -11" +:+ nl)) (forking (-11)).
Proof.
  assert (forall tid, cstr (st_mem (forking tid)) (BVar line_obj) 0 (lit "a bb")) as Hs.
  { intros tid. apply (line_cstr "a bb" _ 0). vm_compute. reflexivity. }
  assert (32 <= @ARG_MAX x86_64) as Hmax by (vm_compute; discriminate).
  split; [|split].
  - destruct (busybox_runs Hmax (forking 42) line_obj 0 (lit "a bb") a_busy_line Null (forking_statics 42)
      (forking_line 42) ltac:(vm_compute; reflexivity) (Hs 42)) as [H _].
    apply (H 42 42 0); [exact (little_clones (st_k (forking 42)) eq_refl eq_refl)|lia|lia].
  - destruct (busybox_runs Hmax (forking 0) line_obj 0 (lit "a bb") a_busy_line Null (forking_statics 0)
      (forking_line 0) ltac:(vm_compute; reflexivity) (Hs 0)) as [_ H].
    apply H; [vm_compute; lia|]. exact (busybox_granted line_obj Null _ (st_shm (forking 0)) (st_k (forking 0)) eq_refl).
  - destruct (busybox_runs Hmax (forking (-11)) line_obj 0 (lit "a bb") a_busy_line Null (forking_statics (-11))
      (forking_line (-11)) ltac:(vm_compute; reflexivity) (Hs (-11))) as [H _].
    apply (H (-11) (-11) 0); [exact (little_clones (st_k (forking (-11))) eq_refl eq_refl)|lia|lia].
Defined.

(** The same line, for memrun. *)
Lemma memrun_runs_witness :
  outputs (cmd_memrun 0 Null the_env (Ptr (BVar line_obj) 0))
    (lit ("Forked process 42" +:+ nl +:+ "Child process 42 exited with status 0" +:+ nl)) (forking 42) /\
  (let child := forked (memrun_script 4096 line_obj 0 (lit "a") [lit "bb"]) in
   exists st' es, cmd_memrun 0 Null the_env (Ptr (BVar line_obj) 0) (forking 0) = Stop (Halted st') /\
     st_trace st' = st_trace (forking 0) ++ es /\ follows child es).
Proof.
  assert (forall tid, cstr (st_mem (forking tid)) (BVar line_obj) 0 (lit "a bb")) as Hs.
  { intros tid. apply (line_cstr "a bb" _ 0). vm_compute. reflexivity. }
  assert (32 <= @ARG_MAX x86_64) as Hmax by (vm_compute; discriminate). split.
  - destruct (memrun_runs Hmax (forking 42) line_obj 0 (lit "a bb") a_busy_line 0 Null the_env (forking_statics 42)
      (forking_line 42) ltac:(discriminate) ltac:(vm_compute; reflexivity) (Hs 42)) as [H _].
    apply (H 42 42 0); [exact (little_clones (st_k (forking 42)) eq_refl eq_refl)|lia|lia].
  - destruct (memrun_runs Hmax (forking 0) line_obj 0 (lit "a bb") a_busy_line 0 Null the_env (forking_statics 0)
      (forking_line 0) ltac:(discriminate) ltac:(vm_compute; reflexivity) (Hs 0)) as [_ H].
    apply (H 4096 (lit "a")); [reflexivity|vm_compute; lia|].
    exact (memrun_granted line_obj 0 (lit "a") [lit "bb"] (st_shm (forking 0)) (st_k (forking 0)) eq_refl).
Defined.

(** ** The start-up and the event loop *)

Definition started : mach :=
  match start_system m0 with Ok _ st => st | Stop _ => m0 end.

Definition returns {T} (o : outcome mach T) : bool := match o with Ok _ _ => true | Stop _ => false end.

Lemma started_ok : start_system m0 = Ok tt started.
Proof.
  assert (returns (start_system m0) = true) as H by (vm_compute; reflexivity).
  unfold started. by destruct (start_system m0) as [[] st|].
Qed.

Lemma start_system_calls_witness :
  exists es, st_trace started = st_trace m0 ++ es /\ follows (startup_script Fin) es.
Proof. exact (start_system_calls m0 started started_ok). Defined.

Definition m_fresh : mach := upd_shm fresh_shm m0.


(** The line "ls" was read: three bytes with its newline. *)
Definition m_line : mach :=
  upd_mem (fill_bytes the_mem line_obj (lit "ls" ++ [x0a]))
    (upd_shm (set_cqe fresh_shm (ring_base + 128) (Cqe EVENT_CONSOLE_READ 3)) m0).

Definition line_bytes : list byte := list_inserts 0 (lit "ls" ++ [x0a]) (replicate line_size x00).

Lemma process_input_outcomes_witness :
  exists m', cstr m' (BVar line_obj) 0 (lit "ls") /\
    (forall n, n <> line_obj -> m_objs m' !! n = m_objs (st_mem m_line) !! n) /\ m_next m' = m_next (st_mem m_line) /\
    process_input 9 the_uring (ring_base + 128) 0 Null the_env m_line =
      (_ ← process_command 9 (Ptr (BVar line_obj) 0) 0 Null the_env; create_console_prompt the_uring)
        (upd_mem m' m_line).
Proof.
  destruct (process_input_outcomes 9 the_uring (ring_base + 128) 0 Null the_env m_line
    (Cqe EVENT_CONSOLE_READ 3) line_bytes) as [H _].
  - vm_compute. reflexivity.
  - vm_compute. reflexivity.
  - apply (H (lit "ls")); [cbn; lia|done|vm_compute; reflexivity|by apply (bool_decide_unpack _)].
Defined.

Lemma fresh_machine : fresh the_uring 4 5 the_uring fresh_shm (st_k m_fresh).
Proof.
  exists empty_ring. split_and!; [by exists 0, 0|exact fresh_rep|done..].
Qed.

(** The state after the first submissions and [n] turns. *)
Definition after (n : nat) : outcome mach uring_queue :=
  (u ← init the_uring; event_loop 50 n u 0 Null the_env) m_fresh.

Lemma event_loop_safe_witness :
  match after 7 with
  | Ok u' st' => exists R, ring_rep u' 4 5 (st_shm st') R /\
      (outstanding R (ks_flight (st_k st')) ≡ₚ [EVENT_SIGNAL; EVENT_CONSOLE_READ] \/
       outstanding R (ks_flight (st_k st')) ≡ₚ [EVENT_SIGNAL; EVENT_OTHER; EVENT_CONSOLE_READ])
  | Stop e => ~ unmapped (Stop e : outcome mach uring_queue)
  end.
Proof.
  exact (event_loop_safe 50 the_uring 4 5 7 the_uring 0 Null the_env m_fresh the_layout ltac:(lia)
    ltac:(done) fresh_machine).
Defined.

(** That run does not stop. *)
Example after_runs : returns (after 7) = true.
Proof. vm_compute. reflexivity. Qed.

Lemma uring_init_builds_witness :
  match uring_init 16 m0 with
  | Ok u st' => u = with_list the_uring 0 0 /\ fresh the_uring 4 5 u (st_shm st') (st_k st')
  | Stop e => ~ unmapped (Stop e : outcome mach uring_queue)
  end.
Proof. exact (uring_init_builds the_uring 4 5 16 m0 the_layout the_sizes ltac:(lia) ltac:(vm_compute; discriminate)). Defined.

Example uring_init_runs : returns (uring_init 16 m0) = true.
Proof. vm_compute. reflexivity. Qed.

Lemma start_safe_witness :
  match start 50 7 0 Null the_env m0 with
  | Ok u st' => exists R, ring_rep u 4 5 (st_shm st') R /\
      (outstanding R (ks_flight (st_k st')) ≡ₚ [EVENT_SIGNAL; EVENT_CONSOLE_READ] \/
       outstanding R (ks_flight (st_k st')) ≡ₚ [EVENT_SIGNAL; EVENT_OTHER; EVENT_CONSOLE_READ])
  | Stop e => ~ unmapped (Stop e : outcome mach uring_queue)
  end.
Proof.
  exact (start_safe the_uring 4 5 50 7 0 Null the_env m0 the_layout the_sizes ltac:(lia)
    ltac:(done) ltac:(vm_compute; discriminate)).
Defined.

Example start_runs : returns (start 50 7 0 Null the_env m0) = true.
Proof. vm_compute. reflexivity. Qed.

(** The state in which one signal and a console exchange are in flight. *)
Definition signal_sqe : io_uring_sqe := signal_entry 7.

Definition m_serving : mach :=
  {| st_mem := the_mem; st_shm := fresh_shm; st_trace := [];
     st_k := Kst [signal_sqe; prompt_entry; line_entry] typed [] 42 [] 0 : @kstate little_kernel |}.

Lemma in_flight_ok : loop_ok empty_ring [signal_sqe; prompt_entry; line_entry].
Proof. exists [], [KSignal; KPrompt; KLine]. split_and!; [constructor|by repeat constructor|by vm_compute]. Qed.

Lemma event_step_invariant_witness :
  match event_step 50 the_uring 0 Null the_env m_serving with
  | Ok u' st' => handle_of the_uring u' /\
      exists R', ring_rep u' 4 5 (st_shm st') R' /\ loop_ok R' (ks_flight (st_k st'))
  | Stop e => ~ unmapped (Stop e : outcome mach uring_queue)
  end.
Proof.
  exact (event_step_invariant 50 the_uring 4 5 the_uring 0 Null the_env m_serving empty_ring the_layout
    ltac:(lia) ltac:(done) (ex_intro _ 0 (ex_intro _ 0 eq_refl)) fresh_rep in_flight_ok).
Defined.

(** The prompt is completed before the signal that is older. *)
Lemma prompt_step : kernel_step (empty_ring, [signal_sqe; prompt_entry; line_entry])
  (post empty_ring (Cqe EVENT_OTHER 9), [signal_sqe; line_entry]).
Proof. apply (complete empty_ring [signal_sqe; prompt_entry; line_entry] 1 prompt_entry 9); [done|]. by intros j p [= <-] [= <-]. Qed.

Lemma any_completion_order_witness :
  loop_ok (post empty_ring (Cqe EVENT_OTHER 9)) [signal_sqe; line_entry] /\
  [] = [] :> list io_uring_sqe /\ [] = [] :> list io_uring_sqe /\
  (exists cs, [Cqe EVENT_OTHER 9] = [] ++ cs) /\
  ([2; 1; 0] ≡ₚ [EVENT_SIGNAL; EVENT_CONSOLE_READ] \/
   [2; 1; 0] ≡ₚ [EVENT_SIGNAL; EVENT_OTHER; EVENT_CONSOLE_READ]).
Proof.
  exact (any_completion_order empty_ring _ _ _ (rtc_once _ _ prompt_step) in_flight_ok).
Defined.

(** The mappings are there. *)
Definition mapped (sh : shm) (ks : @kstate little_kernel) : Prop := sh_words sh <> ∅.

Lemma quiet_rings r m sh (ks : @kstate little_kernel) v m' sh' ks' :
  rax r <> NR_io_uring_enter -> kcall r m sh ks = KRet v m' sh' ks' -> mapped sh ks -> mapped sh' ks'.
Proof.
  unfold mapped. intros Hr E Hsh. cbn in E. unfold kernel_call in E.
  destruct (rax r) eqn:Er; try done; try (repeat case_match; by simplify_eq).
  unfold kernel_mmap in E. repeat case_match; by simplify_eq.
Qed.

Definition m_usage : mach := upd_shm fresh_shm (with_line "usage").

Lemma m_usage_mapped : mapped (st_shm m_usage) (st_k m_usage).
Proof. change (sh_words fresh_shm <> ∅). vm_compute. discriminate. Qed.

Lemma commands_keep_rings_witness :
  match process_command 9 (Ptr (BVar line_obj) 0) 0 Null the_env m_usage with
  | Ok _ st' => mapped (st_shm st') (st_k st')
  | Stop e => ~ unmapped (Stop e : outcome mach unit)
  end.
Proof.
  exact (commands_keep_rings (K := little_kernel) (A := x86_64) 9 mapped (Ptr (BVar line_obj) 0) 0 Null the_env m_usage quiet_rings m_usage_mapped).
Defined.
