(* ===== verification/Dialogue.v ===== *)
(** * Lines and answers on the small kernel

    The theorems on the shell and on the turns of the loop, applied on the
    machine of Instance.v. *)

From S2P Require Import Prelude Headers Outcome CMem CString Decimal Parser Machine Syscall Console Script Uring Command CommandSpec Init InitSpec Listing Process Memrun Shell System Frame Turn Session Boot Run PowerOn Instance Examples.

Lemma strlen_branches_agree_witness :
  strlen (Ptr (BLit "Command: ") 0) m0 = Ok (builtin_strlen "Command: ") m0 /\
  on_mem (nolibc_strlen (Ptr (BLit "Command: ") 0)) m0 = Ok (builtin_strlen "Command: ") m0.
Proof. exact (strlen_branches_agree "Command: " m0 ltac:(vm_compute; reflexivity)). Defined.

(** ** The world of the small kernel *)

(** At [sec] seconds. *)
Definition world_at (sec : Z) : world :=
  {| w_sec := sec; w_nsec := 5; w_total := 1000; w_free := 400; w_unit := 1;
     w_file _ := (file_fd, the_file, 0); w_dir _ := (dir_fd, the_dir); w_child := 42; w_pid := 42; w_status := 0 |}.

Lemma little_answers (ks : @kstate little_kernel) : ks_clone ks = 42 -> 0 <= ks_time ks < 2 ^ 63 ->
  answers (A := x86_64) 9 (world_at (ks_time ks)) ks.
Proof.
  intros Hc Ht. split.
  - split; [cbn; lia|]. split; [done|]. eexists. split_and!; [| |exact (clock_fills ks)]; reflexivity.
  - split; [done|]. split; [done|]. split; [done|].
    eexists. split_and!; [| | |exact (sysinfo_fills ks)]; reflexivity.
  - intros path. cbn. split; [done|]. split; [lia|]. apply open_the_file.
  - done.
  - intros path. cbn. split; [done|]. split; [lia|]. apply open_the_dir.
  - split; [done|]. split; [done|]. cbn. pose proof (little_clones ks) as H. rewrite Hc in H. by apply H.
  - intros m sh. by eexists.
Qed.

Lemma the_env_at m : m_objs m !! 8%positive = Some (OPtrs ((Some <$> the_vars ++ [Null]) ++ [])) ->
  env_at m line_obj the_env the_var_strings.
Proof.
  intros Hm. exists 8%positive, the_vars, []. split_and!; [done|by split|done|done|done|].
  repeat constructor; try (apply var_lit; [by apply (bool_decide_unpack _)|done]); by intros b i [= <- _].
Qed.

Lemma process_command_refines_witness :
  outputs (process_command 9 (Ptr (BVar line_obj) 0) 0 Null the_env) (lit ("hello, world" +:+ nl)) (with_line "cat /motd").
Proof.
  exact (process_command_refines 9 (world_at 1700000000) (with_line "cat /motd") line_obj 0 (lit "cat /motd") 0 Null the_env
    the_var_strings (little_answers (st_k (with_line "cat /motd")) eq_refl ltac:(done)) (line_statics _) ltac:(by split) eq_refl
    (line_cstr "cat /motd" _ 0 ltac:(vm_compute; reflexivity)) eq_refl (the_env_at (st_mem (with_line "cat /motd")) eq_refl)).
Defined.

(** ** A turn *)

(** The line "time" was read; the read of a signal is in flight. *)
Definition line_done : io_uring_cqe := Cqe EVENT_CONSOLE_READ 5.

Definition m_read : mach :=
  {| st_mem := fill_bytes the_mem line_obj (lit ("time" +:+ nl));
     st_shm := set_word (set_cqe fresh_shm (ring_base + 128) line_done) (cq_tail the_uring) 1;
     st_k := Kst [signal_entry 0] [] [] 42 [] 0 : @kstate little_kernel; st_trace := [] |}.

Definition read_ring : ring := post empty_ring line_done.

Lemma read_rings : rings_at the_uring 4 5 the_uring read_ring (st_shm m_read) (st_k m_read).
Proof.
  split_and!; [by exists 0, 0| |].
  - exact (post_rep the_uring 4 5 fresh_shm empty_ring the_layout fresh_rep line_done ltac:(done)).
  - exists [KLine], [KSignal]. split_and!; [by repeat constructor|by repeat constructor|by vm_compute].
Qed.

(** With operations outstanding io_uring_enter comes back with one. *)
Lemma little_comes_back u R (st : mach) : rings_at the_uring 4 5 u R (st_shm st) (st_k st) ->
  comes_back (K := little_kernel) (A := x86_64) 4 5 u R st.
Proof.
  intros ((a & b & ->) & _ & c & t & Hc & Ht & Hok) sh Hrep.
  assert (loop_ok (publish R) (ks_flight (st_k st))) as Hok1.
  { exists c, t. split_and!; [done| |done]. cbn. by rewrite app_nil_r. }
  destruct (kernel_enter (st_mem st) sh (tick (st_k st))) as [v m' sh' ks'|ks'] eqn:E.
  - exists v, m', sh', ks'. split; [exact E|].
    destruct (kernel_enter_ok _ _ _ _ _ _ _ _ _ _ E Hrep) as (Hv & R' & Hrep' & _ & Hne). split; [done|].
    specialize (Hne Hok1 eq_refl). pose proof (rr_chead _ _ _ _ _ Hrep') as H1.
    pose proof (rr_ctail _ _ _ _ _ Hrep') as H2. pose proof (rr_croom _ _ _ _ _ Hrep') as H3.
    cbn in H1, H2, H3. cbn. rewrite H1, H2. intros [= E'].
    pose proof (counter_diff (r_chead R') (Z.of_nat (length (completed R'))) ltac:(lia)) as D.
    rewrite <- E', Z.sub_diag in D. change (uwrap 32 0) with 0 in D.
    destruct (completed R'); [done|]. cbn in D. lia.
  - unfold kernel_enter in E. repeat case_match; done.
Qed.

Lemma read_comes_back : comes_back (K := little_kernel) (A := x86_64) 4 5 the_uring read_ring m_read.
Proof. apply little_comes_back, read_rings. Qed.

Lemma turn_serves_witness :
  exists u1 st1 R1 c0 cs, uring_wait the_uring 1 m_read = Ok u1 st1 /\
    rings_at the_uring 4 5 u1 R1 (st_shm st1) (st_k st1) /\
    completed R1 = c0 :: cs /\ [line_done] `prefix_of` completed R1 /\ r_chead R1 = 0 /\
    mem_upto [line_obj] (st_mem m_read) (st_mem st1) /\ stdout_of st1 = stdout_of m_read /\ calls st1 = [enter_call the_uring 0 1] /\
    (cqe_kind c0 = Some KSignal -> served 9 the_uring 4 5 the_uring 0 Null the_env R1 cs [signal_entry 0] [] m_read) /\
    (cqe_kind c0 = Some KPrompt -> 0 <= cqe_res c0 -> served 9 the_uring 4 5 the_uring 0 Null the_env R1 cs [] [] m_read) /\
    (forall out, cqe_kind c0 = Some KLine -> line_answered 9 c0 0 Null the_env out st1 ->
       served 9 the_uring 4 5 the_uring 0 Null the_env R1 cs [prompt_entry; line_entry] out m_read).
Proof.
  exact (turn_serves 9 the_uring 4 5 the_uring read_ring m_read 0 {["int" := 0]} 0 Null the_env the_layout
    ltac:(lia) ltac:(done) read_rings ltac:(split; [by eexists|done]) eq_refl eq_refl read_comes_back).
Defined.

(** ** A run of the program

    Three lines are typed: "time", "time" again and "exit". *)

Definition m_script : mach := the_machine [lit ("time" +:+ nl); lit ("time" +:+ nl); lit ("exit" +:+ nl)] 42.

(** Each is typed in a world of its own: the clock has moved. *)
Definition happened : list happening :=
  [Prompted; Typed (world_at 1700000002) (lit "time"); Prompted; Typed (world_at 1700000004) (lit "time");
   Prompted; Typed (world_at 1700000006) (lit "exit")].

Definition the_turn (u : uring_queue) : M uring_queue := event_step 9 u 0 Null the_env.

Section from.
Context (m : mach (K := little_kernel)) (start_up : stM (mach (K := little_kernel)) uring_queue).

(** The start-up and [n] turns. *)
Definition run_to (n : nat) : M uring_queue := u ← start_up; event_loop 9 n u 0 Null the_env.

(** The completion the next turn sees, with the line and the kernel. *)
Definition seen (n : nat) : option (io_uring_cqe * option obj * (Z * Z)) :=
  match (u ← run_to n; u ← uring_wait u 1; a ← on_shm (uring_result u); on_shm (load_cqe a)) m with
  | Ok c st => Some (c, m_objs (st_mem st) !! line_obj, (ks_clone (st_k st), ks_time (st_k st)))
  | Stop _ => None
  end.

Lemma event_loop_next n : forall u st u1 st1 u2 st2, event_loop 9 n u 0 Null the_env st = Ok u1 st1 ->
  the_turn u1 st1 = Ok u2 st2 -> event_loop 9 (S n) u 0 Null the_env st = Ok u2 st2.
Proof.
  induction n as [|n IH]; intros u st u1 st1 u2 st2 E Et.
  - injection E as -> ->. cbn. by rewrite (bind_ok _ _ _ _ _ Et).
  - apply bind_inv in E as (u3 & st3 & E3 & E). rewrite <- (IH _ _ _ _ _ _ E Et). exact (bind_ok _ _ _ _ _ E3).
Qed.

Lemma run_next n u st u' st' : run_to n m = Ok u st -> the_turn u st = Ok u' st' -> run_to (S n) m = Ok u' st'.
Proof.
  intros (u0 & st0 & E0 & E)%bind_inv Et. unfold run_to. rewrite (bind_ok _ _ _ _ _ E0). by eapply event_loop_next.
Qed.

Lemma run_sees n u st u1 st1 R1 c0 cs : run_to n m = Ok u st -> uring_wait u 1 st = Ok u1 st1 ->
  rings_at the_uring 4 5 u1 R1 (st_shm st1) (st_k st1) -> completed R1 = c0 :: cs ->
  seen n = Some (c0, m_objs (st_mem st1) !! line_obj, (ks_clone (st_k st1), ks_time (st_k st1))).
Proof.
  intros E Ew (Hu & Hrep & _) Hc. destruct (uring_result_spec u1 4 5 _ R1 (layout_handle _ _ _ the_layout u1 Hu) Hrep) as [Er El].
  rewrite Hc in Er. unfold seen. rewrite (bind_ok _ _ _ _ _ E), (bind_ok _ _ _ _ _ Ew).
  rewrite (bind_ok _ _ _ _ _ (on_shm_ok _ _ _ _ Er)). by rewrite (on_shm_ok _ (upd_shm _ st1) _ _ (El _ _ Hc)).
Qed.

(** What was seen tells of [h]. *)
Definition told (h : happening) (o : option (io_uring_cqe * option obj * (Z * Z))) : Prop :=
  match h, o with
  | Prompted, Some (c, _, _) => cqe_kind c = Some KPrompt /\ 0 <= cqe_res c
  | Typed w s, Some (c, line, (clone, sec)) => w = world_at sec /\ cqe_kind c = Some KLine /\ clone = 42 /\ 0 <= sec < 2 ^ 63 /\
      exists l, line = Some (OBytes l) /\ cqe_res c = Z.of_nat (length s) + 1 /\ take (length s + 1) l = s ++ [x0a] /\
        (x00 ∉ s) /\ Z.of_nat (length s) < 2 ^ 63
  | _, _ => False
  end.

Lemma told_attended hs : forall n u st, run_to n m = Ok u st ->
  (forall i h, hs !! i = Some h -> told h (seen (n + i))) -> attended 9 the_uring 4 5 0 Null the_env hs u st.
Proof.
  induction hs as [|h hs IH]; intros n u st E Hh; [done|]. split_and!.
  - intros R HR. by apply little_comes_back.
  - intros u1 st1 R1 c0 cs Ew HR1 Hc. specialize (Hh 0%nat h eq_refl).
    rewrite Nat.add_0_r, (run_sees _ _ _ _ _ _ _ _ E Ew HR1 Hc) in Hh. destruct h as [| | |w s]; try done.
    destruct Hh as (-> & Hk & Hclone & Hsec & Hl). split_and!; [done|exact Hl|by apply little_answers].
  - intros u' st' Et. apply (IH (S n)); [by eapply run_next|]. intros i h' Hi.
    specialize (Hh (S i) h' Hi). by rewrite <- Nat.add_succ_comm in Hh.
Qed.

End from.

(** What a turn sees of a line: the completion, the start of the buffer, and
    the kernel. *)
Definition seen_line (s : string) (sec : Z) (n : nat) : bool :=
  match seen m_script boot n with
  | Some (c, Some (OBytes l), ks) =>
      bool_decide ((cqe_user_data c, cqe_res c, take (length (lit s) + 1) l, ks) =
        (EVENT_CONSOLE_READ, Z.of_nat (length (lit s)) + 1, lit (s +:+ nl), (42, sec)))
  | _ => false
  end.

Lemma seen_line_told s sec n : seen_line s sec n = true -> lit (s +:+ nl) = lit s ++ [x0a] ->
  x00 ∉ lit s -> Z.of_nat (length (lit s)) < 2 ^ 63 -> 0 <= sec < 2 ^ 63 -> told (Typed (world_at sec) (lit s)) (seen m_script boot n).
Proof.
  unfold seen_line. intros H En H0 Hs Hsec. destruct (seen m_script boot n) as [[[c [[l| |]|]] ks]|]; try done.
  apply bool_decide_eq_true in H. injection H as Hu Hr Hl ->. unfold told.
  split_and!; [done|by unfold cqe_kind; rewrite Hu|done|lia|lia|]. exists l. split_and!; [done|done|by rewrite Hl|done|done].
Qed.

Lemma script_told i h : happened !! i = Some h -> told h (seen m_script boot i).
Proof.
  assert (seen_line "time" 1700000002 1 = true) as E1 by (vm_compute; reflexivity).
  assert (seen_line "time" 1700000004 3 = true) as E3 by (vm_compute; reflexivity).
  assert (seen_line "exit" 1700000006 5 = true) as E5 by (vm_compute; reflexivity).
  assert (told Prompted (seen m_script boot 0)) as H0 by (vm_compute; split; [reflexivity|discriminate]).
  assert (told Prompted (seen m_script boot 2)) as H2 by (vm_compute; split; [reflexivity|discriminate]).
  assert (told Prompted (seen m_script boot 4)) as H4 by (vm_compute; split; [reflexivity|discriminate]).
  assert (forall s sec n, seen_line s sec n = true -> lit (s +:+ nl) = lit s ++ [x0a] -> bool_decide (x00 ∉ lit s) = true ->
    (Z.of_nat (length (lit s)) <? 2 ^ 63) && (0 <=? sec) && (sec <? 2 ^ 63) = true ->
    told (Typed (world_at sec) (lit s)) (seen m_script boot n)) as Ht.
  { intros s sec n E En Hz%bool_decide_eq_true Hb. rewrite !andb_true_iff in Hb. apply seen_line_told; [done|done|done|lia|lia]. }
  destruct i as [|[|[|[|[|[|i]]]]]]; cbn [happened lookup list_lookup]; intros [= <-].
  - exact H0.
  - apply Ht; [exact E1|reflexivity..].
  - exact H2.
  - apply Ht; [exact E3|reflexivity..].
  - exact H4.
  - apply Ht; [exact E5|reflexivity..].
Qed.

Lemma the_env_own : env_own the_env 10 (st_mem m_script) the_var_strings.
Proof.
  exists 8%positive, the_vars, []. split_and!; [done| |done|done|].
  - split; [|done]. split; [done|]. by apply (bool_decide_unpack _).
  - assert (forall s, x00 ∉ lit s -> Z.of_nat (length (lit s)) < 2 ^ 63 -> exists b j, Ptr (BLit s) 0 = Ptr b (Z.of_nat j) /\
      match b with BVar n => foreign 10 n | BLit _ => True end /\ cstr (st_mem m_script) b j (lit s) /\
      Z.of_nat (length (lit s)) < 2 ^ 63) as Hv by (intros s H0 Hl; exists (BLit s), 0%nat; by split_and!; [..|apply cstr_lit|]).
    apply Forall2_cons_2; [by apply Hv; [apply (bool_decide_unpack _)|]|].
    apply Forall2_cons_2; [by apply Hv; [apply (bool_decide_unpack _)|]|]. done.
Qed.

Example boots : returns (boot m_script) = true.
Proof. vm_compute. reflexivity. Qed.

(** The first two lines are answered with the time, which goes on; the third
    switches off. *)
Lemma start_answers_witness :
  exists u st1 st' before e, boot m_script = Ok u st1 /\
    start 9 6 0 Null the_env m_script = Stop (Halted st') /\
    stdout_of st' = stdout_of st1 ++ lit ("Current Time: 1700000002 sec 5 nsec" +:+ nl +:+
      "Current Time: 1700000004 sec 5 nsec" +:+ nl) /\
    st_trace st' = before ++ [e] /\ ev_regs e = power_off.
Proof.
  pose proof boots as Hb. destruct (boot m_script) as [u st1|] eqn:E; [clear Hb|discriminate Hb].
  assert (run_to boot 0 m_script = Ok u st1) as E0 by (unfold run_to; by rewrite (bind_ok _ _ _ _ _ E)).
  destruct (start_answers 9 the_uring 4 5 10 0 Null the_env the_var_strings happened m_script u st1 the_layout the_sizes
    ltac:(lia) ltac:(done) (the_statics _ _) ltac:(split; [done|vm_compute; discriminate]) the_env_own E
    (told_attended m_script boot happened 0 u st1 E0 script_told)) as (st' & before & e & H).
  exists u, st1, st', before, e. split; [reflexivity|exact H].
Defined.

Lemma event_loop_frame_witness :
  match event_loop 9 4 the_uring 0 Null the_env m_read with
  | Ok _ st' | Stop (Halted st') => statics_ok st' /\
      forall i, (i < 10)%positive ->
        i ∉ [ltoa_buffer; line_obj; siginfo_obj; allsignals_obj; nosignals_memrun; nosignals_busybox] ->
        m_objs (st_mem st') !! i = m_objs (st_mem m_read) !! i
  | Stop _ => True
  end.
Proof. exact (event_loop_frame 9 4 the_uring 0 Null the_env m_read ltac:(split; [by eexists|done])). Defined.

(** ** The start-up *)

Lemma little_powers_up sh (ks : @kstate little_kernel) : sh_words sh = ∅ -> ks_flight ks = [] ->
  grants (boot_script the_uring) sh ks.
Proof.
  intros Hsh Hf. unfold boot_script, startup_script, setup_script, any_call, int_call, long_call. cbv zeta. cbn [grants].
  do 13 grant. intros ra ma (n & -> & _). eexists _, _, sh, _. split_and!.
  { cbn. unfold kernel_call. cbn. rewrite Hf. reflexivity. }
  { by vm_compute. }
  { intros n' fs f [= <-] Hfs Hfeat. unfold fill_struct in Hfs. cbn in Hfs. rewrite lookup_insert_eq in Hfs.
    injection Hfs as <-. vm_compute in Hfeat. injection Hfeat as <-. done. }
  intros rb mb ->. eexists _, mb, fresh_shm, _. split_and!.
  { cbn. unfold kernel_call. cbn. rewrite decide_True by done. reflexivity. }
  { by vm_compute. }
  { done. }
  intros rc mc ->. eexists _, mc, fresh_shm, _. split_and!.
  { cbn. unfold kernel_call. cbn. rewrite decide_True by done. reflexivity. }
  { by vm_compute. }
  { done. }
  do 2 grant. intros sh'. by grant.
Qed.

Lemma boot_returns_witness :
  exists u st' es, boot m_script = Ok u st' /\ st_trace st' = es /\ follows (boot_script the_uring) es /\
    exists R, rings_at the_uring 4 5 u R (st_shm st') (st_k st').
Proof.
  exact (boot_returns the_uring 4 5 m_script {["int" := 0]} the_layout the_sizes ltac:(lia) ltac:(done)
    (little_powers_up (st_shm m_script) (st_k m_script) eq_refl eq_refl) (the_statics _ _) eq_refl).
Defined.
