(* ===== verification/Options.v ===== *)
(** * kernel/dropbear_options.h: the options of the ssh server

    The file that is put in place of the options of Dropbear when the server is
    built: one macro per option, a number or a string.  What the options do is
    Dropbear's own code, which is not part of this repository; here are the
    options themselves, each defined once. *)

From S2P Require Import Prelude.

Open Scope string_scope.

(** The replacement of a macro. *)
Inductive setting : Type := Num (z : Z) | Text (s : string).

(** Where the server listens, and its key files. *)
Definition listening_options : list (string * setting) :=
  [("DROPBEAR_DEFPORT", Text "22"); ("DROPBEAR_DEFADDRESS", Text EmptyString);
   ("DSS_PRIV_FILENAME", Text "/etc/dropbear/dropbear_dss_host_key");
   ("RSA_PRIV_FILENAME", Text "/etc/dropbear/dropbear_rsa_host_key");
   ("ECDSA_PRIV_FILENAME", Text "/etc/dropbear/dropbear_ecdsa_host_key");
   ("ED25519_PRIV_FILENAME", Text "/etc/dropbear/dropbear_ed25519_host_key")].

(** How the server is built and run. *)
Definition mode_options : list (string * setting) :=
  [("NON_INETD_MODE", Num 1); ("INETD_MODE", Num 0); ("DROPBEAR_REEXEC", Num 1); ("DEBUG_TRACE", Num 0);
   ("DROPBEAR_SMALL_CODE", Num 0); ("DROPBEAR_X11FWD", Num 0); ("DROPBEAR_CLI_LOCALTCPFWD", Num 0);
   ("DROPBEAR_CLI_REMOTETCPFWD", Num 0); ("DROPBEAR_SVR_LOCALTCPFWD", Num 1);
   ("DROPBEAR_SVR_REMOTETCPFWD", Num 1)].

(** Forwarding of the agent, and the two options of multihop connections. *)
Definition forwarding_options : list (string * setting) :=
  [("DROPBEAR_SVR_AGENTFWD", Num 0); ("DROPBEAR_CLI_AGENTFWD", Num 0); ("DROPBEAR_CLI_PROXYCMD", Num 0);
   ("DROPBEAR_CLI_NETCAT", Num 0)].

(** Ciphers, modes and message authentication. *)
Definition algorithm_options : list (string * setting) :=
  [("DROPBEAR_USER_ALGO_LIST", Num 0); ("DROPBEAR_AES128", Num 1); ("DROPBEAR_AES256", Num 1);
   ("DROPBEAR_3DES", Num 0); ("DROPBEAR_CHACHA20POLY1305", Num 1); ("DROPBEAR_ENABLE_CTR_MODE", Num 1);
   ("DROPBEAR_ENABLE_CBC_MODE", Num 0); ("DROPBEAR_ENABLE_GCM_MODE", Num 0);
   ("DROPBEAR_SHA1_HMAC", Num 1); ("DROPBEAR_SHA2_256_HMAC", Num 1); ("DROPBEAR_SHA1_96_HMAC", Num 0)].

(** Kinds of host keys. *)
Definition key_options : list (string * setting) :=
  [("DROPBEAR_RSA", Num 1); ("DROPBEAR_DSS", Num 0); ("DROPBEAR_ECDSA", Num 1);
   ("DROPBEAR_ED25519", Num 1); ("DROPBEAR_SK_ECDSA", Num 1); ("DROPBEAR_SK_ED25519", Num 1);
   ("DROPBEAR_DEFAULT_RSA_SIZE", Num 2048); ("DROPBEAR_DELAY_HOSTKEY", Num 1)].

(** Key exchange. *)
Definition exchange_options : list (string * setting) :=
  [("DROPBEAR_DH_GROUP14_SHA1", Num 1); ("DROPBEAR_DH_GROUP14_SHA256", Num 1);
   ("DROPBEAR_DH_GROUP16", Num 0); ("DROPBEAR_CURVE25519", Num 1); ("DROPBEAR_ECDH", Num 1);
   ("DROPBEAR_DH_GROUP1", Num 0); ("DROPBEAR_DH_GROUP1_CLIENTONLY", Num 1)].

(** Compression, messages, and how clients authenticate. *)
Definition server_options : list (string * setting) :=
  [("DROPBEAR_ZLIB_WINDOW_BITS", Num 15); ("DO_HOST_LOOKUP", Num 0); ("DO_MOTD", Num 0);
   ("MOTD_FILENAME", Text EmptyString); ("DROPBEAR_SVR_PASSWORD_AUTH", Num 0);
   ("DROPBEAR_SVR_PAM_AUTH", Num 0); ("DROPBEAR_SVR_PUBKEY_AUTH", Num 1);
   ("DROPBEAR_SVR_PUBKEY_OPTIONS", Num 1); ("DROPBEAR_SVR_MULTIUSER", Num 1)].

(** Authentication of the client program. *)
Definition client_options : list (string * setting) :=
  [("DROPBEAR_CLI_PASSWORD_AUTH", Num 0); ("DROPBEAR_CLI_PUBKEY_AUTH", Num 0);
   ("DROPBEAR_DEFAULT_CLI_AUTHKEY", Text "~/.ssh/id_dropbear"); ("DROPBEAR_USE_PASSWORD_ENV", Num 0);
   ("DROPBEAR_CLI_ASKPASS_HELPER", Num 0); ("DROPBEAR_CLI_IMMEDIATE_AUTH", Num 0)].

(** The source of randomness. *)
Definition random_options : list (string * setting) :=
  [("DROPBEAR_USE_PRNGD", Num 0); ("DROPBEAR_PRNGD_SOCKET", Text "/var/run/dropbear-rng")].

(** Limits on connections that have not authenticated. *)
Definition limit_options : list (string * setting) :=
  [("MAX_UNAUTH_PER_IP", Num 5); ("MAX_UNAUTH_CLIENTS", Num 30); ("MAX_AUTH_TRIES", Num 10);
   ("UNAUTH_CLOSE_DELAY", Num 0); ("DROPBEAR_PIDFILE", Text "/var/run/dropbear.pid");
   ("XAUTH_COMMAND", Text "/usr/bin/xauth -q")].

(** Programs and files. *)
Definition path_options : list (string * setting) :=
  [("DROPBEAR_SFTPSERVER", Num 1); ("SFTPSERVER_PATH", Text "/usr/libexec/sftp-server");
   ("DROPBEAR_PATH_SSH_PROGRAM", Text "/usr/bin/dbclient"); ("LOG_COMMANDS", Num 0)].

(** Sizes, in bytes. *)
Definition window_options : list (string * setting) :=
  [("DEFAULT_RECV_WINDOW", Num 24576); ("RECV_MAX_PAYLOAD_LEN", Num 32768);
   ("TRANS_MAX_PAYLOAD_LEN", Num 16384)].

(** Timeouts, and the search paths. *)
Definition session_options : list (string * setting) :=
  [("DEFAULT_KEEPALIVE", Num 0); ("DEFAULT_KEEPALIVE_LIMIT", Num 3); ("DEFAULT_IDLE_TIMEOUT", Num 0);
   ("DEFAULT_PATH", Text "/usr/bin:/bin"); ("DEFAULT_ROOT_PATH", Text "/usr/sbin:/usr/bin:/sbin:/bin")].

Definition dropbear_options : list (string * setting) :=
  listening_options ++ mode_options ++ forwarding_options ++ algorithm_options ++ key_options ++
  exchange_options ++ server_options ++ client_options ++ random_options ++ limit_options ++
  path_options ++ window_options ++ session_options.

(** No option is defined twice. *)
Lemma options_once : NoDup dropbear_options.*1.
Proof. by apply (bool_decide_unpack _); vm_compute. Qed.
